(** * nntrainer: the Tensor engine and the softmax activation

    A shallow embedding of [src/tensor.cpp] (class [Tensor]: a flat
    [std::vector<float>] addressed through [batch], [height], [width]) and of
    the softmax entry points of [activation_layer.cpp], together with the
    properties the specification states about them.

    Conventions of the embedding.
    - C [int] and [unsigned int] values are [Z].  Signed overflow is
      undefined behaviour in the source, so index arithmetic is written
      without wrap-around and every theorem is about tensors whose sizes are
      the sizes of their buffers.
    - [float] is an abstract carrier [F] with the operations the source uses
      ([FloatOps]); no algebraic law is assumed of them, so every theorem
      stated for an arbitrary instance holds for IEEE arithmetic too.  Two
      instances are given: IEEE binary32 ([SpecFloat], executable) and the
      reals (the reference arithmetic of the specification).
    - [std::vector::operator[]] and raw pointer accesses are bounds-checked:
      an access outside the buffer yields [OutOfRange] instead of undefined
      behaviour.  A failed [assert] yields [DimensionMismatch].
    - [#ifdef USE_BLAS] is a [backend] argument. *)

From Stdlib Require Import ZArith Lia List Bool SpecFloat Reals Lra.
From Stdlib Require Strings.Byte.
From stdpp Require Import base list.
Import ListNotations.
Open Scope Z_scope.

(** ** Errors and the error monad *)

Inductive error : Type :=
| DimensionMismatch   (* a failed assert on the operands' shapes *)
| OutOfRange.         (* an access outside a buffer *)

Definition res (A : Type) : Type := error + A.

Definition ret {A} (a : A) : res A := inr a.

Definition bind {A B} (m : res A) (k : A -> res B) : res B :=
  match m with
  | inl e => inl e
  | inr a => k a
  end.

Notation "x <- m ;; k" := (bind m (fun x => k))
  (at level 100, m at next level, right associativity).

Definition assert_ (b : bool) : res unit :=
  if b then ret tt else inl DimensionMismatch.

(** Computations whose only failure is an access out of range. *)
Definition only_oor {A : Type} (m : res A) : Prop :=
  forall e, m = inl e -> e = OutOfRange.

(** Computations that, when they return, return a buffer of [n] cells. *)
Definition keeps {F : Type} (n : nat) (c : res (list F)) : Prop :=
  forall d, c = inr d -> length d = n.

(** ** Loops

    [loop step n i body s] runs [body] at [i], [i + step], ... ([n] times)
    and returns the final value of the loop variable with the state.
    [for (i = lo; i < hi; ++i)] is [for_lt lo hi]; no body of the source
    assigns its loop variable. *)

Fixpoint loop {S : Type} (step : Z) (n : nat) (i : Z)
    (body : Z -> S -> res S) (s : S) : res (Z * S) :=
  match n with
  | O => ret (i, s)
  | Datatypes.S n' => s' <- body i s ;; loop step n' (i + step) body s'
  end.

Definition for_lt {S : Type} (lo hi : Z) (body : Z -> S -> res S) (s : S)
    : res S :=
  r <- loop 1 (Z.to_nat (hi - lo)) lo body s ;; ret (snd r).

(** [for (i = 0; i < e4; i += 4)] where [e4] is a multiple of four: [e4 / 4]
    rounds, and [i] is live after the loop. *)
Definition for_by4 {S : Type} (e4 : Z) (body : Z -> S -> res S) (s : S)
    : res (Z * S) :=
  loop 4 (Z.to_nat (Z.quot e4 4)) 0 body s.

(** ** Buffers: [std::vector<float>] and [float *] with checked indexing *)

Section Buffer.
Context {F : Type}.

Definition rd (v : list F) (i : Z) : res F :=
  if i <? 0 then inl OutOfRange
  else match v !! Z.to_nat i with
       | Some x => ret x
       | None => inl OutOfRange
       end.

Definition wr (v : list F) (i : Z) (x : F) : res (list F) :=
  if (0 <=? i) && (i <? Z.of_nat (length v))
  then ret (<[Z.to_nat i := x]> v)
  else inl OutOfRange.

(** Total read, used in statements only. *)
Definition at_ (d : F) (v : list F) (i : Z) : F :=
  match v !! Z.to_nat i with
  | Some x => x
  | None => d
  end.

(** [repr v L h]: the buffer [v] has [L] cells and cell [i] holds [h i]. *)
Definition repr (v : list F) (L : Z) (h : Z -> F) : Prop :=
  Z.of_nat (length v) = L /\
  forall i, 0 <= i < L -> v !! Z.to_nat i = Some (h i).

Definition upd (h : Z -> F) (n : Z) (a : F) : Z -> F :=
  fun i => if i =? n then a else h i.

(** [f] below [n] and [g] from [n] on: a buffer being filled in index
    order. *)
Definition upto (f g : Z -> F) (n : Z) : Z -> F :=
  fun i => if i <? n then f i else g i.

(** The list [h 0; ...; h (n - 1)]. *)
Definition tab (h : Z -> F) (n : Z) : list F :=
  map (fun i => h (Z.of_nat i)) (seq 0 (Z.to_nat n)).

(** Left-to-right accumulation [((z + g 0) + g 1) + ...] over [n] terms, the
    order of the source's [+=] loops. *)
Definition accum (plus : F -> F -> F) (z : F) (g : Z -> F) (n : Z) : F :=
  fold_left (fun acc i => plus acc (g (Z.of_nat i))) (seq 0 (Z.to_nat n)) z.
End Buffer.

(** ** The operations on [float] the source uses *)

Class FloatOps (F : Type) : Type := {
  fzero : F;                 (* 0.0f, also what memset(.., 0, ..) leaves *)
  fone : F;                  (* 1.0f *)
  fadd : F -> F -> F;
  fsub : F -> F -> F;
  fmul : F -> F -> F;
  fdiv : F -> F -> F;
  fopp : F -> F;
  fabs : F -> F;
  fltb : F -> F -> bool;     (* operator< *)
  of_int : Z -> F            (* (float) n *)
}.

Class ExpOps (F : Type) : Type := { fexp : F -> F }.

(** [double] beside [float].  Where the source calls [exp] of the C library
    on a [float], the operand is promoted to [double] ([widen]), the
    arithmetic around the call is done in [double], and the assignment to a
    [float] converts back ([narrow]). *)
Class DoubleOps (F : Type) : Type := {
  double : Type;
  widen : F -> double;                  (* (double) x *)
  narrow : double -> F;                 (* (float) d *)
  dadd : double -> double -> double;
  ddiv : double -> double -> double;
  dexp : double -> double               (* double exp(double) *)
}.

Inductive backend : Type := Blas | Fallback.

(** ** BLAS kernels

    The accelerated path calls an external CBLAS.  The kernels are modelled
    by their reference semantics (unit strides, as the source calls them); a
    pointer argument [&v[o]] is the pair of the buffer [v] and the offset
    [o]. *)

Section Kernels.
Context {F : Type} `{FloatOps F}.

(** [memset(p, 0, sizeof(float) * n)] *)
Definition memset0 (v : list F) (n : Z) : res (list F) :=
  for_lt 0 n (fun i v => wr v i fzero) v.

(** [cblas_scopy(n, x + xo, 1, y + yo, 1)]: [y[i] = x[i]] *)
Definition cblas_scopy (n : Z) (x : list F) (xo : Z) (y : list F) (yo : Z)
    : res (list F) :=
  for_lt 0 n (fun i y => a <- rd x (xo + i) ;; wr y (yo + i) a) y.

(** [cblas_saxpy(n, alpha, x + xo, 1, y + yo, 1)]: [y[i] += alpha * x[i]] *)
Definition cblas_saxpy (n : Z) (alpha : F) (x : list F) (xo : Z)
    (y : list F) (yo : Z) : res (list F) :=
  for_lt 0 n
    (fun i y =>
       a <- rd x (xo + i) ;;
       b <- rd y (yo + i) ;;
       wr y (yo + i) (fadd b (fmul alpha a))) y.

(** [cblas_sasum(n, x + xo, 1)]: the sum of the absolute values *)
Definition cblas_sasum (n : Z) (x : list F) (xo : Z) : res F :=
  for_lt 0 n (fun i acc => a <- rd x (xo + i) ;; ret (fadd acc (fabs a)))
    fzero.

(** [cblas_sgemm(CblasRowMajor, CblasNoTrans, CblasNoTrans, M, N, K, alpha,
    A + ao, K, B + bo, N, beta, C + co, N)]:
    [C = alpha * A * B + beta * C] on row-major dense matrices. *)
Definition cblas_sgemm (M N K : Z) (alpha : F) (A : list F) (ao : Z)
    (B : list F) (bo : Z) (beta : F) (C : list F) (co : Z) : res (list F) :=
  for_lt 0 M
    (fun r C =>
       for_lt 0 N
         (fun c C =>
            ab <- for_lt 0 K
                    (fun l acc =>
                       a <- rd A (ao + r * K + l) ;;
                       b <- rd B (bo + l * N + c) ;;
                       ret (fadd acc (fmul a b))) fzero ;;
            old <- rd C (co + r * N + c) ;;
            wr C (co + r * N + c) (fadd (fmul alpha ab) (fmul beta old)))
         C) C.
End Kernels.
(** ** Class [Tensor] of [tensor.cpp] *)

Module Tensor.

Record t (F : Type) : Type := mk {
  batch : Z;
  height : Z;
  width : Z;
  dim : Z;
  len : Z;
  data : list F
}.
Arguments mk {F}.
Arguments batch {F}.
Arguments height {F}.
Arguments width {F}.
Arguments dim {F}.
Arguments len {F}.
Arguments data {F}.

Definition with_data {F} (x : t F) (d : list F) : t F :=
  mk (batch x) (height x) (width x) (dim x) (len x) d.

(** The class invariant the constructors establish: non-negative sizes,
    [len] their product and the buffer of [len] elements. *)
Definition wf {F} (x : t F) : Prop :=
  0 <= batch x /\ 0 <= height x /\ 0 <= width x /\
  len x = height x * width x * batch x /\
  Z.of_nat (length (data x)) = len x.

Section Ops.
Context {F : Type} `{FloatOps F}.

(** [Tensor::Tensor(int batch, int height, int width)]:
    [std::vector<float>(len)] then [setZero()]. *)
Definition Tensor3 (b h w : Z) : t F :=
  mk b h w 3 (h * w * b) (replicate (Z.to_nat (h * w * b)) fzero).

(** [Tensor::Tensor(std::vector<std::vector<std::vector<float>>> const &)] *)
Definition of_vector3 (d : list (list (list F))) : res (t F) :=
  _ <- assert_ (negb (Nat.eqb (length d) 0)) ;;
  d0 <- rd d 0 ;;
  _ <- assert_ (negb (Nat.eqb (length d0) 0)) ;;
  d00 <- rd d0 0 ;;
  let b := Z.of_nat (length d) in
  let h := Z.of_nat (length d0) in
  let w := Z.of_nat (length d00) in
  let r := mk b h w 3 (b * h * w) (replicate (Z.to_nat (b * h * w)) fzero) in
  v <- for_lt 0 b
         (fun i v =>
            for_lt 0 h
              (fun j v =>
                 for_lt 0 w
                   (fun k v =>
                      di <- rd d i ;;
                      dij <- rd di j ;;
                      x <- rd dij k ;;
                      (* setValue(i, j, k, x) *)
                      wr v (i * h * w + j * w + k) x) v) v) (data r) ;;
  ret (with_data r v).

(** [Tensor Tensor::multiply(float const &value)] *)
Definition multiply_f (bk : backend) (x : t F) (value : F) : res (t F) :=
  let result := Tensor3 (batch x) (height x) (width x) in
  match bk with
  | Blas =>
      d <- memset0 (data result) (len result) ;;
      d <- cblas_saxpy (len x) value (data x) 0 d 0 ;;
      ret (with_data result d)
  | Fallback =>
      d <- for_lt 0 (len x)
             (fun k d => a <- rd (data x) k ;; wr d k (fmul a value))
             (data result) ;;
      ret (with_data result d)
  end.

(** [Tensor Tensor::divide(float const &value)].  On the accelerated path
    [1.0 / value] is a double division narrowed to [float]; for binary32
    operands that equals the binary32 quotient. *)
Definition divide_f (bk : backend) (x : t F) (value : F) : res (t F) :=
  let result := Tensor3 (batch x) (height x) (width x) in
  match bk with
  | Blas =>
      d <- memset0 (data result) (len result) ;;
      d <- cblas_saxpy (len x) (fdiv fone value) (data x) 0 d 0 ;;
      ret (with_data result d)
  | Fallback =>
      d <- for_lt 0 (len x)
             (fun k d => a <- rd (data x) k ;; wr d k (fdiv a value))
             (data result) ;;
      ret (with_data result d)
  end.

(** [Tensor Tensor::add(float const &value)] *)
Definition add_f (bk : backend) (x : t F) (value : F) : res (t F) :=
  let result := Tensor3 (batch x) (height x) (width x) in
  match bk with
  | Blas =>
      d <- cblas_scopy (len x) (data x) 0 (data result) 0 ;;
      let tmp := Tensor3 (batch x) (height x) (width x) in
      td <- for_lt 0 (len tmp) (fun i td => wr td i fone) (data tmp) ;;
      d <- cblas_saxpy (len x) value td 0 d 0 ;;
      ret (with_data result d)
  | Fallback =>
      d <- for_lt 0 (batch x)
             (fun k d => a <- rd (data x) k ;; wr d k (fadd a value))
             (data result) ;;
      ret (with_data result d)
  end.

(** The shape of the three binary operations that share their loops:
    [Tensor::add(Tensor const &)], [Tensor::subtract] and (below) the
    unrolled [multiply] and [divide]. *)
Definition dims_assert (x m : t F) : res unit :=
  (* assert(height == m.height && width == m.width); *)
  assert_ ((height x =? height m) && (width x =? width m)).

(** [Tensor Tensor::add(Tensor const &m) const] *)
Definition add (bk : backend) (x m : t F) : res (t F) :=
  _ <- dims_assert x m ;;
  let result := Tensor3 (batch x) (height x) (width x) in
  match bk with
  | Blas =>
      d <- cblas_scopy (len x) (data x) 0 (data result) 0 ;;
      let size := width x * height x in
      if batch m =? 1 then
        d <- for_lt 0 (batch x)
               (fun k d => cblas_saxpy size fone (data m) 0 d (k * size))
               d ;;
        ret (with_data result d)
      else
        d <- cblas_saxpy (len x) fone (data m) 0 d 0 ;;
        ret (with_data result d)
  | Fallback =>
      if batch m =? 1 then
        d <- for_lt 0 (batch x)
               (fun k d =>
                  for_lt 0 (len m)
                    (fun i d =>
                       let j := k * len m in
                       a <- rd (data x) (j + i) ;;
                       b <- rd (data m) i ;;
                       wr d (j + i) (fadd a b)) d)
               (data result) ;;
        ret (with_data result d)
      else
        d <- for_lt 0 (len x)
               (fun k d =>
                  a <- rd (data x) k ;;
                  b <- rd (data m) k ;;
                  wr d k (fadd a b))
               (data result) ;;
        ret (with_data result d)
  end.

(** [Tensor Tensor::subtract(Tensor const &m) const] *)
Definition subtract (bk : backend) (x m : t F) : res (t F) :=
  _ <- dims_assert x m ;;
  let result := Tensor3 (batch x) (height x) (width x) in
  match bk with
  | Blas =>
      d <- cblas_scopy (len x) (data x) 0 (data result) 0 ;;
      let size := width x * height x in
      let alpha := fopp fone in
      if batch m =? 1 then
        d <- for_lt 0 (batch x)
               (fun k d => cblas_saxpy size alpha (data m) 0 d (k * size))
               d ;;
        ret (with_data result d)
      else
        _ <- assert_ (batch x =? batch m) ;;
        d <- cblas_saxpy (len x) alpha (data m) 0 d 0 ;;
        ret (with_data result d)
  | Fallback =>
      if batch m =? 1 then
        d <- for_lt 0 (batch x)
               (fun k d =>
                  for_lt 0 (len m)
                    (fun i d =>
                       let j := k * len m in
                       a <- rd (data x) (j + i) ;;
                       b <- rd (data m) i ;;
                       wr d (j + i) (fsub a b)) d)
               (data result) ;;
        ret (with_data result d)
      else
        d <- for_lt 0 (len x)
               (fun k d =>
                  a <- rd (data x) k ;;
                  b <- rd (data m) k ;;
                  wr d k (fsub a b))
               (data result) ;;
        ret (with_data result d)
  end.

(** One statement [result.data[ix] = this->data[ix] op m.data[im];] *)
Definition elem (op : F -> F -> F) (x m : t F) (ix im : Z) (d : list F)
    : res (list F) :=
  a <- rd (data x) ix ;;
  b <- rd (data m) im ;;
  wr d ix (op a b).

(** The body of the loops unrolled four times. *)
Definition elem4 (op : F -> F -> F) (x m : t F) (b i : Z) (d : list F)
    : res (list F) :=
  d <- elem op x m (b + i + 0) (i + 0) d ;;
  d <- elem op x m (b + i + 1) (i + 1) d ;;
  d <- elem op x m (b + i + 2) (i + 2) d ;;
  elem op x m (b + i + 3) (i + 3) d.

(** [Tensor Tensor::multiply(Tensor const &m) const] *)
Definition multiply (x m : t F) : res (t F) :=
  _ <- dims_assert x m ;;
  let result := Tensor3 (batch x) (height x) (width x) in
  let end_ := Z.quot (len x) 4 in
  let e := Z.quot (width x * height x) 4 in
  if batch m =? 1 then
    d <- for_lt 0 (batch x)
           (fun k d =>
              let b := k * width x * height x in
              r <- for_by4 (e * 4) (elem4 fmul x m b) d ;;
              let i := fst r in
              for_lt i (width x * height x)
                (fun j d => elem fmul x m (b + j) j d) (snd r))
           (data result) ;;
    ret (with_data result d)
  else
    r <- for_by4 (end_ * 4) (elem4 fmul x m 0) (data result) ;;
    let i := fst r in
    d <- for_lt i (len x) (fun j d => elem fmul x m j j d) (snd r) ;;
    ret (with_data result d).

(** [Tensor Tensor::divide(Tensor const &m) const]: as [multiply], but
    the remainder loops start at [i - 1]. *)
Definition divide (x m : t F) : res (t F) :=
  _ <- dims_assert x m ;;
  let result := Tensor3 (batch x) (height x) (width x) in
  let end_ := Z.quot (len x) 4 in
  let e := Z.quot (width x * height x) 4 in
  if batch m =? 1 then
    d <- for_lt 0 (batch x)
           (fun k d =>
              let b := k * width x * height x in
              r <- for_by4 (e * 4) (elem4 fdiv x m b) d ;;
              let i := fst r in
              for_lt (i - 1) (width x * height x)
                (fun j d => elem fdiv x m (b + j) j d) (snd r))
           (data result) ;;
    ret (with_data result d)
  else
    r <- for_by4 (end_ * 4) (elem4 fdiv x m 0) (data result) ;;
    let i := fst r in
    d <- for_lt (i - 1) (len x) (fun j d => elem fdiv x m j j d) (snd r) ;;
    ret (with_data result d).

(** [Tensor Tensor::sum() const]: "sum the Tensor data according to the
    batch. Therefore the result has M(batch, 1, 1) dimension." *)
Definition sum (bk : backend) (x : t F) : res (t F) :=
  let ret_ := Tensor3 (batch x) 1 1 in
  match bk with
  | Blas =>
      d <- for_lt 0 (batch x)
             (fun k d =>
                s <- cblas_sasum (width x * height x) (data x)
                       (k * width x * height x) ;;
                wr d k s)
             (data ret_) ;;
      ret (with_data ret_ d)
  | Fallback =>
      d <- for_lt 0 (batch x)
             (fun k d =>
                let id := k * width x * height x in
                d <- wr d id fzero ;;
                for_lt 0 (height x * width x)
                  (fun i d =>
                     acc <- rd d id ;;
                     a <- rd (data x) (id + i) ;;
                     wr d id (fadd acc a)) d)
             (data ret_) ;;
      ret (with_data ret_ d)
  end.

(** [Tensor Tensor::dot(Tensor const &m) const].  The accumulator [w] of
    the fallback loops is declared outside them and is part of the loop
    state. *)
Definition dot_loops (x m : t F) (mwidth : Z) (moff : Z -> Z)
    (d : list F) : res (F * list F) :=
  for_lt 0 (batch x)
    (fun k st =>
       for_lt 0 (height x)
         (fun i st =>
            for_lt 0 mwidth
              (fun j st =>
                 st <- for_lt 0 (width x)
                         (fun h (st : F * list F) =>
                            a <- rd (data x)
                                   (k * height x * width x + i * width x + h) ;;
                            b <- rd (data m) (moff k + h * mwidth + j) ;;
                            ret (fadd (fst st) (fmul a b), snd st)) st ;;
                 d <- wr (snd st)
                        (k * height x * mwidth + i * mwidth + j) (fst st) ;;
                 ret (fzero, d)) st) st)
    (fzero, d).

Definition dot (bk : backend) (x m : t F) : res (t F) :=
  _ <- assert_ (width x =? height m) ;;
  let mwidth := width m in
  let result := Tensor3 (batch x) (height x) mwidth in
  match bk with
  | Blas =>
      let alpha_dgemm := fone in
      let beta_dgemm := fone in
      if batch m =? 1 then
        d <- for_lt 0 (batch x)
               (fun k d =>
                  let i := k * width x * height x in
                  let ii := k * height x * mwidth in
                  cblas_sgemm (height x) mwidth (width x) alpha_dgemm
                    (data x) i (data m) 0 beta_dgemm d ii)
               (data result) ;;
        ret (with_data result d)
      else
        d <- for_lt 0 (batch x)
               (fun k d =>
                  let i := k * width x * height x in
                  let j := k * width m * height m in
                  let ii := k * height x * mwidth in
                  cblas_sgemm (height x) mwidth (width x) alpha_dgemm
                    (data x) i (data m) j beta_dgemm d ii)
               (data result) ;;
        ret (with_data result d)
  | Fallback =>
      if batch m =? 1 then
        st <- dot_loops x m mwidth (fun _ => 0) (data result) ;;
        ret (with_data result (snd st))
      else
        st <- dot_loops x m mwidth (fun k => k * width x * mwidth)
                (data result) ;;
        ret (with_data result (snd st))
  end.

(** [Tensor Tensor::average() const]: "calculates average value according
    to the batch direction. That is the why it has (1, height, width)
    dimension." *)
Definition average (x : t F) : res (t F) :=
  if batch x =? 1 then ret x
  else
    let result := Tensor3 1 (height x) (width x) in
    d <- for_lt 0 (height x)
           (fun i d =>
              for_lt 0 (width x)
                (fun j d =>
                   let ix := i * width x + j in
                   d <- wr d ix fzero ;;
                   d <- for_lt 0 (batch x)
                          (fun k d =>
                             acc <- rd d ix ;;
                             a <- rd (data x)
                                    (k * width x * height x + i * width x + j) ;;
                             wr d ix (fadd acc a)) d ;;
                   acc <- rd d ix ;;
                   wr d ix (fdiv acc (of_int (batch x)))) d)
           (data result) ;;
    ret (with_data result d).

(** [Tensor Tensor::softmax() const].  [exp] is [double exp(double)]: in
    [divisor.data[..] += exp(..)] the sum is taken in [double] and converted
    to [float] by the assignment, and so is the quotient
    [exp(..) / divisor.data[..]]. *)
Definition softmax `{DoubleOps F} (x : t F) : res (t F) :=
  let result := Tensor3 (batch x) (height x) (width x) in
  let divisor := Tensor3 (batch x) (height x) 1 in
  dv <- memset0 (data divisor) (len divisor) ;;
  dv <- for_lt 0 (batch x)
          (fun k dv =>
             let index := k * height x in
             for_lt 0 (height x)
               (fun i dv =>
                  for_lt 0 (width x)
                    (fun j dv =>
                       acc <- rd dv (index + i) ;;
                       a <- rd (data x)
                              (k * height x * width x + i * width x + j) ;;
                       wr dv (index + i)
                         (narrow (dadd (widen acc) (dexp (widen a))))) dv) dv)
          dv ;;
  d <- for_lt 0 (batch x)
         (fun k d =>
            let index := k * height x in
            for_lt 0 (height x)
              (fun i d =>
                 for_lt 0 (width x)
                   (fun j d =>
                      let id := k * height x * width x + i * width x + j in
                      a <- rd (data x) id ;;
                      s <- rd dv (index + i) ;;
                      wr d id (narrow (ddiv (dexp (widen a)) (widen s)))) d)
                 d)
         (data result) ;;
  ret (with_data result d).

(** *** The other members of the class *)

(** [Tensor::Tensor(int height, int width)] *)
Definition Tensor2 (h w : Z) : t F :=
  mk 1 h w 2 (h * w * 1) (replicate (Z.to_nat (h * w * 1)) fzero).

(** [float Tensor::getValue(int batch, int h, int w)] *)
Definition getValue (x : t F) (b h w : Z) : res F :=
  rd (data x) (b * height x * width x + h * width x + w).

(** [void Tensor::setValue(int batch, int h, int w, float value)] *)
Definition setValue (x : t F) (b h w : Z) (value : F) : res (t F) :=
  d <- wr (data x) (b * height x * width x + h * width x + w) value ;;
  ret (with_data x d).

(** [Tensor::Tensor(std::vector<std::vector<float>> const &d)] *)
Definition of_vector2 (d : list (list F)) : res (t F) :=
  _ <- assert_ (negb (Nat.eqb (length d) 0)) ;;
  d0 <- rd d 0 ;;
  let h := Z.of_nat (length d) in
  let w := Z.of_nat (length d0) in
  let r := mk 1 h w 2 (h * w * 1) (replicate (Z.to_nat (h * w * 1)) fzero) in
  r <- for_lt 0 h
         (fun j r =>
            for_lt 0 w
              (fun k r =>
                 dj <- rd d j ;;
                 x <- rd dj k ;;
                 setValue r 0 j k x) r) r ;;
  ret r.

(** [Tensor Tensor::transpose() const] *)
Definition transpose (x : t F) : res (t F) :=
  let result := Tensor3 (batch x) (width x) (height x) in
  d <- for_lt 0 (batch x)
         (fun k d =>
            let b := k * width x * height x in
            for_lt 0 (width x)
              (fun i d =>
                 for_lt 0 (height x)
                   (fun j d =>
                      a <- rd (data x) (b + j * width x + i) ;;
                      wr d (b + i * height x + j) a) d) d)
         (data result) ;;
  ret (with_data result d).

(** [Tensor Tensor::applyFunction(function) const], [function] being a
    pointer to a function from [float] to [float] *)
Definition applyFunction (function : F -> F) (x : t F) : res (t F) :=
  let result := Tensor3 (batch x) (height x) (width x) in
  d <- for_lt 0 (len x)
         (fun i d => a <- rd (data x) i ;; wr d i (function a))
         (data result) ;;
  ret (with_data result d).

(** [Tensor &Tensor::copy(const Tensor &from)].  [same] tells whether
    [from] is the object itself ([this == &from]); the shape is assigned,
    [len] and the buffer's size are not. *)
Definition copy (bk : backend) (same : bool) (x from : t F) : res (t F) :=
  if negb same && negb (len from =? 0) then
    let x1 :=
      mk (batch from) (height from) (width from) (dim x) (len x) (data x) in
    match bk with
    | Blas =>
        d <- cblas_scopy (len x1) (data from) 0 (data x1) 0 ;;
        ret (with_data x1 d)
    | Fallback =>
        d <- for_lt 0 (len x1)
               (fun i d => a <- rd (data from) i ;; wr d i a) (data x1) ;;
        ret (with_data x1 d)
    end
  else ret x.

(** [std::vector<float> Tensor::Mat2Vec()] *)
Definition Mat2Vec (x : t F) : res (list F) :=
  for_lt 0 (len x)
    (fun i ret_ => a <- rd (data x) i ;; ret (ret_ ++ [a])) [].

(** [void Tensor::setZero()] *)
Definition setZero (x : t F) : res (t F) :=
  d <- memset0 (data x) (len x) ;; ret (with_data x d).

(** [int Tensor::argmax()]; the loop state is [(index, maximum)]. *)
Definition argmax (x : t F) : res Z :=
  st <- for_lt 0 (len x)
          (fun i (st : Z * F) =>
             a <- rd (data x) i ;;
             if fltb (snd st) a then ret (i, a) else ret st)
          (0, fzero) ;;
  ret (fst st).

(** *** Vocabulary of the statements *)

(** Cell [i] of the buffer ([0.0f] outside it). *)
Definition get (x : t F) (i : Z) : F := at_ fzero (data x) i.

(** The cell of the right operand [m] that is combined with cell [idx] of
    the left operand [x]: [m] is replayed for every batch when its batch size
    is one. *)
Definition right_index (x m : t F) (idx : Z) : Z :=
  if batch m =? 1 then idx mod (height x * width x) else idx.

(** What one cell of [add] and [subtract] computes on each path: the
    accelerated path goes through [saxpy] with [alpha] 1 or -1. *)
Definition add_op (bk : backend) (a b : F) : F :=
  match bk with
  | Fallback => fadd a b
  | Blas => fadd a (fmul fone b)
  end.

Definition sub_op (bk : backend) (a b : F) : F :=
  match bk with
  | Fallback => fsub a b
  | Blas => fadd a (fmul (fopp fone) b)
  end.

Definition elementwise (op : F -> F -> F) (x m : t F) : t F :=
  with_data (Tensor3 (batch x) (height x) (width x))
    (tab (fun idx => op (get x idx) (get m (right_index x m idx))) (len x)).

(** The inner product the loops of [dot] accumulate for one cell: [row] is
    the first cell of the row of [x], [col] the column of [m] and [moff] the
    first cell of the matrix of [m]. *)
Definition dot_cell (x m : t F) (moff row col : Z) : F :=
  accum fadd fzero
    (fun h => fmul (get x (row + h)) (get m (moff + h * width m + col)))
    (width x).

(** What one cell of [dot] holds on each path: the accelerated path
    accumulates into the zeroed result with [alpha = beta = 1]. *)
Definition dot_op (bk : backend) (c : F) : F :=
  match bk with
  | Fallback => c
  | Blas => fadd (fmul fone c) (fmul fone fzero)
  end.

(** The value of cell [idx] of [dot]: cell [idx] is row [idx / width m] of
    the stacked rows, column [idx mod width m], in batch
    [idx / (height x * width m)]. *)
Definition dot_value (bk : backend) (x m : t F) (idx : Z) : F :=
  let k := idx / (height x * width m) in
  let moff := if batch m =? 1 then 0 else k * width x * width m in
  dot_op bk (dot_cell x m moff (idx / width m * width x) (idx mod width m)).

Definition dot_result (bk : backend) (x m : t F) : t F :=
  with_data (Tensor3 (batch x) (height x) (width m))
    (tab (dot_value bk x m) (height x * width m * batch x)).

(** The value of cell [idx] of [average]: the sum over the batches of the
    cells at position [idx], divided by the batch size. *)
Definition average_value (x : t F) (idx : Z) : F :=
  fdiv (accum fadd fzero (fun k => get x (k * width x * height x + idx))
          (batch x))
       (of_int (batch x)).

(** The mean of all the elements, which the specification gives as the
    result of [average()] without an axis. *)
Definition mean_all (x : t F) : F :=
  fdiv (accum fadd fzero (get x) (len x)) (of_int (len x)).

(** The cell of [x] that [transpose] moves to cell [idx] of its result:
    [idx] is row [i], column [j] of batch [k] of the result, with
    [idx = k * width * height + i * height + j], and the cell is row [j],
    column [i] of batch [k] of [x]. *)
Definition transpose_source (x : t F) (idx : Z) : Z :=
  let s := width x * height x in
  idx / s * s + (idx mod s) mod height x * width x + (idx mod s) / height x.

(** The state [(index, maximum)] of the loop of [argmax] after [j] rounds:
    either no element so far exceeded [0.0f] and the state is the initial
    one, or the state is a position and its element, some element up to that
    position exceeded [0.0f], and no later element so far exceeded the
    maximum. *)
Definition argmax_state (x : t F) (j : Z) (st : Z * F) : Prop :=
  (fst st = 0 /\ snd st = fzero /\
   forall i, 0 <= i < j -> fltb fzero (get x i) = false) \/
  (0 <= fst st < j /\ snd st = get x (fst st) /\
   (exists i, 0 <= i <= fst st /\ fltb fzero (get x i) = true) /\
   forall i, fst st < i < j -> fltb (get x (fst st)) (get x i) = false).

(** One step of [divisor += exp(a)] on a [float] divisor. *)
Definition add_exp `{DoubleOps F} (acc a : F) : F :=
  narrow (dadd (widen acc) (dexp (widen a))).

(** The divisor of the row that starts at cell [row] once [n] of its elements
    have been added, and the divisor of the whole row: the [float] sum of the
    exponentials of its [width] elements, from zero in their order. *)
Definition softmax_partial `{DoubleOps F} (x : t F) (row n : Z) : F :=
  accum add_exp fzero (fun j => get x (row + j)) n.

Definition softmax_divisor `{DoubleOps F} (x : t F) (row : Z) : F :=
  softmax_partial x row (width x).

Definition softmax_value `{DoubleOps F} (x : t F) (idx : Z) : F :=
  narrow (ddiv (dexp (widen (get x idx)))
            (widen (softmax_divisor x (idx / width x * width x)))).
End Ops.

(** Batch slice [k] of a tensor, as a tensor of batch size one: the cells
    [k * height * width .. (k + 1) * height * width - 1]. *)
Definition batch_slice {F} (x : t F) (k : Z) : t F :=
  let size := height x * width x in
  mk 1 (height x) (width x) 3 (height x * width x * 1)
    (take (Z.to_nat size) (drop (Z.to_nat (k * size)) (data x))).

(** Every matrix of [d] has [h] rows of [w] elements. *)
Definition rectangular {F} (d : list (list (list F))) (h w : nat) : Prop :=
  Forall (fun m => length m = h /\ Forall (fun row => length row = w) m) d.

(** *** Raw file input and output

    [file.write] is given the address of [data[i]] as a [char] pointer and
    [sizeof(float)]: it copies the four bytes of the object representation
    of [data[i]]; [FloatRepr] is that
    representation.  An [ofstream] is the bytes written so far; an [ifstream]
    is the bytes still to be read and its failure flag. *)

Class FloatRepr (F : Type) : Type := {
  float_bytes : F -> list Byte.byte;        (* the bytes at &x *)
  float_of_bytes : list Byte.byte -> F
}.

Definition sizeof_float : nat := 4.

Definition ofstream : Type := list Byte.byte.

Record ifstream : Type := mk_ifstream {
  pending : list Byte.byte;
  failbit : bool
}.

Section IO.
Context {F : Type} `{FloatRepr F}.

Definition ofstream_write (file : ofstream) (x : F) : ofstream :=
  file ++ float_bytes x.

(** [istream::read(p, n)]: once the stream has failed nothing is read; a
    short read stores the bytes that were available and sets the flag. *)
Definition ifstream_read (file : ifstream) (old : F) : ifstream * F :=
  if failbit file then (file, old)
  else if Nat.leb sizeof_float (length (pending file)) then
    (mk_ifstream (drop sizeof_float (pending file)) false,
     float_of_bytes (take sizeof_float (pending file)))
  else
    (mk_ifstream [] true,
     float_of_bytes
       (pending file ++ drop (length (pending file)) (float_bytes old))).

(** [void Tensor::save(std::ofstream &file)] *)
Definition save (x : t F) (file : ofstream) : res ofstream :=
  for_lt 0 (len x)
    (fun i file => a <- rd (data x) i ;; ret (ofstream_write file a)) file.

(** [void Tensor::read(std::ifstream &file)] *)
Definition read (x : t F) (file : ifstream) : res (t F * ifstream) :=
  st <- for_lt 0 (len x)
          (fun i (st : list F * ifstream) =>
             old <- rd (fst st) i ;;
             let r := ifstream_read (snd st) old in
             d <- wr (fst st) i (snd r) ;;
             ret (d, fst r))
          (data x, file) ;;
  ret (with_data x (fst st), snd st).

(** An element whose four bytes determine it. *)
Definition faithful (a : F) : Prop :=
  length (float_bytes a) = sizeof_float /\
  float_of_bytes (float_bytes a) = a.

(** The bytes of a buffer: its elements in order, nothing else. *)
Definition raw_bytes (v : list F) : list Byte.byte :=
  concat (map float_bytes v).
End IO.

End Tensor.

(** ** The four-axis [nntrainer::Tensor] of [tensor.h]

    [activation_layer.cpp] is written against the class declared in
    [tensor.h].  Its accessors are inline in the header; [tensor_dim.h] and
    the bodies of the other members it calls are not part of the sources. *)

Module TensorDim.

(** Modelled from the spec: [tensor_dim.h] is missing.  "ShapeDescriptor:
    four non-negative integers (batch, channel, height, width); derived
    length = batch·channel·height·width". *)
Record t : Type := mk {
  batch : Z;
  channel : Z;
  height : Z;
  width : Z
}.

Definition getDataLen (d : t) : Z := batch d * channel d * height d * width d.

(** The length of one sample: every axis but the batch. *)
Definition getFeatureLen (d : t) : Z := channel d * height d * width d.

(** [operator==] *)
Definition eqb (d e : t) : bool :=
  (batch d =? batch e) && (channel d =? channel e) &&
  (height d =? height e) && (width d =? width e).

End TensorDim.

Module NTensor.

(** The members of [nntrainer::Tensor] the modelled code reads: [dim] and the
    buffer behind [data] ([strides] and [is_contiguous] are not read by it).
    A null [data] is the empty buffer. *)
Record t (F : Type) : Type := mk {
  dim : TensorDim.t;
  data : list F
}.
Arguments mk {F}.
Arguments dim {F}.
Arguments data {F}.

Definition batch {F} (x : t F) : Z := TensorDim.batch (dim x).
Definition channel {F} (x : t F) : Z := TensorDim.channel (dim x).
Definition height {F} (x : t F) : Z := TensorDim.height (dim x).
Definition width {F} (x : t F) : Z := TensorDim.width (dim x).

(** [unsigned int length() const { return dim.getDataLen(); }] *)
Definition length {F} (x : t F) : Z := TensorDim.getDataLen (dim x).

(** [bool uninitialized() const { return length() == 0; }] *)
Definition uninitialized {F} (x : t F) : bool := length x =? 0.

Definition wf {F} (x : t F) : Prop :=
  0 <= batch x /\ 0 <= channel x /\ 0 <= height x /\ 0 <= width x /\
  Z.of_nat (Datatypes.length (data x)) = length x.

Section Ops.
Context {F : Type} `{FloatOps F}.

(** Modelled from the spec: the body of [Tensor(const TensorDim &d, const
    float *buf = nullptr)] is missing.  "a Tensor's buffer is allocated at
    construction", [buffer.length == shape.length]. *)
Definition Tensor_ (d : TensorDim.t) : t F :=
  mk d (replicate (Z.to_nat (TensorDim.getDataLen d)) fzero).

(** Modelled from the spec: the body of [clone()] is missing.  "the only
    operation guaranteed to produce an independent buffer copy". *)
Definition clone (x : t F) : t F := mk (dim x) (data x).

(** Modelled from the spec: the body of [setValue(float)] is missing.
    "Fill the Tensor elements with value" ([tensor.h]). *)
Definition setValue (x : t F) (value : F) : t F :=
  mk (dim x) (replicate (Datatypes.length (data x)) value).

(** [getIndex] over the row-major strides of the shape ("innermost axis
    (width) stride = 1") and [getValue], inline in [tensor.h]. *)
Definition getIndex (x : t F) (b c h w : Z) : Z :=
  b * (channel x * height x * width x) + c * (height x * width x) +
  h * width x + w * 1.

Definition getValue (x : t F) (b c h w : Z) : res F :=
  rd (data x) (getIndex x b c h w).

(** [unsigned int] arithmetic wraps around at [2 ^ 32]. *)
Definition uint (n : Z) : Z := n mod 2 ^ 32.

(** [float getValuePaddedVirtual(b, c, h, w, ph, pw, pad_value)], inline in
    [tensor.h]; [debug] tells whether the header is compiled with [DEBUG],
    where a range check precedes the access and throws
    [std::out_of_range]. *)
Definition getValuePaddedVirtual (debug : bool) (x : t F)
    (b c h w ph pw : Z) (pad_value : F) : res F :=
  let padded_h := uint (2 * ph + h) in
  let padded_w := uint (2 * pw + w) in
  if debug && (padded_h <? h) && (padded_w <? w) then inl OutOfRange
  else if (ph <=? h) && (h <? uint (ph + height x)) &&
          (pw <=? w) && (w <? uint (pw + width x))
  then getValue x b c (uint (h - ph)) (uint (w - pw))
  else ret pad_value.

(** Modelled from the spec: the body of [apply(f, output)] is missing.
    "map a scalar function elementwise", the output-parameter form
    "allocating it lazily if uninitialized". *)
Definition apply (f : F -> F) (x output : t F) : res (t F) :=
  let output := if uninitialized output then Tensor_ (dim x) else output in
  d <- for_lt 0 (length x)
         (fun i d => a <- rd (data x) i ;; wr d i (f a)) (data output) ;;
  ret (mk (dim output) d).

(** Modelled from the spec: the body of [sum_by_batch()] is missing.
    "reduces every non-batch axis, yielding a (batch,1,1,1) tensor". *)
Definition sum_by_batch (x : t F) : res (t F) :=
  let feat_len := TensorDim.getFeatureLen (dim x) in
  let ret_ := Tensor_ (TensorDim.mk (batch x) 1 1 1) in
  d <- for_lt 0 (batch x)
         (fun k d =>
            s <- for_lt 0 feat_len
                   (fun i acc =>
                      a <- rd (data x) (k * feat_len + i) ;;
                      ret (fadd acc a)) fzero ;;
            wr d k s) (data ret_) ;;
  ret (mk (dim ret_) d).
End Ops.

End NTensor.

(** ** [activation_layer.cpp] *)

(** The comparison [<=] on [float] and the library function [tanh], which
    the scalar activations use. *)
Class LeOps (F : Type) : Type := { fleb : F -> F -> bool }.

Class TanhOps (F : Type) : Type := { ftanh : F -> F }.

Module ActivationLayer.

Section Softmax.
Context {F : Type} `{FloatOps F} `{ExpOps F}.

(** Modelled from the spec: [saxpy] of [blas_interface.h] is missing.
    "scaled_add(n, alpha, x, y) computing y += alpha·x". *)
Definition saxpy (n : Z) (alpha : F) (x : list F) (xo : Z) (y : list F)
    (yo : Z) : res (list F) :=
  cblas_saxpy n alpha x xo y yo.

(** [std::max_element(p + first, p + last)]: the position of the first
    largest element, [last] for an empty range. *)
Definition max_element (p : list F) (first last : Z) : res Z :=
  if first =? last then ret last
  else
    for_lt (first + 1) last
      (fun i largest =>
         a <- rd p largest ;;
         b <- rd p i ;;
         ret (if fltb a b then i else largest)) first.

(** [Tensor &ActivationLayer::softmax(Tensor const &t, Tensor &output)]
    ([exp_util] of [util_func.h] is the exponential). *)
Definition softmax (x output : NTensor.t F) : res (NTensor.t F) :=
  let batch := NTensor.batch x in
  let divisor := NTensor.clone x in
  let feat_len := TensorDim.getFeatureLen (NTensor.dim x) in
  dp <- for_lt 0 batch
          (fun k dp =>
             let index := k * feat_len in
             (* find max and subtract it *)
             mi <- max_element dp index (index + feat_len) ;;
             m <- rd dp mi ;;
             let tmp :=
               NTensor.setValue
                 (NTensor.Tensor_ (TensorDim.mk 1 1 1 feat_len)) m in
             saxpy feat_len (fopp fone) (NTensor.data tmp) 0 dp index)
          (NTensor.data divisor) ;;
  (* take exp *)
  output <- NTensor.apply fexp (NTensor.mk (NTensor.dim divisor) dp) output ;;
  (* take sum over batch *)
  sum <- NTensor.sum_by_batch output ;;
  rp <- for_lt 0 batch
          (fun k rp =>
             let index := k * feat_len in
             s <- NTensor.getValue sum k 0 0 0 ;;
             (* std::transform(rp + index, rp + index + feat_len, ...) *)
             for_lt index (index + feat_len)
               (fun i rp => a <- rd rp i ;; wr rp i (fdiv a s)) rp)
          (NTensor.data output) ;;
  ret (NTensor.mk (NTensor.dim output) rp).

(** [Tensor &ActivationLayer::softmaxPrime(Tensor const &x, Tensor &output,
    Tensor const &derivative)].  [default_dim] is [TensorDim()], whose
    constructor is missing; [output] owns a buffer of its own. *)
Definition softmaxPrime (default_dim : TensorDim.t)
    (x output derivative : NTensor.t F) : res (NTensor.t F) :=
  let batch := NTensor.batch x in
  let channel := NTensor.channel x in
  let height := NTensor.height x in
  let width := NTensor.width x in
  let output :=
    if NTensor.uninitialized output then NTensor.Tensor_ (NTensor.dim x)
    else output in
  let xp := NTensor.data x in
  let d := NTensor.data derivative in
  let is_derivative :=
    negb (TensorDim.eqb (NTensor.dim derivative) default_dim) in
  pp <- for_lt 0 batch
          (fun k pp =>
             let K := k * channel * height * width in
             for_lt 0 channel
               (fun c pp =>
                  let C := K + c * height * width in
                  for_lt 0 height
                    (fun i pp =>
                       let I := C + i * width in
                       for_lt 0 width
                         (fun j pp =>
                            sum <- for_lt 0 width
                                     (fun l sum =>
                                        xl <- rd xp (I + l) ;;
                                        xj <- rd xp (I + j) ;;
                                        let val :=
                                          if j =? l
                                          then fmul xl (fsub fone xj)
                                          else fmul (fopp xl) xj in
                                        val <- (if is_derivative
                                                then dl <- rd d (I + l) ;;
                                                     ret (fmul val dl)
                                                else ret val) ;;
                                        ret (fadd sum val)) fzero ;;
                            wr pp (I + j) sum) pp) pp) pp)
          (NTensor.data output) ;;
  ret (NTensor.mk (NTensor.dim output) pp).

(** *** Vocabulary of the statements *)

(** The entry of row [j], column [l] of the Jacobian of the row of [xp] that
    starts at cell [I]. *)
Definition jacobian_entry (xp : list F) (I j l : Z) : F :=
  if j =? l
  then fmul (at_ fzero xp (I + l)) (fsub fone (at_ fzero xp (I + j)))
  else fmul (fopp (at_ fzero xp (I + l))) (at_ fzero xp (I + j)).




(** The position [std::max_element] returns for the block of [n] cells at
    [first]: the first largest element. *)
Definition max_pos (p : list F) (first n : Z) : Z :=
  accum (fun largest i =>
           if fltb (at_ fzero p largest) (at_ fzero p i) then i else largest)
    first (fun t => first + 1 + t) (n - 1).

Definition block_max (p : list F) (first n : Z) : F :=
  at_ fzero p (max_pos p first n).

(** Cell [idx] after the maximum of its batch row has been subtracted
    ([saxpy] with [alpha = -1]). *)
Definition shifted (x : NTensor.t F) (idx : Z) : F :=
  let feat_len := TensorDim.getFeatureLen (NTensor.dim x) in
  fadd (at_ fzero (NTensor.data x) idx)
    (fmul (fopp fone)
       (block_max (NTensor.data x) (idx / feat_len * feat_len) feat_len)).

(** The sum of the exponentials of the batch row that starts at [row]. *)
Definition row_sum (x : NTensor.t F) (row : Z) : F :=
  accum fadd fzero (fun i => fexp (shifted x (row + i)))
    (TensorDim.getFeatureLen (NTensor.dim x)).

Definition softmax_value (x : NTensor.t F) (idx : Z) : F :=
  let feat_len := TensorDim.getFeatureLen (NTensor.dim x) in
  fdiv (fexp (shifted x idx)) (row_sum x (idx / feat_len * feat_len)).
End Softmax.

(** *** The scalar activations *)

Section Scalar.
Context {F : Type} `{FloatOps F} `{ExpOps F} `{LeOps F} `{TanhOps F}.

(** [float ActivationLayer::sigmoid(float x)] *)
Definition sigmoid (x : F) : F := fdiv fone (fadd fone (fexp (fopp x))).

(** [float ActivationLayer::sigmoidPrime(float x)] *)
Definition sigmoidPrime (x : F) : F := fmul x (fsub fone x).

(** [float ActivationLayer::tanhFloat(float x)] *)
Definition tanhFloat (x : F) : F := ftanh x.

(** [float ActivationLayer::tanhPrime(float x)] *)
Definition tanhPrime (x : F) : F := fsub fone (fmul x x).

(** [float ActivationLayer::relu(float x)] *)
Definition relu (x : F) : F := if fleb x fzero then fzero else x.

(** [float ActivationLayer::reluPrime(float x)] *)
Definition reluPrime (x : F) : F := if fleb x fzero then fzero else fone.

(** [float ActivationLayer::no_op(float x)] *)
Definition no_op (x : F) : F := x.

(** [float ActivationLayer::no_op_prime(float x)] *)
Definition no_op_prime (x : F) : F := fone.
End Scalar.

End ActivationLayer.

(** ** Arithmetic instances *)

(** IEEE 754 binary32, the [float] of the source: 24 bits of precision,
    [emax = 128]; round to nearest even. *)
Definition prec32 : Z := 24.
Definition emax32 : Z := 128.

#[global] Instance binary32_ops : FloatOps spec_float := {|
  fzero := S754_zero false;
  fone := S754_finite false 8388608 (-23);
  fadd := SFadd prec32 emax32;
  fsub := SFsub prec32 emax32;
  fmul := SFmul prec32 emax32;
  fdiv := SFdiv prec32 emax32;
  fopp := SFopp;
  fabs := SFabs;
  fltb := SFltb;
  of_int := fun n => binary_normalize prec32 emax32 n 0 false
|}.

(** IEEE 754 binary64, the [double] of the source: 53 bits of precision,
    [emax = 1024]. *)
Definition prec64 : Z := 53.
Definition emax64 : Z := 1024.

(** [(float) d]: the binary32 value nearest to a [double], ties to even;
    beyond the range of binary32 it is an infinity. *)
Definition to_binary32 (d : spec_float) : spec_float :=
  match d with
  | S754_finite s m e => binary_round prec32 emax32 s m e
  | _ => d
  end.

(** [(double) x]: every binary32 value is a binary64 value. *)
Definition to_binary64 (x : spec_float) : spec_float :=
  match x with
  | S754_finite s m e => binary_round prec64 emax64 s m e
  | _ => x
  end.

(** binary64 beside binary32.  [exp] of the C library is not among the
    sources: [libm_exp] stands for it. *)
Definition binary64_ops (libm_exp : spec_float -> spec_float)
    : DoubleOps spec_float := {|
  double := spec_float;
  widen := to_binary64;
  narrow := to_binary32;
  dadd := SFadd prec64 emax64;
  ddiv := SFdiv prec64 emax64;
  dexp := libm_exp
|}.

(** A [double] that is neither an infinity nor a NaN. *)
Definition finite_double (d : spec_float) : bool :=
  match d with
  | S754_finite _ _ _ | S754_zero _ => true
  | _ => false
  end.

(** The binary32 value of an integer literal. *)
Definition f32 (n : Z) : spec_float := binary_normalize prec32 emax32 n 0 false.

(** The binary32 value [n / 2]. *)
Definition f32_half (n : Z) : spec_float :=
  binary_normalize prec32 emax32 n (-1) false.

(** Real arithmetic, the reference the specification measures rounding
    against. *)
#[global] Instance real_ops : FloatOps R := {|
  fzero := 0%R;
  fone := 1%R;
  fadd := Rplus;
  fsub := Rminus;
  fmul := Rmult;
  fdiv := Rdiv;
  fopp := Ropp;
  fabs := Rabs;
  fltb := fun a b => if Rlt_dec a b then true else false;
  of_int := IZR
|}.

#[global] Instance real_exp : ExpOps R := {| fexp := exp |}.

(** In real arithmetic [double] is [R] as well and the conversions change
    nothing. *)
#[global] Instance real_double : DoubleOps R := {|
  double := R;
  widen := fun x => x;
  narrow := fun d => d;
  dadd := Rplus;
  ddiv := Rdiv;
  dexp := exp
|}.

#[global] Instance real_le : LeOps R := {|
  fleb := fun a b => if Rle_dec a b then true else false
|}.

#[global] Instance real_tanh : TanhOps R := {| ftanh := tanh |}.

#[global] Instance binary32_le : LeOps spec_float := {| fleb := SFleb |}.

(** A 32-bit pattern stored least significant byte first, the object
    representation of a [float] on the little-endian targets of the
    project. *)
Definition byte_of_Z (n : Z) : Byte.byte :=
  match Strings.Byte.of_N (Z.to_N (Z.land n 255)) with
  | Some b => b
  | None => Byte.x00
  end.

Definition Z_of_byte (b : Byte.byte) : Z := Z.of_N (Strings.Byte.to_N b).

Definition le32_bytes (w : Z) : list Byte.byte :=
  [byte_of_Z w; byte_of_Z (Z.shiftr w 8); byte_of_Z (Z.shiftr w 16);
   byte_of_Z (Z.shiftr w 24)].

Definition le32_of_bytes (bs : list Byte.byte) : Z :=
  match bs with
  | [b0; b1; b2; b3] =>
      Z.lor (Z_of_byte b0)
        (Z.lor (Z.shiftl (Z_of_byte b1) 8)
           (Z.lor (Z.shiftl (Z_of_byte b2) 16) (Z.shiftl (Z_of_byte b3) 24)))
  | _ => 0
  end.

#[global] Instance le32_repr : Tensor.FloatRepr Z := {|
  Tensor.float_bytes := le32_bytes;
  Tensor.float_of_bytes := le32_of_bytes
|}.

(** ** Concrete tensors

    [t32 b h w l] is the binary32 tensor of shape [(b, h, w)] whose buffer
    holds the integers [l]; [tR] is its real counterpart. *)
Definition t32 (b h w : Z) (l : list Z) : Tensor.t spec_float :=
  Tensor.mk b h w 3 (h * w * b) (map f32 l).

Definition tR (b h w : Z) (l : list R) : Tensor.t R :=
  Tensor.mk b h w 3 (h * w * b) l.

(** The broadcasting rule as the specification words it, on the axes of the
    class: on every axis the sizes are equal or the other operand's is 1. *)
Definition spec_legal {F} (x m : Tensor.t F) : bool :=
  ((Tensor.batch x =? Tensor.batch m) || (Tensor.batch m =? 1)) &&
  ((Tensor.height x =? Tensor.height m) || (Tensor.height m =? 1)) &&
  ((Tensor.width x =? Tensor.width m) || (Tensor.width m =? 1)).

(** The scenario of the specification, [[1, 2, 3], [4, 5, 6]]: two samples
    of one row of three, built by the constructor from nested vectors. *)
Definition scenario : res (Tensor.t spec_float) :=
  Tensor.of_vector3 [[[f32 1; f32 2; f32 3]]; [[f32 4; f32 5; f32 6]]].

(** [exp] of the C library at the arguments of the examples: the binary64
    values nearest to [e^0] and to [e^100], which is 0x1.3494a9b171bf5p+144,
    beyond the largest binary32 value; the examples call it nowhere else. *)
Definition exp_examples (d : spec_float) : spec_float :=
  if SFeqb d (to_binary64 (f32 100))
  then S754_finite false 5428609335892981 92
  else if SFeqb d (S754_zero false)
       then S754_finite false 4503599627370496 (-52)
       else S754_nan.

(** A [float] exponential for the examples: [exp] taken in [double] and
    converted to [float]. *)
Definition exp32_examples : ExpOps spec_float := {|
  fexp := fun x => to_binary32 (exp_examples (to_binary64 x))
|}.

(** * Reasoning about loops and buffers *)

Ltac zcases :=
  repeat match goal with
         | |- context [Z.eqb ?a ?b] => destruct (Z.eqb_spec a b)
         | |- context [Z.ltb ?a ?b] => destruct (Z.ltb_spec a b)
         | |- context [Z.leb ?a ?b] => destruct (Z.leb_spec a b)
         end.

Lemma loop_inv {S : Type} (P : nat -> S -> Prop) (step : Z) (n : nat) (i : Z)
    (body : Z -> S -> res S) (s : S) :
  P O s ->
  (forall t s, (t < n)%nat -> P t s ->
     exists s', body (i + step * Z.of_nat t) s = inr s' /\ P (Datatypes.S t) s') ->
  exists s', loop step n i body s = inr (i + step * Z.of_nat n, s') /\ P n s'.
Proof.
  revert P i s. induction n as [|n IH]; intros P i s H0 Hstep.
  - exists s. split; [|exact H0]. simpl. unfold ret. do 2 f_equal. lia.
  - destruct (Hstep O s) as (s1 & Hb & H1); [lia | exact H0 |].
    replace (i + step * Z.of_nat 0) with i in Hb by lia.
    destruct (IH (fun t => P (Datatypes.S t)) (i + step) s1 H1) as (s' & Hl & Hn).
    + intros t s2 Ht HP.
      destruct (Hstep (Datatypes.S t) s2) as (s3 & Hb3 & H3); [lia | exact HP |].
      exists s3. split; [|exact H3].
      rewrite <- Hb3. f_equal. lia.
    + exists s'. split; [|exact Hn].
      simpl. rewrite Hb. simpl. rewrite Hl. do 2 f_equal. lia.
Qed.

Lemma for_lt_inv {S : Type} (P : Z -> S -> Prop) (lo hi : Z)
    (body : Z -> S -> res S) (s : S) :
  lo <= hi -> P lo s ->
  (forall j s, lo <= j < hi -> P j s ->
     exists s', body j s = inr s' /\ P (j + 1) s') ->
  exists s', for_lt lo hi body s = inr s' /\ P hi s'.
Proof.
  intros Hle H0 Hstep. unfold for_lt.
  destruct (loop_inv (fun t => P (lo + Z.of_nat t)) 1 (Z.to_nat (hi - lo)) lo body s)
    as (s' & Hl & Hn).
  - replace (lo + Z.of_nat 0) with lo by lia. exact H0.
  - intros t s1 Ht HP.
    destruct (Hstep (lo + Z.of_nat t) s1) as (s2 & Hb & H2); [lia | exact HP |].
    exists s2. split.
    + rewrite <- Hb. f_equal. lia.
    + replace (lo + Z.of_nat (Datatypes.S t)) with (lo + Z.of_nat t + 1) by lia.
      exact H2.
  - exists s'. rewrite Hl. split; [reflexivity|].
    replace hi with (lo + Z.of_nat (Z.to_nat (hi - lo))) by lia. exact Hn.
Qed.

Lemma for_lt_none {S : Type} (lo hi : Z) (body : Z -> S -> res S) (s : S) :
  hi <= lo -> for_lt lo hi body s = inr s.
Proof.
  intros Hle. unfold for_lt.
  replace (Z.to_nat (hi - lo)) with O by lia. reflexivity.
Qed.

Lemma for_lt_first_fails {S : Type} (lo hi : Z) (body : Z -> S -> res S)
    (s : S) (e : error) :
  lo < hi -> body lo s = inl e -> for_lt lo hi body s = inl e.
Proof.
  intros Hlt Hb. unfold for_lt.
  destruct (Z.to_nat (hi - lo)) as [|n] eqn:E; [lia|].
  simpl. rewrite Hb. reflexivity.
Qed.

Lemma for_by4_inv {S : Type} (P : Z -> S -> Prop) (e : Z)
    (body : Z -> S -> res S) (s : S) :
  0 <= e -> P 0 s ->
  (forall j s, 0 <= j < e -> P (4 * j) s ->
     exists s', body (4 * j) s = inr s' /\ P (4 * (j + 1)) s') ->
  exists s', for_by4 (e * 4) body s = inr (4 * e, s') /\ P (4 * e) s'.
Proof.
  intros He H0 Hstep. unfold for_by4.
  rewrite Z.quot_mul by lia.
  destruct (loop_inv (fun t => P (4 * Z.of_nat t)) 4 (Z.to_nat e) 0 body s)
    as (s' & Hl & Hn).
  - exact H0.
  - intros t s1 Ht HP.
    destruct (Hstep (Z.of_nat t) s1) as (s2 & Hb & H2); [lia | exact HP |].
    exists s2. split.
    + rewrite <- Hb. f_equal.
    + replace (4 * Z.of_nat (Datatypes.S t)) with (4 * (Z.of_nat t + 1)) by lia.
      exact H2.
  - exists s'. rewrite Hl. split.
    + do 2 f_equal. lia.
    + replace (4 * e) with (4 * Z.of_nat (Z.to_nat e)) by lia. exact Hn.
Qed.

(** A loop fails when one of its rounds fails in every state the earlier
    rounds can leave. *)
Lemma loop_fails_at {S : Type} (P : S -> Prop) (step : Z) (n : nat) (i : Z)
    (body : Z -> S -> res S) (s : S) (t : nat) :
  P s ->
  (forall i s s', P s -> body i s = inr s' -> P s') ->
  (t < n)%nat ->
  (forall s, P s -> exists e, body (i + step * Z.of_nat t) s = inl e) ->
  exists e, loop step n i body s = inl e.
Proof.
  intros HP Hpres. revert i s t HP.
  induction n as [|n IH]; intros i s t HP Ht Hfail; [lia|].
  simpl. destruct (body i s) as [e|s'] eqn:Hb.
  - exists e. reflexivity.
  - cbn [bind]. destruct t as [|t].
    + destruct (Hfail s HP) as [e He].
      replace (i + step * Z.of_nat 0) with i in He by lia. congruence.
    + apply (IH (i + step) s' t); [eapply Hpres; eassumption|lia|].
      intros s0 HP0. destruct (Hfail s0 HP0) as [e He]. exists e.
      rewrite <- He. f_equal. lia.
Qed.

Lemma for_lt_fails_at {S : Type} (P : S -> Prop) (lo hi : Z)
    (body : Z -> S -> res S) (s : S) (j : Z) :
  P s ->
  (forall i s s', P s -> body i s = inr s' -> P s') ->
  lo <= j < hi -> (forall s, P s -> exists e, body j s = inl e) ->
  exists e, for_lt lo hi body s = inl e.
Proof.
  intros HP Hpres Hj Hfail. unfold for_lt.
  destruct (loop_fails_at P 1 (Z.to_nat (hi - lo)) lo body s (Z.to_nat (j - lo)))
    as [e He].
  - exact HP.
  - exact Hpres.
  - lia.
  - replace (lo + 1 * Z.of_nat (Z.to_nat (j - lo))) with j by lia. exact Hfail.
  - exists e. rewrite He. reflexivity.
Qed.

Lemma loop_preserves {S : Type} (P : S -> Prop) step n i
    (body : Z -> S -> res S) s r :
  (forall i s s', P s -> body i s = inr s' -> P s') ->
  P s -> loop step n i body s = inr r -> P (snd r).
Proof.
  intros Hpres. revert i s. induction n as [|n IH]; intros i s HP Hr.
  - simpl in Hr. injection Hr as <-. exact HP.
  - simpl in Hr. destruct (body i s) as [e|s'] eqn:Hb; [discriminate|].
    cbn [bind] in Hr. eapply IH; [|exact Hr]. eapply Hpres; eassumption.
Qed.

Lemma for_lt_preserves {S : Type} (P : S -> Prop) lo hi
    (body : Z -> S -> res S) s s' :
  (forall i s s', P s -> body i s = inr s' -> P s') ->
  P s -> for_lt lo hi body s = inr s' -> P s'.
Proof.
  intros Hpres HP Hr. unfold for_lt in Hr.
  destruct (loop 1 (Z.to_nat (hi - lo)) lo body s) as [e|r] eqn:Hl;
    [discriminate|].
  cbn [bind ret] in Hr. injection Hr as <-.
  eapply loop_preserves; eassumption.
Qed.

Lemma wr_length {F : Type} (v v' : list F) i a :
  wr v i a = inr v' -> length v' = length v.
Proof.
  unfold wr. destruct ((0 <=? i) && (i <? Z.of_nat (length v)));
    [|discriminate].
  intros Hw. injection Hw as <-. apply length_insert.
Qed.

Lemma only_oor_ret {A : Type} (a : A) : only_oor (ret a).
Proof. intros e He. discriminate. Qed.

Lemma only_oor_bind {A B : Type} (m : res A) (k : A -> res B) :
  only_oor m -> (forall a, only_oor (k a)) -> only_oor (bind m k).
Proof.
  intros Hm Hk e He. destruct m as [e'|a]; cbn [bind] in He.
  - apply Hm. congruence.
  - apply (Hk a). exact He.
Qed.

Lemma only_oor_rd {F : Type} (v : list F) i : only_oor (rd v i).
Proof.
  intros e He. unfold rd in He.
  destruct (i <? 0); [congruence|]. destruct (v !! Z.to_nat i); [discriminate|congruence].
Qed.

Lemma only_oor_wr {F : Type} (v : list F) i a : only_oor (wr v i a).
Proof.
  intros e He. unfold wr in He.
  destruct ((0 <=? i) && (i <? Z.of_nat (length v))); [discriminate|congruence].
Qed.

Lemma only_oor_loop {S : Type} step n i (body : Z -> S -> res S) s :
  (forall i s, only_oor (body i s)) -> only_oor (loop step n i body s).
Proof.
  intros Hbody. revert i s. induction n as [|n IH]; intros i s.
  - apply only_oor_ret.
  - simpl. apply only_oor_bind; [apply Hbody|]. intros a. apply IH.
Qed.

Lemma only_oor_for_lt {S : Type} lo hi (body : Z -> S -> res S) s :
  (forall i s, only_oor (body i s)) -> only_oor (for_lt lo hi body s).
Proof.
  intros Hbody. unfold for_lt. apply only_oor_bind.
  - apply only_oor_loop. exact Hbody.
  - intros a. apply only_oor_ret.
Qed.

Section BufferFacts.
Context {F : Type}.
Implicit Types (v : list F) (h : Z -> F).

Lemma length_tab h n : length (tab h n) = Z.to_nat n.
Proof. unfold tab. rewrite length_map, length_seq. reflexivity. Qed.

Lemma lookup_tab h n i :
  0 <= i < n -> tab h n !! Z.to_nat i = Some (h i).
Proof.
  intros Hi. unfold tab. rewrite list_lookup_fmap.
  rewrite lookup_seq_lt by lia. simpl. f_equal. f_equal. lia.
Qed.

Lemma repr_tab h n : 0 <= n -> repr (tab h n) n h.
Proof.
  intros Hn. split.
  - rewrite length_tab. lia.
  - intros i Hi. apply lookup_tab. exact Hi.
Qed.

Lemma repr_eq v L h : repr v L h -> v = tab h L.
Proof.
  intros [Hlen Hv]. apply list_eq. intros i.
  destruct (decide (i < length v)%nat) as [Hlt|Hge].
  - replace i with (Z.to_nat (Z.of_nat i)) by lia.
    rewrite Hv by lia. rewrite lookup_tab by lia. reflexivity.
  - rewrite (lookup_ge_None_2 v) by lia.
    rewrite lookup_ge_None_2; [reflexivity|]. rewrite length_tab. lia.
Qed.

Lemma repr_ext v L h h' :
  repr v L h -> (forall i, 0 <= i < L -> h i = h' i) -> repr v L h'.
Proof.
  intros [Hlen Hv] Hext. split; [exact Hlen|].
  intros i Hi. rewrite Hv by exact Hi. f_equal. apply Hext. exact Hi.
Qed.

Lemma repr_self (d : F) v : repr v (Z.of_nat (length v)) (at_ d v).
Proof.
  split; [reflexivity|]. intros i Hi. unfold at_.
  destruct (v !! Z.to_nat i) eqn:E; [reflexivity|].
  apply lookup_ge_None_1 in E. lia.
Qed.

Lemma repr_replicate (z : F) L :
  0 <= L -> repr (replicate (Z.to_nat L) z) L (fun _ => z).
Proof.
  intros HL. split.
  - rewrite length_replicate. lia.
  - intros i Hi. apply lookup_replicate_2. lia.
Qed.

Lemma repr_rd v L h i : repr v L h -> 0 <= i < L -> rd v i = inr (h i).
Proof.
  intros [Hlen Hv] Hi. unfold rd.
  destruct (Z.ltb_spec i 0); [lia|]. rewrite Hv by exact Hi. reflexivity.
Qed.

Lemma repr_wr v L h i a :
  repr v L h -> 0 <= i < L ->
  exists v', wr v i a = inr v' /\ repr v' L (upd h i a).
Proof.
  intros [Hlen Hv] Hi. exists (<[Z.to_nat i := a]> v). split.
  - unfold wr.
    destruct (Z.leb_spec 0 i); [|lia].
    destruct (Z.ltb_spec i (Z.of_nat (length v))); [|lia]. reflexivity.
  - split.
    + rewrite length_insert. exact Hlen.
    + intros j Hj. unfold upd. destruct (Z.eqb_spec j i) as [->|Hne].
      * apply list_lookup_insert_eq. lia.
      * rewrite list_lookup_insert_ne by lia. apply Hv. exact Hj.
Qed.

Lemma rd_oob v i :
  i < 0 \/ Z.of_nat (length v) <= i -> rd v i = inl OutOfRange.
Proof.
  intros Hi. unfold rd. destruct (Z.ltb_spec i 0); [reflexivity|].
  rewrite lookup_ge_None_2 by lia. reflexivity.
Qed.

Lemma wr_oob v i a :
  i < 0 \/ Z.of_nat (length v) <= i -> wr v i a = inl OutOfRange.
Proof.
  intros Hi. unfold wr.
  destruct (Z.leb_spec 0 i); destruct (Z.ltb_spec i (Z.of_nat (length v)));
    simpl; try reflexivity; lia.
Qed.

Lemma repr_upto_0 v L f g n :
  n <= 0 -> repr v L g -> repr v L (upto f g n).
Proof.
  intros Hn Hv. eapply repr_ext; [exact Hv|].
  intros i Hi. unfold upto. zcases; [lia|reflexivity].
Qed.

Lemma repr_upto_all v L f g n :
  L <= n -> repr v L (upto f g n) -> repr v L f.
Proof.
  intros Hn Hv. eapply repr_ext; [exact Hv|].
  intros i Hi. unfold upto. zcases; [reflexivity|lia].
Qed.

Lemma repr_upto_rd_lo v L f g n i :
  repr v L (upto f g n) -> 0 <= i < L -> i < n -> rd v i = inr (f i).
Proof.
  intros Hv Hi Hn. rewrite (repr_rd _ _ _ _ Hv Hi). unfold upto.
  zcases; [reflexivity|lia].
Qed.

Lemma repr_upto_rd_hi v L f g n i :
  repr v L (upto f g n) -> 0 <= i < L -> n <= i -> rd v i = inr (g i).
Proof.
  intros Hv Hi Hn. rewrite (repr_rd _ _ _ _ Hv Hi). unfold upto.
  zcases; [lia|reflexivity].
Qed.

Lemma repr_upto_wr v L f g n a :
  repr v L (upto f g n) -> 0 <= n < L -> a = f n ->
  exists v', wr v n a = inr v' /\ repr v' L (upto f g (n + 1)).
Proof.
  intros Hv Hn ->. destruct (repr_wr v L _ n (f n) Hv Hn) as (v' & Hw & Hv').
  exists v'. split; [exact Hw|]. eapply repr_ext; [exact Hv'|].
  intros i Hi. unfold upd, upto. zcases; try lia; try reflexivity.
  subst; reflexivity.
Qed.

(** A loop whose round [k] fills the block of [s] cells at [base + k * s]. *)
Lemma fill_blocks {S : Type} (buf : S -> list F) (ok : S -> Prop)
    (body : Z -> S -> res S) (f g : Z -> F) (L base b s : Z) (st0 : S) :
  0 <= b ->
  ok st0 -> repr (buf st0) L (upto f g base) ->
  (forall k st, 0 <= k < b -> ok st ->
     repr (buf st) L (upto f g (base + k * s)) ->
     exists st', body k st = inr st' /\ ok st' /\
                 repr (buf st') L (upto f g (base + (k + 1) * s))) ->
  exists st', for_lt 0 b body st0 = inr st' /\ ok st' /\
              repr (buf st') L (upto f g (base + b * s)).
Proof.
  intros Hb Hok H0 Hstep.
  destruct (for_lt_inv
              (fun k st => ok st /\ repr (buf st) L (upto f g (base + k * s)))
              0 b body st0) as (st' & Hr & Hok' & Hst').
  - exact Hb.
  - split; [exact Hok|]. replace (base + 0 * s) with base by lia. exact H0.
  - intros k st Hk [Hok1 Hst].
    destruct (Hstep k st Hk Hok1 Hst) as (st' & Hb' & Hok' & Hst').
    exists st'. auto.
  - exists st'. auto.
Qed.

(** An accumulation loop returns the left-to-right sum. *)
Lemma accum_succ (plus : F -> F -> F) z (g : Z -> F) n :
  0 <= n -> accum plus z g (n + 1) = plus (accum plus z g n) (g n).
Proof.
  intros Hn. unfold accum.
  replace (Z.to_nat (n + 1)) with (Z.to_nat n + 1)%nat by lia.
  rewrite seq_app, fold_left_app. simpl. do 2 f_equal. lia.
Qed.

Lemma accum_0 (plus : F -> F -> F) z (g : Z -> F) n :
  n <= 0 -> accum plus z g n = z.
Proof.
  intros Hn. unfold accum. replace (Z.to_nat n) with O by lia. reflexivity.
Qed.

Lemma accum_ext (plus : F -> F -> F) z (g g' : Z -> F) n :
  (forall i, 0 <= i < n -> g i = g' i) ->
  accum plus z g n = accum plus z g' n.
Proof.
  intros Hext. destruct (Z.le_gt_cases n 0) as [Hn|Hn].
  - rewrite !accum_0 by exact Hn. reflexivity.
  - rewrite <- (Z2Nat.id n) in Hext |- * by lia.
    induction (Z.to_nat n) as [|m IH].
    + reflexivity.
    + replace (Z.of_nat (Datatypes.S m)) with (Z.of_nat m + 1) in * by lia.
      rewrite !accum_succ by lia. rewrite IH.
      * f_equal. apply Hext. lia.
      * intros i Hi. apply Hext. lia.
Qed.

Lemma accum_ind (plus : F -> F -> F) (z : F) (g : Z -> F)
    (P : Z -> F -> Prop) :
  P 0 z ->
  (forall n a, 0 <= n -> P n a -> P (n + 1) (plus a (g n))) ->
  forall n, 0 <= n -> P n (accum plus z g n).
Proof.
  intros H0 Hstep n Hn. rewrite <- (Z2Nat.id n) by exact Hn.
  induction (Z.to_nat n) as [|m IH].
  - rewrite accum_0 by lia. exact H0.
  - replace (Z.of_nat (Datatypes.S m)) with (Z.of_nat m + 1) by lia.
    rewrite accum_succ by lia. apply Hstep; [lia|exact IH].
Qed.

Lemma accum_loop (plus : F -> F -> F) (g : Z -> F) (n : Z) (z : F)
    (body : Z -> F -> res F) :
  (forall i acc, 0 <= i < n -> body i acc = inr (plus acc (g i))) ->
  for_lt 0 n body z = inr (accum plus z g n).
Proof.
  intros Hbody. destruct (Z.le_gt_cases n 0) as [Hn|Hn].
  - rewrite for_lt_none by exact Hn. rewrite accum_0 by exact Hn. reflexivity.
  - destruct (for_lt_inv (fun j acc => acc = accum plus z g j) 0 n body z)
      as (r & Hr & ->).
    + lia.
    + rewrite accum_0 by lia. reflexivity.
    + intros j acc Hj ->. eexists. split; [apply Hbody; exact Hj|].
      rewrite accum_succ by lia. reflexivity.
    + exact Hr.
Qed.
Lemma repr_at (d : F) v L h i : repr v L h -> 0 <= i < L -> at_ d v i = h i.
Proof.
  intros [_ Hv] Hi. unfold at_. rewrite Hv by exact Hi. reflexivity.
Qed.

Lemma tab_ext h h' n :
  (forall i, 0 <= i < n -> h i = h' i) -> tab h n = tab h' n.
Proof.
  intros Hext. destruct (Z.le_gt_cases 0 n) as [Hn|Hn].
  - apply repr_eq. eapply repr_ext; [apply repr_tab; exact Hn|exact Hext].
  - unfold tab. replace (Z.to_nat n) with O by lia. reflexivity.
Qed.

Lemma repr_block v L h o s :
  repr v L h -> 0 <= o -> 0 <= s -> o + s <= L ->
  repr (take (Z.to_nat s) (drop (Z.to_nat o) v)) s (fun i => h (o + i)).
Proof.
  intros [Hlen Hv] Ho Hs HL. split.
  - rewrite length_take, length_drop. lia.
  - intros i Hi. rewrite lookup_take_lt by lia. rewrite lookup_drop.
    replace (Z.to_nat o + Z.to_nat i)%nat with (Z.to_nat (o + i)) by lia.
    apply Hv. lia.
Qed.
End BufferFacts.

Section AccumCell.
Context {F : Type}.

(** A cell of a buffer used as the accumulator of a loop: the cell [n] is
    read, combined with [term k] and written back, [count] times. *)
Lemma accum_cell (plus : F -> F -> F) (term : Z -> F) (d : list F) L h n z
    count (body : Z -> list F -> res (list F)) :
  repr d L (upd h n z) -> 0 <= n < L ->
  (forall k d acc, 0 <= k < count -> repr d L (upd h n acc) ->
     exists d', body k d = inr d' /\ repr d' L (upd h n (plus acc (term k)))) ->
  exists d', for_lt 0 count body d = inr d' /\
             repr d' L (upd h n (accum plus z term count)).
Proof.
  intros Hd Hn Hbody. destruct (Z.le_gt_cases count 0) as [Hc|Hc].
  - exists d. rewrite for_lt_none by lia. rewrite accum_0 by lia. auto.
  - apply (for_lt_inv (fun k d => repr d L (upd h n (accum plus z term k))));
      [lia| rewrite accum_0 by lia; exact Hd |].
    intros k d1 Hk Hd1. destruct (Hbody k d1 _ Hk Hd1) as (d2 & Hb & Hd2).
    exists d2. split; [exact Hb|]. rewrite accum_succ by lia. exact Hd2.
Qed.

Lemma repr_upd_rd (d : list F) L h n a :
  repr d L (upd h n a) -> 0 <= n < L -> rd d n = inr a.
Proof.
  intros Hd Hn. rewrite (repr_rd _ _ _ _ Hd Hn). unfold upd.
  rewrite Z.eqb_refl. reflexivity.
Qed.

Lemma repr_upd_wr (d : list F) L h n a b :
  repr d L (upd h n a) -> 0 <= n < L ->
  exists d', wr d n b = inr d' /\ repr d' L (upd h n b).
Proof.
  intros Hd Hn. destruct (repr_wr d L _ n b Hd Hn) as (d' & Hw & Hd').
  exists d'. split; [exact Hw|]. eapply repr_ext; [exact Hd'|].
  intros i Hi. unfold upd. zcases; reflexivity.
Qed.

Lemma repr_upto_upd (d : list F) L f g n a :
  repr d L (upto f g n) -> 0 <= n < L ->
  exists d', wr d n a = inr d' /\ repr d' L (upd (upto f g n) n a).
Proof. intros Hd Hn. apply repr_wr; assumption. Qed.

Lemma repr_upd_upto (d : list F) L f g n :
  repr d L (upd (upto f g n) n (f n)) -> repr d L (upto f g (n + 1)).
Proof.
  intros Hd. eapply repr_ext; [exact Hd|].
  intros i Hi. unfold upd, upto. zcases; try lia; try reflexivity.
  subst. reflexivity.
Qed.
End AccumCell.


(** * Facts about class [Tensor] *)

Section TensorFacts.
Context {F : Type} `{FloatOps F}.
Import Tensor.

Lemma wf_repr (x : t F) : wf x -> repr (data x) (len x) (get x).
Proof.
  intros (_ & _ & _ & _ & Hlen). rewrite <- Hlen. apply repr_self.
Qed.

Lemma repr_upto_eq (v : list F) L f g n n' :
  repr v L (upto f g n) -> n = n' -> repr v L (upto f g n').
Proof. intros Hv <-. exact Hv. Qed.

Lemma Tensor3_repr b h w :
  0 <= h * w * b -> repr (data (Tensor3 b h w)) (h * w * b) (fun _ => fzero).
Proof. intros Hn. apply repr_replicate. exact Hn. Qed.

(** One statement [d[ix] = x[ix] op m[im]] filling cell [ix]. *)
Lemma elem_fill op (x m : t F) (d : list F) L f g ix im :
  wf x -> wf m -> repr d L (upto f g ix) ->
  0 <= ix < L -> 0 <= ix < len x -> 0 <= im < len m ->
  f ix = op (get x ix) (get m im) ->
  exists d', elem op x m ix im d = inr d' /\ repr d' L (upto f g (ix + 1)).
Proof.
  intros Hx Hm Hd HL Hix Him Hf. unfold elem.
  rewrite (repr_rd _ _ _ _ (wf_repr x Hx) Hix). simpl.
  rewrite (repr_rd _ _ _ _ (wf_repr m Hm) Him). simpl.
  apply repr_upto_wr; [exact Hd|exact HL|]. symmetry. exact Hf.
Qed.

(** The broadcast loops of [add] and [subtract] (fallback path). *)
Lemma bcast_loops_spec op (x m : t F) (d0 : list F) g :
  wf x -> wf m -> batch m = 1 ->
  height x = height m -> width x = width m ->
  repr d0 (len x) g ->
  exists d,
    for_lt 0 (batch x)
      (fun k d =>
         for_lt 0 (len m)
           (fun i d =>
              a <- rd (data x) (k * len m + i) ;;
              b <- rd (data m) i ;;
              wr d (k * len m + i) (op a b)) d) d0 = inr d /\
    repr d (len x) (fun idx => op (get x idx) (get m (idx mod len m))).
Proof.
  intros Hx Hm Hb Hh Hw Hd0.
  pose proof Hx as (Hbx & Hhx & Hwx & Hlx & _).
  pose proof Hm as (_ & _ & _ & Hlm & _).
  assert (Hs : 0 <= len m) by nia.
  assert (HL : len x = batch x * len m) by nia.
  set (f := fun idx => op (get x idx) (get m (idx mod len m))).
  destruct (fill_blocks (fun d => d) (fun _ => True)
              (fun k d =>
                 for_lt 0 (len m)
                   (fun i d =>
                      a <- rd (data x) (k * len m + i) ;;
                      b <- rd (data m) i ;;
                      wr d (k * len m + i) (op a b)) d) f g (len x) 0 (batch x) (len m) d0)
    as (d & Hr & _ & Hd).
  - exact Hbx.
  - exact I.
  - apply repr_upto_0; [lia|exact Hd0].
  - intros k d Hk _ Hd.
    destruct (fill_blocks (fun d => d) (fun _ => True)
                (fun i d =>
                   a <- rd (data x) (k * len m + i) ;;
                   b <- rd (data m) i ;;
                   wr d (k * len m + i) (op a b)) f g (len x) (0 + k * len m) (len m) 1 d)
      as (d' & Hr' & _ & Hd').
    + exact Hs.
    + exact I.
    + exact Hd.
    + intros i d1 Hi _ Hd1.
      destruct (elem_fill op x m d1 (len x) f g (k * len m + i) i)
        as (d2 & He & Hd2);
        [exact Hx | exact Hm | eapply repr_upto_eq; [exact Hd1|lia]
        | nia | nia | lia | | ].
      * unfold f. do 2 f_equal.
        rewrite Z.add_comm, Z.mod_add by lia. apply Z.mod_small. lia.
      * exists d2. split; [exact He|]. split; [exact I|].
        eapply repr_upto_eq; [exact Hd2|lia].
    + exists d'. split; [exact Hr'|]. split; [exact I|].
      eapply repr_upto_eq; [exact Hd'|lia].
  - exists d. split; [exact Hr|]. eapply repr_upto_all; [|exact Hd]. lia.
Qed.

Lemma same_loop_spec op (x m : t F) (d0 : list F) g :
  wf x -> wf m -> len x <= len m -> repr d0 (len x) g ->
  exists d,
    for_lt 0 (len x)
      (fun k d =>
         a <- rd (data x) k ;;
         b <- rd (data m) k ;;
         wr d k (op a b)) d0 = inr d /\
    repr d (len x) (fun idx => op (get x idx) (get m idx)).
Proof.
  intros Hx Hm Hle Hd0.
  pose proof Hx as (Hbx & Hhx & Hwx & Hlx & _).
  assert (HL : 0 <= len x) by nia.
  set (f := fun idx => op (get x idx) (get m idx)).
  destruct (fill_blocks (fun d => d) (fun _ => True)
              (fun k d =>
                 a <- rd (data x) k ;;
                 b <- rd (data m) k ;;
                 wr d k (op a b)) f g (len x) 0 (len x) 1 d0)
    as (d & Hr & _ & Hd).
  - exact HL.
  - exact I.
  - apply repr_upto_0; [lia|exact Hd0].
  - intros k d Hk _ Hd.
    destruct (elem_fill op x m d (len x) f g k k) as (d2 & He & Hd2);
      [exact Hx | exact Hm | eapply repr_upto_eq; [exact Hd|lia]
      | lia | lia | lia | reflexivity | ].
    exists d2. split; [exact He|]. split; [exact I|].
    eapply repr_upto_eq; [exact Hd2|lia].
  - exists d. split; [exact Hr|]. eapply repr_upto_all; [|exact Hd]. lia.
Qed.

Lemma scopy_spec n (x y : list F) hx hy :
  0 <= n -> repr x n hx -> repr y n hy ->
  exists y', cblas_scopy n x 0 y 0 = inr y' /\ repr y' n hx.
Proof.
  intros Hn Hx Hy. unfold cblas_scopy.
  destruct (fill_blocks (fun d => d) (fun _ => True)
              (fun i y => a <- rd x (0 + i) ;; wr y (0 + i) a)
              hx hy n 0 n 1 y) as (y' & Hr & _ & Hy').
  - exact Hn.
  - exact I.
  - apply repr_upto_0; [lia|exact Hy].
  - intros i d Hi _ Hd.
    rewrite (repr_rd _ _ _ _ Hx) by lia. simpl.
    destruct (repr_upto_wr d n hx hy (0 + i) (hx (0 + i))) as (d' & Hw & Hd');
      [eapply repr_upto_eq; [exact Hd|lia] | lia | reflexivity | ].
    exists d'. split; [exact Hw|]. split; [exact I|].
    eapply repr_upto_eq; [exact Hd'|lia].
  - exists y'. split; [exact Hr|]. eapply repr_upto_all; [|exact Hy']. lia.
Qed.

(** [saxpy] on the block of [n] cells at [yo], the cells below [yo] being
    done already. *)
Lemma saxpy_fill n alpha (x y : list F) Lx hx L f g yo :
  0 <= n <= Lx -> repr x Lx hx -> repr y L (upto f g yo) ->
  0 <= yo -> yo + n <= L ->
  (forall i, 0 <= i < n -> f (yo + i) = fadd (g (yo + i)) (fmul alpha (hx i))) ->
  exists y', cblas_saxpy n alpha x 0 y yo = inr y' /\
             repr y' L (upto f g (yo + n)).
Proof.
  intros Hn Hx Hy Hyo HL Hf. unfold cblas_saxpy.
  destruct (fill_blocks (fun d => d) (fun _ => True)
              (fun i y =>
                 a <- rd x (0 + i) ;;
                 b <- rd y (yo + i) ;;
                 wr y (yo + i) (fadd b (fmul alpha a)))
              f g L yo n 1 y) as (y' & Hr & _ & Hy').
  - lia.
  - exact I.
  - exact Hy.
  - intros i d Hi _ Hd.
    rewrite (repr_rd _ _ _ _ Hx) by lia. simpl.
    rewrite (repr_upto_rd_hi _ _ _ _ _ _ Hd) by lia. simpl.
    destruct (repr_upto_wr d L f g (yo + i)
                (fadd (g (yo + i)) (fmul alpha (hx (0 + i)))))
      as (d' & Hw & Hd');
      [eapply repr_upto_eq; [exact Hd|lia] | lia | | ].
    + rewrite Hf by lia. do 3 f_equal.
    + exists d'. split; [exact Hw|]. split; [exact I|].
      eapply repr_upto_eq; [exact Hd'|lia].
  - exists y'. split; [exact Hr|]. eapply repr_upto_eq; [exact Hy'|lia].
Qed.

(** The accelerated loops of [add] and [subtract]. *)
Lemma blas_bcast_spec alpha (x m : t F) :
  wf x -> wf m -> batch m = 1 ->
  height x = height m -> width x = width m ->
  exists d d',
    cblas_scopy (len x) (data x) 0
      (data (Tensor3 (batch x) (height x) (width x))) 0 = inr d /\
    for_lt 0 (batch x)
      (fun k d =>
         cblas_saxpy (width x * height x) alpha (data m) 0 d
           (k * (width x * height x))) d = inr d' /\
    repr d' (len x)
      (fun idx => fadd (get x idx) (fmul alpha (get m (idx mod len m)))).
Proof.
  intros Hx Hm Hb Hh Hw.
  pose proof Hx as (Hbx & Hhx & Hwx & Hlx & _).
  pose proof Hm as (_ & _ & _ & Hlm & _).
  assert (Hs : 0 <= len m) by nia.
  assert (Hsz : width x * height x = len m) by nia.
  assert (HL : len x = batch x * len m) by nia.
  destruct (scopy_spec (len x) (data x)
              (data (Tensor3 (batch x) (height x) (width x)))
              (get x) (fun _ => fzero)) as (d & Hc & Hd).
  - nia.
  - apply wf_repr. exact Hx.
  - rewrite Hlx. apply Tensor3_repr. nia.
  - exists d. rewrite Hsz.
    set (f := fun idx => fadd (get x idx) (fmul alpha (get m (idx mod len m)))).
    destruct (fill_blocks (fun d => d) (fun _ => True)
                (fun k d => cblas_saxpy (len m) alpha (data m) 0 d (k * len m))
                f (get x) (len x) 0 (batch x) (len m) d)
      as (d' & Hr & _ & Hd').
    + exact Hbx.
    + exact I.
    + apply repr_upto_0; [lia|exact Hd].
    + intros k d1 Hk _ Hd1.
      destruct (saxpy_fill (len m) alpha (data m) d1 (len m) (get m) (len x)
                  f (get x) (k * len m)) as (d2 & Hs2 & Hd2);
        [lia | apply wf_repr; exact Hm | eapply repr_upto_eq; [exact Hd1|lia]
        | nia | nia | | ].
      * intros i Hi. unfold f. do 3 f_equal.
        rewrite Z.add_comm, Z.mod_add by lia. apply Z.mod_small. lia.
      * exists d2. split; [exact Hs2|]. split; [exact I|].
        eapply repr_upto_eq; [exact Hd2|lia].
    + exists d'. split; [exact Hc|]. split; [exact Hr|].
      eapply repr_upto_all; [|exact Hd']. lia.
Qed.

Lemma blas_same_spec alpha (x m : t F) :
  wf x -> wf m -> len x <= len m ->
  exists d d',
    cblas_scopy (len x) (data x) 0
      (data (Tensor3 (batch x) (height x) (width x))) 0 = inr d /\
    cblas_saxpy (len x) alpha (data m) 0 d 0 = inr d' /\
    repr d' (len x) (fun idx => fadd (get x idx) (fmul alpha (get m idx))).
Proof.
  intros Hx Hm Hle.
  pose proof Hx as (Hbx & Hhx & Hwx & Hlx & _).
  destruct (scopy_spec (len x) (data x)
              (data (Tensor3 (batch x) (height x) (width x)))
              (get x) (fun _ => fzero)) as (d & Hc & Hd).
  - nia.
  - apply wf_repr. exact Hx.
  - rewrite Hlx. apply Tensor3_repr. nia.
  - exists d.
    set (f := fun idx => fadd (get x idx) (fmul alpha (get m idx))).
    destruct (saxpy_fill (len x) alpha (data m) d (len m) (get m) (len x)
                f (get x) 0) as (d' & Hs & Hd');
      [nia | apply wf_repr; exact Hm | apply repr_upto_0; [lia|exact Hd]
      | lia | lia | | ].
    + intros i Hi. unfold f. reflexivity.
    + exists d'. split; [exact Hc|]. split; [exact Hs|].
      eapply repr_upto_all; [|exact Hd']. lia.
Qed.

Lemma dims_assert_ok (x m : t F) :
  height x = height m -> width x = width m -> dims_assert x m = inr tt.
Proof.
  intros Hh Hw. unfold dims_assert. rewrite Hh, Hw, !Z.eqb_refl. reflexivity.
Qed.

Lemma dims_assert_fails (x m : t F) :
  height x <> height m \/ width x <> width m ->
  dims_assert x m = inl DimensionMismatch.
Proof.
  intros Hne. unfold dims_assert.
  destruct (Z.eqb_spec (height x) (height m));
    destruct (Z.eqb_spec (width x) (width m)); simpl; try reflexivity.
  destruct Hne; contradiction.
Qed.

Lemma right_index_bcast (x m : t F) idx :
  wf m -> batch m = 1 -> height x = height m -> width x = width m ->
  right_index x m idx = idx mod len m.
Proof.
  intros (_ & _ & _ & Hlm & _) Hb Hh Hw. unfold right_index.
  rewrite Hb. simpl. f_equal. nia.
Qed.

Lemma right_index_same (x m : t F) idx :
  batch m <> 1 -> right_index x m idx = idx.
Proof.
  intros Hb. unfold right_index. destruct (Z.eqb_spec (batch m) 1); congruence.
Qed.

Lemma same_len (x m : t F) :
  wf x -> wf m -> height x = height m -> width x = width m ->
  batch m = batch x -> len x <= len m.
Proof.
  intros (_ & _ & _ & Hlx & _) (_ & _ & _ & Hlm & _) Hh Hw Hb. nia.
Qed.

Lemma add_spec bk (x m : t F) :
  wf x -> wf m -> height x = height m -> width x = width m ->
  batch m = 1 \/ batch m = batch x ->
  add bk x m = inr (elementwise (add_op bk) x m).
Proof.
  intros Hx Hm Hh Hw Hb. unfold add.
  rewrite (dims_assert_ok x m Hh Hw). cbn [bind].
  pose proof Hx as (Hbx & Hhx & Hwx & Hlx & _).
  destruct bk; destruct (Z.eqb_spec (batch m) 1) as [Hb1|Hb1].
  - destruct (blas_bcast_spec fone x m Hx Hm Hb1 Hh Hw) as (d & d' & Hc & Hl & Hd').
    rewrite Hc. cbn [bind]. rewrite Hl. cbn [bind]. unfold ret, elementwise. do 2 f_equal.
    apply repr_eq. eapply repr_ext; [exact Hd'|].
    intros i Hi. simpl. rewrite right_index_bcast by assumption. reflexivity.
  - destruct (blas_same_spec fone x m Hx Hm) as (d & d' & Hc & Hl & Hd').
    + apply same_len; try assumption. destruct Hb; congruence.
    + rewrite Hc. cbn [bind]. rewrite Hl. cbn [bind]. unfold ret, elementwise. do 2 f_equal.
      apply repr_eq. eapply repr_ext; [exact Hd'|].
      intros i Hi. simpl. rewrite right_index_same by assumption. reflexivity.
  - destruct (bcast_loops_spec fadd x m
                (data (Tensor3 (batch x) (height x) (width x))) (fun _ => fzero)
                Hx Hm Hb1 Hh Hw) as (d & Hl & Hd).
    + rewrite Hlx. apply Tensor3_repr. nia.
    + rewrite Hl. cbn [bind]. unfold ret, elementwise. do 2 f_equal.
      apply repr_eq. eapply repr_ext; [exact Hd|].
      intros i Hi. simpl. rewrite right_index_bcast by assumption. reflexivity.
  - destruct (same_loop_spec fadd x m
                (data (Tensor3 (batch x) (height x) (width x))) (fun _ => fzero)
                Hx Hm) as (d & Hl & Hd).
    + apply same_len; try assumption. destruct Hb; congruence.
    + rewrite Hlx. apply Tensor3_repr. nia.
    + rewrite Hl. cbn [bind]. unfold ret, elementwise. do 2 f_equal.
      apply repr_eq. eapply repr_ext; [exact Hd|].
      intros i Hi. simpl. rewrite right_index_same by assumption. reflexivity.
Qed.

Lemma subtract_spec bk (x m : t F) :
  wf x -> wf m -> height x = height m -> width x = width m ->
  batch m = 1 \/ batch m = batch x ->
  subtract bk x m = inr (elementwise (sub_op bk) x m).
Proof.
  intros Hx Hm Hh Hw Hb. unfold subtract.
  rewrite (dims_assert_ok x m Hh Hw). cbn [bind].
  pose proof Hx as (Hbx & Hhx & Hwx & Hlx & _).
  destruct bk; destruct (Z.eqb_spec (batch m) 1) as [Hb1|Hb1].
  - destruct (blas_bcast_spec (fopp fone) x m Hx Hm Hb1 Hh Hw)
      as (d & d' & Hc & Hl & Hd').
    rewrite Hc. cbn [bind]. rewrite Hl. cbn [bind]. unfold ret, elementwise. do 2 f_equal.
    apply repr_eq. eapply repr_ext; [exact Hd'|].
    intros i Hi. simpl. rewrite right_index_bcast by assumption. reflexivity.
  - destruct (blas_same_spec (fopp fone) x m Hx Hm) as (d & d' & Hc & Hl & Hd').
    + apply same_len; try assumption. destruct Hb; congruence.
    + rewrite Hc. cbn [bind].
      replace (batch x =? batch m) with true
        by (symmetry; apply Z.eqb_eq; destruct Hb; congruence).
      cbn [bind assert_ ret]. rewrite Hl. cbn [bind]. unfold ret, elementwise.
      do 2 f_equal.
      apply repr_eq. eapply repr_ext; [exact Hd'|].
      intros i Hi. simpl. rewrite right_index_same by assumption. reflexivity.
  - destruct (bcast_loops_spec fsub x m
                (data (Tensor3 (batch x) (height x) (width x))) (fun _ => fzero)
                Hx Hm Hb1 Hh Hw) as (d & Hl & Hd).
    + rewrite Hlx. apply Tensor3_repr. nia.
    + rewrite Hl. cbn [bind]. unfold ret, elementwise. do 2 f_equal.
      apply repr_eq. eapply repr_ext; [exact Hd|].
      intros i Hi. simpl. rewrite right_index_bcast by assumption. reflexivity.
  - destruct (same_loop_spec fsub x m
                (data (Tensor3 (batch x) (height x) (width x))) (fun _ => fzero)
                Hx Hm) as (d & Hl & Hd).
    + apply same_len; try assumption. destruct Hb; congruence.
    + rewrite Hlx. apply Tensor3_repr. nia.
    + rewrite Hl. cbn [bind]. unfold ret, elementwise. do 2 f_equal.
      apply repr_eq. eapply repr_ext; [exact Hd|].
      intros i Hi. simpl. rewrite right_index_same by assumption. reflexivity.
Qed.

Lemma quot4_bounds n : 0 <= n -> 0 <= Z.quot n 4 /\ 4 * Z.quot n 4 <= n.
Proof.
  intros Hn. pose proof (Z.quot_rem' n 4) as Hq.
  pose proof (Z.rem_bound_pos n 4 Hn ltac:(lia)) as Hr.
  split; [apply Z.quot_pos; lia | lia].
Qed.

Lemma elem4_fill op (x m : t F) (d : list F) L f g b i :
  wf x -> wf m -> repr d L (upto f g (b + i)) ->
  0 <= b + i -> b + i + 4 <= L -> b + i + 4 <= len x ->
  0 <= i -> i + 4 <= len m ->
  (forall j, i <= j < i + 4 -> f (b + j) = op (get x (b + j)) (get m j)) ->
  exists d', elem4 op x m b i d = inr d' /\ repr d' L (upto f g (b + i + 4)).
Proof.
  intros Hx Hm Hd Hbi HL Hlx Hi Hlm Hf. unfold elem4.
  destruct (elem_fill op x m d L f g (b + i + 0) (i + 0)) as (d1 & He1 & Hd1);
    [exact Hx | exact Hm | eapply repr_upto_eq; [exact Hd|lia]
    | lia | lia | lia | | ].
  { replace (b + i + 0) with (b + (i + 0)) by lia. apply Hf. lia. }
  rewrite He1. cbn [bind].
  destruct (elem_fill op x m d1 L f g (b + i + 1) (i + 1)) as (d2 & He2 & Hd2);
    [exact Hx | exact Hm | eapply repr_upto_eq; [exact Hd1|lia]
    | lia | lia | lia | | ].
  { replace (b + i + 1) with (b + (i + 1)) by lia. apply Hf. lia. }
  rewrite He2. cbn [bind].
  destruct (elem_fill op x m d2 L f g (b + i + 2) (i + 2)) as (d3 & He3 & Hd3);
    [exact Hx | exact Hm | eapply repr_upto_eq; [exact Hd2|lia]
    | lia | lia | lia | | ].
  { replace (b + i + 2) with (b + (i + 2)) by lia. apply Hf. lia. }
  rewrite He3. cbn [bind].
  destruct (elem_fill op x m d3 L f g (b + i + 3) (i + 3)) as (d4 & He4 & Hd4);
    [exact Hx | exact Hm | eapply repr_upto_eq; [exact Hd3|lia]
    | lia | lia | lia | | ].
  { replace (b + i + 3) with (b + (i + 3)) by lia. apply Hf. lia. }
  exists d4. split; [exact He4|]. eapply repr_upto_eq; [exact Hd4|lia].
Qed.

(** The loop unrolled four times followed by its remainder loop, filling the
    block of [n] cells at [b]. *)
Lemma unrolled_fill op (x m : t F) (d : list F) L f g b n
    (tail : Z -> list F -> res (list F)) :
  wf x -> wf m -> repr d L (upto f g b) ->
  0 <= n -> 0 <= b -> b + n <= L -> b + n <= len x -> n <= len m ->
  (forall j, 0 <= j < n -> f (b + j) = op (get x (b + j)) (get m j)) ->
  (forall j d, tail j d = elem op x m (b + j) j d) ->
  exists r d',
    for_by4 (Z.quot n 4 * 4) (elem4 op x m b) d = inr r /\
    for_lt (fst r) n tail (snd r) = inr d' /\
    repr d' L (upto f g (b + n)).
Proof.
  intros Hx Hm Hd Hn Hb HL Hlx Hlm Hf Htail.
  destruct (quot4_bounds n Hn) as [He0 He4].
  destruct (for_by4_inv (fun j d => repr d L (upto f g (b + j))) (Z.quot n 4)
              (elem4 op x m b) d) as (d1 & Hr1 & Hd1).
  - exact He0.
  - eapply repr_upto_eq; [exact Hd|lia].
  - intros j d0 Hj Hd0.
    destruct (elem4_fill op x m d0 L f g b (4 * j)) as (d' & He & Hd');
      [exact Hx | exact Hm | exact Hd0 | lia | lia | lia | lia | lia | | ].
    + intros i Hi. apply Hf. lia.
    + exists d'. split; [exact He|]. eapply repr_upto_eq; [exact Hd'|lia].
  - exists (4 * Z.quot n 4, d1).
    destruct (for_lt_inv (fun j d => repr d L (upto f g (b + j)))
                (4 * Z.quot n 4) n tail d1) as (d2 & Hr2 & Hd2).
    + exact He4.
    + exact Hd1.
    + intros j d0 Hj Hd0. rewrite Htail.
      destruct (elem_fill op x m d0 L f g (b + j) j) as (d' & He & Hd');
        [exact Hx | exact Hm | exact Hd0 | lia | lia | lia | apply Hf; lia | ].
      exists d'. split; [exact He|]. eapply repr_upto_eq; [exact Hd'|lia].
    + exists d2. split; [exact Hr1|]. split; [exact Hr2|exact Hd2].
Qed.

Lemma multiply_spec (x m : t F) :
  wf x -> wf m -> height x = height m -> width x = width m ->
  batch m = 1 \/ batch m = batch x ->
  multiply x m = inr (elementwise fmul x m).
Proof.
  intros Hx Hm Hh Hw Hb. unfold multiply.
  rewrite (dims_assert_ok x m Hh Hw). cbn [bind].
  pose proof Hx as (Hbx & Hhx & Hwx & Hlx & _).
  pose proof Hm as (Hbm & _ & _ & Hlm & _).
  set (f := fun idx => fmul (get x idx) (get m (right_index x m idx))).
  assert (H0 : repr (data (Tensor3 (batch x) (height x) (width x))) (len x)
                 (fun _ => fzero)).
  { rewrite Hlx. apply Tensor3_repr. nia. }
  destruct (Z.eqb_spec (batch m) 1) as [Hb1|Hb1].
  - assert (Hs : width x * height x = len m) by nia.
    destruct (fill_blocks (fun d => d) (fun _ => True)
                (fun k d =>
                   r <- for_by4 (Z.quot (width x * height x) 4 * 4)
                          (elem4 fmul x m (k * width x * height x)) d ;;
                   for_lt (fst r) (width x * height x)
                     (fun j d => elem fmul x m (k * width x * height x + j) j d)
                     (snd r))
                f (fun _ => fzero) (len x) 0 (batch x) (width x * height x)
                (data (Tensor3 (batch x) (height x) (width x))))
      as (d & Hr & _ & Hd).
    + exact Hbx.
    + exact I.
    + apply repr_upto_0; [lia|exact H0].
    + intros k d Hk _ Hd.
      destruct (unrolled_fill fmul x m d (len x) f (fun _ => fzero)
                  (k * width x * height x) (width x * height x)
                  (fun j d => elem fmul x m (k * width x * height x + j) j d))
        as (r & d' & Hr1 & Hr2 & Hd');
        [exact Hx | exact Hm | eapply repr_upto_eq; [exact Hd|lia]
        | nia | nia | nia | nia | lia | | reflexivity | ].
      * intros j Hj. unfold f. do 2 f_equal.
        rewrite right_index_bcast by assumption. rewrite <- Hs.
        replace (k * width x * height x + j) with (j + k * (width x * height x))
          by lia.
        rewrite Z.mod_add by lia. apply Z.mod_small. lia.
      * exists d'. rewrite Hr1. cbn [bind]. split; [exact Hr2|].
        split; [exact I|]. eapply repr_upto_eq; [exact Hd'|lia].
    + rewrite Hr. cbn [bind]. unfold ret, elementwise. do 2 f_equal.
      apply repr_eq. eapply repr_upto_all; [|exact Hd]. nia.
  - assert (Hle : len x <= len m).
    { apply same_len; try assumption. destruct Hb; congruence. }
    destruct (unrolled_fill fmul x m
                (data (Tensor3 (batch x) (height x) (width x))) (len x) f
                (fun _ => fzero) 0 (len x)
                (fun j d => elem fmul x m j j d))
      as (r & d' & Hr1 & Hr2 & Hd');
      [exact Hx | exact Hm | apply repr_upto_0; [lia|exact H0]
      | nia | lia | lia | lia | lia | | reflexivity | ].
    + intros j Hj. unfold f. rewrite right_index_same by assumption.
      reflexivity.
    + rewrite Hr1. cbn [bind]. rewrite Hr2. cbn [bind].
      unfold ret, elementwise. do 2 f_equal.
      apply repr_eq. eapply repr_upto_all; [|exact Hd']. lia.
Qed.
Lemma wf_batch_slice (x : t F) k :
  wf x -> 0 <= k < batch x -> wf (batch_slice x k).
Proof.
  intros (Hb & Hh & Hw & Hl & Hlen) Hk. unfold wf, batch_slice. simpl.
  repeat split; try lia.
  rewrite length_take, length_drop. nia.
Qed.

Lemma get_batch_slice (x : t F) k i :
  wf x -> 0 <= k < batch x -> 0 <= i < height x * width x ->
  get (batch_slice x k) i = get x (k * (height x * width x) + i).
Proof.
  intros Hx Hk Hi. pose proof Hx as (Hb & Hh & Hw & Hl & Hlen).
  unfold get at 1. unfold batch_slice. simpl.
  apply (repr_at fzero _ (height x * width x)
           (fun i => get x (k * (height x * width x) + i))); [|exact Hi].
  apply repr_block with (L := len x); [apply wf_repr; exact Hx|nia|nia|nia].
Qed.

(** A batch slice of an elementwise result is the elementwise result of the
    slice. *)
Lemma batch_slice_elementwise op (x m : t F) k :
  wf x -> wf m -> batch m = 1 -> height x = height m -> width x = width m ->
  0 <= k < batch x ->
  batch_slice (elementwise op x m) k = elementwise op (batch_slice x k) m.
Proof.
  intros Hx Hm Hb1 Hh Hw Hk. pose proof Hx as (Hb & Hhx & Hwx & Hl & Hlen).
  pose proof Hm as (_ & _ & _ & Hlm & _).
  unfold elementwise, with_data, Tensor3.
  unfold batch_slice at 1. cbn [batch height width dim len data].
  f_equal.
  rewrite (repr_eq _ _ _
             (repr_block _ (len x) _ (k * (height x * width x))
                (height x * width x)
                (repr_tab _ (len x) ltac:(nia)) ltac:(nia) ltac:(nia) ltac:(nia))).
  change (len (batch_slice x k)) with (height x * width x * 1).
  replace (height x * width x * 1) with (height x * width x) by lia.
  apply tab_ext. intros i Hi.
  rewrite get_batch_slice by assumption. f_equal. f_equal.
  rewrite !right_index_bcast by assumption.
  replace (k * (height x * width x) + i) with (i + k * len m) by nia.
  rewrite Z.mod_add by nia. reflexivity.
Qed.
End TensorFacts.

Lemma idx2_bound h w i j : 0 <= i < h -> 0 <= j < w -> 0 <= i * w + j < h * w.
Proof. intros Hi Hj. nia. Qed.

Lemma decode2 w i j :
  0 <= j < w -> (i * w + j) / w = i /\ (i * w + j) mod w = j.
Proof.
  intros Hj. split.
  - symmetry. apply Z.div_unique with (r := j); lia.
  - symmetry. apply Z.mod_unique with (q := i); lia.
Qed.

(** * Facts about [dot] *)

Section DotFacts.
Context {F : Type} `{FloatOps F}.
Import Tensor.

(** The accumulation loop of one cell of [dot]. *)
Lemma dot_inner (x m : t F) (d : list F) (row moff col : Z) mwidth
    (ix im : Z -> Z) :
  wf x -> wf m -> mwidth = width m ->
  (forall h, 0 <= h < width x -> ix h = row + h /\ 0 <= ix h < len x) ->
  (forall h, 0 <= h < width x ->
     im h = moff + h * width m + col /\ 0 <= im h < len m) ->
  for_lt 0 (width x)
    (fun h (st : F * list F) =>
       a <- rd (data x) (ix h) ;;
       b <- rd (data m) (im h) ;;
       ret (fadd (fst st) (fmul a b), snd st)) (fzero, d) =
  inr (dot_cell x m moff row col, d).
Proof.
  intros Hx Hm -> Hix Him.
  pose proof Hx as (_ & _ & Hwx & _).
  destruct (for_lt_inv
              (fun h (st : F * list F) =>
                 snd st = d /\
                 fst st = accum fadd fzero
                            (fun h => fmul (get x (row + h))
                                        (get m (moff + h * width m + col))) h)
              0 (width x)
              (fun h (st : F * list F) =>
                 a <- rd (data x) (ix h) ;;
                 b <- rd (data m) (im h) ;;
                 ret (fadd (fst st) (fmul a b), snd st)) (fzero, d))
    as (st & Hr & Hd & Hacc).
  - exact Hwx.
  - split; [reflexivity|]. rewrite accum_0 by lia. reflexivity.
  - intros h st Hh [Hd Hacc].
    destruct (Hix h Hh) as [Hix1 Hix2]. destruct (Him h Hh) as [Him1 Him2].
    rewrite (repr_rd _ _ _ _ (wf_repr x Hx) Hix2). cbn [bind].
    rewrite (repr_rd _ _ _ _ (wf_repr m Hm) Him2). cbn [bind].
    eexists. split; [reflexivity|]. cbn [fst snd]. split; [exact Hd|].
    rewrite accum_succ by lia. rewrite Hacc, Hix1, Him1. reflexivity.
  - rewrite Hr. destruct st as [w d']. cbn [fst snd] in *. subst.
    reflexivity.
Qed.

Lemma dot_value_at bk (x m : t F) k i j :
  0 <= i < height x -> 0 <= j < width m ->
  dot_value bk x m (k * (height x * width m) + i * width m + j) =
  dot_op bk
    (dot_cell x m (if batch m =? 1 then 0 else k * width x * width m)
       (k * height x * width x + i * width x) j).
Proof.
  intros Hi Hj. unfold dot_value. cbv zeta.
  pose proof (idx2_bound _ _ _ _ Hi Hj) as Hij.
  replace (k * (height x * width m) + i * width m + j)
    with (k * (height x * width m) + (i * width m + j)) by lia.
  destruct (decode2 (height x * width m) k (i * width m + j) Hij) as [-> _].
  replace (k * (height x * width m) + (i * width m + j))
    with ((k * height x + i) * width m + j) by lia.
  destruct (decode2 (width m) (k * height x + i) j Hj) as [-> ->].
  do 2 f_equal. lia.
Qed.

Lemma dot_loops_spec (x m : t F) (moff : Z -> Z) :
  wf x -> wf m -> width x = height m ->
  (forall k, 0 <= k < batch x ->
     moff k = (if batch m =? 1 then 0 else k * width x * width m) /\
     0 <= moff k /\ moff k + height m * width m <= len m) ->
  dot_loops x m (width m) moff
    (data (Tensor3 (batch x) (height x) (width m))) =
  inr (fzero, tab (dot_value Fallback x m) (height x * width m * batch x)).
Proof.
  intros Hx Hm Hwh Hoff.
  pose proof Hx as (Hbx & Hhx & Hwx & Hlx & _).
  pose proof Hm as (Hbm & Hhm & Hwm & Hlm & _).
  set (L := height x * width m * batch x).
  assert (HL : 0 <= L) by (unfold L; nia).
  unfold dot_loops.
  destruct (fill_blocks (snd : F * list F -> list F) (fun st => fst st = fzero)
              (fun k st =>
                 for_lt 0 (height x)
                   (fun i st =>
                      for_lt 0 (width m)
                        (fun j st =>
                           st <- for_lt 0 (width x)
                                   (fun h (st : F * list F) =>
                                      a <- rd (data x)
                                             (k * height x * width x + i * width x + h) ;;
                                      b <- rd (data m) (moff k + h * width m + j) ;;
                                      ret (fadd (fst st) (fmul a b), snd st)) st ;;
                           d <- wr (snd st)
                                  (k * height x * width m + i * width m + j) (fst st) ;;
                           ret (fzero, d)) st) st)
              (dot_value Fallback x m) (fun _ => fzero) L 0 (batch x)
              (height x * width m)
              (fzero, data (Tensor3 (batch x) (height x) (width m))))
    as (st & Hr & Hok & Hst).
  - exact Hbx.
  - reflexivity.
  - apply repr_upto_0; [lia|]. apply Tensor3_repr. exact HL.
  - intros k st Hk Hok Hst.
    destruct (Hoff k Hk) as (Hmoff & Hmoff0 & Hmofflen).
    destruct (fill_blocks (snd : F * list F -> list F) (fun st => fst st = fzero)
                (fun i st =>
                   for_lt 0 (width m)
                     (fun j st =>
                        st <- for_lt 0 (width x)
                                (fun h (st : F * list F) =>
                                   a <- rd (data x)
                                          (k * height x * width x + i * width x + h) ;;
                                   b <- rd (data m) (moff k + h * width m + j) ;;
                                   ret (fadd (fst st) (fmul a b), snd st)) st ;;
                        d <- wr (snd st)
                               (k * height x * width m + i * width m + j) (fst st) ;;
                        ret (fzero, d)) st)
                (dot_value Fallback x m) (fun _ => fzero) L
                (0 + k * (height x * width m)) (height x) (width m) st)
      as (st1 & Hr1 & Hok1 & Hst1).
    + exact Hhx.
    + exact Hok.
    + exact Hst.
    + intros i st2 Hi Hok2 Hst2.
      destruct (fill_blocks (snd : F * list F -> list F)
                  (fun st => fst st = fzero)
                  (fun j st =>
                     st <- for_lt 0 (width x)
                             (fun h (st : F * list F) =>
                                a <- rd (data x)
                                       (k * height x * width x + i * width x + h) ;;
                                b <- rd (data m) (moff k + h * width m + j) ;;
                                ret (fadd (fst st) (fmul a b), snd st)) st ;;
                     d <- wr (snd st)
                            (k * height x * width m + i * width m + j) (fst st) ;;
                     ret (fzero, d))
                  (dot_value Fallback x m) (fun _ => fzero) L
                  (0 + k * (height x * width m) + i * width m) (width m) 1 st2)
        as (st3 & Hr3 & Hok3 & Hst3).
      * exact Hwm.
      * exact Hok2.
      * exact Hst2.
      * intros j st4 Hj Hok4 Hst4. destruct st4 as [w d4].
        cbn [fst snd] in Hok4, Hst4. subst w.
        rewrite (dot_inner x m d4 (k * height x * width x + i * width x)
                   (moff k) j (width m)
                   (fun h => k * height x * width x + i * width x + h)
                   (fun h => moff k + h * width m + j) Hx Hm eq_refl).
        -- cbn [bind fst snd].
           pose proof (idx2_bound _ _ _ _ Hi Hj) as Hij.
           destruct (repr_upto_wr d4 L (dot_value Fallback x m) (fun _ => fzero)
                       (k * height x * width m + i * width m + j)
                       (dot_cell x m (moff k)
                          (k * height x * width x + i * width x) j))
             as (d5 & Hw5 & Hd5).
           ++ eapply repr_upto_eq; [exact Hst4|lia].
           ++ unfold L. nia.
           ++ replace (k * height x * width m + i * width m + j)
                with (k * (height x * width m) + i * width m + j) by lia.
              rewrite dot_value_at by assumption. rewrite Hmoff. reflexivity.
           ++ rewrite Hw5. cbn [bind]. eexists. split; [reflexivity|].
              cbn [fst snd]. split; [reflexivity|].
              eapply repr_upto_eq; [exact Hd5|lia].
        -- intros h Hh. split; [reflexivity|].
           pose proof (idx2_bound _ _ _ _ Hi Hh) as Hih. nia.
        -- intros h Hh. split; [reflexivity|].
           assert (Hhj : 0 <= h * width m + j < height m * width m).
           { apply idx2_bound; lia. }
           lia.
      * exists st3. split; [exact Hr3|]. split; [exact Hok3|].
        eapply repr_upto_eq; [exact Hst3|lia].
    + exists st1. split; [exact Hr1|]. split; [exact Hok1|].
      eapply repr_upto_eq; [exact Hst1|lia].
  - rewrite Hr. destruct st as [w d]. cbn [fst snd] in Hok, Hst. subst w.
    do 2 f_equal. apply repr_eq. eapply repr_upto_all; [|exact Hst].
    unfold L. lia.
Qed.

Lemma dot_spec (x m : t F) :
  wf x -> wf m -> width x = height m ->
  batch m = 1 \/ batch m = batch x ->
  dot Fallback x m = inr (dot_result Fallback x m).
Proof.
  intros Hx Hm Hwh Hb. unfold dot.
  pose proof Hx as (Hbx & Hhx & Hwx & Hlx & _).
  pose proof Hm as (Hbm & Hhm & Hwm & Hlm & _).
  rewrite Hwh, Z.eqb_refl. cbn [assert_ bind ret]. rewrite <- Hwh.
  destruct (Z.eqb_spec (batch m) 1) as [Hb1|Hb1].
  - rewrite dot_loops_spec; [reflexivity|exact Hx|exact Hm|exact Hwh|].
    intros k Hk. rewrite Hb1. cbn [Z.eqb Pos.eqb]. split; [reflexivity|]. nia.
  - rewrite dot_loops_spec; [reflexivity|exact Hx|exact Hm|exact Hwh|].
    intros k Hk. destruct (Z.eqb_spec (batch m) 1) as [?|_]; [contradiction|].
    split; [reflexivity|]. destruct Hb as [?|Hb]; [contradiction|]. nia.
Qed.

(** [sgemm] on the block of [M * N] cells at [co], the cells below [co]
    being done already. *)
Lemma sgemm_fill (M N K : Z) alpha beta (A B C : list F) LA hA LB hB
    L f g ao bo co :
  0 <= M -> 0 <= N -> 0 <= K ->
  repr A LA hA -> repr B LB hB -> repr C L (upto f g co) ->
  0 <= ao -> ao + M * K <= LA -> 0 <= bo -> bo + K * N <= LB ->
  0 <= co -> co + M * N <= L ->
  (forall r c, 0 <= r < M -> 0 <= c < N ->
     f (co + r * N + c) =
     fadd (fmul alpha
             (accum fadd fzero
                (fun l => fmul (hA (ao + r * K + l)) (hB (bo + l * N + c))) K))
          (fmul beta (g (co + r * N + c)))) ->
  exists C', cblas_sgemm M N K alpha A ao B bo beta C co = inr C' /\
             repr C' L (upto f g (co + M * N)).
Proof.
  intros HM HN HK HA HB HC Hao HLA Hbo HLB Hco HL Hf. unfold cblas_sgemm.
  destruct (fill_blocks (fun d => d) (fun _ => True)
              (fun r C =>
                 for_lt 0 N
                   (fun c C =>
                      ab <- for_lt 0 K
                              (fun l acc =>
                                 a <- rd A (ao + r * K + l) ;;
                                 b <- rd B (bo + l * N + c) ;;
                                 ret (fadd acc (fmul a b))) fzero ;;
                      old <- rd C (co + r * N + c) ;;
                      wr C (co + r * N + c)
                        (fadd (fmul alpha ab) (fmul beta old))) C)
              f g L co M N C) as (C' & Hr & _ & HC').
  - exact HM.
  - exact I.
  - exact HC.
  - intros r C1 Hr1 _ HC1.
    destruct (fill_blocks (fun d => d) (fun _ => True)
                (fun c C =>
                   ab <- for_lt 0 K
                           (fun l acc =>
                              a <- rd A (ao + r * K + l) ;;
                              b <- rd B (bo + l * N + c) ;;
                              ret (fadd acc (fmul a b))) fzero ;;
                   old <- rd C (co + r * N + c) ;;
                   wr C (co + r * N + c)
                     (fadd (fmul alpha ab) (fmul beta old)))
                f g L (co + r * N) N 1 C1) as (C2 & Hr2 & _ & HC2).
    + exact HN.
    + exact I.
    + exact HC1.
    + intros c C3 Hc _ HC3.
      pose proof (idx2_bound _ _ _ _ Hr1 Hc) as Hrc.
      rewrite (accum_loop fadd
                 (fun l => fmul (hA (ao + r * K + l)) (hB (bo + l * N + c))) K).
      * cbn [bind].
        rewrite (repr_upto_rd_hi _ _ _ _ _ _ HC3) by lia. cbn [bind].
        destruct (repr_upto_wr C3 L f g (co + r * N + c)
                    (fadd (fmul alpha
                             (accum fadd fzero
                                (fun l => fmul (hA (ao + r * K + l))
                                            (hB (bo + l * N + c))) K))
                          (fmul beta (g (co + r * N + c)))))
          as (C4 & Hw4 & HC4);
          [eapply repr_upto_eq; [exact HC3|lia] | lia
          | symmetry; apply Hf; assumption | ].
        exists C4. split; [exact Hw4|]. split; [exact I|].
        eapply repr_upto_eq; [exact HC4|lia].
      * intros l acc Hl.
        pose proof (idx2_bound _ _ _ _ Hr1 Hl) as Hrl.
        assert (Hlc : 0 <= l * N + c < K * N) by (apply idx2_bound; lia).
        rewrite (repr_rd _ _ _ _ HA) by lia. cbn [bind].
        rewrite (repr_rd _ _ _ _ HB) by lia. reflexivity.
    + exists C2. split; [exact Hr2|]. split; [exact I|].
      eapply repr_upto_eq; [exact HC2|lia].
  - exists C'. split; [exact Hr|]. exact HC'.
Qed.

Lemma dot_blas_spec (x m : t F) :
  wf x -> wf m -> width x = height m ->
  batch m = 1 \/ batch m = batch x ->
  dot Blas x m = inr (dot_result Blas x m).
Proof.
  intros Hx Hm Hwh Hb. unfold dot.
  pose proof Hx as (Hbx & Hhx & Hwx & Hlx & _).
  pose proof Hm as (Hbm & Hhm & Hwm & Hlm & _).
  rewrite Hwh, Z.eqb_refl. cbn [assert_ bind ret]. rewrite <- Hwh.
  set (L := height x * width m * batch x).
  assert (HL : 0 <= L) by (unfold L; nia).
  assert (Hgen : forall boff : Z -> Z,
    (forall k, 0 <= k < batch x ->
       boff k = (if batch m =? 1 then 0 else k * width x * width m) /\
       0 <= boff k /\ boff k + width x * width m <= len m) ->
    exists d,
      for_lt 0 (batch x)
        (fun k d =>
           cblas_sgemm (height x) (width m) (width x) fone (data x)
             (k * width x * height x) (data m) (boff k) fone d
             (k * height x * width m))
        (data (Tensor3 (batch x) (height x) (width m))) = inr d /\
      repr d L (dot_value Blas x m)).
  { intros boff Hoff.
    destruct (fill_blocks (fun d => d) (fun _ => True)
                (fun k d =>
                   cblas_sgemm (height x) (width m) (width x) fone (data x)
                     (k * width x * height x) (data m) (boff k) fone d
                     (k * height x * width m))
                (dot_value Blas x m) (fun _ => fzero) L 0 (batch x)
                (height x * width m)
                (data (Tensor3 (batch x) (height x) (width m))))
      as (d & Hr & _ & Hd).
    - exact Hbx.
    - exact I.
    - apply repr_upto_0; [lia|]. apply Tensor3_repr. exact HL.
    - intros k d1 Hk _ Hd1. destruct (Hoff k Hk) as (Hbo & Hbo0 & Hbolen).
      destruct (sgemm_fill (height x) (width m) (width x) fone fone
                  (data x) (data m) d1 (len x) (get x) (len m) (get m) L
                  (dot_value Blas x m) (fun _ => fzero)
                  (k * width x * height x) (boff k) (k * height x * width m))
        as (d2 & Hs & Hd2);
        [exact Hhx | exact Hwm | exact Hwx | apply wf_repr; exact Hx
        | apply wf_repr; exact Hm | eapply repr_upto_eq; [exact Hd1|lia]
        | nia | nia | exact Hbo0 | lia | nia | unfold L; nia | | ].
      + intros r c Hr1 Hc.
        replace (k * height x * width m + r * width m + c)
          with (k * (height x * width m) + r * width m + c) by lia.
        rewrite dot_value_at by assumption. unfold dot_op, dot_cell.
        rewrite Hbo. do 2 f_equal. apply accum_ext. intros l Hl.
        do 2 f_equal. lia.
      + exists d2. split; [exact Hs|]. split; [exact I|].
        eapply repr_upto_eq; [exact Hd2|lia].
    - exists d. split; [exact Hr|]. eapply repr_upto_all; [|exact Hd].
      unfold L. lia. }
  destruct (Z.eqb_spec (batch m) 1) as [Hb1|Hb1].
  - destruct (Hgen (fun _ => 0)) as (d & Hr & Hd).
    + intros k Hk. split; [reflexivity|]. nia.
    + rewrite Hr. cbn [bind]. unfold ret, dot_result. do 2 f_equal.
      apply repr_eq. exact Hd.
  - destruct (Hgen (fun k => k * width m * width x)) as (d & Hr & Hd).
    + intros k Hk. split; [lia|]. destruct Hb as [?|Hb]; [contradiction|]. nia.
    + rewrite Hr. cbn [bind]. unfold ret, dot_result. do 2 f_equal.
      apply repr_eq. exact Hd.
Qed.

(** A batch slice of a [dot] result is the [dot] of the slice with the
    matrix [m'] that [m] supplies for that batch. *)
Lemma batch_slice_dot bk (x m m' : t F) k :
  wf x -> wf m -> width x = height m -> 0 <= k < batch x ->
  batch m' = 1 -> height m' = height m -> width m' = width m ->
  (forall idx, 0 <= idx < height m * width m ->
     get m' idx =
     get m ((if batch m =? 1 then 0 else k * width x * width m) + idx)) ->
  batch_slice (dot_result bk x m) k = dot_result bk (batch_slice x k) m'.
Proof.
  intros Hx Hm Hwh Hk Hb' Hh' Hw' Hget.
  pose proof Hx as (Hbx & Hhx & Hwx & Hlx & _).
  pose proof Hm as (Hbm & Hhm & Hwm & Hlm & _).
  unfold dot_result, with_data, Tensor3.
  unfold batch_slice at 1. cbn [batch height width dim len data].
  change (height (batch_slice x k)) with (height x).
  change (batch (batch_slice x k)) with 1.
  rewrite Hw'. f_equal.
  rewrite (repr_eq _ _ _
             (repr_block _ (height x * width m * batch x) _
                (k * (height x * width m)) (height x * width m)
                (repr_tab (dot_value bk x m) (height x * width m * batch x)
                   ltac:(nia)) ltac:(nia) ltac:(nia) ltac:(nia))).
  replace (height x * width m * 1) with (height x * width m) by lia.
  apply tab_ext. intros idx Hidx.
  assert (Hmw : 0 < width m) by nia.
  pose proof (Z.div_mod idx (width m) ltac:(lia)) as Hdm.
  pose proof (Z.mod_pos_bound idx (width m) Hmw) as Hj.
  assert (Hi : 0 <= idx / width m < height x).
  { split; [apply Z.div_pos; lia|]. apply Z.div_lt_upper_bound; lia. }
  set (i := idx / width m) in *. set (j := idx mod width m) in *.
  replace (k * (height x * width m) + idx)
    with (k * (height x * width m) + i * width m + j) by lia.
  rewrite dot_value_at by assumption.
  replace idx with (0 * (height (batch_slice x k) * width m') + i * width m' + j)
    by (rewrite Hw'; lia).
  rewrite dot_value_at by (rewrite ?Hw'; assumption).
  rewrite Hb'. cbn [Z.eqb Pos.eqb]. f_equal. unfold dot_cell.
  change (width (batch_slice x k)) with (width x).
  change (height (batch_slice x k)) with (height x).
  apply accum_ext. intros h Hh.
  pose proof (idx2_bound _ _ _ _ Hi Hh) as Hih.
  rewrite get_batch_slice by (try assumption; lia).
  rewrite Hget, Hw'.
  - f_equal; f_equal; lia.
  - rewrite Hw'. apply idx2_bound; lia.
Qed.

Lemma get_batch_slice_right (x m : t F) k idx :
  wf m -> width x = height m -> batch m = batch x ->
  0 <= k < batch x -> 0 <= idx < height m * width m ->
  get (batch_slice m k) idx =
  get m ((if batch m =? 1 then 0 else k * width x * width m) + idx).
Proof.
  intros Hm Hwh Hb Hk Hidx.
  rewrite get_batch_slice by (try assumption; lia). f_equal.
  destruct (Z.eqb_spec (batch m) 1) as [Hb1|_]; nia.
Qed.

Lemma dot_both_spec bk (x m : t F) :
  wf x -> wf m -> width x = height m ->
  batch m = 1 \/ batch m = batch x ->
  dot bk x m = inr (dot_result bk x m).
Proof.
  intros Hx Hm Hwh Hb. destruct bk.
  - apply dot_blas_spec; assumption.
  - apply dot_spec; assumption.
Qed.

Lemma dot_result_rd bk (x m : t F) k i j :
  wf x -> wf m -> 0 <= k < batch x -> 0 <= i < height x -> 0 <= j < width m ->
  rd (data (dot_result bk x m)) (k * height x * width m + i * width m + j) =
  inr (dot_op bk
         (dot_cell x m (if batch m =? 1 then 0 else k * width x * width m)
            (k * height x * width x + i * width x) j)).
Proof.
  intros Hx Hm Hk Hi Hj.
  pose proof Hx as (Hbx & Hhx & Hwx & Hlx & _).
  pose proof (idx2_bound _ _ _ _ Hi Hj) as Hij.
  unfold dot_result, with_data. cbn [data].
  rewrite (repr_rd _ _ _ _
             (repr_tab (dot_value bk x m) (height x * width m * batch x)
                ltac:(nia))) by nia.
  replace (k * height x * width m + i * width m + j)
    with (k * (height x * width m) + i * width m + j) by lia.
  rewrite dot_value_at by assumption. reflexivity.
Qed.
End DotFacts.

(** * Accesses out of range *)

Section Bounds.
Context {F : Type} `{FloatOps F}.
Import Tensor.

Lemma for_by4_zero {S : Type} (body : Z -> S -> res S) (s : S) e :
  e <= 0 -> for_by4 (e * 4) body s = inr (0, s).
Proof.
  intros He. unfold for_by4. rewrite Z.quot_mul by lia.
  replace (Z.to_nat e) with O by lia. reflexivity.
Qed.

Lemma divide_short_tail (x m : t F) :
  wf x -> wf m ->
  batch m = batch x -> height m = height x -> width m = width x ->
  1 <= len x < 4 ->
  divide x m = inl OutOfRange.
Proof.
  intros Hx Hm Hb Hh Hw Hlen.
  pose proof Hx as (Hbx & Hhx & Hwx & Hlx & _).
  unfold divide. rewrite dims_assert_ok by congruence. cbn [bind].
  assert (Hb1 : 1 <= batch x) by nia.
  destruct (Z.eqb_spec (batch m) 1) as [Hm1|Hm1].
  - assert (Hs : width x * height x = len x) by nia.
    rewrite (for_lt_first_fails _ _ _ _ OutOfRange); [reflexivity|lia|].
    rewrite Hs.
    rewrite for_by4_zero by (pose proof (Z.quot_small (len x) 4); lia).
    cbn [bind fst snd].
    apply for_lt_first_fails; [lia|]. unfold elem.
    rewrite rd_oob by lia. reflexivity.
  - rewrite for_by4_zero by (pose proof (Z.quot_small (len x) 4); lia).
    cbn [bind fst snd].
    rewrite (for_lt_first_fails _ _ _ _ OutOfRange); [reflexivity|lia|].
    unfold elem. rewrite rd_oob by lia. reflexivity.
Qed.

Lemma sum_fallback_overrun (x : t F) :
  wf x -> 2 <= batch x -> 2 <= width x * height x ->
  sum Fallback x = inl OutOfRange.
Proof.
  intros Hx Hb Hs. pose proof Hx as (Hbx & Hhx & Hwx & Hlx & _).
  unfold sum.
  set (body := fun k d =>
                 d <- wr d (k * width x * height x) fzero ;;
                 for_lt 0 (height x * width x)
                   (fun i d =>
                      acc <- rd d (k * width x * height x) ;;
                      a <- rd (data x) (k * width x * height x + i) ;;
                      wr d (k * width x * height x) (fadd acc a)) d).
  assert (Hpres : forall (i : Z) (s s' : list F),
            Z.of_nat (length s) = batch x -> body i s = inr s' ->
            Z.of_nat (length s') = batch x).
  { intros k d d' Hlen Hbody. unfold body in Hbody.
    destruct (wr d (k * width x * height x) fzero) as [e|d1] eqn:Hw;
      cbn [bind] in Hbody; [discriminate|].
    apply wr_length in Hw.
    eapply (for_lt_preserves (fun d => Z.of_nat (length d) = batch x));
      [|rewrite Hw; exact Hlen|exact Hbody].
    intros i d2 d3 Hlen2 Hb2. cbv beta in Hb2.
    destruct (rd d2 (k * width x * height x)) as [e|acc];
      cbn [bind] in Hb2; [discriminate|].
    destruct (rd (data x) (k * width x * height x + i)) as [e|a];
      cbn [bind] in Hb2; [discriminate|].
    apply wr_length in Hb2. lia. }
  destruct (for_lt_fails_at (fun d => Z.of_nat (length d) = batch x)
              0 (batch x) body (data (Tensor3 (batch x) 1 1)) (batch x - 1))
    as [e He].
  - cbn [Tensor3 data]. rewrite length_replicate. lia.
  - exact Hpres.
  - lia.
  - intros d Hlen. exists OutOfRange. unfold body.
    rewrite wr_oob by nia. reflexivity.
  - rewrite He. cbn [bind]. f_equal.
    assert (Hoor : only_oor (for_lt 0 (batch x) body (data (Tensor3 (batch x) 1 1)))).
    { apply only_oor_for_lt. intros k d. unfold body.
      apply only_oor_bind; [apply only_oor_wr|]. intros d1.
      apply only_oor_for_lt. intros i d2.
      apply only_oor_bind; [apply only_oor_rd|]. intros acc.
      apply only_oor_bind; [apply only_oor_rd|]. intros a.
      apply only_oor_wr. }
    apply Hoor. exact He.
Qed.
End Bounds.

(** * Facts about [average] *)

Section Average.
Context {F : Type} `{FloatOps F}.
Import Tensor.

Lemma average_spec (x : t F) :
  wf x -> batch x <> 1 ->
  average x =
  inr (with_data (Tensor3 1 (height x) (width x))
         (tab (average_value x) (height x * width x))).
Proof.
  intros Hx Hb1. pose proof Hx as (Hbx & Hhx & Hwx & Hlx & _).
  unfold average. destruct (Z.eqb_spec (batch x) 1) as [?|_]; [contradiction|].
  set (L := height x * width x).
  assert (HL : 0 <= L) by (unfold L; nia).
  destruct (fill_blocks (fun d => d) (fun _ => True)
              (fun i d =>
                 for_lt 0 (width x)
                   (fun j d =>
                      d <- wr d (i * width x + j) fzero ;;
                      d <- for_lt 0 (batch x)
                             (fun k d =>
                                acc <- rd d (i * width x + j) ;;
                                a <- rd (data x)
                                       (k * width x * height x + i * width x + j) ;;
                                wr d (i * width x + j) (fadd acc a)) d ;;
                      acc <- rd d (i * width x + j) ;;
                      wr d (i * width x + j) (fdiv acc (of_int (batch x)))) d)
              (average_value x) (fun _ => fzero) L 0 (height x) (width x)
              (data (Tensor3 1 (height x) (width x))))
    as (d & Hr & _ & Hd).
  - exact Hhx.
  - exact I.
  - apply repr_upto_0; [lia|].
    replace L with (height x * width x * 1) by (unfold L; lia).
    apply Tensor3_repr. nia.
  - intros i d1 Hi _ Hd1.
    destruct (fill_blocks (fun d => d) (fun _ => True)
                (fun j d =>
                   d <- wr d (i * width x + j) fzero ;;
                   d <- for_lt 0 (batch x)
                          (fun k d =>
                             acc <- rd d (i * width x + j) ;;
                             a <- rd (data x)
                                    (k * width x * height x + i * width x + j) ;;
                             wr d (i * width x + j) (fadd acc a)) d ;;
                   acc <- rd d (i * width x + j) ;;
                   wr d (i * width x + j) (fdiv acc (of_int (batch x))))
                (average_value x) (fun _ => fzero) L (0 + i * width x)
                (width x) 1 d1)
      as (d2 & Hr2 & _ & Hd2).
    + exact Hwx.
    + exact I.
    + exact Hd1.
    + intros j d3 Hj _ Hd3.
      pose proof (idx2_bound _ _ _ _ Hi Hj) as Hij. fold L in Hij.
      set (n := i * width x + j) in *.
      assert (Hd3' : repr d3 L (upto (average_value x) (fun _ => fzero) n)).
      { eapply repr_upto_eq; [exact Hd3|unfold n; lia]. }
      destruct (repr_upto_upd d3 L _ _ n fzero Hd3' Hij) as (d4 & Hw4 & Hd4).
      rewrite Hw4. cbn [bind].
      destruct (accum_cell fadd
                  (fun k => get x (k * width x * height x + n)) d4 L _ n fzero
                  (batch x)
                  (fun k d =>
                     acc <- rd d n ;;
                     a <- rd (data x) (k * width x * height x + i * width x + j) ;;
                     wr d n (fadd acc a)) Hd4 Hij) as (d5 & Hl5 & Hd5).
      * intros k d0 acc Hk Hd0.
        rewrite (repr_upd_rd _ _ _ _ _ Hd0 Hij). cbn [bind].
        rewrite (repr_rd _ _ _ _ (wf_repr x Hx)) by (unfold n, L in *; nia).
        cbn [bind].
        destruct (repr_upd_wr d0 L _ n acc
                    (fadd acc (get x (k * width x * height x + i * width x + j)))
                    Hd0 Hij) as (d6 & Hw6 & Hd6).
        exists d6. split; [exact Hw6|].
        replace (k * width x * height x + n)
          with (k * width x * height x + i * width x + j) by (unfold n; lia).
        exact Hd6.
      * rewrite Hl5. cbn [bind].
        rewrite (repr_upd_rd _ _ _ _ _ Hd5 Hij). cbn [bind].
        destruct (repr_upd_wr d5 L _ n _
                    (fdiv (accum fadd fzero
                             (fun k => get x (k * width x * height x + n))
                             (batch x)) (of_int (batch x))) Hd5 Hij)
          as (d7 & Hw7 & Hd7).
        exists d7. split; [exact Hw7|]. split; [exact I|].
        eapply repr_upto_eq; [apply repr_upd_upto; exact Hd7|unfold n; lia].
    + exists d2. split; [exact Hr2|]. split; [exact I|].
      eapply repr_upto_eq; [exact Hd2|lia].
  - rewrite Hr. cbn [bind]. unfold ret. do 2 f_equal. apply repr_eq.
    eapply repr_upto_all; [|exact Hd]. unfold L. lia.
Qed.
End Average.

(** * Facts about [save] and [read] *)

Section IOFacts.
Context {F : Type} `{Tensor.FloatRepr F}.
Import Tensor.

Lemma raw_bytes_snoc (v : list F) a :
  raw_bytes (v ++ [a]) = raw_bytes v ++ float_bytes a.
Proof.
  unfold raw_bytes. rewrite map_app, concat_app. simpl.
  rewrite app_nil_r. reflexivity.
Qed.

Lemma raw_bytes_length (v : list F) :
  Forall faithful v -> length (raw_bytes v) = (sizeof_float * length v)%nat.
Proof.
  induction 1 as [|a v [Hlen _] _ IH]; [reflexivity|].
  unfold raw_bytes in *. cbn [map concat]. rewrite length_app, IH, Hlen.
  cbn [length]. lia.
Qed.

Lemma save_spec (x : t F) (file : ofstream) :
  wf x -> save x file = inr (file ++ raw_bytes (data x)).
Proof.
  intros (Hb & Hh & Hw & Hl & Hlen). unfold save.
  assert (HL : 0 <= len x) by lia.
  destruct (for_lt_inv
              (fun k out => out = file ++ raw_bytes (take (Z.to_nat k) (data x)))
              0 (len x)
              (fun i file => a <- rd (data x) i ;; ret (ofstream_write file a))
              file) as (out & Hr & Hout).
  - exact HL.
  - simpl. unfold raw_bytes. simpl. rewrite app_nil_r. reflexivity.
  - intros k out Hk ->.
    rewrite (repr_rd _ _ _ _ (repr_self (float_of_bytes []) (data x))) by lia.
    cbn [bind]. eexists. split; [reflexivity|].
    unfold ofstream_write.
    replace (Z.to_nat (k + 1)) with (Datatypes.S (Z.to_nat k)) by lia.
    assert (Hlk : data x !! Z.to_nat k = Some (at_ (float_of_bytes []) (data x) k)).
    { apply (repr_self (float_of_bytes []) (data x)). lia. }
    rewrite (take_S_r _ _ _ Hlk), raw_bytes_snoc, app_assoc. reflexivity.
  - subst out. rewrite firstn_all2 in Hr by lia. exact Hr.
Qed.

Lemma ifstream_read_faithful (a old : F) (bs : list Byte.byte) :
  faithful a ->
  ifstream_read (mk_ifstream (float_bytes a ++ bs) false) old =
  (mk_ifstream bs false, a).
Proof.
  intros [Hlen Hrt]. unfold ifstream_read. cbn [failbit pending].
  rewrite length_app, Hlen.
  replace (sizeof_float <=? sizeof_float + length bs)%nat with true
    by (symmetry; apply Nat.leb_le; lia).
  rewrite <- Hlen at 1. rewrite drop_app_length.
  rewrite <- Hlen. rewrite take_app_length. rewrite Hrt. reflexivity.
Qed.

Lemma read_spec (x y : t F) (rest : list Byte.byte) :
  wf x -> wf y -> len y = len x -> Forall faithful (data x) ->
  read y (mk_ifstream (raw_bytes (data x) ++ rest) false) =
  inr (with_data y (data x), mk_ifstream rest false).
Proof.
  intros (_ & _ & _ & _ & Hlx) (Hb & Hh & Hw & Hl & Hly) Hlen Hf.
  unfold read.
  assert (HL : 0 <= len y) by lia.
  destruct (for_lt_inv
              (fun k (st : list F * ifstream) =>
                 fst st = take (Z.to_nat k) (data x) ++ drop (Z.to_nat k) (data y) /\
                 snd st = mk_ifstream
                            (raw_bytes (drop (Z.to_nat k) (data x)) ++ rest) false)
              0 (len y)
              (fun i (st : list F * ifstream) =>
                 old <- rd (fst st) i ;;
                 let r := ifstream_read (snd st) old in
                 d <- wr (fst st) i (snd r) ;;
                 ret (d, fst r))
              (data y, mk_ifstream (raw_bytes (data x) ++ rest) false))
    as (st & Hr & Hd & Hs).
  - exact HL.
  - split; reflexivity.
  - intros k [d s] Hk [Hd Hs]. cbn [fst snd] in *. subst d s.
    assert (Hxk : exists a, data x !! Z.to_nat k = Some a).
    { apply lookup_lt_is_Some. lia. }
    destruct Hxk as [a Hxk].
    assert (Hyk : exists b, data y !! Z.to_nat k = Some b).
    { apply lookup_lt_is_Some. lia. }
    destruct Hyk as [b Hyk].
    assert (Hfa : faithful a).
    { eapply Forall_lookup_1; eassumption. }
    assert (Hlt : length (take (Z.to_nat k) (data x)) = Z.to_nat k).
    { rewrite length_take. lia. }
    assert (Hrd : rd (take (Z.to_nat k) (data x) ++ drop (Z.to_nat k) (data y)) k
                  = inr b).
    { unfold rd. destruct (Z.ltb_spec k 0); [lia|].
      rewrite lookup_app_r by lia. rewrite Hlt, Nat.sub_diag.
      rewrite lookup_drop, Nat.add_0_r, Hyk. reflexivity. }
    assert (Hread :
      ifstream_read
        (mk_ifstream (raw_bytes (drop (Z.to_nat k) (data x)) ++ rest) false) b =
      (mk_ifstream
         (raw_bytes (drop (Datatypes.S (Z.to_nat k)) (data x)) ++ rest) false,
       a)).
    { rewrite (drop_S _ _ _ Hxk). unfold raw_bytes. cbn [map concat].
      rewrite <- app_assoc. apply ifstream_read_faithful. exact Hfa. }
    rewrite Hrd. cbn [bind]. cbv zeta. rewrite Hread. cbn [fst snd].
    unfold wr. rewrite length_app, Hlt, length_drop.
    destruct (Z.leb_spec 0 k); [|lia].
    destruct (Z.ltb_spec k (Z.of_nat (Z.to_nat k + (length (data y) - Z.to_nat k))));
      [|lia].
    cbn [andb bind ret]. eexists. split; [reflexivity|]. cbn [fst snd].
    replace (Z.to_nat (k + 1)) with (Datatypes.S (Z.to_nat k)) by lia.
    split; [|reflexivity].
    rewrite (take_S_r _ _ _ Hxk).
    rewrite insert_app_r_alt by lia. rewrite Hlt, Nat.sub_diag.
    rewrite (drop_S _ _ _ Hyk). cbn [insert list_insert].
    rewrite <- app_assoc. reflexivity.
  - destruct st as [d s]. cbn [fst snd] in *. subst d s.
    rewrite firstn_all2 in Hr by lia.
    rewrite (drop_ge (data y)) in Hr by lia.
    rewrite (drop_ge (data x)) in Hr by lia.
    rewrite app_nil_r in Hr. unfold raw_bytes in Hr. cbn [map concat app] in Hr.
    refine (eq_trans
              (f_equal
                 (fun l : res (list F * ifstream) =>
                    bind l (fun st => ret (with_data y (fst st), snd st)))
                 Hr) _).
    reflexivity.
Qed.
End IOFacts.

Lemma Z_of_byte_of_Z n : Z_of_byte (byte_of_Z n) = n mod 2 ^ 8.
Proof.
  unfold Z_of_byte, byte_of_Z. change 255 with (Z.ones 8).
  rewrite Z.land_ones by lia.
  pose proof (Z.mod_pos_bound n (2 ^ 8) ltac:(lia)) as Hb.
  destruct (Strings.Byte.of_N (Z.to_N (n mod 2 ^ 8))) as [b|] eqn:E.
  - apply Strings.Byte.to_of_N in E. rewrite E. lia.
  - apply Strings.Byte.of_N_None_iff in E. lia.
Qed.

Lemma le32_roundtrip w : 0 <= w < 2 ^ 32 -> le32_of_bytes (le32_bytes w) = w.
Proof.
  intros Hw. unfold le32_bytes, le32_of_bytes. rewrite !Z_of_byte_of_Z.
  apply Z.bits_inj'. intros n Hn.
  rewrite !Z.lor_spec.
  assert (Hhigh : 32 <= n -> Z.testbit w n = false).
  { intros Hge. rewrite <- (Z.mod_small w (2 ^ 32)) by lia.
    apply Z.mod_pow2_bits_high. lia. }
  destruct (Z.lt_ge_cases n 8) as [H8|H8].
  - rewrite Z.mod_pow2_bits_low by lia.
    rewrite !Z.shiftl_spec_low by lia.
    rewrite !orb_false_r. reflexivity.
  - rewrite Z.mod_pow2_bits_high by lia. rewrite orb_false_l.
    rewrite !Z.shiftl_spec by lia.
    destruct (Z.lt_ge_cases n 16) as [H16|H16].
    + rewrite Z.mod_pow2_bits_low by lia. rewrite Z.shiftr_spec by lia.
      rewrite (Z.testbit_neg_r _ (n - 16)) by lia.
      rewrite (Z.testbit_neg_r _ (n - 24)) by lia.
      rewrite !orb_false_r. f_equal. lia.
    + rewrite (Z.mod_pow2_bits_high _ 8 (n - 8)) by lia. rewrite orb_false_l.
      destruct (Z.lt_ge_cases n 24) as [H24|H24].
      * rewrite Z.mod_pow2_bits_low by lia. rewrite Z.shiftr_spec by lia.
        rewrite (Z.testbit_neg_r _ (n - 24)) by lia.
        rewrite orb_false_r. f_equal. lia.
      * rewrite (Z.mod_pow2_bits_high _ 8 (n - 16)) by lia.
        rewrite orb_false_l.
        destruct (Z.lt_ge_cases n 32) as [H32|H32].
        -- rewrite Z.mod_pow2_bits_low by lia. rewrite Z.shiftr_spec by lia.
           f_equal. lia.
        -- rewrite Z.mod_pow2_bits_high by lia. symmetry. apply Hhigh. lia.
Qed.

(** * Facts about [softmaxPrime] *)

Section SoftmaxPrimeFacts.
Context {F : Type} `{FloatOps F}.
Import ActivationLayer.

Lemma NTensor_wf_repr (x : NTensor.t F) :
  NTensor.wf x ->
  repr (NTensor.data x) (NTensor.length x) (at_ fzero (NTensor.data x)).
Proof.
  intros (_ & _ & _ & _ & Hlen). rewrite <- Hlen. apply repr_self.
Qed.

End SoftmaxPrimeFacts.

(** * Facts about [Tensor::softmax] *)

Section TensorSoftmaxFacts.
Context {F : Type} `{FloatOps F} `{DoubleOps F}.
Import Tensor.

Lemma memset0_spec (v : list F) L g :
  0 <= L -> repr v L g ->
  exists v', memset0 v L = inr v' /\ repr v' L (fun _ => fzero).
Proof.
  intros HL Hv. unfold memset0.
  destruct (fill_blocks (fun d => d) (fun _ => True)
              (fun i v => wr v i fzero) (fun _ => fzero) g L 0 L 1 v)
    as (v' & Hr & _ & Hv').
  - exact HL.
  - exact I.
  - apply repr_upto_0; [lia|exact Hv].
  - intros i d Hi _ Hd.
    destruct (repr_upto_wr d L (fun _ => fzero) g i fzero) as (d' & Hw & Hd');
      [eapply repr_upto_eq; [exact Hd|lia] | lia | reflexivity | ].
    exists d'. split; [exact Hw|]. split; [exact I|].
    eapply repr_upto_eq; [exact Hd'|lia].
  - exists v'. split; [exact Hr|]. eapply repr_upto_all; [|exact Hv']. lia.
Qed.

Lemma tensor_softmax_spec (x : t F) :
  wf x ->
  softmax x =
  inr (with_data (Tensor3 (batch x) (height x) (width x))
         (tab (softmax_value x) (len x))).
Proof.
  intros Hx. pose proof Hx as (Hb & Hh & Hw & Hlx & _).
  unfold softmax.
  set (b := batch x) in *. set (h := height x) in *. set (w := width x) in *.
  assert (HR : 0 <= h * 1 * b) by nia.
  destruct (memset0_spec (data (Tensor3 b h 1)) (h * 1 * b) (fun _ => fzero) HR
              (Tensor3_repr b h 1 HR)) as (dv0 & Hm & Hdv0).
  change (len (Tensor3 b h 1)) with (h * 1 * b). rewrite Hm. cbn [bind].
  set (fdv := fun r => softmax_divisor x (r * w)).
  (* the divisors *)
  assert (Hdiv : exists dv,
    for_lt 0 b
      (fun k dv =>
         for_lt 0 h
           (fun i dv =>
              for_lt 0 w
                (fun j dv =>
                   acc <- rd dv (k * h + i) ;;
                   a <- rd (data x) (k * h * w + i * w + j) ;;
                   wr dv (k * h + i) (narrow (dadd (widen acc) (dexp (widen a))))) dv) dv) dv0 = inr dv /\
    repr dv (h * 1 * b) fdv).
  { destruct (fill_blocks (fun d => d) (fun _ => True)
                (fun k dv =>
                   for_lt 0 h
                     (fun i dv =>
                        for_lt 0 w
                          (fun j dv =>
                             acc <- rd dv (k * h + i) ;;
                             a <- rd (data x) (k * h * w + i * w + j) ;;
                             wr dv (k * h + i) (narrow (dadd (widen acc) (dexp (widen a))))) dv) dv)
                fdv (fun _ => fzero) (h * 1 * b) 0 b h dv0)
      as (dv & Hr & _ & Hdv).
    - exact Hb.
    - exact I.
    - apply repr_upto_0; [lia|exact Hdv0].
    - intros k d1 Hk _ Hd1.
      destruct (fill_blocks (fun d => d) (fun _ => True)
                  (fun i dv =>
                     for_lt 0 w
                       (fun j dv =>
                          acc <- rd dv (k * h + i) ;;
                          a <- rd (data x) (k * h * w + i * w + j) ;;
                          wr dv (k * h + i) (narrow (dadd (widen acc) (dexp (widen a))))) dv)
                  fdv (fun _ => fzero) (h * 1 * b) (0 + k * h) h 1 d1)
        as (d2 & Hr2 & _ & Hd2).
      + exact Hh.
      + exact I.
      + exact Hd1.
      + intros i d3 Hi _ Hd3.
        pose proof (idx2_bound _ _ _ _ Hk Hi) as Hki.
        set (n := k * h + i) in *.
        assert (Hd3' : repr d3 (h * 1 * b)
                         (upd (upto fdv (fun _ => fzero) n) n fzero)).
        { eapply repr_ext; [exact Hd3|]. intros q Hq. unfold upd, upto.
          zcases; try lia; reflexivity. }
        destruct (accum_cell add_exp (fun j => get x (n * w + j)) d3
                    (h * 1 * b) _ n fzero w
                    (fun j dv =>
                       acc <- rd dv n ;;
                       a <- rd (data x) (k * h * w + i * w + j) ;;
                       wr dv n (narrow (dadd (widen acc) (dexp (widen a))))) Hd3' ltac:(lia))
          as (d4 & Hl4 & Hd4).
        * intros j d0 acc Hj Hd0.
          rewrite (repr_upd_rd _ _ _ _ _ Hd0) by lia. cbn [bind].
          pose proof (idx2_bound _ _ _ _ Hki Hj) as Hkij.
          rewrite (repr_rd _ _ _ _ (wf_repr x Hx)) by (unfold n in *; lia).
          cbn [bind].
          destruct (repr_upd_wr d0 (h * 1 * b) _ n acc
                      (add_exp acc (get x (k * h * w + i * w + j)))
                      Hd0 ltac:(lia)) as (d6 & Hw6 & Hd6).
          exists d6. split; [exact Hw6|].
          replace (n * w + j) with (k * h * w + i * w + j) by (unfold n; lia).
          exact Hd6.
        * exists d4. split; [exact Hl4|]. split; [exact I|].
          eapply repr_upto_eq; [apply repr_upd_upto; exact Hd4|unfold n; lia].
      + exists d2. split; [exact Hr2|]. split; [exact I|].
        eapply repr_upto_eq; [exact Hd2|lia].
    - exists dv. split; [exact Hr|]. eapply repr_upto_all; [|exact Hdv]. lia. }
  destruct Hdiv as (dv & Hrdv & Hdv). rewrite Hrdv. cbn [bind].
  (* the quotients *)
  destruct (fill_blocks (fun d => d) (fun _ => True)
              (fun k d =>
                 for_lt 0 h
                   (fun i d =>
                      for_lt 0 w
                        (fun j d =>
                           a <- rd (data x) (k * h * w + i * w + j) ;;
                           s <- rd dv (k * h + i) ;;
                           wr d (k * h * w + i * w + j) (narrow (ddiv (dexp (widen a)) (widen s)))) d) d)
              (softmax_value x) (fun _ => fzero) (len x) 0 b (h * w)
              (data (Tensor3 b h w)))
    as (d & Hr & _ & Hd).
  - exact Hb.
  - exact I.
  - apply repr_upto_0; [lia|]. rewrite Hlx. apply Tensor3_repr. nia.
  - intros k d1 Hk _ Hd1.
    destruct (fill_blocks (fun d => d) (fun _ => True)
                (fun i d =>
                   for_lt 0 w
                     (fun j d =>
                        a <- rd (data x) (k * h * w + i * w + j) ;;
                        s <- rd dv (k * h + i) ;;
                        wr d (k * h * w + i * w + j) (narrow (ddiv (dexp (widen a)) (widen s)))) d)
                (softmax_value x) (fun _ => fzero) (len x)
                (0 + k * (h * w)) h w d1)
      as (d2 & Hr2 & _ & Hd2).
    + exact Hh.
    + exact I.
    + exact Hd1.
    + intros i d3 Hi _ Hd3.
      pose proof (idx2_bound _ _ _ _ Hk Hi) as Hki.
      destruct (fill_blocks (fun d => d) (fun _ => True)
                  (fun j d =>
                     a <- rd (data x) (k * h * w + i * w + j) ;;
                     s <- rd dv (k * h + i) ;;
                     wr d (k * h * w + i * w + j) (narrow (ddiv (dexp (widen a)) (widen s))))
                  (softmax_value x) (fun _ => fzero) (len x)
                  (0 + k * (h * w) + i * w) w 1 d3)
        as (d4 & Hr4 & _ & Hd4).
      * exact Hw.
      * exact I.
      * exact Hd3.
      * intros j d5 Hj _ Hd5.
        pose proof (idx2_bound _ _ _ _ Hki Hj) as Hkij.
        rewrite (repr_rd _ _ _ _ (wf_repr x Hx)) by lia. cbn [bind].
        rewrite (repr_rd _ _ _ _ Hdv) by lia. cbn [bind].
        destruct (repr_upto_wr d5 (len x) (softmax_value x) (fun _ => fzero)
                    (k * h * w + i * w + j)
                    (narrow (ddiv (dexp (widen (get x (k * h * w + i * w + j))))
                               (widen (fdv (k * h + i))))))
          as (d6 & Hw6 & Hd6).
        -- eapply repr_upto_eq; [exact Hd5|lia].
        -- lia.
        -- unfold softmax_value, fdv. fold w.
           replace (k * h * w + i * w + j) with ((k * h + i) * w + j) by lia.
           destruct (decode2 w (k * h + i) j Hj) as [-> _]. reflexivity.
        -- exists d6. split; [exact Hw6|]. split; [exact I|].
           eapply repr_upto_eq; [exact Hd6|lia].
      * exists d4. split; [exact Hr4|]. split; [exact I|].
        eapply repr_upto_eq; [exact Hd4|lia].
    + exists d2. split; [exact Hr2|]. split; [exact I|].
      eapply repr_upto_eq; [exact Hd2|lia].
  - rewrite Hr. cbn [bind]. unfold ret. do 2 f_equal. apply repr_eq.
    eapply repr_upto_all; [|exact Hd]. lia.
Qed.
End TensorSoftmaxFacts.

(** * Facts about [ActivationLayer::softmax] *)

Section ActivationSoftmaxFacts.
Context {F : Type} `{FloatOps F} `{ExpOps F}.
Import ActivationLayer.

Lemma max_pos_range (p : list F) first n :
  1 <= n -> first <= max_pos p first n < first + n.
Proof.
  intros Hn. unfold max_pos.
  replace (first + n) with (first + 1 + (n - 1)) by lia.
  apply (accum_ind _ first (fun t => first + 1 + t)
           (fun t largest => first <= largest < first + 1 + t)); [lia| |lia].
  intros t a Ht Ha. destruct (fltb _ _); lia.
Qed.

(** [max_element] on a buffer that agrees with [p] on the block. *)
Lemma max_element_spec (dp p : list F) (first n : Z) L h :
  repr dp L h -> 1 <= n -> 0 <= first -> first + n <= L ->
  (forall i, first <= i < first + n -> h i = at_ fzero p i) ->
  max_element dp first (first + n) = inr (max_pos p first n).
Proof.
  intros Hdp Hn Hf HL Hh. unfold max_element.
  destruct (Z.eqb_spec first (first + n)) as [?|_]; [lia|].
  destruct (for_lt_inv
              (fun j largest =>
                 first <= largest < j /\
                 largest = accum (fun largest i =>
                                    if fltb (at_ fzero p largest) (at_ fzero p i)
                                    then i else largest)
                             first (fun t => first + 1 + t) (j - (first + 1)))
              (first + 1) (first + n)
              (fun i largest =>
                 a <- rd dp largest ;;
                 b <- rd dp i ;;
                 ret (if fltb a b then i else largest)) first)
    as (r & Hr & _ & Hacc).
  - lia.
  - split; [lia|]. rewrite accum_0 by lia. reflexivity.
  - intros j largest Hj [Hl Hacc].
    rewrite (repr_rd _ _ _ _ Hdp) by lia. cbn [bind].
    rewrite (repr_rd _ _ _ _ Hdp) by lia. cbn [bind].
    eexists. split; [reflexivity|]. rewrite !Hh by lia. split.
    + destruct (fltb _ _); lia.
    + replace (j + 1 - (first + 1)) with (j - (first + 1) + 1) by lia.
      rewrite accum_succ by lia. rewrite <- Hacc.
      replace (first + 1 + (j - (first + 1))) with j by lia. reflexivity.
  - rewrite Hr. unfold max_pos. rewrite Hacc. do 2 f_equal. lia.
Qed.

(** A loop over the cells [lo .. hi - 1] that fills them in order. *)
Lemma fill_range (body : Z -> list F -> res (list F)) (f g : Z -> F)
    (L lo hi : Z) (d : list F) :
  lo <= hi -> repr d L (upto f g lo) ->
  (forall j d, lo <= j < hi -> repr d L (upto f g j) ->
     exists d', body j d = inr d' /\ repr d' L (upto f g (j + 1))) ->
  exists d', for_lt lo hi body d = inr d' /\ repr d' L (upto f g hi).
Proof.
  intros Hle Hd Hbody.
  apply (for_lt_inv (fun j d => repr d L (upto f g j))); assumption.
Qed.

Lemma NTensor_apply_spec (f : F -> F) (x output : NTensor.t F) hx :
  repr (NTensor.data x) (NTensor.length x) hx -> 0 <= NTensor.length x ->
  NTensor.wf output ->
  NTensor.uninitialized output = true \/ NTensor.dim output = NTensor.dim x ->
  NTensor.apply f x output =
  inr (NTensor.mk (NTensor.dim x) (tab (fun i => f (hx i)) (NTensor.length x))).
Proof.
  intros Hx HL Ho Hout. unfold NTensor.apply. cbv zeta.
  set (L := NTensor.length x) in *.
  set (out := if NTensor.uninitialized output
              then NTensor.Tensor_ (NTensor.dim x) else output).
  assert (Hodim : NTensor.dim out = NTensor.dim x).
  { unfold out. destruct (NTensor.uninitialized output); [reflexivity|].
    destruct Hout as [?|?]; [discriminate|assumption]. }
  assert (Hout0 : exists g, repr (NTensor.data out) L g).
  { unfold out. destruct (NTensor.uninitialized output) eqn:Hu.
    - exists (fun _ => fzero). apply repr_replicate. exact HL.
    - destruct Hout as [?|Hod]; [discriminate|].
      exists (at_ fzero (NTensor.data output)).
      replace L with (NTensor.length output)
        by (unfold L, NTensor.length; rewrite Hod; reflexivity).
      apply NTensor_wf_repr. exact Ho. }
  destruct Hout0 as [g Hg]. rewrite Hodim.
  lazymatch goal with
  | |- context [for_lt 0 L ?body ?init] =>
      destruct (fill_blocks (fun d => d) (fun _ => True) body
                  (fun i => f (hx i)) g L 0 L 1 init) as (d1 & Hr1 & _ & Hd1)
  end.
  - exact HL.
  - exact I.
  - apply repr_upto_0; [lia|exact Hg].
  - intros i d Hi _ Hd. cbv beta.
    rewrite (repr_rd _ _ _ _ Hx) by lia. cbn [bind].
    destruct (repr_upto_wr d L (fun i => f (hx i)) g i (f (hx i)))
      as (d' & Hw & Hd');
      [eapply repr_upto_eq; [exact Hd|lia] | lia | reflexivity | ].
    exists d'. split; [exact Hw|]. split; [exact I|].
    eapply repr_upto_eq; [exact Hd'|lia].
  - rewrite Hr1. cbn [bind]. unfold ret. do 2 f_equal. apply repr_eq.
    eapply repr_upto_all; [|exact Hd1]. lia.
Qed.

Lemma NTensor_sum_by_batch_spec (x : NTensor.t F) hx :
  repr (NTensor.data x) (NTensor.length x) hx ->
  0 <= NTensor.batch x -> 0 <= TensorDim.getFeatureLen (NTensor.dim x) ->
  NTensor.sum_by_batch x =
  inr (NTensor.mk (TensorDim.mk (NTensor.batch x) 1 1 1)
         (tab (fun k =>
                 accum fadd fzero
                   (fun i => hx (k * TensorDim.getFeatureLen (NTensor.dim x) + i))
                   (TensorDim.getFeatureLen (NTensor.dim x)))
            (NTensor.batch x))).
Proof.
  intros Hx Hb Hfl. unfold NTensor.sum_by_batch. cbv zeta.
  set (b := NTensor.batch x) in *.
  set (fl := TensorDim.getFeatureLen (NTensor.dim x)) in *.
  assert (HL : NTensor.length x = b * fl).
  { unfold NTensor.length, TensorDim.getDataLen, b, fl, NTensor.batch,
      TensorDim.getFeatureLen. lia. }
  rewrite HL in Hx.
  set (f := fun k => accum fadd fzero (fun i => hx (k * fl + i)) fl).
  lazymatch goal with
  | |- context [for_lt 0 b ?body ?init] =>
      destruct (fill_blocks (fun d => d) (fun _ => True) body
                  f (fun _ => fzero) b 0 b 1 init) as (d1 & Hr1 & _ & Hd1)
  end.
  - exact Hb.
  - exact I.
  - apply repr_upto_0; [lia|]. cbn [NTensor.Tensor_ NTensor.data].
    replace b with (TensorDim.getDataLen (TensorDim.mk b 1 1 1)) at 2
      by (unfold TensorDim.getDataLen; cbn; lia).
    apply repr_replicate. unfold TensorDim.getDataLen; cbn; lia.
  - intros k d Hk _ Hd. cbv beta.
    rewrite (accum_loop fadd (fun i => hx (k * fl + i)) fl).
    + cbn [bind].
      destruct (repr_upto_wr d b f (fun _ => fzero) k (f k))
        as (d' & Hw & Hd');
        [eapply repr_upto_eq; [exact Hd|lia] | lia | reflexivity | ].
      exists d'. split; [exact Hw|]. split; [exact I|].
      eapply repr_upto_eq; [exact Hd'|lia].
    + intros i acc Hi.
      pose proof (idx2_bound _ _ _ _ Hk Hi) as Hki.
      rewrite (repr_rd _ _ _ _ Hx) by lia. reflexivity.
  - rewrite Hr1. cbn [bind]. unfold ret. do 2 f_equal. apply repr_eq.
    eapply repr_upto_all; [|exact Hd1]. lia.
Qed.

Lemma shifted_at (x : NTensor.t F) k i :
  0 <= i < TensorDim.getFeatureLen (NTensor.dim x) ->
  shifted x (k * TensorDim.getFeatureLen (NTensor.dim x) + i) =
  fadd (at_ fzero (NTensor.data x)
          (k * TensorDim.getFeatureLen (NTensor.dim x) + i))
    (fmul (fopp fone)
       (block_max (NTensor.data x)
          (k * TensorDim.getFeatureLen (NTensor.dim x))
          (TensorDim.getFeatureLen (NTensor.dim x)))).
Proof.
  intros Hi. unfold shifted. cbv zeta.
  destruct (decode2 _ k i Hi) as [-> _]. reflexivity.
Qed.

Lemma layer_softmax_value_at (x : NTensor.t F) k i :
  0 <= i < TensorDim.getFeatureLen (NTensor.dim x) ->
  softmax_value x (k * TensorDim.getFeatureLen (NTensor.dim x) + i) =
  fdiv (fexp (shifted x (k * TensorDim.getFeatureLen (NTensor.dim x) + i)))
    (row_sum x (k * TensorDim.getFeatureLen (NTensor.dim x))).
Proof.
  intros Hi. unfold softmax_value. cbv zeta.
  destruct (decode2 _ k i Hi) as [-> _]. reflexivity.
Qed.

Lemma layer_softmax_spec (x output : NTensor.t F) :
  NTensor.wf x -> NTensor.wf output ->
  1 <= TensorDim.getFeatureLen (NTensor.dim x) ->
  NTensor.uninitialized output = true \/ NTensor.dim output = NTensor.dim x ->
  softmax x output =
  inr (NTensor.mk (NTensor.dim x) (tab (softmax_value x) (NTensor.length x))).
Proof.
  intros Hx Ho Hfl Hout. pose proof Hx as (Hb & Hc & Hh & Hw & Hlen).
  unfold softmax. cbv zeta.
  set (b := NTensor.batch x) in *.
  set (fl := TensorDim.getFeatureLen (NTensor.dim x)) in *.
  set (L := NTensor.length x) in *.
  assert (HL : L = b * fl).
  { unfold L, NTensor.length, TensorDim.getDataLen, b, fl, NTensor.batch,
      TensorDim.getFeatureLen. lia. }
  assert (HL0 : 0 <= L) by nia.
  assert (Hxr := NTensor_wf_repr x Hx). fold L in Hxr.
  (* the maxima are subtracted *)
  cbn [NTensor.clone NTensor.data NTensor.dim].
  lazymatch goal with
  | |- context [for_lt 0 b ?body (NTensor.data x)] =>
      destruct (fill_blocks (fun d => d) (fun _ => True) body
                  (shifted x) (at_ fzero (NTensor.data x)) L 0 b fl
                  (NTensor.data x)) as (dp & Hr1 & _ & Hdp)
  end.
  { exact Hb. }
  { exact I. }
  { apply repr_upto_0; [lia|exact Hxr]. }
  { intros k d Hk _ Hd. cbv beta.
    assert (Hkfl : 0 <= k * fl /\ k * fl + fl <= L) by nia.
    rewrite (max_element_spec d (NTensor.data x) (k * fl) fl L _ Hd)
      by first [lia | intros i Hi; unfold upto; zcases; [lia|reflexivity]].
    cbn [bind].
    pose proof (max_pos_range (NTensor.data x) (k * fl) fl Hfl) as Hmp.
    rewrite (repr_upto_rd_hi _ _ _ _ _ _ Hd) by lia. cbn [bind].
    fold (block_max (NTensor.data x) (k * fl) fl).
    unfold saxpy.
    destruct (saxpy_fill fl (fopp fone)
                (NTensor.data
                   (NTensor.setValue
                      (NTensor.Tensor_ (TensorDim.mk 1 1 1 fl))
                      (block_max (NTensor.data x) (k * fl) fl)))
                d fl (fun _ => block_max (NTensor.data x) (k * fl) fl)
                L (shifted x) (at_ fzero (NTensor.data x)) (k * fl))
      as (d' & Hs & Hd');
      [lia | | eapply repr_upto_eq; [exact Hd|lia] | lia | lia | | ].
    - cbn [NTensor.setValue NTensor.Tensor_ NTensor.data].
      rewrite length_replicate.
      replace (TensorDim.getDataLen (TensorDim.mk 1 1 1 fl)) with fl
        by (unfold TensorDim.getDataLen; cbn; lia).
      apply repr_replicate. lia.
    - intros i Hi. unfold fl. rewrite shifted_at by exact Hi. reflexivity.
    - exists d'. split; [exact Hs|]. split; [exact I|].
      eapply repr_upto_eq; [exact Hd'|lia]. }
  rewrite Hr1. cbn [bind].
  assert (Hdp' : repr dp L (shifted x)).
  { eapply repr_upto_all; [|exact Hdp]. lia. }
  (* the exponentials *)
  rewrite (NTensor_apply_spec fexp (NTensor.mk (NTensor.dim x) dp) output
             (shifted x)); [|exact Hdp'|exact HL0|exact Ho|exact Hout].
  cbn [bind NTensor.dim NTensor.data].
  change (NTensor.length (NTensor.mk (NTensor.dim x) dp)) with L.
  set (ex := tab (fun i => fexp (shifted x i)) L).
  assert (Hex : repr ex L (fun i => fexp (shifted x i))).
  { apply repr_tab. exact HL0. }
  (* their sums *)
  rewrite (NTensor_sum_by_batch_spec (NTensor.mk (NTensor.dim x) ex)
             (fun i => fexp (shifted x i))); [|exact Hex|exact Hb|cbn [NTensor.dim]; fold fl; lia].
  cbn [bind NTensor.dim NTensor.data]. fold fl.
  change (NTensor.batch (NTensor.mk (NTensor.dim x) ex)) with b.
  set (sums := tab (fun k => accum fadd fzero
                               (fun i => fexp (shifted x (k * fl + i))) fl) b).
  assert (Hsums : repr sums b (fun k => row_sum x (k * fl))).
  { apply repr_tab. exact Hb. }
  (* the quotients *)
  lazymatch goal with
  | |- context [for_lt 0 b ?body ex] =>
      destruct (fill_blocks (fun d => d) (fun _ => True) body
                  (softmax_value x) (fun i => fexp (shifted x i)) L 0 b fl ex)
        as (rp & Hr4 & _ & Hrp)
  end.
  { exact Hb. }
  { exact I. }
  { apply repr_upto_0; [lia|exact Hex]. }
  { intros k d Hk _ Hd. cbv beta.
    assert (Hkfl : 0 <= k * fl /\ k * fl + fl <= L) by nia.
    unfold NTensor.getValue, NTensor.getIndex.
    cbn [NTensor.channel NTensor.height NTensor.width NTensor.dim NTensor.data
         TensorDim.channel TensorDim.height TensorDim.width].
    rewrite (repr_rd _ _ _ _ Hsums) by lia. cbn [bind].
    replace (k * (1 * 1 * 1) + 0 * (1 * 1) + 0 * 1 + 0 * 1) with k by lia.
    destruct (fill_range
                (fun i rp => a <- rd rp i ;; wr rp i (fdiv a (row_sum x (k * fl))))
                (softmax_value x) (fun i => fexp (shifted x i)) L
                (k * fl) (k * fl + fl) d) as (d' & Hr & Hd').
    - lia.
    - eapply repr_upto_eq; [exact Hd|lia].
    - intros i d0 Hi Hd0.
      rewrite (repr_upto_rd_hi _ _ _ _ _ _ Hd0) by lia. cbn [bind].
      destruct (repr_upto_wr d0 L (softmax_value x)
                  (fun i => fexp (shifted x i)) i
                  (fdiv (fexp (shifted x i)) (row_sum x (k * fl))))
        as (d1 & Hw1 & Hd1); [exact Hd0 | lia | | ].
      + transitivity (softmax_value x (k * fl + (i - k * fl)));
          [|f_equal; lia].
        unfold fl. rewrite layer_softmax_value_at by (fold fl; lia).
        fold fl. do 3 f_equal. lia.
      + exists d1. split; [exact Hw1|exact Hd1].
    - exists d'. split; [exact Hr|]. split; [exact I|].
      eapply repr_upto_eq; [exact Hd'|lia]. }
  rewrite Hr4. cbn [bind]. unfold ret. do 2 f_equal. apply repr_eq.
  eapply repr_upto_all; [|exact Hrp]. lia.
Qed.
End ActivationSoftmaxFacts.

(** * Softmax in real arithmetic *)

(** ** Sums of reals *)

Lemma Rsum_scale (g : Z -> R) (a : R) (n : Z) :
  accum Rplus 0%R (fun j => (g j * a)%R) n = (accum Rplus 0%R g n * a)%R.
Proof.
  destruct (Z.le_gt_cases 0 n) as [Hn|Hn].
  - apply (accum_ind Rplus 0%R (fun j => (g j * a)%R)
             (fun n s => s = (accum Rplus 0%R g n * a)%R)); [| |exact Hn].
    + rewrite accum_0 by lia. lra.
    + intros m s Hm ->. rewrite accum_succ by lia. lra.
  - rewrite !accum_0 by lia. lra.
Qed.

Lemma Rsum_pos (g : Z -> R) (n : Z) :
  (forall j, 0 <= j < n -> (0 < g j)%R) -> 1 <= n ->
  (0 < accum Rplus 0%R g n)%R.
Proof.
  intros Hg Hn. rewrite <- (Z2Nat.id n) in Hg |- * by lia.
  destruct (Z.to_nat n) as [|m] eqn:E; [lia|]. clear E Hn.
  induction m as [|m IH].
  - change (Z.of_nat 1) with (0 + 1). rewrite accum_succ by lia.
    rewrite accum_0 by lia. specialize (Hg 0 ltac:(lia)). lra.
  - replace (Z.of_nat (Datatypes.S (Datatypes.S m)))
      with (Z.of_nat (Datatypes.S m) + 1) by lia.
    rewrite accum_succ by lia.
    assert (0 < accum Rplus 0 g (Z.of_nat (Datatypes.S m)))%R.
    { apply IH. intros j Hj. apply Hg. lia. }
    specialize (Hg (Z.of_nat (Datatypes.S m)) ltac:(lia)). lra.
Qed.

Section RealLayerSoftmax.
Import ActivationLayer.

(** In real arithmetic [max_pos] is the position of a maximum of the
    block. *)
Lemma max_pos_is_max (p : list R) (first n : Z) (i : Z) :
  1 <= n -> first <= i < first + n ->
  (at_ 0%R p i <= block_max p first n)%R.
Proof.
  intros Hn Hi. unfold block_max.
  assert (Hall :
    (fun t largest =>
       first <= largest < first + 1 + t /\
       forall i, first <= i < first + 1 + t ->
         (at_ 0%R p i <= at_ 0%R p largest)%R)
      (n - 1) (max_pos p first n)).
  { unfold max_pos.
    apply (accum_ind
             (fun largest i : Z =>
                if fltb (at_ fzero p largest) (at_ fzero p i)
                then i else largest)
             first (fun t => first + 1 + t)
             (fun t largest =>
                first <= largest < first + 1 + t /\
                forall i, first <= i < first + 1 + t ->
                  (at_ 0%R p i <= at_ 0%R p largest)%R)); [| |lia].
    - split; [lia|]. intros j Hj. replace j with first by lia. lra.
    - intros t a Ht [Ha Hmax]. cbn [fltb fzero real_ops].
      destruct (Rlt_dec (at_ 0%R p a) (at_ 0%R p (first + 1 + t))) as [Hlt|Hge].
      + split; [lia|]. intros j Hj.
        destruct (Z.eq_dec j (first + 1 + t)) as [->|Hne]; [lra|].
        specialize (Hmax j ltac:(lia)). lra.
      + split; [lia|]. intros j Hj.
        destruct (Z.eq_dec j (first + 1 + t)) as [->|Hne]; [lra|].
        apply Hmax. lia. }
  cbv beta in Hall.
  destruct Hall as [_ Hall]. apply Hall. lia.
Qed.

(** Adding a constant to the elements of a block does not move its
    maximum. *)
Lemma max_pos_shift (p q : list R) (first n : Z) (c : R) :
  1 <= n ->
  (forall i, first <= i < first + n -> at_ 0%R q i = (at_ 0%R p i + c)%R) ->
  max_pos q first n = max_pos p first n.
Proof.
  intros Hn Hshift. unfold max_pos.
  apply (accum_ind
           (fun largest i : Z =>
              if fltb (at_ fzero q largest) (at_ fzero q i)
              then i else largest)
           first (fun t => first + 1 + t)
           (fun t largest =>
              t <= n - 1 ->
              first <= largest < first + 1 + t /\
              largest =
              accum (fun largest i : Z =>
                       if fltb (at_ fzero p largest) (at_ fzero p i)
                       then i else largest)
                first (fun t => first + 1 + t) t)); [| |lia|lia].
  - intros _. split; [lia|]. rewrite accum_0 by lia. reflexivity.
  - intros t a Ht IH Ht1. destruct (IH ltac:(lia)) as [Ha Heq].
    rewrite accum_succ by lia. rewrite <- Heq.
    cbn [fltb fzero real_ops].
    rewrite (Hshift a) by lia. rewrite (Hshift (first + 1 + t)) by lia.
    destruct (Rlt_dec (at_ 0%R p a + c) (at_ 0%R p (first + 1 + t) + c));
      destruct (Rlt_dec (at_ 0%R p a) (at_ 0%R p (first + 1 + t)));
      try lra; split; try lia; reflexivity.
Qed.

Lemma shifted_real (x : NTensor.t R) k i :
  0 <= i < TensorDim.getFeatureLen (NTensor.dim x) ->
  shifted x (k * TensorDim.getFeatureLen (NTensor.dim x) + i) =
  (at_ 0%R (NTensor.data x)
     (k * TensorDim.getFeatureLen (NTensor.dim x) + i) -
   block_max (NTensor.data x) (k * TensorDim.getFeatureLen (NTensor.dim x))
     (TensorDim.getFeatureLen (NTensor.dim x)))%R.
Proof.
  intros Hi. rewrite shifted_at by exact Hi.
  cbn [fadd fmul fopp fone fzero real_ops]. lra.
Qed.

(** In real arithmetic every batch row of [ActivationLayer::softmax] sums to
    one. *)
Lemma layer_softmax_row_sum (x : NTensor.t R) (k : Z) :
  1 <= TensorDim.getFeatureLen (NTensor.dim x) ->
  accum Rplus 0%R
    (fun i => softmax_value x (k * TensorDim.getFeatureLen (NTensor.dim x) + i))
    (TensorDim.getFeatureLen (NTensor.dim x)) = 1%R.
Proof.
  intros Hfl. set (fl := TensorDim.getFeatureLen (NTensor.dim x)) in *.
  rewrite (accum_ext _ _ _
             (fun i => (exp (shifted x (k * fl + i)) * / row_sum x (k * fl))%R)).
  - rewrite Rsum_scale. fold (row_sum x (k * fl)).
    apply Rinv_r. apply Rgt_not_eq. unfold row_sum.
    apply Rsum_pos; [|exact Hfl]. intros j Hj. apply exp_pos.
  - intros i Hi. unfold fl. rewrite layer_softmax_value_at by exact Hi.
    reflexivity.
Qed.

(** Adding one constant to every element of a batch row leaves the values
    of the row unchanged. *)
Lemma layer_softmax_value_shift (x y : NTensor.t R) (c : R) (k i : Z) :
  NTensor.dim y = NTensor.dim x ->
  0 <= i < TensorDim.getFeatureLen (NTensor.dim x) ->
  (forall j, 0 <= j < TensorDim.getFeatureLen (NTensor.dim x) ->
     at_ 0%R (NTensor.data y)
       (k * TensorDim.getFeatureLen (NTensor.dim x) + j) =
     (at_ 0%R (NTensor.data x)
        (k * TensorDim.getFeatureLen (NTensor.dim x) + j) + c)%R) ->
  softmax_value y (k * TensorDim.getFeatureLen (NTensor.dim x) + i) =
  softmax_value x (k * TensorDim.getFeatureLen (NTensor.dim x) + i).
Proof.
  intros Hdim Hi Hshift.
  set (fl := TensorDim.getFeatureLen (NTensor.dim x)) in *.
  assert (Hfl : TensorDim.getFeatureLen (NTensor.dim y) = fl)
    by (rewrite Hdim; reflexivity).
  assert (Hmax : block_max (NTensor.data y) (k * fl) fl =
                 (block_max (NTensor.data x) (k * fl) fl + c)%R).
  { unfold block_max.
    rewrite (max_pos_shift (NTensor.data x) (NTensor.data y) (k * fl) fl c)
      by (try lia; intros j Hj; replace j with (k * fl + (j - k * fl)) by lia;
          apply Hshift; lia).
    pose proof (max_pos_range (NTensor.data x) (k * fl) fl ltac:(lia)) as Hr.
    replace (max_pos (NTensor.data x) (k * fl) fl)
      with (k * fl + (max_pos (NTensor.data x) (k * fl) fl - k * fl)) at 1
      by lia.
    rewrite Hshift by lia. do 2 f_equal. lia. }
  assert (Hsh : forall j, 0 <= j < fl ->
                  shifted y (k * fl + j) = shifted x (k * fl + j)).
  { intros j Hj.
    pose proof (shifted_real y k j) as Hy. rewrite Hfl in Hy.
    rewrite Hy by exact Hj. unfold fl. rewrite shifted_real by exact Hj.
    fold fl. rewrite Hmax, Hshift by exact Hj. lra. }
  pose proof (layer_softmax_value_at y k i) as Hy. rewrite Hfl in Hy.
  rewrite Hy by exact Hi. unfold fl. rewrite layer_softmax_value_at by exact Hi.
  fold fl. rewrite Hsh by exact Hi. f_equal.
  unfold row_sum. rewrite Hfl. fold fl. apply accum_ext.
  intros j Hj. rewrite Hsh by exact Hj. reflexivity.
Qed.
End RealLayerSoftmax.
(** * Softmax in real arithmetic: cells and shifted inputs, row by row *)

Lemma encode2 w idx :
  1 <= w -> idx = idx / w * w + idx mod w /\ 0 <= idx mod w < w.
Proof.
  intros Hw. pose proof (Z.div_mod idx w ltac:(lia)).
  pose proof (Z.mod_pos_bound idx w ltac:(lia)). lia.
Qed.

Section RealLayerRows.
Import ActivationLayer.

Lemma layer_softmax_cell_real (x : NTensor.t R) (k i : Z) :
  0 <= i < TensorDim.getFeatureLen (NTensor.dim x) ->
  softmax_value x (k * TensorDim.getFeatureLen (NTensor.dim x) + i) =
  Rdiv
    (exp (Rminus
            (at_ 0%R (NTensor.data x)
               (k * TensorDim.getFeatureLen (NTensor.dim x) + i))
            (block_max (NTensor.data x)
               (k * TensorDim.getFeatureLen (NTensor.dim x))
               (TensorDim.getFeatureLen (NTensor.dim x)))))
    (accum Rplus 0%R
       (fun j =>
          exp (Rminus
                 (at_ 0%R (NTensor.data x)
                    (k * TensorDim.getFeatureLen (NTensor.dim x) + j))
                 (block_max (NTensor.data x)
                    (k * TensorDim.getFeatureLen (NTensor.dim x))
                    (TensorDim.getFeatureLen (NTensor.dim x)))))
       (TensorDim.getFeatureLen (NTensor.dim x))).
Proof.
  intros Hi. rewrite layer_softmax_value_at by exact Hi.
  rewrite shifted_real by exact Hi.
  cbn [fdiv fexp real_ops real_exp]. f_equal. unfold row_sum.
  apply accum_ext. intros j Hj. rewrite shifted_real by exact Hj. reflexivity.
Qed.

Lemma layer_softmax_shift_tab (x y : NTensor.t R) (c : Z -> R) :
  NTensor.wf x -> 1 <= TensorDim.getFeatureLen (NTensor.dim x) ->
  NTensor.dim y = NTensor.dim x ->
  (forall k i,
     0 <= k < NTensor.batch x ->
     0 <= i < TensorDim.getFeatureLen (NTensor.dim x) ->
     at_ 0%R (NTensor.data y)
       (k * TensorDim.getFeatureLen (NTensor.dim x) + i) =
     Rplus (at_ 0%R (NTensor.data x)
              (k * TensorDim.getFeatureLen (NTensor.dim x) + i)) (c k)) ->
  tab (softmax_value y) (NTensor.length y) =
  tab (softmax_value x) (NTensor.length x).
Proof.
  intros Hx Hfl Hdim Hshift. pose proof Hx as (Hb & Hc & Hh & Hw & Hlen).
  set (fl := TensorDim.getFeatureLen (NTensor.dim x)) in *.
  assert (HL : NTensor.length x = NTensor.batch x * fl).
  { unfold NTensor.length, TensorDim.getDataLen, fl, NTensor.batch,
      TensorDim.getFeatureLen. lia. }
  replace (NTensor.length y) with (NTensor.length x)
    by (unfold NTensor.length; rewrite Hdim; reflexivity).
  apply tab_ext. intros idx Hidx.
  destruct (encode2 fl idx Hfl) as [Hidx' Hmod]. rewrite Hidx'.
  assert (Hk : 0 <= idx / fl < NTensor.batch x).
  { split; [apply Z.div_pos; lia|]. apply Z.div_lt_upper_bound; lia. }
  apply (layer_softmax_value_shift x y (c (idx / fl))); [exact Hdim|exact Hmod|].
  intros j Hj. apply Hshift; assumption.
Qed.
End RealLayerRows.


(** * The element [std::max_element] finds *)

Section MaxElement.
Context {F : Type} `{FloatOps F}.
Import ActivationLayer.

(** Where [operator<] is a strict order, no element of the block is greater
    than the one at [max_pos]. *)
Lemma max_pos_no_greater (p : list F) (first n i : Z) :
  (forall a, fltb a a = false) ->
  (forall a b c, fltb a b = true -> fltb b c = true -> fltb a c = true) ->
  1 <= n -> first <= i < first + n ->
  fltb (block_max p first n) (at_ fzero p i) = false.
Proof.
  intros Hirr Htrans Hn Hi. unfold block_max.
  assert (Hall :
    (fun t largest =>
       first <= largest < first + 1 + t /\
       forall i, first <= i < first + 1 + t ->
         fltb (at_ fzero p largest) (at_ fzero p i) = false)
      (n - 1) (max_pos p first n)).
  { unfold max_pos.
    apply (accum_ind
             (fun largest i : Z =>
                if fltb (at_ fzero p largest) (at_ fzero p i)
                then i else largest)
             first (fun t => first + 1 + t)
             (fun t largest =>
                first <= largest < first + 1 + t /\
                forall i, first <= i < first + 1 + t ->
                  fltb (at_ fzero p largest) (at_ fzero p i) = false));
      [| |lia].
    - split; [lia|]. intros j Hj. replace j with first by lia. apply Hirr.
    - intros t a Ht [Ha Hmax].
      destruct (fltb (at_ fzero p a) (at_ fzero p (first + 1 + t))) eqn:Hlt.
      + split; [lia|]. intros j Hj.
        destruct (Z.eq_dec j (first + 1 + t)) as [->|Hne]; [apply Hirr|].
        destruct (fltb (at_ fzero p (first + 1 + t)) (at_ fzero p j)) eqn:Hj';
          [|reflexivity].
        rewrite <- (Hmax j ltac:(lia)). symmetry.
        exact (Htrans _ _ _ Hlt Hj').
      + split; [lia|]. intros j Hj.
        destruct (Z.eq_dec j (first + 1 + t)) as [->|Hne]; [exact Hlt|].
        apply Hmax. lia. }
  cbv beta in Hall. destruct Hall as [_ Hall]. apply Hall. lia.
Qed.
End MaxElement.

(** [<] on the reals is a strict order. *)
Lemma real_ltb_irrefl (a : R) : fltb a a = false.
Proof. cbn. destruct (Rlt_dec a a) as [Hlt|_]; [lra|reflexivity]. Qed.

Lemma real_ltb_trans (a b c : R) :
  fltb a b = true -> fltb b c = true -> fltb a c = true.
Proof.
  cbn. destruct (Rlt_dec a b); [|discriminate].
  destruct (Rlt_dec b c); [|discriminate].
  destruct (Rlt_dec a c); [reflexivity|lra].
Qed.

(** [<] on binary floats is a strict order, NaN and the infinities
    included. *)
Lemma SFltb_irrefl (a : spec_float) : SFltb a a = false.
Proof.
  unfold SFltb. destruct a as [s|s| |s m e]; simpl; try reflexivity.
  - destruct s; reflexivity.
  - change (Pos.compare_cont Eq m m) with (Pos.compare m m).
    rewrite Z.compare_refl, Pos.compare_refl. destruct s; reflexivity.
Qed.

Lemma SFltb_trans (a b c : spec_float) :
  SFltb a b = true -> SFltb b c = true -> SFltb a c = true.
Proof.
  unfold SFltb.
  destruct a as [sa|sa| |sa ma ea], b as [sb|sb| |sb mb eb],
    c as [sc|sc| |sc mc ec]; simpl;
    try discriminate; try reflexivity;
    try (destruct sa; simpl; try discriminate; try reflexivity);
    try (destruct sb; simpl; try discriminate; try reflexivity);
    try (destruct sc; simpl; try discriminate; try reflexivity).
  all: change (Pos.compare_cont Eq) with Pos.compare.
  all: repeat match goal with
       | |- context [Z.compare ?x ?y] =>
           destruct (Z.compare_spec x y); simpl; try discriminate
       | |- context [Pos.compare ?x ?y] =>
           destruct (Pos.compare_spec x y); simpl; try discriminate
       end; intros; try reflexivity; try lia.
Qed.

(** * [Tensor::softmax] once the divisor of a row is infinite *)

Section Overflow.
Variable libm_exp : spec_float -> spec_float.

Lemma add_exp_infinity (a : spec_float) :
  finite_double (libm_exp (to_binary64 a)) = true ->
  @Tensor.add_exp _ (binary64_ops libm_exp) (S754_infinity false) a =
  S754_infinity false.
Proof.
  unfold Tensor.add_exp. cbn [widen narrow dadd dexp binary64_ops].
  cbn [to_binary64]. destruct (libm_exp (to_binary64 a)); try discriminate;
    reflexivity.
Qed.

(** The sum stays infinite while finite exponentials are added. *)
Lemma softmax_partial_infinity (x : Tensor.t spec_float) (row n0 n : Z) :
  0 <= n0 <= n ->
  (forall j, n0 <= j < n ->
     finite_double (libm_exp (to_binary64 (Tensor.get x (row + j)))) = true) ->
  @Tensor.softmax_partial _ _ (binary64_ops libm_exp) x row n0 =
    S754_infinity false ->
  @Tensor.softmax_partial _ _ (binary64_ops libm_exp) x row n =
    S754_infinity false.
Proof.
  intros Hn Hfin H0. replace n with (n0 + Z.of_nat (Z.to_nat (n - n0))) in *
    by lia.
  induction (Z.to_nat (n - n0)) as [|m IH].
  - replace (n0 + Z.of_nat 0) with n0 by lia. exact H0.
  - replace (n0 + Z.of_nat (Datatypes.S m)) with (n0 + Z.of_nat m + 1) in *
      by lia.
    unfold Tensor.softmax_partial in *. rewrite accum_succ by lia.
    rewrite IH; [|lia|intros j Hj; apply Hfin; lia].
    apply add_exp_infinity. apply Hfin. lia.
Qed.

Lemma quotient_by_infinity (a : spec_float) :
  finite_double (libm_exp (to_binary64 a)) = true ->
  exists s,
    to_binary32
      (SFdiv prec64 emax64 (libm_exp (to_binary64 a))
         (to_binary64 (S754_infinity false))) = S754_zero s.
Proof.
  cbn [to_binary64]. destruct (libm_exp (to_binary64 a)) as [s| | |s m e];
    try discriminate; intros _; exists (xorb s false); reflexivity.
Qed.
End Overflow.

(** * The broadcasting binary operations *)

Section BinaryOps.
Context {F : Type} `{FloatOps F}.
Import Tensor.

(** C1 (as amended).  On the axes of the class, a binary elementwise
    operation fails with a dimension mismatch whenever the heights or the
    widths of the operands differ, also when the other operand's size on
    that axis is 1.  When heights and widths agree and the batch size of the
    right operand is 1 or that of the left operand, [add], [subtract] and
    [multiply] return a tensor of the left operand's shape, each cell
    combining the cell of the left operand with the cell of the right
    operand that [right_index] pairs with it. *)
Theorem binary_op_dimension_rule (bk : backend) (x m : t F) :
  wf x -> wf m ->
  (height x <> height m \/ width x <> width m ->
     add bk x m = inl DimensionMismatch /\
     subtract bk x m = inl DimensionMismatch /\
     multiply x m = inl DimensionMismatch /\
     divide x m = inl DimensionMismatch) /\
  (height x = height m -> width x = width m ->
   batch m = 1 \/ batch m = batch x ->
     add bk x m = inr (elementwise (add_op bk) x m) /\
     subtract bk x m = inr (elementwise (sub_op bk) x m) /\
     multiply x m = inr (elementwise fmul x m)) /\
  (forall op,
     batch (elementwise op x m) = batch x /\
     height (elementwise op x m) = height x /\
     width (elementwise op x m) = width x).
Proof.
  intros Hx Hm. split; [|split].
  - intros Hne. unfold add, subtract, multiply, divide.
    rewrite (dims_assert_fails x m Hne). repeat split; reflexivity.
  - intros Hh Hw Hb. split; [|split].
    + apply add_spec; assumption.
    + apply subtract_spec; assumption.
    + apply multiply_spec; assumption.
  - intros op. repeat split; reflexivity.
Qed.

(** C5.  Adding a right operand of batch size one to a left operand of [b]
    batches equals adding the right operand's single batch row to each of
    the [b] batch slices of the left operand independently: slice [k] of the
    result is the sum of slice [k] and the right operand, and cell
    [k * height * width + i] of the result combines that cell of the left
    operand with cell [i] of the right operand. *)
Theorem add_broadcast_batch (bk : backend) (x m : t F) :
  wf x -> wf m -> 1 <= batch x ->
  batch m = 1 -> height m = height x -> width m = width x ->
  exists r,
    add bk x m = inr r /\
    batch r = batch x /\ height r = height x /\ width r = width x /\
    (forall k, 0 <= k < batch x ->
       add bk (batch_slice x k) m = inr (batch_slice r k)) /\
    (forall k i, 0 <= k < batch x -> 0 <= i < height x * width x ->
       rd (data r) (k * (height x * width x) + i) =
       inr (add_op bk (get x (k * (height x * width x) + i)) (get m i))).
Proof.
  intros Hx Hm Hb Hb1 Hh Hw. symmetry in Hh, Hw.
  exists (elementwise (add_op bk) x m).
  pose proof Hx as (_ & Hhx & Hwx & Hlx & _).
  pose proof Hm as (_ & _ & _ & Hlm & _).
  split; [apply add_spec; auto|].
  split; [reflexivity|]. split; [reflexivity|]. split; [reflexivity|]. split.
  - intros k Hk.
    rewrite batch_slice_elementwise by assumption.
    apply add_spec; [apply wf_batch_slice; assumption|exact Hm| | |left];
      assumption.
  - intros k i Hk Hi. unfold elementwise, with_data. cbn [data].
    rewrite (repr_rd _ _ _ _ (repr_tab _ (len x) ltac:(nia))) by nia.
    do 3 f_equal. rewrite right_index_bcast by assumption.
    replace (k * (height x * width x) + i) with (i + k * len m) by nia.
    rewrite Z.mod_add by nia. apply Z.mod_small. nia.
Qed.
End BinaryOps.

(** The left operand [[1, 2], [3, 4]] of shape (2, 1, 2) and the right
    operand [[10, 20]] of shape (1, 1, 2). *)
Lemma add_broadcast_batch_witness :
  Tensor.wf (t32 2 1 2 [1; 2; 3; 4]) /\ Tensor.wf (t32 1 1 2 [10; 20]) /\
  exists r,
    Tensor.add Fallback (t32 2 1 2 [1; 2; 3; 4]) (t32 1 1 2 [10; 20]) = inr r /\
    Tensor.batch r = 2 /\ Tensor.height r = 1 /\ Tensor.width r = 2 /\
    (forall k, 0 <= k < 2 ->
       Tensor.add Fallback (Tensor.batch_slice (t32 2 1 2 [1; 2; 3; 4]) k)
         (t32 1 1 2 [10; 20]) = inr (Tensor.batch_slice r k)) /\
    (forall k i, 0 <= k < 2 -> 0 <= i < 1 * 2 ->
       rd (Tensor.data r) (k * (1 * 2) + i) =
       inr (Tensor.add_op Fallback
              (Tensor.get (t32 2 1 2 [1; 2; 3; 4]) (k * (1 * 2) + i))
              (Tensor.get (t32 1 1 2 [10; 20]) i))).
Proof.
  assert (Hx : Tensor.wf (t32 2 1 2 [1; 2; 3; 4])).
  { unfold Tensor.wf; simpl; lia. }
  assert (Hm : Tensor.wf (t32 1 1 2 [10; 20])).
  { unfold Tensor.wf; simpl; lia. }
  split; [exact Hx|]. split; [exact Hm|].
  apply (add_broadcast_batch Fallback (t32 2 1 2 [1; 2; 3; 4])
           (t32 1 1 2 [10; 20]) Hx Hm);
    simpl; [lia | reflexivity | reflexivity | reflexivity].
Defined.

Example add_broadcast_batch_values :
  Tensor.add Fallback (t32 2 1 2 [1; 2; 3; 4]) (t32 1 1 2 [10; 20]) =
  inr (t32 2 1 2 [11; 22; 13; 24]).
Proof. vm_compute. reflexivity. Qed.

(** C1, the claim as stated fails: for a left operand of shape (1, 2, 1)
    and a right operand of shape (1, 1, 1) every axis has equal sizes or size
    1 on the right, yet the operations stop at their assertion. *)
Lemma binary_op_broadcast_counterexample :
  spec_legal (t32 1 2 1 [1; 2]) (t32 1 1 1 [5]) = true /\
  Tensor.add Fallback (t32 1 2 1 [1; 2]) (t32 1 1 1 [5]) = inl DimensionMismatch /\
  Tensor.add Blas (t32 1 2 1 [1; 2]) (t32 1 1 1 [5]) = inl DimensionMismatch /\
  Tensor.subtract Fallback (t32 1 2 1 [1; 2]) (t32 1 1 1 [5]) = inl DimensionMismatch /\
  Tensor.multiply (t32 1 2 1 [1; 2]) (t32 1 1 1 [5]) = inl DimensionMismatch /\
  Tensor.divide (t32 1 2 1 [1; 2]) (t32 1 1 1 [5]) = inl DimensionMismatch.
Proof. repeat (split; [vm_compute; reflexivity|]). vm_compute. reflexivity. Qed.

Lemma binary_op_dimension_rule_witness :
  Tensor.wf (t32 2 1 2 [1; 2; 3; 4]) /\ Tensor.wf (t32 1 1 2 [10; 20]) /\
  Tensor.add Fallback (t32 2 1 2 [1; 2; 3; 4]) (t32 1 1 2 [10; 20]) =
  inr (Tensor.elementwise (Tensor.add_op Fallback) (t32 2 1 2 [1; 2; 3; 4])
         (t32 1 1 2 [10; 20])).
Proof.
  assert (Hx : Tensor.wf (t32 2 1 2 [1; 2; 3; 4])).
  { unfold Tensor.wf; simpl; lia. }
  assert (Hm : Tensor.wf (t32 1 1 2 [10; 20])).
  { unfold Tensor.wf; simpl; lia. }
  split; [exact Hx|]. split; [exact Hm|].
  destruct (binary_op_dimension_rule Fallback (t32 2 1 2 [1; 2; 3; 4])
              (t32 1 1 2 [10; 20]) Hx Hm) as (_ & Hlegal & _).
  apply Hlegal; [reflexivity | reflexivity | left; reflexivity].
Defined.

(** * Contraction *)

Section Dot.
Context {F : Type} `{FloatOps F}.
Import Tensor.

(** C2.  For a tensor [x] of shape (batch, height, width) and a tensor [m]
    whose height is the width of [x]: when the batch size of [m] is 1,
    [dot] applies the same right matrix to each batch slice of [x]
    independently; when it is the batch size of [x], [dot] multiplies slice
    [k] of [x] with slice [k] of [m].  In both cases the result has the
    batch size and height of [x] and the width of [m], and cell (k, i, j)
    is the inner product of row [i] of slice [k] of [x] with column [j] of
    the matrix, accumulated from zero in index order. *)
Theorem dot_batched (bk : backend) (x m : t F) :
  wf x -> wf m -> height m = width x ->
  (batch m = 1 ->
   exists r,
     dot bk x m = inr r /\
     batch r = batch x /\ height r = height x /\ width r = width m /\
     (forall k, 0 <= k < batch x ->
        dot bk (batch_slice x k) m = inr (batch_slice r k)) /\
     (forall k i j,
        0 <= k < batch x -> 0 <= i < height x -> 0 <= j < width m ->
        rd (data r) (k * height x * width m + i * width m + j) =
        inr (dot_op bk
               (dot_cell x m 0 (k * height x * width x + i * width x) j)))) /\
  (batch m = batch x ->
   exists r,
     dot bk x m = inr r /\
     batch r = batch x /\ height r = height x /\ width r = width m /\
     (forall k, 0 <= k < batch x ->
        dot bk (batch_slice x k) (batch_slice m k) = inr (batch_slice r k)) /\
     (forall k i j,
        0 <= k < batch x -> 0 <= i < height x -> 0 <= j < width m ->
        rd (data r) (k * height x * width m + i * width m + j) =
        inr (dot_op bk
               (dot_cell x m (k * (height m * width m))
                  (k * height x * width x + i * width x) j)))).
Proof.
  intros Hx Hm Hwh. symmetry in Hwh.
  pose proof Hx as (Hbx & Hhx & Hwx & Hlx & _).
  pose proof Hm as (Hbm & Hhm & Hwm & Hlm & _).
  split.
  - intros Hb1. exists (dot_result bk x m).
    split; [apply dot_both_spec; auto|].
    split; [reflexivity|]. split; [reflexivity|]. split; [reflexivity|].
    split.
    + intros k Hk.
      rewrite (batch_slice_dot bk x m m k) by
        (try assumption; try reflexivity; intros idx Hidx; rewrite Hb1;
         reflexivity).
      apply dot_both_spec;
        [apply wf_batch_slice; assumption|exact Hm|exact Hwh|left; exact Hb1].
    + intros k i j Hk Hi Hj. rewrite dot_result_rd by assumption.
      rewrite Hb1. reflexivity.
  - intros Hb. exists (dot_result bk x m).
    split; [apply dot_both_spec; auto|].
    split; [reflexivity|]. split; [reflexivity|]. split; [reflexivity|].
    split.
    + intros k Hk.
      rewrite (batch_slice_dot bk x m (batch_slice m k) k) by
        (try assumption; try reflexivity; intros idx Hidx;
         apply get_batch_slice_right; assumption).
      apply dot_both_spec;
        [apply wf_batch_slice; assumption
        |apply wf_batch_slice; [exact Hm|lia]
        |exact Hwh|left; reflexivity].
    + intros k i j Hk Hi Hj. rewrite dot_result_rd by assumption.
      do 3 f_equal.
      destruct (Z.eqb_spec (batch m) 1) as [Hb1|_]; nia.
Qed.
End Dot.

(** Two samples [[1, 2]] and [[3, 4]] against the single column
    [[5], [6]]. *)
Lemma dot_batched_witness :
  Tensor.wf (t32 2 1 2 [1; 2; 3; 4]) /\ Tensor.wf (t32 1 2 1 [5; 6]) /\
  exists r,
    Tensor.dot Fallback (t32 2 1 2 [1; 2; 3; 4]) (t32 1 2 1 [5; 6]) = inr r /\
    Tensor.batch r = 2 /\ Tensor.height r = 1 /\ Tensor.width r = 1.
Proof.
  assert (Hx : Tensor.wf (t32 2 1 2 [1; 2; 3; 4])).
  { unfold Tensor.wf; simpl; lia. }
  assert (Hm : Tensor.wf (t32 1 2 1 [5; 6])).
  { unfold Tensor.wf; simpl; lia. }
  split; [exact Hx|]. split; [exact Hm|].
  destruct (dot_batched Fallback (t32 2 1 2 [1; 2; 3; 4]) (t32 1 2 1 [5; 6])
              Hx Hm eq_refl) as [Hone _].
  destruct (Hone eq_refl) as (r & Hr & Hb & Hh & Hw & _).
  exists r. split; [exact Hr|]. split; [exact Hb|]. split; [exact Hh|exact Hw].
Defined.

Example dot_batched_values :
  Tensor.dot Fallback (t32 2 1 2 [1; 2; 3; 4]) (t32 1 2 1 [5; 6]) =
    inr (t32 2 1 1 [17; 39]) /\
  Tensor.dot Fallback (t32 2 1 2 [1; 2; 3; 4]) (t32 2 2 1 [5; 6; 7; 8]) =
    inr (t32 2 1 1 [17; 53]) /\
  Tensor.dot Blas (t32 2 1 2 [1; 2; 3; 4]) (t32 2 2 1 [5; 6; 7; 8]) =
    inr (t32 2 1 1 [17; 53]).
Proof. repeat (split; [vm_compute; reflexivity|]). vm_compute. reflexivity. Qed.

(** * The two numeric paths, and the accesses of [divide] and [sum] *)

Section OutOfRange.
Context {F : Type} `{FloatOps F}.
Import Tensor.

(** C6 (the code breaks it).  For operands [x] and [m] of equal shape with
    one to three elements, the remainder loop of [divide] starts at cell -1
    and the operation stops at an access out of range; for a tensor [y] of
    at least two batches of at least two elements, the fallback [sum] writes
    cell [k * width * height] of its result of [batch] cells, which is out
    of range. *)
Theorem divide_sum_out_of_range (x m y : t F) :
  wf x -> wf m ->
  batch m = batch x -> height m = height x -> width m = width x ->
  1 <= len x < 4 ->
  wf y -> 2 <= batch y -> 2 <= width y * height y ->
  divide x m = inl OutOfRange /\ sum Fallback y = inl OutOfRange.
Proof.
  intros Hx Hm Hb Hh Hw Hlen Hy Hby Hsy. split.
  - apply divide_short_tail; assumption.
  - apply sum_fallback_overrun; assumption.
Qed.
End OutOfRange.

(** One element divided by one element; two batches of two elements
    summed. *)
Lemma divide_sum_out_of_range_witness :
  Tensor.wf (t32 1 1 1 [1]) /\ 1 <= Tensor.len (t32 1 1 1 [1]) < 4 /\
  Tensor.wf (t32 2 1 2 [1; 2; 3; 4]) /\
  Tensor.divide (t32 1 1 1 [1]) (t32 1 1 1 [1]) = inl OutOfRange /\
  Tensor.sum Fallback (t32 2 1 2 [1; 2; 3; 4]) = inl OutOfRange.
Proof.
  assert (Hx : Tensor.wf (t32 1 1 1 [1])).
  { unfold Tensor.wf; simpl; lia. }
  assert (Hy : Tensor.wf (t32 2 1 2 [1; 2; 3; 4])).
  { unfold Tensor.wf; simpl; lia. }
  split; [exact Hx|]. split; [simpl; lia|]. split; [exact Hy|].
  apply (divide_sum_out_of_range (t32 1 1 1 [1]) (t32 1 1 1 [1])
           (t32 2 1 2 [1; 2; 3; 4]) Hx Hx eq_refl eq_refl eq_refl);
    [simpl; lia | exact Hy | simpl; lia | simpl; lia].
Defined.

(** With four elements or more the remainder loop of [divide] rewrites a
    cell it has already computed, and the quotients are those expected. *)
Example divide_four_elements :
  Tensor.divide (t32 1 2 2 [2; 4; 6; 8]) (t32 1 2 2 [1; 2; 3; 4]) =
  inr (t32 1 2 2 [2; 2; 2; 2]).
Proof. vm_compute. reflexivity. Qed.

(** C4 (the code breaks it).  The two paths of [add(float)] disagree on the
    tensor [[1, 2]] of shape (1, 1, 2): the accelerated path adds the scalar
    to every element, the fallback loop stops after [batch] elements and
    leaves the rest at zero.  The two paths of [sum] disagree on the tensor
    [[-1]]: the accelerated path sums absolute values. *)
Theorem backends_disagree :
  Tensor.add_f Blas (t32 1 1 2 [1; 2]) (f32 1) = inr (t32 1 1 2 [2; 3]) /\
  Tensor.add_f Fallback (t32 1 1 2 [1; 2]) (f32 1) = inr (t32 1 1 2 [2; 0]) /\
  Tensor.sum Blas (t32 1 1 1 [-1]) = inr (t32 1 1 1 [1]) /\
  Tensor.sum Fallback (t32 1 1 1 [-1]) = inr (t32 1 1 1 [-1]).
Proof. repeat (split; [vm_compute; reflexivity|]). vm_compute. reflexivity. Qed.

(** C9 (the code breaks it).  For the tensor [[1, 2, 3], [4, 5, 6]] of two
    batches, division by 2 yields [[0.5, 1, 1.5], [2, 2.5, 3]] on both
    paths and the accelerated [sum] yields [6, 15]; the fallback [sum] writes
    cell 3 of its result of two cells. *)
Theorem scenario_divide_sum :
  scenario = inr (t32 2 1 3 [1; 2; 3; 4; 5; 6]) /\
  Tensor.divide_f Fallback (t32 2 1 3 [1; 2; 3; 4; 5; 6]) (f32 2) =
    inr (Tensor.mk 2 1 3 3 6
           [f32_half 1; f32 1; f32_half 3; f32 2; f32_half 5; f32 3]) /\
  Tensor.divide_f Blas (t32 2 1 3 [1; 2; 3; 4; 5; 6]) (f32 2) =
    inr (Tensor.mk 2 1 3 3 6
           [f32_half 1; f32 1; f32_half 3; f32 2; f32_half 5; f32 3]) /\
  Tensor.sum Blas (t32 2 1 3 [1; 2; 3; 4; 5; 6]) = inr (t32 2 1 1 [6; 15]) /\
  Tensor.sum Fallback (t32 2 1 3 [1; 2; 3; 4; 5; 6]) = inl OutOfRange.
Proof. repeat (split; [vm_compute; reflexivity|]). vm_compute. reflexivity. Qed.

(** * [average] *)

Section AverageClaim.
Context {F : Type} `{FloatOps F}.
Import Tensor.

(** C7 (as amended).  [average()] averages over the batch axis: for a
    tensor of batch size one it returns the tensor itself, and otherwise it
    returns the tensor of shape (1, height, width) whose cell at each
    position is the sum over the batches of the cells at that position,
    divided by the batch size. *)
Theorem average_over_batch (x : t F) :
  wf x ->
  (batch x = 1 -> average x = inr x) /\
  (batch x <> 1 ->
   average x =
   inr (with_data (Tensor3 1 (height x) (width x))
          (tab (average_value x) (height x * width x)))).
Proof.
  intros Hx. split.
  - intros Hb. unfold average. rewrite Hb. reflexivity.
  - intros Hb. apply average_spec; assumption.
Qed.
End AverageClaim.

Lemma average_over_batch_witness :
  Tensor.wf (t32 2 1 2 [1; 2; 3; 4]) /\
  Tensor.average (t32 2 1 2 [1; 2; 3; 4]) =
  inr (Tensor.with_data (Tensor.Tensor3 1 1 2)
         (tab (Tensor.average_value (t32 2 1 2 [1; 2; 3; 4])) (1 * 2))).
Proof.
  assert (Hx : Tensor.wf (t32 2 1 2 [1; 2; 3; 4])).
  { unfold Tensor.wf; simpl; lia. }
  split; [exact Hx|].
  destruct (average_over_batch (t32 2 1 2 [1; 2; 3; 4]) Hx) as [_ Hne].
  apply Hne. simpl. lia.
Defined.

(** C7, the claim as stated fails: the average of the two samples [1, 2]
    and [3, 4] is [2, 3], one mean per position; the mean of all four
    elements is 2.5. *)
Lemma average_all_axes_counterexample :
  Tensor.average (t32 2 1 2 [1; 2; 3; 4]) = inr (t32 1 1 2 [2; 3]) /\
  Tensor.mean_all (t32 2 1 2 [1; 2; 3; 4]) = f32_half 5.
Proof. split; vm_compute; reflexivity. Qed.

(** * Raw file format *)

Section SaveRead.
Context {F : Type} `{Tensor.FloatRepr F}.
Import Tensor.

(** C10.  [save] appends to the file the four bytes of each of the [len]
    elements of the buffer, in buffer order and with nothing before or
    between them; [read] into a tensor of the same shape, from a stream
    that starts with those bytes, consumes exactly them and leaves in the
    buffer the elements that were saved, bit for bit. *)
Theorem save_read_roundtrip (x y : t F) (file : ofstream)
    (rest : list Byte.byte) :
  wf x -> wf y ->
  batch y = batch x -> height y = height x -> width y = width x ->
  Forall faithful (data x) ->
  save x file = inr (file ++ raw_bytes (data x)) /\
  Z.of_nat (length (raw_bytes (data x))) = 4 * len x /\
  read y (mk_ifstream (raw_bytes (data x) ++ rest) false) =
  inr (with_data y (data x), mk_ifstream rest false).
Proof.
  intros Hx Hy Hb Hh Hw Hf. split; [|split].
  - apply save_spec. exact Hx.
  - rewrite raw_bytes_length by exact Hf.
    destruct Hx as (_ & _ & _ & _ & Hlen). unfold sizeof_float. lia.
  - apply read_spec; try assumption.
    destruct Hx as (_ & _ & _ & Hlx & _). destruct Hy as (_ & _ & _ & Hly & _).
    rewrite Hlx, Hly, Hb, Hh, Hw. reflexivity.
Qed.
End SaveRead.

(** The bit patterns of 1.0f and -3.1415927f, read back into a tensor of
    two zeros. *)
Lemma save_read_roundtrip_witness :
  Tensor.wf (Tensor.mk 1 1 2 3 2 [1065353216; 3226013659]) /\
  Tensor.wf (Tensor.mk 1 1 2 3 2 [0; 0]) /\
  Forall Tensor.faithful [1065353216; 3226013659] /\
  Tensor.save (Tensor.mk 1 1 2 3 2 [1065353216; 3226013659]) [] =
    inr ([] ++ Tensor.raw_bytes [1065353216; 3226013659]) /\
  Tensor.read (Tensor.mk 1 1 2 3 2 [0; 0])
    (Tensor.mk_ifstream (Tensor.raw_bytes [1065353216; 3226013659] ++ []) false) =
    inr (Tensor.mk 1 1 2 3 2 [1065353216; 3226013659],
         Tensor.mk_ifstream [] false).
Proof.
  assert (Hx : Tensor.wf (Tensor.mk 1 1 2 3 2 [1065353216; 3226013659])).
  { unfold Tensor.wf; simpl; lia. }
  assert (Hy : Tensor.wf (Tensor.mk 1 1 2 3 2 [0; 0])).
  { unfold Tensor.wf; simpl; lia. }
  assert (Hf : Forall Tensor.faithful [1065353216; 3226013659]).
  { repeat constructor. }
  split; [exact Hx|]. split; [exact Hy|]. split; [exact Hf|].
  destruct (save_read_roundtrip (Tensor.mk 1 1 2 3 2 [1065353216; 3226013659])
              (Tensor.mk 1 1 2 3 2 [0; 0]) [] [] Hx Hy eq_refl eq_refl eq_refl Hf)
    as (Hsave & _ & Hread).
  split; [exact Hsave|exact Hread].
Defined.

Example save_bytes :
  Tensor.save (Tensor.mk 1 1 2 3 2 [1065353216; 3226013659]) [] =
  inr [Byte.x00; Byte.x00; Byte.x80; Byte.x3f;
       Byte.xdb; Byte.x0f; Byte.x49; Byte.xc0].
Proof. vm_compute. reflexivity. Qed.

(** Every 32-bit pattern is determined by its four bytes. *)
Lemma le32_faithful (w : Z) : 0 <= w < 2 ^ 32 -> Tensor.faithful w.
Proof.
  intros Hw. split; [reflexivity|]. apply le32_roundtrip. exact Hw.
Qed.

(** * The softmax derivative *)

Section SoftmaxPrime.
Context {F : Type} `{FloatOps F}.
Import ActivationLayer.

End SoftmaxPrime.


(** The values of that example, [0.25 * 1 - 0.25 * 2] and
    [-0.25 * 1 + 0.25 * 2]; and the guard of the source: a gradient of the
    default shape is not multiplied in. *)
Example softmaxPrime_values :
  ActivationLayer.softmaxPrime (TensorDim.mk 1 1 1 1)
    (NTensor.mk (TensorDim.mk 1 1 1 2) [f32_half 1; f32_half 1])
    (NTensor.mk (TensorDim.mk 0 0 0 0) [])
    (NTensor.mk (TensorDim.mk 1 1 1 2) [f32 1; f32 2]) =
  inr (NTensor.mk (TensorDim.mk 1 1 1 2)
         [SFopp (SFmul prec32 emax32 (f32_half 1) (f32_half 1));
          SFmul prec32 emax32 (f32_half 1) (f32_half 1)]) /\
  ActivationLayer.softmaxPrime (TensorDim.mk 1 1 1 1)
    (NTensor.mk (TensorDim.mk 1 1 1 1) [f32_half 1])
    (NTensor.mk (TensorDim.mk 0 0 0 0) [])
    (NTensor.mk (TensorDim.mk 1 1 1 1) [f32 2]) =
  inr (NTensor.mk (TensorDim.mk 1 1 1 1)
         [SFmul prec32 emax32 (f32_half 1) (f32_half 1)]).
Proof. split; vm_compute; reflexivity. Qed.

(** * Softmax *)

(** C3 (as amended).  [ActivationLayer::softmax] computes, for each batch row
    (the [feat_len] elements of one sample): find the row maximum (an
    element of the row than which [operator<] finds no element greater), add
    [-1] times it to every element, exponentiate, divide by the row sum of
    the exponentials taken from zero in the order of the row; this in any
    arithmetic whose [operator<] is a strict order.  In real arithmetic,
    consequently, each output batch row sums to 1 and adding one constant to
    every element of a row leaves the output unchanged.
    [Tensor::softmax] subtracts no maximum and works on the rows of [width]
    elements, one per batch and height index: every element is [exp] of the
    input, taken in [double], divided by the divisor of its row and
    converted to [float]; the divisor is the [float] to which the
    exponentials of the row are added one by one, each sum taken in [double]
    and converted to [float]. *)
Theorem softmax_by_rows :
  (forall (F : Type) (FO : FloatOps F) (EO : ExpOps F)
          (x output : NTensor.t F),
     (forall a : F, fltb a a = false) ->
     (forall a b c : F,
        fltb a b = true -> fltb b c = true -> fltb a c = true) ->
     NTensor.wf x -> NTensor.wf output ->
     1 <= TensorDim.getFeatureLen (NTensor.dim x) ->
     NTensor.uninitialized output = true \/
     NTensor.dim output = NTensor.dim x ->
     let fl := TensorDim.getFeatureLen (NTensor.dim x) in
     let elt := at_ fzero (NTensor.data x) in
     exists r,
       ActivationLayer.softmax x output = inr r /\
       NTensor.dim r = NTensor.dim x /\
       forall k, 0 <= k < NTensor.batch x ->
         exists p,
           0 <= p < fl /\
           (forall j, 0 <= j < fl ->
              fltb (elt (k * fl + p)) (elt (k * fl + j)) = false) /\
           forall i, 0 <= i < fl ->
             rd (NTensor.data r) (k * fl + i) =
             inr (fdiv
                    (fexp (fadd (elt (k * fl + i))
                             (fmul (fopp fone) (elt (k * fl + p)))))
                    (accum fadd fzero
                       (fun j =>
                          fexp (fadd (elt (k * fl + j))
                                  (fmul (fopp fone) (elt (k * fl + p)))))
                       fl))) /\
  (forall x output : NTensor.t R,
     NTensor.wf x -> NTensor.wf output ->
     1 <= TensorDim.getFeatureLen (NTensor.dim x) ->
     NTensor.uninitialized output = true \/
     NTensor.dim output = NTensor.dim x ->
     let fl := TensorDim.getFeatureLen (NTensor.dim x) in
     exists r,
       ActivationLayer.softmax x output = inr r /\
       (forall k, 0 <= k < NTensor.batch x ->
          accum Rplus 0%R
            (fun i => at_ 0%R (NTensor.data r) (k * fl + i)) fl = 1%R) /\
       (forall (y : NTensor.t R) (c : Z -> R),
          NTensor.wf y -> NTensor.dim y = NTensor.dim x ->
          (forall k i,
             0 <= k < NTensor.batch x -> 0 <= i < fl ->
             at_ 0%R (NTensor.data y) (k * fl + i) =
             Rplus (at_ 0%R (NTensor.data x) (k * fl + i)) (c k)) ->
          ActivationLayer.softmax y output = inr r)) /\
  (forall (F : Type) (FO : FloatOps F) (DO : DoubleOps F) (t : Tensor.t F),
     Tensor.wf t ->
     let w := Tensor.width t in
     exists r,
       Tensor.softmax t = inr r /\
       Tensor.batch r = Tensor.batch t /\
       Tensor.height r = Tensor.height t /\
       Tensor.width r = Tensor.width t /\
       forall row j,
         0 <= row < Tensor.batch t * Tensor.height t -> 0 <= j < w ->
         rd (Tensor.data r) (row * w + j) =
         inr (narrow
                (ddiv (dexp (widen (Tensor.get t (row * w + j))))
                   (widen
                      (accum
                         (fun acc a =>
                            narrow (dadd (widen acc) (dexp (widen a))))
                         fzero (fun i => Tensor.get t (row * w + i)) w))))).
Proof.
  split; [|split].
  - intros F FO EO x output Hirr Htrans Hx Ho Hfl Hout fl elt.
    pose proof Hx as (Hb & Hc & Hh & Hw & Hlen).
    assert (HL : NTensor.length x = NTensor.batch x * fl).
    { unfold NTensor.length, TensorDim.getDataLen, fl, NTensor.batch,
        TensorDim.getFeatureLen. lia. }
    assert (HL0 : 0 <= NTensor.length x) by (unfold fl in *; nia).
    exists (NTensor.mk (NTensor.dim x)
              (tab (ActivationLayer.softmax_value x) (NTensor.length x))).
    split; [apply layer_softmax_spec; assumption|].
    split; [reflexivity|]. cbn [NTensor.data].
    pose proof (repr_tab (ActivationLayer.softmax_value x) (NTensor.length x)
                  HL0) as Hr.
    intros k Hk.
    pose proof (max_pos_range (NTensor.data x) (k * fl) fl Hfl) as Hmp.
    exists (ActivationLayer.max_pos (NTensor.data x) (k * fl) fl - k * fl).
    replace (k * fl +
             (ActivationLayer.max_pos (NTensor.data x) (k * fl) fl - k * fl))
      with (ActivationLayer.max_pos (NTensor.data x) (k * fl) fl) by lia.
    split; [lia|]. split.
    + intros j Hj.
      apply (max_pos_no_greater (NTensor.data x) (k * fl) fl (k * fl + j)
               Hirr Htrans Hfl). lia.
    + intros i Hi. rewrite (repr_rd _ _ _ _ Hr) by (unfold fl in *; nia).
      f_equal. unfold fl. rewrite layer_softmax_value_at by exact Hi.
      rewrite shifted_at by exact Hi. f_equal.
      unfold ActivationLayer.row_sum. apply accum_ext. intros j Hj.
      rewrite shifted_at by exact Hj. reflexivity.
  - intros x output Hx Ho Hfl Hout fl.
    pose proof Hx as (Hb & Hc & Hh & Hw & Hlen).
    assert (HL : NTensor.length x = NTensor.batch x * fl).
    { unfold NTensor.length, TensorDim.getDataLen, fl, NTensor.batch,
        TensorDim.getFeatureLen. lia. }
    assert (HL0 : 0 <= NTensor.length x) by (unfold fl in *; nia).
    exists (NTensor.mk (NTensor.dim x)
              (tab (ActivationLayer.softmax_value x) (NTensor.length x))).
    split; [apply layer_softmax_spec; assumption|]. cbn [NTensor.data].
    pose proof (repr_tab (ActivationLayer.softmax_value x) (NTensor.length x)
                  HL0) as Hr.
    split.
    + intros k Hk.
      rewrite (accum_ext _ _ _
                 (fun i => ActivationLayer.softmax_value x (k * fl + i))).
      * apply layer_softmax_row_sum. exact Hfl.
      * intros i Hi. apply (repr_at 0%R _ _ _ _ Hr). unfold fl in *. nia.
    + intros y c Hy Hdim Hshift.
      rewrite layer_softmax_spec;
        [ | exact Hy | exact Ho | rewrite Hdim; exact Hfl
          | rewrite Hdim; exact Hout ].
      rewrite Hdim. do 2 f_equal.
      apply (layer_softmax_shift_tab x y c); assumption.
  - intros F FO DO t Ht w.
    pose proof Ht as (Hb & Hh & Hw & Hlt & _).
    assert (HL0 : 0 <= Tensor.len t) by nia.
    exists (Tensor.with_data
              (Tensor.Tensor3 (Tensor.batch t) (Tensor.height t)
                 (Tensor.width t))
              (tab (Tensor.softmax_value t) (Tensor.len t))).
    split; [apply tensor_softmax_spec; assumption|].
    split; [reflexivity|]. split; [reflexivity|]. split; [reflexivity|].
    cbn [Tensor.with_data Tensor.data].
    pose proof (repr_tab (Tensor.softmax_value t) (Tensor.len t) HL0) as Hr.
    intros row j Hrow Hj.
    rewrite (repr_rd _ _ _ _ Hr) by (unfold w in *; nia). f_equal.
    unfold Tensor.softmax_value, Tensor.softmax_divisor,
      Tensor.softmax_partial. fold w.
    destruct (decode2 w row j Hj) as [-> _]. reflexivity.
Qed.

Lemma softmax_by_rows_witness :
  (exists r,
     ActivationLayer.softmax (NTensor.mk (TensorDim.mk 1 1 2 1) [0%R; 0%R])
       (NTensor.mk (TensorDim.mk 0 0 0 0) []) = inr r /\
     NTensor.dim r = TensorDim.mk 1 1 2 1) /\
  (exists r,
     ActivationLayer.softmax (NTensor.mk (TensorDim.mk 1 1 2 1) [0%R; 0%R])
       (NTensor.mk (TensorDim.mk 0 0 0 0) []) = inr r /\
     accum Rplus 0%R (fun i => at_ 0%R (NTensor.data r) (0 * 2 + i)) 2 =
     1%R) /\
  (exists r,
     Tensor.softmax (tR 1 2 1 [0%R; 0%R]) = inr r /\ Tensor.width r = 1) /\
  (exists r,
     @ActivationLayer.softmax _ binary32_ops exp32_examples
       (NTensor.mk (TensorDim.mk 1 1 1 2) [f32 100; f32 100])
       (NTensor.mk (TensorDim.mk 0 0 0 0) []) = inr r /\
     NTensor.dim r = TensorDim.mk 1 1 1 2).
Proof.
  assert (Hx : NTensor.wf (NTensor.mk (TensorDim.mk 1 1 2 1) [0%R; 0%R])).
  { unfold NTensor.wf, NTensor.batch, NTensor.channel, NTensor.height,
      NTensor.width, NTensor.length, TensorDim.getDataLen; simpl; lia. }
  assert (Ho : NTensor.wf (NTensor.mk (TensorDim.mk 0 0 0 0) (@nil R))).
  { unfold NTensor.wf, NTensor.batch, NTensor.channel, NTensor.height,
      NTensor.width, NTensor.length, TensorDim.getDataLen; simpl; lia. }
  assert (Ht : Tensor.wf (tR 1 2 1 [0%R; 0%R])).
  { unfold Tensor.wf; simpl; lia. }
  assert (Hfl : 1 <= TensorDim.getFeatureLen
                       (NTensor.dim
                          (NTensor.mk (TensorDim.mk 1 1 2 1) [0%R; 0%R]))).
  { unfold TensorDim.getFeatureLen; simpl; lia. }
  assert (Hx32 : NTensor.wf
                   (NTensor.mk (TensorDim.mk 1 1 1 2) [f32 100; f32 100])).
  { unfold NTensor.wf, NTensor.batch, NTensor.channel, NTensor.height,
      NTensor.width, NTensor.length, TensorDim.getDataLen; simpl; lia. }
  assert (Ho32 : NTensor.wf
                   (NTensor.mk (TensorDim.mk 0 0 0 0) (@nil spec_float))).
  { unfold NTensor.wf, NTensor.batch, NTensor.channel, NTensor.height,
      NTensor.width, NTensor.length, TensorDim.getDataLen; simpl; lia. }
  assert (Hfl32 : 1 <= TensorDim.getFeatureLen
                         (NTensor.dim
                            (NTensor.mk (TensorDim.mk 1 1 1 2)
                               [f32 100; f32 100]))).
  { unfold TensorDim.getFeatureLen; simpl; lia. }
  destruct softmax_by_rows as (HA & HB & HC).
  split; [|split; [|split]].
  - destruct (HA R real_ops real_exp
                (NTensor.mk (TensorDim.mk 1 1 2 1) [0%R; 0%R])
                (NTensor.mk (TensorDim.mk 0 0 0 0) [])
                real_ltb_irrefl real_ltb_trans Hx Ho Hfl
                (or_introl eq_refl)) as (r & Hr & Hdim & _).
    exists r. split; [exact Hr|exact Hdim].
  - destruct (HB (NTensor.mk (TensorDim.mk 1 1 2 1) [0%R; 0%R])
                (NTensor.mk (TensorDim.mk 0 0 0 0) [])
                Hx Ho Hfl (or_introl eq_refl)) as (r & Hr & Hsum & _).
    exists r. split; [exact Hr|].
    apply (Hsum 0). unfold NTensor.batch; simpl; lia.
  - destruct (HC R real_ops real_double (tR 1 2 1 [0%R; 0%R]) Ht)
      as (r & Hr & _ & _ & Hwr & _).
    exists r. split; [exact Hr|exact Hwr].
  - destruct (HA spec_float binary32_ops exp32_examples
                (NTensor.mk (TensorDim.mk 1 1 1 2) [f32 100; f32 100])
                (NTensor.mk (TensorDim.mk 0 0 0 0) [])
                SFltb_irrefl SFltb_trans Hx32 Ho32 Hfl32
                (or_introl eq_refl)) as (r & Hr & Hdim & _).
    exists r. split; [exact Hr|exact Hdim].
Defined.

(** C3 as written fails for [Tensor::softmax].  On one sample of two rows of
    width one holding [0, 0] it returns [1, 1], so the batch row sums to 2;
    subtracting the row maximum, exponentiating and dividing by the batch-row
    sum, as [ActivationLayer::softmax] does, gives [1/2, 1/2].  And as no
    maximum is subtracted, on the finite row [100, 100] the [float] divisor
    is infinite and the row is [0, 0]. *)
Lemma softmax_batch_row_counterexample :
  Tensor.softmax (tR 1 2 1 [0%R; 0%R]) = inr (tR 1 2 1 [1%R; 1%R]) /\
  ActivationLayer.softmax (NTensor.mk (TensorDim.mk 1 1 2 1) [0%R; 0%R])
    (NTensor.mk (TensorDim.mk 0 0 0 0) []) =
  inr (NTensor.mk (TensorDim.mk 1 1 2 1) [(1 / 2)%R; (1 / 2)%R]) /\
  (1 + 1 <> 1)%R /\
  @Tensor.softmax _ _ (binary64_ops exp_examples) (t32 1 1 2 [100; 100]) =
  inr (t32 1 1 2 [0; 0]).
Proof.
  split; [|split; [|split]].
  - rewrite tensor_softmax_spec by (unfold Tensor.wf; simpl; lia).
    cbv -[exp Rplus Rdiv IZR]. rewrite exp_0.
    do 2 f_equal. repeat (f_equal; try lra).
  - rewrite layer_softmax_spec;
      [ | unfold NTensor.wf, NTensor.batch, NTensor.channel, NTensor.height,
            NTensor.width, NTensor.length, TensorDim.getDataLen,
            TensorDim.getFeatureLen; simpl; lia ..
        | left; reflexivity ].
    cbv -[exp Rplus Rdiv IZR Rmult Ropp Rlt_dec].
    destruct (Rlt_dec 0 0) as [Hlt|_]; [lra|].
    cbv -[exp Rplus Rdiv IZR Rmult Ropp].
    replace (0 + - (1) * 0)%R with 0%R by lra. rewrite exp_0.
    do 2 f_equal. repeat (f_equal; try lra).
  - lra.
  - vm_compute. reflexivity.
Qed.

(** The same finite row [100, 100] in binary32, with [exp(0.0) = 1.0]:
    [ActivationLayer::softmax] subtracts the maximum and returns
    [0.5, 0.5]. *)
Example layer_softmax_values :
  @ActivationLayer.softmax _ binary32_ops exp32_examples
    (NTensor.mk (TensorDim.mk 1 1 1 2) [f32 100; f32 100])
    (NTensor.mk (TensorDim.mk 0 0 0 0) []) =
  inr (NTensor.mk (TensorDim.mk 1 1 1 2) [f32_half 1; f32_half 1]).
Proof. vm_compute. reflexivity. Qed.
(** * Scalar operations and the batch-wise sum *)

Section MapLoops.
Context {F : Type}.

(** A loop that stores [f] of cell [i] of [src] into cell [i], for the
    first [n] cells. *)
Lemma map_loop (f : F -> F) (src d : list F) Ls hs L g n :
  repr src Ls hs -> repr d L g -> 0 <= n -> n <= Ls -> n <= L ->
  exists d',
    for_lt 0 n (fun i d => a <- rd src i ;; wr d i (f a)) d = inr d' /\
    repr d' L (upto (fun i => f (hs i)) g n).
Proof.
  intros Hs Hd Hn HLs HL.
  apply (fill_range _ (fun i => f (hs i)) g L 0 n d); [exact Hn| |].
  - apply repr_upto_0; [lia|exact Hd].
  - intros j d1 Hj Hd1. rewrite (repr_rd _ _ _ _ Hs) by lia. cbn [bind].
    apply repr_upto_wr; [exact Hd1|lia|reflexivity].
Qed.
End MapLoops.

Section ScalarOps.
Context {F : Type} `{FloatOps F}.
Import Tensor.

Lemma memset_saxpy (alpha : F) (x : t F) :
  wf x ->
  exists d d',
    memset0 (data (Tensor3 (batch x) (height x) (width x)))
      (len (Tensor3 (batch x) (height x) (width x))) = inr d /\
    cblas_saxpy (len x) alpha (data x) 0 d 0 = inr d' /\
    repr d' (len x) (fun i => fadd fzero (fmul alpha (get x i))).
Proof.
  intros Hx. pose proof Hx as (Hb & Hh & Hw & Hlx & _).
  assert (HL : 0 <= len x) by nia.
  destruct (memset0_spec (data (Tensor3 (batch x) (height x) (width x)))
              (len x) (fun _ => fzero) HL) as (d & Hd & Hrd).
  { rewrite Hlx. apply Tensor3_repr. nia. }
  exists d.
  destruct (saxpy_fill (len x) alpha (data x) d (len x) (get x) (len x)
              (fun i => fadd fzero (fmul alpha (get x i))) (fun _ => fzero) 0)
    as (d' & Hs & Hrd').
  - lia.
  - apply wf_repr. exact Hx.
  - apply repr_upto_0; [lia|exact Hrd].
  - lia.
  - lia.
  - intros i Hi. reflexivity.
  - exists d'. split; [|split].
    + cbn [Tensor3 len]. rewrite <- Hlx. exact Hd.
    + exact Hs.
    + eapply repr_upto_all; [|exact Hrd']. lia.
Qed.

Lemma scalar_loop (f : F -> F) (x : t F) :
  wf x ->
  for_lt 0 (len x) (fun k d => a <- rd (data x) k ;; wr d k (f a))
    (data (Tensor3 (batch x) (height x) (width x))) =
  inr (tab (fun i => f (get x i)) (len x)).
Proof.
  intros Hx. pose proof Hx as (Hb & Hh & Hw & Hlx & _).
  assert (HL : 0 <= len x) by nia.
  destruct (map_loop f (data x)
              (data (Tensor3 (batch x) (height x) (width x)))
              (len x) (get x) (len x) (fun _ => fzero) (len x))
    as (d & Hd & Hrd).
  - apply wf_repr. exact Hx.
  - rewrite Hlx. apply Tensor3_repr. nia.
  - exact HL.
  - lia.
  - lia.
  - rewrite Hd. f_equal. apply repr_eq.
    eapply repr_upto_all; [|exact Hrd]. lia.
Qed.

(** X1.  [multiply(float)] and [divide(float)] never leave the buffer: on
    both paths they return a tensor of the shape of [x] whose cell [i] is
    computed from cell [i] of [x] alone; the loops multiply or divide it by
    [value], the accelerated path adds [value] (or [1 / value]) times the
    cell to the zero [memset] left. *)
Theorem scalar_multiply_divide (bk : backend) (x : t F) (value : F) :
  wf x ->
  multiply_f bk x value =
    inr (with_data (Tensor3 (batch x) (height x) (width x))
           (tab (fun i =>
                   match bk with
                   | Fallback => fmul (get x i) value
                   | Blas => fadd fzero (fmul value (get x i))
                   end) (len x))) /\
  divide_f bk x value =
    inr (with_data (Tensor3 (batch x) (height x) (width x))
           (tab (fun i =>
                   match bk with
                   | Fallback => fdiv (get x i) value
                   | Blas => fadd fzero (fmul (fdiv fone value) (get x i))
                   end) (len x))).
Proof.
  intros Hx. unfold multiply_f, divide_f. destruct bk; split.
  - destruct (memset_saxpy value x Hx) as (d & d' & Hd & Hd' & Hr).
    rewrite Hd. cbn [bind]. rewrite Hd'. cbn [bind]. unfold ret.
    do 2 f_equal. apply repr_eq. exact Hr.
  - destruct (memset_saxpy (fdiv fone value) x Hx) as (d & d' & Hd & Hd' & Hr).
    rewrite Hd. cbn [bind]. rewrite Hd'. cbn [bind]. unfold ret.
    do 2 f_equal. apply repr_eq. exact Hr.
  - rewrite (scalar_loop (fun a => fmul a value) x Hx). reflexivity.
  - rewrite (scalar_loop (fun a => fdiv a value) x Hx). reflexivity.
Qed.
End ScalarOps.

Section ScalarAdd.
Context {F : Type} `{FloatOps F}.
Import Tensor.

Lemma const_fill (c : F) (d : list F) L g :
  0 <= L -> repr d L g ->
  exists d', for_lt 0 L (fun i td => wr td i c) d = inr d' /\
             repr d' L (fun _ => c).
Proof.
  intros HL Hd.
  destruct (fill_range (fun i td => wr td i c) (fun _ => c) g L 0 L d)
    as (d' & Hr & Hd').
  - exact HL.
  - apply repr_upto_0; [lia|exact Hd].
  - intros j d1 Hj Hd1. apply repr_upto_wr; [exact Hd1|lia|reflexivity].
  - exists d'. split; [exact Hr|]. eapply repr_upto_all; [|exact Hd']. lia.
Qed.

(** X2.  [add(float)]: the accelerated path adds [value * 1.0f] to every
    cell.  The fallback loop runs over [batch] cells, not [len]: it adds
    [value] to the first [batch] cells and leaves the others at zero, and on
    a tensor with batches but no elements it reads cell 0 of an empty
    buffer. *)
Theorem scalar_add_paths (x : t F) (value : F) :
  wf x ->
  add_f Blas x value =
    inr (with_data (Tensor3 (batch x) (height x) (width x))
           (tab (fun i => fadd (get x i) (fmul value fone)) (len x))) /\
  (batch x <= len x ->
   add_f Fallback x value =
     inr (with_data (Tensor3 (batch x) (height x) (width x))
            (tab (fun i => if i <? batch x then fadd (get x i) value
                           else fzero) (len x)))) /\
  (len x < batch x -> add_f Fallback x value = inl OutOfRange).
Proof.
  intros Hx. pose proof Hx as (Hb & Hh & Hw & Hlx & Hlen).
  assert (HL : 0 <= len x) by nia.
  assert (H0 : repr (data (Tensor3 (batch x) (height x) (width x))) (len x)
                 (fun _ => fzero)).
  { rewrite Hlx. apply Tensor3_repr. nia. }
  unfold add_f. split; [|split].
  - destruct (scopy_spec (len x) (data x)
                (data (Tensor3 (batch x) (height x) (width x)))
                (get x) (fun _ => fzero) HL (wf_repr x Hx) H0)
      as (d & Hd & Hrd).
    rewrite Hd. cbn [bind].
    destruct (const_fill fone
                (data (Tensor3 (batch x) (height x) (width x))) (len x)
                (fun _ => fzero) HL H0) as (td & Htd & Hrtd).
    replace (len (Tensor3 (batch x) (height x) (width x))) with (len x)
      by (cbn [Tensor3 len]; lia).
    rewrite Htd. cbn [bind].
    destruct (saxpy_fill (len x) value td d (len x) (fun _ => fone) (len x)
                (fun i => fadd (get x i) (fmul value fone)) (get x) 0)
      as (d' & Hs & Hrd').
    + lia.
    + exact Hrtd.
    + apply repr_upto_0; [lia|exact Hrd].
    + lia.
    + lia.
    + intros i Hi. reflexivity.
    + rewrite Hs. cbn [bind]. unfold ret. do 2 f_equal. apply repr_eq.
      eapply repr_upto_all; [|exact Hrd']. lia.
  - intros Hle.
    destruct (map_loop (fun a => fadd a value) (data x)
                (data (Tensor3 (batch x) (height x) (width x)))
                (len x) (get x) (len x) (fun _ => fzero) (batch x)
                (wf_repr x Hx) H0 Hb Hle Hle) as (d & Hd & Hrd).
    rewrite Hd. cbn [bind]. unfold ret. do 2 f_equal. apply repr_eq.
    exact Hrd.
  - intros Hlt.
    assert (Hpos : 0 < batch x) by lia.
    rewrite (for_lt_first_fails 0 (batch x) _ _ OutOfRange Hpos).
    + reflexivity.
    + assert (Hz : len x = 0).
      { assert (Hhw : height x * width x = 0) by nia. rewrite Hlx, Hhw. lia. }
      rewrite rd_oob; [reflexivity|]. right. lia.
Qed.
End ScalarAdd.

Section BatchSum.
Context {F : Type} `{FloatOps F}.
Import Tensor.

Lemma sasum_spec (x : list F) L h n xo :
  repr x L h -> 0 <= xo -> 0 <= n -> xo + n <= L ->
  cblas_sasum n x xo = inr (accum fadd fzero (fun i => fabs (h (xo + i))) n).
Proof.
  intros Hx Hxo Hn HL. unfold cblas_sasum. apply accum_loop.
  intros i acc Hi. rewrite (repr_rd _ _ _ _ Hx) by lia. reflexivity.
Qed.

Lemma Tensor3_column b :
  0 <= b -> repr (data (Tensor3 b 1 1)) b (fun _ => fzero).
Proof.
  intros Hb. pose proof (Tensor3_repr b 1 1) as Hr.
  replace (1 * 1 * b) with b in Hr by lia. apply Hr. exact Hb.
Qed.

Lemma sum_blas_spec (x : t F) :
  wf x ->
  sum Blas x =
  inr (with_data (Tensor3 (batch x) 1 1)
         (tab (fun k =>
                 accum fadd fzero
                   (fun i => fabs (get x (k * width x * height x + i)))
                   (width x * height x)) (batch x))).
Proof.
  intros Hx. pose proof Hx as (Hb & Hh & Hw & Hlx & _). unfold sum.
  destruct (fill_range
              (fun k d =>
                 s <- cblas_sasum (width x * height x) (data x)
                        (k * width x * height x) ;;
                 wr d k s)
              (fun k =>
                 accum fadd fzero
                   (fun i => fabs (get x (k * width x * height x + i)))
                   (width x * height x))
              (fun _ => fzero) (batch x) 0 (batch x)
              (data (Tensor3 (batch x) 1 1))) as (d & Hd & Hrd).
  - exact Hb.
  - apply repr_upto_0; [lia|]. apply Tensor3_column. exact Hb.
  - intros k d1 Hk Hd1.
    rewrite (sasum_spec (data x) (len x) (get x)) by
      first [apply wf_repr; exact Hx | nia].
    cbn [bind]. apply repr_upto_wr; [exact Hd1|lia|reflexivity].
  - rewrite Hd. cbn [bind]. unfold ret. do 2 f_equal. apply repr_eq.
    eapply repr_upto_all; [|exact Hrd]. lia.
Qed.

(** One round of the fallback loop, for a batch whose first cell has the
    index of the batch. *)
Lemma sum_round (x : t F) (d : list F) f k :
  wf x -> 0 <= k < batch x -> k * width x * height x = k ->
  repr d (batch x) (upto f (fun _ => fzero) k) ->
  f k = accum fadd fzero (fun i => get x (k * width x * height x + i))
          (height x * width x) ->
  exists d',
    (d <- wr d (k * width x * height x) fzero ;;
     for_lt 0 (height x * width x)
       (fun i d =>
          acc <- rd d (k * width x * height x) ;;
          a <- rd (data x) (k * width x * height x + i) ;;
          wr d (k * width x * height x) (fadd acc a)) d) = inr d' /\
    repr d' (batch x) (upto f (fun _ => fzero) (k + 1)).
Proof.
  intros Hx Hk Hid Hd Hf. pose proof Hx as (Hb & Hh & Hw & Hlx & _).
  rewrite Hid.
  destruct (repr_upto_upd d (batch x) _ _ k fzero Hd Hk) as (d1 & Hw1 & Hd1).
  rewrite Hw1. cbn [bind].
  destruct (accum_cell fadd (fun i => get x (k + i)) d1 (batch x) _ k fzero
              (height x * width x)
              (fun i d =>
                 acc <- rd d k ;;
                 a <- rd (data x) (k + i) ;;
                 wr d k (fadd acc a)) Hd1 Hk) as (d2 & Hl2 & Hd2).
  - intros i d0 acc Hi Hd0.
    rewrite (repr_upd_rd _ _ _ _ _ Hd0 Hk). cbn [bind].
    rewrite (repr_rd _ _ _ _ (wf_repr x Hx)) by nia. cbn [bind].
    apply (repr_upd_wr d0 (batch x) _ k acc _ Hd0 Hk).
  - exists d2. split; [exact Hl2|].
    apply repr_upd_upto. rewrite Hf, Hid. exact Hd2.
Qed.

(** X3.  [sum()]: the accelerated path returns, for every batch, the sum of
    the absolute values of its elements, for every tensor.  The fallback
    path returns the signed sums when there is at most one batch or at most
    one element per batch, and writes out of range otherwise. *)
Theorem sum_by_path (x : t F) :
  wf x ->
  sum Blas x =
    inr (with_data (Tensor3 (batch x) 1 1)
           (tab (fun k =>
                   accum fadd fzero
                     (fun i => fabs (get x (k * width x * height x + i)))
                     (width x * height x)) (batch x))) /\
  (batch x <= 1 \/ width x * height x <= 1 ->
   sum Fallback x =
     inr (with_data (Tensor3 (batch x) 1 1)
            (tab (fun k =>
                    accum fadd fzero
                      (fun i => get x (k * width x * height x + i))
                      (height x * width x)) (batch x)))) /\
  (2 <= batch x -> 2 <= width x * height x ->
   sum Fallback x = inl OutOfRange).
Proof.
  intros Hx. pose proof Hx as (Hb & Hh & Hw & Hlx & _).
  split; [apply sum_blas_spec; exact Hx|]. split.
  - intros Hcase. unfold sum.
    assert (H0 : repr (data (Tensor3 (batch x) 1 1)) (batch x)
                   (fun _ => fzero)).
    { apply Tensor3_column. exact Hb. }
    assert (Hcases : (forall k, 0 <= k < batch x ->
                        k * width x * height x = k) \/
                     width x * height x = 0).
    { destruct (Z.eq_dec (width x * height x) 0) as [Hz|Hnz];
        [right; exact Hz|left].
      intros k Hk. destruct Hcase as [Hb1|Hs1]; [|nia].
      assert (k = 0) by lia. subst k. lia. }
    destruct Hcases as [Hid|Hz].
    + destruct (fill_range
                  (fun k d =>
                     d <- wr d (k * width x * height x) fzero ;;
                     for_lt 0 (height x * width x)
                       (fun i d =>
                          acc <- rd d (k * width x * height x) ;;
                          a <- rd (data x) (k * width x * height x + i) ;;
                          wr d (k * width x * height x) (fadd acc a)) d)
                  (fun k =>
                     accum fadd fzero
                       (fun i => get x (k * width x * height x + i))
                       (height x * width x))
                  (fun _ => fzero) (batch x) 0 (batch x)
                  (data (Tensor3 (batch x) 1 1))) as (d & Hd & Hrd).
      * exact Hb.
      * apply repr_upto_0; [lia|exact H0].
      * intros k d1 Hk Hd1.
        apply sum_round; [exact Hx|exact Hk|apply Hid; exact Hk|exact Hd1|].
        reflexivity.
      * rewrite Hd. cbn [bind]. unfold ret. do 2 f_equal. apply repr_eq.
        eapply repr_upto_all; [|exact Hrd]. lia.
    + destruct (for_lt_inv
                  (fun (_ : Z) d => repr d (batch x) (fun _ : Z => fzero))
                  0 (batch x)
                  (fun k d =>
                     d <- wr d (k * width x * height x) fzero ;;
                     for_lt 0 (height x * width x)
                       (fun i d =>
                          acc <- rd d (k * width x * height x) ;;
                          a <- rd (data x) (k * width x * height x + i) ;;
                          wr d (k * width x * height x) (fadd acc a)) d)
                  (data (Tensor3 (batch x) 1 1))) as (d & Hd & Hrd).
      * exact Hb.
      * exact H0.
      * intros k d1 Hk Hd1.
        replace (k * width x * height x) with 0 by nia.
        destruct (repr_wr d1 (batch x) _ 0 fzero Hd1) as (d2 & Hw2 & Hd2);
          [lia|].
        rewrite Hw2. cbn [bind]. rewrite for_lt_none by lia.
        exists d2. split; [reflexivity|].
        eapply repr_ext; [exact Hd2|]. intros i Hi. unfold upd.
        destruct (i =? 0); reflexivity.
      * rewrite Hd. cbn [bind]. unfold ret. do 2 f_equal. apply repr_eq.
        eapply repr_ext; [exact Hrd|]. intros k Hk. cbv beta.
        rewrite accum_0 by lia. reflexivity.
  - intros Hb2 Hs2. apply sum_fallback_overrun; assumption.
Qed.
End BatchSum.

Lemma scalar_multiply_divide_witness :
  Tensor.wf (t32 1 1 2 [1; 2]) /\
  exists r,
    Tensor.multiply_f Blas (t32 1 1 2 [1; 2]) (f32 3) = inr r /\
    Tensor.width r = 2.
Proof.
  assert (Hx : Tensor.wf (t32 1 1 2 [1; 2])).
  { unfold Tensor.wf; simpl; lia. }
  split; [exact Hx|].
  destruct (scalar_multiply_divide Blas (t32 1 1 2 [1; 2]) (f32 3) Hx)
    as [Hmul _].
  eexists. split; [exact Hmul|reflexivity].
Defined.

Lemma scalar_add_paths_witness :
  Tensor.wf (t32 2 1 2 [1; 2; 3; 4]) /\
  exists r,
    Tensor.add_f Fallback (t32 2 1 2 [1; 2; 3; 4]) (f32 1) = inr r /\
    Tensor.batch r = 2.
Proof.
  assert (Hx : Tensor.wf (t32 2 1 2 [1; 2; 3; 4])).
  { unfold Tensor.wf; simpl; lia. }
  split; [exact Hx|].
  destruct (scalar_add_paths (t32 2 1 2 [1; 2; 3; 4]) (f32 1) Hx)
    as (_ & Hloop & _).
  eexists. split; [apply Hloop; simpl; lia|reflexivity].
Defined.

(** The first two of the four cells receive the scalar. *)
Example scalar_add_fallback_values :
  Tensor.add_f Fallback (t32 2 1 2 [1; 2; 3; 4]) (f32 1) =
  inr (t32 2 1 2 [2; 3; 0; 0]).
Proof. vm_compute. reflexivity. Qed.

Lemma sum_by_path_witness :
  Tensor.wf (t32 1 1 3 [1; 2; 3]) /\
  exists r,
    Tensor.sum Fallback (t32 1 1 3 [1; 2; 3]) = inr r /\ Tensor.batch r = 1.
Proof.
  assert (Hx : Tensor.wf (t32 1 1 3 [1; 2; 3])).
  { unfold Tensor.wf; simpl; lia. }
  split; [exact Hx|].
  destruct (sum_by_path (t32 1 1 3 [1; 2; 3]) Hx) as (_ & Hloop & _).
  eexists. split; [apply Hloop; left; simpl; lia|reflexivity].
Defined.
(** * [divide] on runs of four elements or more *)

Section DivideRuns.
Context {F : Type} `{FloatOps F}.
Import Tensor.

(** The loop unrolled four times followed by a remainder loop that starts
    one cell early: the cell before the remainder is computed twice. *)
Lemma unrolled_fill_back op (x m : t F) (d : list F) L f g b n
    (tail : Z -> list F -> res (list F)) :
  wf x -> wf m -> repr d L (upto f g b) ->
  4 <= n -> 0 <= b -> b + n <= L -> b + n <= len x -> n <= len m ->
  (forall j, 0 <= j < n -> f (b + j) = op (get x (b + j)) (get m j)) ->
  (forall j d, tail j d = elem op x m (b + j) j d) ->
  exists r d',
    for_by4 (Z.quot n 4 * 4) (elem4 op x m b) d = inr r /\
    for_lt (fst r - 1) n tail (snd r) = inr d' /\
    repr d' L (upto f g (b + n)).
Proof.
  intros Hx Hm Hd Hn Hb HL Hlx Hlm Hf Htail.
  destruct (quot4_bounds n ltac:(lia)) as [He0 He4].
  assert (Hq : 1 <= Z.quot n 4).
  { pose proof (Z.quot_rem' n 4) as Hqr.
    pose proof (Z.rem_bound_pos n 4 ltac:(lia) ltac:(lia)). lia. }
  destruct (for_by4_inv (fun j d => repr d L (upto f g (b + j))) (Z.quot n 4)
              (elem4 op x m b) d) as (d1 & Hr1 & Hd1).
  - exact He0.
  - eapply repr_upto_eq; [exact Hd|lia].
  - intros j d0 Hj Hd0.
    destruct (elem4_fill op x m d0 L f g b (4 * j)) as (d' & He & Hd');
      [exact Hx | exact Hm | exact Hd0 | lia | lia | lia | lia | lia | | ].
    + intros i Hi. apply Hf. lia.
    + exists d'. split; [exact He|]. eapply repr_upto_eq; [exact Hd'|lia].
  - exists (4 * Z.quot n 4, d1). cbn [fst snd].
    destruct (for_lt_inv
                (fun j d => repr d L (upto f g (b + Z.max j (4 * Z.quot n 4))))
                (4 * Z.quot n 4 - 1) n tail d1) as (d2 & Hr2 & Hd2).
    + lia.
    + eapply repr_upto_eq; [exact Hd1|lia].
    + intros j d0 Hj Hd0. rewrite Htail.
      destruct (Z.eq_dec j (4 * Z.quot n 4 - 1)) as [Hjq|Hjq].
      * unfold elem.
        rewrite (repr_rd _ _ _ _ (wf_repr x Hx)) by lia. cbn [bind].
        rewrite (repr_rd _ _ _ _ (wf_repr m Hm)) by lia. cbn [bind].
        destruct (repr_wr d0 L _ (b + j) (op (get x (b + j)) (get m j)) Hd0)
          as (d' & Hw & Hd'); [lia|].
        exists d'. split; [exact Hw|].
        eapply repr_ext; [exact Hd'|].
        intros i Hi. unfold upd, upto.
        replace (Z.max (j + 1) (4 * Z.quot n 4)) with (4 * Z.quot n 4) by lia.
        replace (Z.max j (4 * Z.quot n 4)) with (4 * Z.quot n 4) by lia.
        destruct (Z.eqb_spec i (b + j)) as [->|Hne]; [|reflexivity].
        destruct (Z.ltb_spec (b + j) (b + 4 * Z.quot n 4)); [|lia].
        symmetry. apply Hf. lia.
      * destruct (elem_fill op x m d0 L f g (b + j) j) as (d' & He & Hd');
          [exact Hx | exact Hm
          | eapply repr_upto_eq; [exact Hd0|lia]
          | lia | lia | lia | apply Hf; lia | ].
        exists d'. split; [exact He|]. eapply repr_upto_eq; [exact Hd'|lia].
    + exists d2. split; [exact Hr1|]. split; [exact Hr2|].
      eapply repr_upto_eq; [exact Hd2|lia].
Qed.

Lemma divide_spec (x m : t F) :
  wf x -> wf m -> height x = height m -> width x = width m ->
  (batch m = 1 /\ 4 <= width x * height x) \/
  (batch m <> 1 /\ batch m = batch x /\ 4 <= len x) ->
  divide x m = inr (elementwise fdiv x m).
Proof.
  intros Hx Hm Hh Hw Hb. unfold divide.
  rewrite (dims_assert_ok x m Hh Hw). cbn [bind].
  pose proof Hx as (Hbx & Hhx & Hwx & Hlx & _).
  pose proof Hm as (Hbm & _ & _ & Hlm & _).
  set (f := fun idx => fdiv (get x idx) (get m (right_index x m idx))).
  assert (H0 : repr (data (Tensor3 (batch x) (height x) (width x))) (len x)
                 (fun _ => fzero)).
  { rewrite Hlx. apply Tensor3_repr. nia. }
  destruct (Z.eqb_spec (batch m) 1) as [Hb1|Hb1].
  - assert (H4 : 4 <= width x * height x) by (destruct Hb as [[_ ?]|[? _]]; [assumption|contradiction]).
    assert (Hs : width x * height x = len m) by nia.
    destruct (fill_blocks (fun d => d) (fun _ => True)
                (fun k d =>
                   r <- for_by4 (Z.quot (width x * height x) 4 * 4)
                          (elem4 fdiv x m (k * width x * height x)) d ;;
                   for_lt (fst r - 1) (width x * height x)
                     (fun j d => elem fdiv x m (k * width x * height x + j) j d)
                     (snd r))
                f (fun _ => fzero) (len x) 0 (batch x) (width x * height x)
                (data (Tensor3 (batch x) (height x) (width x))))
      as (d & Hr & _ & Hd).
    + exact Hbx.
    + exact I.
    + apply repr_upto_0; [lia|exact H0].
    + intros k d Hk _ Hd.
      destruct (unrolled_fill_back fdiv x m d (len x) f (fun _ => fzero)
                  (k * width x * height x) (width x * height x)
                  (fun j d => elem fdiv x m (k * width x * height x + j) j d))
        as (r & d' & Hr1 & Hr2 & Hd');
        [exact Hx | exact Hm | eapply repr_upto_eq; [exact Hd|lia]
        | exact H4 | nia | nia | nia | lia | | reflexivity | ].
      * intros j Hj. unfold f. do 2 f_equal.
        rewrite right_index_bcast by assumption. rewrite <- Hs.
        replace (k * width x * height x + j) with (j + k * (width x * height x))
          by lia.
        rewrite Z.mod_add by lia. apply Z.mod_small. lia.
      * exists d'. rewrite Hr1. cbn [bind]. split; [exact Hr2|].
        split; [exact I|]. eapply repr_upto_eq; [exact Hd'|lia].
    + rewrite Hr. cbn [bind]. unfold ret, elementwise. do 2 f_equal.
      apply repr_eq. eapply repr_upto_all; [|exact Hd]. nia.
  - destruct Hb as [[? _]|(_ & Hbb & H4)]; [contradiction|].
    assert (Hle : len x <= len m) by (apply same_len; assumption).
    destruct (unrolled_fill_back fdiv x m
                (data (Tensor3 (batch x) (height x) (width x))) (len x) f
                (fun _ => fzero) 0 (len x)
                (fun j d => elem fdiv x m j j d))
      as (r & d' & Hr1 & Hr2 & Hd');
      [exact Hx | exact Hm | apply repr_upto_0; [lia|exact H0]
      | exact H4 | lia | lia | lia | lia | | reflexivity | ].
    + intros j Hj. unfold f. rewrite right_index_same by assumption.
      reflexivity.
    + rewrite Hr1. cbn [bind]. rewrite Hr2. cbn [bind].
      unfold ret, elementwise. do 2 f_equal.
      apply repr_eq. eapply repr_upto_all; [|exact Hd']. lia.
Qed.

Lemma divide_short_run (x m : t F) :
  wf x -> wf m -> height x = height m -> width x = width m ->
  (batch m = 1 /\ 1 <= batch x /\ width x * height x < 4) \/
  (batch m <> 1 /\ len x < 4) ->
  divide x m = inl OutOfRange.
Proof.
  intros Hx Hm Hh Hw Hcase.
  pose proof Hx as (Hbx & Hhx & Hwx & Hlx & _).
  unfold divide. rewrite (dims_assert_ok x m Hh Hw). cbn [bind].
  destruct (Z.eqb_spec (batch m) 1) as [Hm1|Hm1].
  - destruct Hcase as [(_ & Hb1 & Hs)|[? _]]; [|contradiction].
    rewrite (for_lt_first_fails 0 (batch x) _ _ OutOfRange ltac:(lia));
      [reflexivity|].
    rewrite for_by4_zero by
      (pose proof (Z.quot_small (width x * height x) 4); nia).
    cbn [bind fst snd].
    apply for_lt_first_fails; [nia|]. unfold elem.
    rewrite rd_oob by lia. reflexivity.
  - destruct Hcase as [[? _]|[_ Hs]]; [contradiction|].
    assert (Hl0 : 0 <= len x) by nia.
    rewrite for_by4_zero by (pose proof (Z.quot_small (len x) 4); lia).
    cbn [bind fst snd].
    rewrite (for_lt_first_fails (0 - 1) (len x) _ _ OutOfRange ltac:(lia));
      [reflexivity|].
    unfold elem. rewrite rd_oob by lia. reflexivity.
Qed.
End DivideRuns.

Section DivideTheorem.
Context {F : Type} `{FloatOps F}.
Import Tensor.

(** X4.  [divide(Tensor)] returns the elementwise quotient exactly when the
    run that its loops cover has four elements or more: one batch of the
    left operand when the right operand has batch size one, the whole
    buffer otherwise.  There the remainder loop, which starts one cell
    early, recomputes a cell the unrolled loop has written; on a shorter run
    it starts at cell -1 and the operation leaves the buffer. *)
Theorem divide_runs_of_four (x m : t F) :
  wf x -> wf m -> height x = height m -> width x = width m ->
  (batch m = 1 -> 4 <= width x * height x ->
   divide x m = inr (elementwise fdiv x m)) /\
  (batch m <> 1 -> batch m = batch x -> 4 <= len x ->
   divide x m = inr (elementwise fdiv x m)) /\
  (batch m = 1 -> 1 <= batch x -> width x * height x < 4 ->
   divide x m = inl OutOfRange) /\
  (batch m <> 1 -> len x < 4 -> divide x m = inl OutOfRange).
Proof.
  intros Hx Hm Hh Hw. split; [|split; [|split]].
  - intros Hb H4. apply divide_spec; try assumption. left. auto.
  - intros Hb1 Hb H4. apply divide_spec; try assumption. right. auto.
  - intros Hb Hb1 Hs. apply divide_short_run; try assumption. left. auto.
  - intros Hb Hs. apply divide_short_run; try assumption. right. auto.
Qed.
End DivideTheorem.

Lemma divide_runs_of_four_witness :
  Tensor.wf (t32 1 2 2 [2; 4; 6; 8]) /\ Tensor.wf (t32 1 2 2 [1; 2; 3; 4]) /\
  Tensor.divide (t32 1 2 2 [2; 4; 6; 8]) (t32 1 2 2 [1; 2; 3; 4]) =
  inr (Tensor.elementwise fdiv (t32 1 2 2 [2; 4; 6; 8])
         (t32 1 2 2 [1; 2; 3; 4])).
Proof.
  assert (Hx : Tensor.wf (t32 1 2 2 [2; 4; 6; 8])).
  { unfold Tensor.wf; simpl; lia. }
  assert (Hm : Tensor.wf (t32 1 2 2 [1; 2; 3; 4])).
  { unfold Tensor.wf; simpl; lia. }
  split; [exact Hx|]. split; [exact Hm|].
  destruct (divide_runs_of_four (t32 1 2 2 [2; 4; 6; 8])
              (t32 1 2 2 [1; 2; 3; 4]) Hx Hm eq_refl eq_refl)
    as (Hone & _).
  apply Hone; [reflexivity|simpl; lia].
Defined.
(** * [transpose] *)

Section Transpose.
Context {F : Type} `{FloatOps F}.
Import Tensor.

Lemma transpose_source_at (x : t F) k i j :
  0 <= i < width x -> 0 <= j < height x ->
  transpose_source x (k * width x * height x + i * height x + j) =
  k * width x * height x + j * width x + i.
Proof.
  intros Hi Hj. unfold transpose_source.
  assert (Hij : 0 <= i * height x + j < width x * height x)
    by (apply idx2_bound; assumption).
  replace (k * width x * height x + i * height x + j)
    with (k * (width x * height x) + (i * height x + j)) by lia.
  destruct (decode2 (width x * height x) k (i * height x + j) Hij) as [-> ->].
  destruct (decode2 (height x) i j Hj) as [-> ->]. lia.
Qed.

Lemma transpose_spec (x : t F) :
  wf x ->
  transpose x =
  inr (with_data (Tensor3 (batch x) (width x) (height x))
         (tab (fun idx => get x (transpose_source x idx)) (len x))).
Proof.
  intros Hx. pose proof Hx as (Hb & Hh & Hw & Hlx & _). unfold transpose.
  set (f := fun idx => get x (transpose_source x idx)).
  assert (H0 : repr (data (Tensor3 (batch x) (width x) (height x))) (len x)
                 (fun _ => fzero)).
  { replace (len x) with (width x * height x * batch x) by lia.
    apply Tensor3_repr. nia. }
  destruct (fill_blocks (fun d => d) (fun _ => True)
              (fun k d =>
                 for_lt 0 (width x)
                   (fun i d =>
                      for_lt 0 (height x)
                        (fun j d =>
                           a <- rd (data x)
                                  (k * width x * height x + j * width x + i) ;;
                           wr d (k * width x * height x + i * height x + j) a)
                        d) d)
              f (fun _ => fzero) (len x) 0 (batch x) (width x * height x)
              (data (Tensor3 (batch x) (width x) (height x))))
    as (d & Hr & _ & Hd).
  - exact Hb.
  - exact I.
  - apply repr_upto_0; [lia|exact H0].
  - intros k d1 Hk _ Hd1.
    destruct (fill_blocks (fun d => d) (fun _ => True)
                (fun i d =>
                   for_lt 0 (height x)
                     (fun j d =>
                        a <- rd (data x)
                               (k * width x * height x + j * width x + i) ;;
                        wr d (k * width x * height x + i * height x + j) a) d)
                f (fun _ => fzero) (len x) (0 + k * (width x * height x))
                (width x) (height x) d1) as (d2 & Hr2 & _ & Hd2).
    + exact Hw.
    + exact I.
    + exact Hd1.
    + intros i d3 Hi _ Hd3.
      destruct (fill_blocks (fun d => d) (fun _ => True)
                  (fun j d =>
                     a <- rd (data x)
                            (k * width x * height x + j * width x + i) ;;
                     wr d (k * width x * height x + i * height x + j) a)
                  f (fun _ => fzero) (len x)
                  (0 + k * (width x * height x) + i * height x)
                  (height x) 1 d3) as (d4 & Hr4 & _ & Hd4).
      * exact Hh.
      * exact I.
      * exact Hd3.
      * intros j d5 Hj _ Hd5.
        pose proof (idx2_bound _ _ _ _ Hj Hi) as Hji.
        pose proof (idx2_bound _ _ _ _ Hi Hj) as Hij.
        rewrite (repr_rd _ _ _ _ (wf_repr x Hx)) by nia. cbn [bind].
        destruct (repr_upto_wr d5 (len x) f (fun _ => fzero)
                    (k * width x * height x + i * height x + j)
                    (get x (k * width x * height x + j * width x + i)))
          as (d6 & Hw6 & Hd6).
        -- eapply repr_upto_eq; [exact Hd5|lia].
        -- nia.
        -- unfold f. rewrite transpose_source_at by assumption. reflexivity.
        -- exists d6. split; [exact Hw6|]. split; [exact I|].
           eapply repr_upto_eq; [exact Hd6|lia].
      * exists d4. split; [exact Hr4|]. split; [exact I|].
        eapply repr_upto_eq; [exact Hd4|lia].
    + exists d2. split; [exact Hr2|]. split; [exact I|].
      eapply repr_upto_eq; [exact Hd2|lia].
  - rewrite Hr. cbn [bind]. unfold ret. do 2 f_equal. apply repr_eq.
    eapply repr_upto_all; [|exact Hd]. nia.
Qed.

Lemma wf_transposed (x : t F) (d : list F) :
  wf x -> Z.of_nat (length d) = len x ->
  wf (with_data (Tensor3 (batch x) (width x) (height x)) d).
Proof.
  intros (Hb & Hh & Hw & Hlx & _) Hd. unfold wf, with_data. cbn.
  repeat split; try assumption. lia.
Qed.

(** X5.  [transpose] swaps the height and the width of every batch: for
    every tensor it returns a tensor of shape (batch, width, height) that
    satisfies the class invariant, and row [i], column [j] of batch [k] of
    the result is row [j], column [i] of batch [k] of [x]. *)
Theorem transpose_cells (x : t F) :
  wf x ->
  exists r,
    transpose x = inr r /\ wf r /\
    batch r = batch x /\ height r = width x /\ width r = height x /\
    forall k i j,
      0 <= k < batch x -> 0 <= i < width x -> 0 <= j < height x ->
      rd (data r) (k * width x * height x + i * height x + j) =
      inr (get x (k * width x * height x + j * width x + i)).
Proof.
  intros Hx. pose proof Hx as (Hb & Hh & Hw & Hlx & _).
  assert (HL : 0 <= len x) by nia.
  eexists. split; [apply transpose_spec; exact Hx|].
  split; [apply wf_transposed; [exact Hx|rewrite length_tab; lia]|].
  split; [reflexivity|]. split; [reflexivity|]. split; [reflexivity|].
  intros k i j Hk Hi Hj. cbn [with_data data].
  pose proof (idx2_bound _ _ _ _ Hi Hj) as Hij.
  rewrite (repr_rd _ _ _ _ (repr_tab _ (len x) HL)) by nia.
  rewrite transpose_source_at by assumption. reflexivity.
Qed.

(** X6.  Transposing twice gives back the shape and every element of the
    tensor. *)
Theorem transpose_involutive (x : t F) :
  wf x ->
  exists r r',
    transpose x = inr r /\ transpose r = inr r' /\
    batch r' = batch x /\ height r' = height x /\ width r' = width x /\
    data r' = data x.
Proof.
  intros Hx. pose proof Hx as (Hb & Hh & Hw & Hlx & Hlen).
  assert (HL : 0 <= len x) by nia.
  set (r := with_data (Tensor3 (batch x) (width x) (height x))
              (tab (fun idx => get x (transpose_source x idx)) (len x))).
  assert (Hr : wf r).
  { apply wf_transposed; [exact Hx|rewrite length_tab; lia]. }
  exists r. eexists. split; [apply transpose_spec; exact Hx|].
  split; [apply transpose_spec; exact Hr|].
  split; [reflexivity|]. split; [reflexivity|]. split; [reflexivity|].
  cbn [with_data data]. rewrite (repr_eq _ _ _ (wf_repr x Hx)).
  replace (len r) with (len x) by (unfold r; cbn; lia).
  apply tab_ext. intros idx Hidx.
  assert (Hs : 0 < width x * height x) by nia.
  assert (Hw1 : 1 <= width x) by nia.
  destruct (encode2 (width x * height x) idx ltac:(lia)) as [Hidx1 Hrem].
  set (k := idx / (width x * height x)) in *.
  set (rem := idx mod (width x * height x)) in *.
  destruct (encode2 (width x) rem Hw1) as [Hrem1 Hi].
  set (j := rem / width x) in *. set (i := rem mod width x) in *.
  assert (Hj : 0 <= j < height x).
  { split; [apply Z.div_pos; lia|]. apply Z.div_lt_upper_bound; lia. }
  assert (Hk : 0 <= k < batch x).
  { split; [apply Z.div_pos; lia|]. apply Z.div_lt_upper_bound; nia. }
  replace idx with (k * width r * height r + j * height r + i)
    by (unfold r; cbn; lia).
  rewrite (transpose_source_at r k j i) by (unfold r; cbn; lia).
  unfold get at 1. unfold r at 1. cbn [with_data data].
  pose proof (idx2_bound _ _ _ _ Hi Hj) as Hij.
  rewrite (repr_at fzero _ _ _ _ (repr_tab _ (len x) HL))
    by (unfold r; cbn; nia).
  unfold r. cbn [with_data Tensor3 width height batch].
  replace (k * height x * width x + i * height x + j)
    with (k * width x * height x + i * height x + j) by lia.
  rewrite (transpose_source_at x k i j) by assumption.
  unfold get. f_equal. lia.
Qed.
End Transpose.

Lemma transpose_cells_witness :
  Tensor.wf (t32 1 2 3 [1; 2; 3; 4; 5; 6]) /\
  exists r,
    Tensor.transpose (t32 1 2 3 [1; 2; 3; 4; 5; 6]) = inr r /\
    Tensor.height r = 3 /\ Tensor.width r = 2.
Proof.
  assert (Hx : Tensor.wf (t32 1 2 3 [1; 2; 3; 4; 5; 6])).
  { unfold Tensor.wf; simpl; lia. }
  split; [exact Hx|].
  destruct (transpose_cells (t32 1 2 3 [1; 2; 3; 4; 5; 6]) Hx)
    as (r & Hr & _ & _ & Hh & Hw & _).
  exists r. split; [exact Hr|]. split; [exact Hh|exact Hw].
Defined.

Example transpose_values :
  Tensor.transpose (t32 1 2 3 [1; 2; 3; 4; 5; 6]) =
  inr (t32 1 3 2 [1; 4; 2; 5; 3; 6]).
Proof. vm_compute. reflexivity. Qed.

Lemma transpose_involutive_witness :
  Tensor.wf (t32 1 2 3 [1; 2; 3; 4; 5; 6]) /\
  exists r r',
    Tensor.transpose (t32 1 2 3 [1; 2; 3; 4; 5; 6]) = inr r /\
    Tensor.transpose r = inr r' /\
    Tensor.data r' = Tensor.data (t32 1 2 3 [1; 2; 3; 4; 5; 6]).
Proof.
  assert (Hx : Tensor.wf (t32 1 2 3 [1; 2; 3; 4; 5; 6])).
  { unfold Tensor.wf; simpl; lia. }
  split; [exact Hx|].
  destruct (transpose_involutive (t32 1 2 3 [1; 2; 3; 4; 5; 6]) Hx)
    as (r & r' & Hr & Hr' & _ & _ & _ & Hd).
  exists r, r'. split; [exact Hr|]. split; [exact Hr'|exact Hd].
Defined.
(** * [applyFunction] and [copy] *)

Section ApplyCopy.
Context {F : Type} `{FloatOps F}.
Import Tensor.

Lemma tab_map (f : F -> F) (v : list F) :
  tab (fun i => f (at_ fzero v i)) (Z.of_nat (length v)) = map f v.
Proof.
  apply list_eq. intros i. rewrite list_lookup_fmap.
  destruct (decide (i < length v)%nat) as [Hlt|Hge].
  - replace i with (Z.to_nat (Z.of_nat i)) at 1 by lia.
    rewrite lookup_tab by lia. unfold at_. rewrite Nat2Z.id.
    destruct (v !! i) eqn:E; [reflexivity|].
    apply lookup_ge_None_1 in E. lia.
  - rewrite lookup_ge_None_2 by (rewrite length_tab; lia).
    rewrite lookup_ge_None_2 by lia. reflexivity.
Qed.

Lemma applyFunction_spec (function : F -> F) (x : t F) :
  wf x ->
  applyFunction function x =
  inr (with_data (Tensor3 (batch x) (height x) (width x))
         (map function (data x))).
Proof.
  intros Hx. unfold applyFunction. rewrite (scalar_loop function x Hx).
  cbn [bind]. unfold ret. do 2 f_equal. destruct Hx as (_ & _ & _ & _ & Hlen).
  rewrite <- Hlen. apply tab_map.
Qed.

Lemma wf_with_data (x : t F) (d : list F) :
  wf x -> length d = length (data x) ->
  wf (with_data (Tensor3 (batch x) (height x) (width x)) d).
Proof.
  intros (Hb & Hh & Hw & Hlx & Hlen) Hd. unfold wf, with_data. cbn.
  repeat split; try assumption. lia.
Qed.

(** X7.  [applyFunction] maps the function over the buffer: the result has
    the shape of [x], satisfies the class invariant and holds [f] of every
    element in order; applying [g] to the result of applying [f] is
    applying their composition. *)
Theorem applyFunction_map_compose (f g : F -> F) (x : t F) :
  wf x ->
  exists r,
    applyFunction f x = inr r /\ wf r /\
    batch r = batch x /\ height r = height x /\ width r = width x /\
    data r = map f (data x) /\
    applyFunction g r = applyFunction (fun a => g (f a)) x.
Proof.
  intros Hx. eexists. split; [apply applyFunction_spec; exact Hx|].
  assert (Hr : wf (with_data (Tensor3 (batch x) (height x) (width x))
                     (map f (data x)))).
  { apply wf_with_data; [exact Hx|apply length_map]. }
  split; [exact Hr|].
  split; [reflexivity|]. split; [reflexivity|]. split; [reflexivity|].
  split; [reflexivity|].
  rewrite (applyFunction_spec g _ Hr), (applyFunction_spec _ x Hx).
  cbn [with_data Tensor3 batch height width data].
  rewrite map_map. reflexivity.
Qed.

(** [copy] *)

Lemma copy_loop (n : Z) (src dst : list F) :
  0 <= n -> n <= Z.of_nat (length src) -> n = Z.of_nat (length dst) ->
  for_lt 0 n (fun i d => a <- rd src i ;; wr d i a) dst =
  inr (take (Z.to_nat n) src).
Proof.
  intros Hn Hs Hd.
  destruct (map_loop (fun a => a) src dst (Z.of_nat (length src))
              (at_ fzero src) n (at_ fzero dst) n) as (d & Hr & Hrd).
  - apply repr_self.
  - rewrite Hd. apply repr_self.
  - exact Hn.
  - exact Hs.
  - lia.
  - rewrite Hr. f_equal.
    rewrite (repr_eq _ _ _ (repr_upto_all _ _ _ _ _ (Z.le_refl n) Hrd)).
    apply list_eq. intros i.
    destruct (decide (i < Z.to_nat n)%nat) as [Hlt|Hge].
    + replace i with (Z.to_nat (Z.of_nat i)) at 1 by lia.
      rewrite lookup_tab by lia. rewrite lookup_take_lt by lia.
      unfold at_. rewrite Nat2Z.id.
      destruct (src !! i) eqn:E; [reflexivity|].
      apply lookup_ge_None_1 in E. lia.
    + rewrite lookup_ge_None_2 by (rewrite length_tab; lia).
      rewrite lookup_take_ge by lia. reflexivity.
Qed.

Lemma scopy_loop (n : Z) (src dst : list F) :
  cblas_scopy n src 0 dst 0 =
  for_lt 0 n (fun i d => a <- rd src (0 + i) ;; wr d (0 + i) a) dst.
Proof. reflexivity. Qed.

Lemma copy_paths (bk : backend) (x from : t F) :
  copy bk false x from =
  if len from =? 0 then inr x
  else
    d <- for_lt 0 (len x) (fun i d => a <- rd (data from) i ;; wr d i a)
           (data x) ;;
    ret (mk (batch from) (height from) (width from) (dim x) (len x) d).
Proof.
  unfold copy. cbn [negb andb].
  destruct (len from =? 0); cbn [negb]; [reflexivity|].
  destruct bk; [|reflexivity].
  unfold cblas_scopy. cbn [len data with_data]. reflexivity.
Qed.

(** X8.  [copy] assigns the shape of [from] but neither [len] nor the size
    of the buffer: copying from the object itself or from an empty tensor
    changes nothing; otherwise the first [len] elements of [from] are
    copied, the result satisfies the class invariant only when both lengths
    are equal, and a shorter [from] is read past its end. *)
Theorem copy_keeps_length (bk : backend) (x from : t F) :
  wf x -> wf from ->
  copy bk true x from = inr x /\
  (len from = 0 -> copy bk false x from = inr x) /\
  (len from <> 0 -> len x <= len from ->
   copy bk false x from =
   inr (mk (batch from) (height from) (width from) (dim x) (len x)
          (take (Z.to_nat (len x)) (data from))) /\
   (wf (mk (batch from) (height from) (width from) (dim x) (len x)
          (take (Z.to_nat (len x)) (data from))) <->
    len x = len from)) /\
  (len from <> 0 -> len from < len x ->
   copy bk false x from = inl OutOfRange).
Proof.
  intros Hx Hf. pose proof Hx as (Hb & Hh & Hw & Hlx & Hlen).
  pose proof Hf as (Hbf & Hhf & Hwf & Hlf & Hlenf).
  assert (HL : 0 <= len x) by nia.
  split; [reflexivity|]. split; [|split].
  - intros Hz. rewrite copy_paths, Hz. reflexivity.
  - intros Hnz Hle. split.
    + rewrite copy_paths.
      destruct (Z.eqb_spec (len from) 0) as [?|_]; [contradiction|].
      rewrite copy_loop by lia. reflexivity.
    + unfold wf. cbn [batch height width len data]. rewrite length_take.
      split; [intros (_ & _ & _ & Hl & _); lia|].
      intros Heq. repeat split; try assumption; lia.
  - intros Hnz Hlt. rewrite copy_paths.
    destruct (Z.eqb_spec (len from) 0) as [?|_]; [contradiction|].
    assert (Hlf0 : 0 <= len from) by nia.
    destruct (for_lt_fails_at
                (fun d : list F => True) 0 (len x)
                (fun i d => a <- rd (data from) i ;; wr d i a)
                (data x) (len from)) as [e He].
    + exact I.
    + intros; exact I.
    + lia.
    + intros d _. exists OutOfRange. rewrite rd_oob by lia. reflexivity.
    + rewrite He. cbn [bind]. f_equal.
      assert (Hoor : only_oor
                       (for_lt 0 (len x)
                          (fun i d => a <- rd (data from) i ;; wr d i a)
                          (data x))).
      { apply only_oor_for_lt. intros i d.
        apply only_oor_bind; [apply only_oor_rd|]. intros a.
        apply only_oor_wr. }
      apply Hoor. exact He.
Qed.
End ApplyCopy.

Lemma applyFunction_map_compose_witness :
  Tensor.wf (t32 1 1 2 [1; -2]) /\
  exists r,
    Tensor.applyFunction fabs (t32 1 1 2 [1; -2]) = inr r /\
    Tensor.data r = map fabs (Tensor.data (t32 1 1 2 [1; -2])) /\
    Tensor.applyFunction fopp r =
    Tensor.applyFunction (fun a => fopp (fabs a)) (t32 1 1 2 [1; -2]).
Proof.
  assert (Hx : Tensor.wf (t32 1 1 2 [1; -2])).
  { unfold Tensor.wf; simpl; lia. }
  split; [exact Hx|].
  destruct (applyFunction_map_compose fabs fopp (t32 1 1 2 [1; -2]) Hx)
    as (r & Hr & _ & _ & _ & _ & Hd & Hc).
  exists r. split; [exact Hr|]. split; [exact Hd|exact Hc].
Defined.

Lemma copy_keeps_length_witness :
  Tensor.wf (t32 1 1 2 [1; 2]) /\ Tensor.wf (t32 1 2 2 [5; 6; 7; 8]) /\
  Tensor.copy Fallback false (t32 1 1 2 [1; 2]) (t32 1 2 2 [5; 6; 7; 8]) =
  inr (Tensor.mk 1 2 2 3 (1 * 2 * 1)
         (take (Z.to_nat (1 * 2 * 1))
            (Tensor.data (t32 1 2 2 [5; 6; 7; 8])))).
Proof.
  assert (Hx : Tensor.wf (t32 1 1 2 [1; 2])).
  { unfold Tensor.wf; simpl; lia. }
  assert (Hf : Tensor.wf (t32 1 2 2 [5; 6; 7; 8])).
  { unfold Tensor.wf; simpl; lia. }
  split; [exact Hx|]. split; [exact Hf|].
  destruct (copy_keeps_length Fallback (t32 1 1 2 [1; 2])
              (t32 1 2 2 [5; 6; 7; 8]) Hx Hf) as (_ & _ & Hcopy & _).
  destruct Hcopy as [Hr _]; [simpl; lia|simpl; lia|exact Hr].
Defined.

(** A tensor of two elements takes the shape (1, 2, 2) of one of four and
    keeps its length of two. *)
Example copy_values :
  Tensor.copy Fallback false (t32 1 1 2 [1; 2]) (t32 1 2 2 [5; 6; 7; 8]) =
  inr (Tensor.mk 1 2 2 3 2 [f32 5; f32 6]).
Proof. vm_compute. reflexivity. Qed.
(** * [Mat2Vec], [getValue] and [setValue] *)

Section Flatten.
Context {F : Type} `{FloatOps F}.
Import Tensor.

Lemma Mat2Vec_spec (x : t F) : wf x -> Mat2Vec x = inr (data x).
Proof.
  intros Hx. pose proof Hx as (Hb & Hh & Hw & Hlx & Hlen).
  assert (HL : 0 <= len x) by nia. unfold Mat2Vec.
  destruct (for_lt_inv (fun j v => v = take (Z.to_nat j) (data x)) 0 (len x)
              (fun i ret_ => a <- rd (data x) i ;; ret (ret_ ++ [a])) [])
    as (v & Hr & Hv).
  - exact HL.
  - reflexivity.
  - intros j v Hj ->.
    rewrite (repr_rd _ _ _ _ (wf_repr x Hx)) by exact Hj. cbn [bind].
    eexists. split; [reflexivity|].
    replace (Z.to_nat (j + 1)) with (Datatypes.S (Z.to_nat j)) by lia.
    assert (Hl : data x !! Z.to_nat j = Some (get x j)).
    { destruct (wf_repr x Hx) as [_ Hd]. apply Hd. exact Hj. }
    rewrite (take_S_r _ _ _ Hl). reflexivity.
  - rewrite Hr, Hv. f_equal. apply take_ge. lia.
Qed.

(** Coordinates in range name distinct cells. *)
Lemma index_injective (h w b i j b' i' j' : Z) :
  0 <= i < h -> 0 <= j < w -> 0 <= i' < h -> 0 <= j' < w ->
  b * h * w + i * w + j = b' * h * w + i' * w + j' ->
  b = b' /\ i = i' /\ j = j'.
Proof.
  intros Hi Hj Hi' Hj' Heq.
  assert (Hrow : (b * h + i) * w + j = (b' * h + i') * w + j') by lia.
  destruct (decode2 w (b * h + i) j Hj) as [Hq Hr].
  destruct (decode2 w (b' * h + i') j' Hj') as [Hq' Hr'].
  assert (Hb : b * h + i = b' * h + i') by (rewrite <- Hq, <- Hq', Hrow; reflexivity).
  assert (Hjj : j = j') by (rewrite <- Hr, <- Hr', Hrow; reflexivity).
  destruct (decode2 h b i Hi) as [Hq1 Hr1].
  destruct (decode2 h b' i' Hi') as [Hq1' Hr1'].
  split; [rewrite <- Hq1, <- Hq1', Hb; reflexivity|].
  split; [rewrite <- Hr1, <- Hr1', Hb; reflexivity|exact Hjj].
Qed.

(** X9.  [setValue] at coordinates in range stores the value in one cell:
    [getValue] at the same coordinates returns it, [getValue] at any other
    coordinates with row and column in range returns what it returned
    before, and the shape and the class invariant are kept. *)
Theorem setValue_getValue (x : t F) (b h w : Z) (value : F) :
  wf x -> 0 <= b < batch x -> 0 <= h < height x -> 0 <= w < width x ->
  exists x',
    setValue x b h w value = inr x' /\ wf x' /\
    batch x' = batch x /\ height x' = height x /\ width x' = width x /\
    getValue x' b h w = inr value /\
    forall b' h' w',
      0 <= h' < height x -> 0 <= w' < width x ->
      (b', h', w') <> (b, h, w) ->
      getValue x' b' h' w' = getValue x b' h' w'.
Proof.
  intros Hx Hb Hh Hw. pose proof Hx as (Hbx & Hhx & Hwx & Hlx & Hlen).
  assert (Hbh : 0 <= b * height x + h < batch x * height x)
    by (apply idx2_bound; assumption).
  assert (Hidx : 0 <= b * height x * width x + h * width x + w < len x).
  { pose proof (idx2_bound _ _ _ _ Hbh Hw). nia. }
  unfold setValue, getValue.
  destruct (repr_wr (data x) (len x) _
              (b * height x * width x + h * width x + w) value
              (wf_repr x Hx) Hidx) as (d & Hwr & Hd).
  rewrite Hwr. cbn [bind]. eexists. split; [reflexivity|].
  cbn [with_data batch height width data].
  split.
  { unfold wf. cbn. repeat split; try assumption.
    destruct Hd as [Hdl _]. exact Hdl. }
  split; [reflexivity|]. split; [reflexivity|]. split; [reflexivity|].
  split.
  - rewrite (repr_rd _ _ _ _ Hd Hidx). unfold upd. rewrite Z.eqb_refl.
    reflexivity.
  - intros b' h' w' Hh' Hw' Hne.
    assert (Hi : b' * height x * width x + h' * width x + w' <>
                 b * height x * width x + h * width x + w).
    { intros Heq. apply Hne.
      destruct (index_injective (height x) (width x) b' h' w' b h w
                  Hh' Hw' Hh Hw Heq) as (-> & -> & ->). reflexivity. }
    unfold rd.
    destruct (Z.ltb_spec (b' * height x * width x + h' * width x + w') 0)
      as [Hneg|Hpos]; [reflexivity|].
    unfold wr in Hwr.
    destruct ((0 <=? _) && (_ <? _)) eqn:E; [|discriminate].
    injection Hwr as <-.
    rewrite list_lookup_insert_ne by lia. reflexivity.
Qed.
End Flatten.

Lemma setValue_getValue_witness :
  Tensor.wf (t32 2 1 2 [1; 2; 3; 4]) /\
  exists x',
    Tensor.setValue (t32 2 1 2 [1; 2; 3; 4]) 1 0 1 (f32 9) = inr x' /\
    Tensor.getValue x' 1 0 1 = inr (f32 9).
Proof.
  assert (Hx : Tensor.wf (t32 2 1 2 [1; 2; 3; 4])).
  { unfold Tensor.wf; simpl; lia. }
  split; [exact Hx|].
  destruct (setValue_getValue (t32 2 1 2 [1; 2; 3; 4]) 1 0 1 (f32 9) Hx)
    as (x' & Hs & _ & _ & _ & _ & Hg & _); [simpl; lia ..|].
  exists x'. split; [exact Hs|exact Hg].
Defined.
(** * The constructors from nested vectors *)

Section NestedVectors.
Context {A : Type}.

Lemma lookup_concat_uniform (l : list (list A)) (n i k : nat) :
  Forall (fun r => length r = n) l -> (k < n)%nat ->
  concat l !! (i * n + k)%nat = l !! i ≫= (fun r => r !! k).
Proof.
  intros Hl Hk. revert i. induction Hl as [|r l Hr Hl IH]; intros i.
  - destruct i; reflexivity.
  - destruct i as [|i]; cbn [concat].
    + rewrite lookup_app_l by lia. reflexivity.
    + rewrite lookup_app_r by lia.
      replace (Datatypes.S i * n + k - length r)%nat with (i * n + k)%nat
        by lia.
      apply IH.
Qed.

Lemma length_concat_uniform (l : list (list A)) (n : nat) :
  Forall (fun r => length r = n) l ->
  length (concat l) = (length l * n)%nat.
Proof.
  induction 1 as [|r l Hr Hl IH]; [reflexivity|].
  cbn [concat length]. rewrite length_app, IH, Hr. lia.
Qed.

Lemma rd_lookup (v : list A) (i : Z) (a : A) :
  0 <= i -> v !! Z.to_nat i = Some a -> rd v i = inr a.
Proof.
  intros Hi Hl. unfold rd. destruct (Z.ltb_spec i 0); [lia|].
  rewrite Hl. reflexivity.
Qed.
End NestedVectors.

Section FromVectors.
Context {F : Type} `{FloatOps F}.
Import Tensor.

Lemma rectangular_rows (d : list (list (list F))) h w :
  rectangular d h w ->
  Forall (fun m => length m = h) d /\
  Forall (fun row => length row = w) (concat d).
Proof.
  induction 1 as [|m d [Hm Hrows] Hd [IH1 IH2]]; [split; constructor|].
  split; [constructor; assumption|].
  cbn [concat]. apply Forall_app. split; assumption.
Qed.

Lemma rectangular_cell (d : list (list (list F))) (h w : nat) (i j k : Z) :
  rectangular d h w ->
  0 <= i < Z.of_nat (length d) -> 0 <= j < Z.of_nat h ->
  0 <= k < Z.of_nat w ->
  exists di dij a,
    rd d i = inr di /\ rd di j = inr dij /\ rd dij k = inr a /\
    concat (concat d) !!
      Z.to_nat (i * Z.of_nat h * Z.of_nat w + j * Z.of_nat w + k) = Some a.
Proof.
  intros Hrect Hi Hj Hk.
  destruct (rectangular_rows d h w Hrect) as [Hms Hrows].
  destruct (lookup_lt_is_Some_2 d (Z.to_nat i)) as [di Hdi]; [lia|].
  pose proof (proj1 (Forall_lookup _ _) Hrect _ _ Hdi) as [Hlm Hlr].
  destruct (lookup_lt_is_Some_2 di (Z.to_nat j)) as [dij Hdij]; [lia|].
  pose proof (proj1 (Forall_lookup _ _) Hlr _ _ Hdij) as Hlrow.
  cbv beta in Hlrow.
  destruct (lookup_lt_is_Some_2 dij (Z.to_nat k)) as [a Ha]; [lia|].
  exists di, dij, a.
  split; [apply rd_lookup; [lia|exact Hdi]|].
  split; [apply rd_lookup; [lia|exact Hdij]|].
  split; [apply rd_lookup; [lia|exact Ha]|].
  replace (Z.to_nat (i * Z.of_nat h * Z.of_nat w + j * Z.of_nat w + k))
    with ((Z.to_nat i * h + Z.to_nat j) * w + Z.to_nat k)%nat by nia.
  rewrite (lookup_concat_uniform (concat d) w) by (try exact Hrows; lia).
  rewrite (lookup_concat_uniform d h) by (try exact Hms; lia).
  rewrite Hdi. cbn. rewrite Hdij. cbn. exact Ha.
Qed.

Lemma of_vector3_spec (d : list (list (list F))) (h w : nat) :
  d <> [] -> h <> O -> rectangular d h w ->
  of_vector3 d =
  inr (mk (Z.of_nat (length d)) (Z.of_nat h) (Z.of_nat w) 3
         (Z.of_nat (length d) * Z.of_nat h * Z.of_nat w)
         (concat (concat d))).
Proof.
  intros Hne Hh Hrect.
  destruct (rectangular_rows d h w Hrect) as [Hms Hrows].
  destruct d as [|d0 d']; [contradiction|].
  set (d := d0 :: d') in *.
  assert (Hd0 : length d0 = h).
  { inversion Hrect as [|? ? [Hl _] _]. exact Hl. }
  assert (Hw0 : forall d00, d0 !! O = Some d00 -> length d00 = w).
  { intros d00 Hl. inversion Hrect as [|? ? [_ Hr] _].
    exact (proj1 (Forall_lookup _ _) Hr _ _ Hl). }
  unfold of_vector3.
  replace (length d =? 0)%nat with false by reflexivity.
  cbn [negb assert_ bind ret].
  replace (rd d 0) with (@inr error _ d0) by reflexivity. cbn [bind].
  rewrite Hd0. destruct h as [|h']; [contradiction|].
  cbn [Nat.eqb negb assert_ bind ret].
  destruct d0 as [|d00 d0']; [discriminate|].
  replace (rd (d00 :: d0') 0) with (@inr error _ d00) by reflexivity.
  cbn [bind]. rewrite (Hw0 d00 eq_refl).
  set (b := Z.of_nat (length d)). set (hh := Z.of_nat (Datatypes.S h')).
  set (ww := Z.of_nat w).
  set (L := b * hh * ww).
  assert (HL : 0 <= L) by (unfold L, b, hh, ww; nia).
  set (f := at_ fzero (concat (concat d))).
  destruct (fill_blocks (fun v => v) (fun _ => True)
              (fun i v =>
                 for_lt 0 hh
                   (fun j v =>
                      for_lt 0 ww
                        (fun k v =>
                           di <- rd d i ;;
                           dij <- rd di j ;;
                           x <- rd dij k ;;
                           wr v (i * hh * ww + j * ww + k) x) v) v)
              f (fun _ => fzero) L 0 b (hh * ww)
              (replicate (Z.to_nat L) fzero)) as (v & Hr & _ & Hv).
  - unfold b. lia.
  - exact I.
  - apply repr_upto_0; [lia|]. apply repr_replicate. exact HL.
  - intros i v1 Hi _ Hv1.
    destruct (fill_blocks (fun v => v) (fun _ => True)
                (fun j v =>
                   for_lt 0 ww
                     (fun k v =>
                        di <- rd d i ;;
                        dij <- rd di j ;;
                        x <- rd dij k ;;
                        wr v (i * hh * ww + j * ww + k) x) v)
                f (fun _ => fzero) L (0 + i * (hh * ww)) hh ww v1)
      as (v2 & Hr2 & _ & Hv2).
    + unfold hh. lia.
    + exact I.
    + exact Hv1.
    + intros j v3 Hj _ Hv3.
      destruct (fill_blocks (fun v => v) (fun _ => True)
                  (fun k v =>
                     di <- rd d i ;;
                     dij <- rd di j ;;
                     x <- rd dij k ;;
                     wr v (i * hh * ww + j * ww + k) x)
                  f (fun _ => fzero) L (0 + i * (hh * ww) + j * ww) ww 1 v3)
        as (v4 & Hr4 & _ & Hv4).
      * unfold ww. lia.
      * exact I.
      * exact Hv3.
      * intros k v5 Hk _ Hv5.
        destruct (rectangular_cell d (Datatypes.S h') w i j k Hrect Hi Hj Hk)
          as (di & dij & a & Hdi & Hdij & Ha & Hcell).
        rewrite Hdi. cbn [bind]. rewrite Hdij. cbn [bind].
        rewrite Ha. cbn [bind].
        pose proof (idx2_bound _ _ _ _ Hi Hj) as Hij.
        pose proof (idx2_bound _ _ _ _ Hij Hk) as Hijk.
        destruct (repr_upto_wr v5 L f (fun _ => fzero)
                    (i * hh * ww + j * ww + k) a) as (v6 & Hw6 & Hv6).
        -- eapply repr_upto_eq; [exact Hv5|lia].
        -- unfold L. nia.
        -- unfold f, at_. fold hh ww in Hcell. rewrite Hcell. reflexivity.
        -- exists v6. split; [exact Hw6|]. split; [exact I|].
           eapply repr_upto_eq; [exact Hv6|lia].
      * exists v4. split; [exact Hr4|]. split; [exact I|].
        eapply repr_upto_eq; [exact Hv4|lia].
    + exists v2. split; [exact Hr2|]. split; [exact I|].
      eapply repr_upto_eq; [exact Hv2|lia].
  - cbn [data]. fold b hh ww L. rewrite Hr. cbn [bind]. unfold ret, with_data.
    cbn [batch height width dim len]. do 2 f_equal.
    assert (Hfull : repr v L f) by (eapply repr_upto_all; [|exact Hv]; lia).
    rewrite (repr_eq _ _ _ Hfull). unfold f.
    assert (Hlen : Z.of_nat (length (concat (concat d))) = L).
    { rewrite (length_concat_uniform _ w Hrows).
      rewrite (length_concat_uniform _ (Datatypes.S h') Hms).
      unfold L, b, hh, ww. lia. }
    rewrite <- Hlen. symmetry. apply repr_eq. apply repr_self.
Qed.
End FromVectors.

Section FromRows.
Context {F : Type} `{FloatOps F}.
Import Tensor.

Lemma of_vector2_spec (d : list (list F)) (w : nat) :
  d <> [] -> Forall (fun row => length row = w) d ->
  of_vector2 d =
  inr (mk 1 (Z.of_nat (length d)) (Z.of_nat w) 2
         (Z.of_nat (length d) * Z.of_nat w * 1) (concat d)).
Proof.
  intros Hne Hrows.
  destruct d as [|d0 d']; [contradiction|].
  set (d := d0 :: d') in *.
  assert (Hd0 : length d0 = w) by (inversion Hrows; assumption).
  unfold of_vector2.
  replace (length d =? 0)%nat with false by reflexivity.
  cbn [negb assert_ bind ret].
  replace (rd d 0) with (@inr error _ d0) by reflexivity. cbn [bind].
  rewrite Hd0.
  set (hh := Z.of_nat (length d)). set (ww := Z.of_nat w).
  set (L := hh * ww * 1).
  assert (HL : 0 <= L) by (unfold L, hh, ww; nia).
  set (f := at_ fzero (concat d)).
  set (ok := fun r : t F =>
               batch r = 1 /\ height r = hh /\ width r = ww /\ dim r = 2 /\
               len r = L).
  destruct (fill_blocks data ok
              (fun j r =>
                 for_lt 0 ww
                   (fun k r =>
                      dj <- rd d j ;;
                      x <- rd dj k ;;
                      setValue r 0 j k x) r)
              f (fun _ => fzero) L 0 hh ww
              (mk 1 hh ww 2 L (replicate (Z.to_nat L) fzero)))
    as (r & Hr & Hok & Hv).
  - unfold hh. lia.
  - repeat split.
  - apply repr_upto_0; [lia|]. apply repr_replicate. exact HL.
  - intros j r1 Hj Hok1 Hv1.
    destruct (fill_blocks data ok
                (fun k r =>
                   dj <- rd d j ;;
                   x <- rd dj k ;;
                   setValue r 0 j k x)
                f (fun _ => fzero) L (0 + j * ww) ww 1 r1)
      as (r2 & Hr2 & Hok2 & Hv2).
    + unfold ww. lia.
    + exact Hok1.
    + exact Hv1.
    + intros k r3 Hk (Hb3 & Hh3 & Hw3 & Hd3 & Hl3) Hv3.
      destruct (lookup_lt_is_Some_2 d (Z.to_nat j)) as [dj Hdj]; [lia|].
      pose proof (proj1 (Forall_lookup _ _) Hrows _ _ Hdj) as Hlj.
      cbv beta in Hlj.
      destruct (lookup_lt_is_Some_2 dj (Z.to_nat k)) as [a Ha]; [lia|].
      rewrite (rd_lookup d j dj) by first [lia|exact Hdj]. cbn [bind].
      rewrite (rd_lookup dj k a) by first [lia|exact Ha]. cbn [bind].
      unfold setValue. rewrite Hh3, Hw3.
      pose proof (idx2_bound _ _ _ _ Hj Hk) as Hjk.
      destruct (repr_upto_wr (data r3) L f (fun _ => fzero)
                  (0 * hh * ww + j * ww + k) a) as (v & Hw & Hv').
      * eapply repr_upto_eq; [exact Hv3|lia].
      * unfold L. lia.
      * unfold f, at_.
        replace (Z.to_nat (0 * hh * ww + j * ww + k))
          with (Z.to_nat j * w + Z.to_nat k)%nat by (unfold ww; nia).
        rewrite (lookup_concat_uniform d w) by (try exact Hrows; lia).
        rewrite Hdj. cbn. rewrite Ha. reflexivity.
      * rewrite Hw. cbn [bind]. eexists. split; [reflexivity|].
        split; [repeat split; cbn; assumption|].
        cbn [with_data data]. eapply repr_upto_eq; [exact Hv'|lia].
    + exists r2. split; [exact Hr2|]. split; [exact Hok2|].
      eapply repr_upto_eq; [exact Hv2|lia].
  - fold hh ww L. cbn zeta. fold L. rewrite Hr. cbn [bind]. unfold ret. f_equal.
    destruct Hok as (Hb & Hh & Hw & Hd & Hl).
    destruct r as [rb rh rw rd_ rl rdata]. cbn in Hb, Hh, Hw, Hd, Hl, Hv.
    subst rb rh rw rd_ rl. f_equal.
    assert (Hfull : repr rdata L f) by (eapply repr_upto_all; [|exact Hv]; lia).
    rewrite (repr_eq _ _ _ Hfull). unfold f.
    assert (Hlen : Z.of_nat (length (concat d)) = L).
    { rewrite (length_concat_uniform _ w Hrows). unfold L, hh, ww. lia. }
    rewrite <- Hlen. symmetry. apply repr_eq. apply repr_self.
Qed.
End FromRows.

Section VectorTheorems.
Context {F : Type} `{FloatOps F}.
Import Tensor.

(** X10.  The constructor from a vector of matrices: when every matrix has
    the [h >= 1] rows and every row the [w] elements of the first ones, the
    tensor has shape (number of matrices, [h], [w]), satisfies the class
    invariant, [Mat2Vec] returns the elements in the order of the nested
    vectors, and [getValue(i, j, k)] returns element [k] of row [j] of
    matrix [i]. *)
Theorem from_vectors_round_trip (d : list (list (list F))) (h w : nat) :
  d <> [] -> h <> O -> rectangular d h w ->
  exists r,
    of_vector3 d = inr r /\ wf r /\
    batch r = Z.of_nat (length d) /\ height r = Z.of_nat h /\
    width r = Z.of_nat w /\
    Mat2Vec r = inr (concat (concat d)) /\
    forall i j k m row a,
      d !! i = Some m -> m !! j = Some row -> row !! k = Some a ->
      getValue r (Z.of_nat i) (Z.of_nat j) (Z.of_nat k) = inr a.
Proof.
  intros Hne Hh Hrect.
  destruct (rectangular_rows d h w Hrect) as [Hms Hrows].
  assert (Hlen : length (concat (concat d)) = (length d * h * w)%nat).
  { rewrite (length_concat_uniform _ w Hrows).
    rewrite (length_concat_uniform _ h Hms). reflexivity. }
  eexists. split; [apply of_vector3_spec; eassumption|].
  assert (Hwf : wf (mk (Z.of_nat (length d)) (Z.of_nat h) (Z.of_nat w) 3
                      (Z.of_nat (length d) * Z.of_nat h * Z.of_nat w)
                      (concat (concat d)))).
  { unfold wf. cbn. rewrite Hlen. repeat split; lia. }
  split; [exact Hwf|].
  split; [reflexivity|]. split; [reflexivity|]. split; [reflexivity|].
  split; [apply (Mat2Vec_spec _ Hwf)|].
  intros i j k m row a Hi Hj Hk. unfold getValue. cbn [data height width].
  pose proof (lookup_lt_Some _ _ _ Hi) as Hil.
  pose proof (proj1 (Forall_lookup _ _) Hrect _ _ Hi) as [Hlm Hlr].
  pose proof (lookup_lt_Some _ _ _ Hj) as Hjl.
  pose proof (proj1 (Forall_lookup _ _) Hlr _ _ Hj) as Hlrow.
  cbv beta in Hlrow.
  pose proof (lookup_lt_Some _ _ _ Hk) as Hkl.
  destruct (rectangular_cell d h w (Z.of_nat i) (Z.of_nat j) (Z.of_nat k)
              Hrect) as (di & dij & a' & Hdi & Hdij & Ha & Hcell);
    [lia|lia|lia|].
  apply rd_lookup; [nia|]. rewrite Hcell. f_equal.
  unfold rd in Hdi, Hdij, Ha.
  destruct (Z.ltb_spec (Z.of_nat i) 0); [lia|].
  destruct (Z.ltb_spec (Z.of_nat j) 0); [lia|].
  destruct (Z.ltb_spec (Z.of_nat k) 0); [lia|].
  rewrite Nat2Z.id in Hdi, Hdij, Ha.
  rewrite Hi in Hdi. injection Hdi as <-.
  rewrite Hj in Hdij. injection Hdij as <-.
  rewrite Hk in Ha. injection Ha as <-. reflexivity.
Qed.

(** X11.  The constructor from a vector of rows: when every row has the [w]
    elements of the first one, the tensor has shape (1, number of rows,
    [w]) and [dim] 2, satisfies the class invariant, [Mat2Vec] returns the
    rows one after the other, and [getValue(0, j, k)] returns element [k] of
    row [j]. *)
Theorem from_rows_round_trip (d : list (list F)) (w : nat) :
  d <> [] -> Forall (fun row => length row = w) d ->
  exists r,
    of_vector2 d = inr r /\ wf r /\
    batch r = 1 /\ height r = Z.of_nat (length d) /\ width r = Z.of_nat w /\
    dim r = 2 /\
    Mat2Vec r = inr (concat d) /\
    forall j k row a,
      d !! j = Some row -> row !! k = Some a ->
      getValue r 0 (Z.of_nat j) (Z.of_nat k) = inr a.
Proof.
  intros Hne Hrows.
  assert (Hlen : length (concat d) = (length d * w)%nat)
    by (apply length_concat_uniform; exact Hrows).
  eexists. split; [apply of_vector2_spec; eassumption|].
  assert (Hwf : wf (mk 1 (Z.of_nat (length d)) (Z.of_nat w) 2
                      (Z.of_nat (length d) * Z.of_nat w * 1) (concat d))).
  { unfold wf. cbn. rewrite Hlen. repeat split; lia. }
  split; [exact Hwf|].
  split; [reflexivity|]. split; [reflexivity|]. split; [reflexivity|].
  split; [reflexivity|].
  split; [apply (Mat2Vec_spec _ Hwf)|].
  intros j k row a Hj Hk. unfold getValue. cbn [data height width].
  pose proof (lookup_lt_Some _ _ _ Hj) as Hjl.
  pose proof (proj1 (Forall_lookup _ _) Hrows _ _ Hj) as Hlrow.
  cbv beta in Hlrow.
  pose proof (lookup_lt_Some _ _ _ Hk) as Hkl.
  apply rd_lookup; [nia|].
  replace (Z.to_nat (0 * Z.of_nat (length d) * Z.of_nat w +
                     Z.of_nat j * Z.of_nat w + Z.of_nat k))
    with (j * w + k)%nat by nia.
  rewrite (lookup_concat_uniform d w) by (try exact Hrows; lia).
  rewrite Hj. cbn. exact Hk.
Qed.
End VectorTheorems.

Lemma from_vectors_round_trip_witness :
  Tensor.rectangular
    [[[f32 1; f32 2; f32 3]]; [[f32 4; f32 5; f32 6]]] 1 3 /\
  exists r,
    Tensor.of_vector3 [[[f32 1; f32 2; f32 3]]; [[f32 4; f32 5; f32 6]]] =
      inr r /\
    Tensor.batch r = 2 /\ Tensor.height r = 1 /\ Tensor.width r = 3 /\
    Tensor.Mat2Vec r = inr [f32 1; f32 2; f32 3; f32 4; f32 5; f32 6].
Proof.
  assert (Hrect : Tensor.rectangular
                    [[[f32 1; f32 2; f32 3]]; [[f32 4; f32 5; f32 6]]] 1 3).
  { repeat constructor. }
  split; [exact Hrect|].
  destruct (from_vectors_round_trip
              [[[f32 1; f32 2; f32 3]]; [[f32 4; f32 5; f32 6]]] 1 3)
    as (r & Hr & _ & Hb & Hh & Hw & Hv & _);
    [discriminate | lia | exact Hrect | ].
  exists r. split; [exact Hr|]. split; [exact Hb|]. split; [exact Hh|].
  split; [exact Hw|exact Hv].
Defined.

Lemma from_rows_round_trip_witness :
  exists r,
    Tensor.of_vector2 [[f32 1; f32 2]; [f32 3; f32 4]] = inr r /\
    Tensor.batch r = 1 /\ Tensor.height r = 2 /\ Tensor.width r = 2 /\
    Tensor.Mat2Vec r = inr [f32 1; f32 2; f32 3; f32 4].
Proof.
  destruct (from_rows_round_trip [[f32 1; f32 2]; [f32 3; f32 4]] 2)
    as (r & Hr & _ & Hb & Hh & Hw & _ & Hv & _);
    [discriminate | repeat constructor | ].
  exists r. split; [exact Hr|]. split; [exact Hb|]. split; [exact Hh|].
  split; [exact Hw|exact Hv].
Defined.
(** * [argmax] *)

Section Argmax.
Context {F : Type} `{FloatOps F}.
Import Tensor.

Lemma argmax_loop (x : t F) :
  wf x ->
  exists st,
    for_lt 0 (len x)
      (fun i (st : Z * F) =>
         a <- rd (data x) i ;;
         if fltb (snd st) a then ret (i, a) else ret st)
      (0, fzero) = inr st /\
    argmax_state x (len x) st.
Proof.
  intros Hx. pose proof Hx as (Hb & Hh & Hw & Hlx & _).
  apply (for_lt_inv (argmax_state x)).
  - nia.
  - left. cbn. repeat split. intros i Hi. lia.
  - intros j st Hj Hst.
    rewrite (repr_rd _ _ _ _ (wf_repr x Hx)) by exact Hj. cbn [bind].
    destruct (fltb (snd st) (get x j)) eqn:E.
    + eexists. split; [reflexivity|]. right. cbn [fst snd].
      split; [lia|]. split; [reflexivity|].
      split; [|intros i Hi; lia].
      destruct Hst as [(H1 & H2 & H3)|(H1 & H2 & (i0 & Hi0 & Hpos) & H3)].
      * exists j. split; [lia|]. rewrite <- H2. exact E.
      * exists i0. split; [lia|exact Hpos].
    + exists st. split; [reflexivity|].
      destruct Hst as [(H1 & H2 & H3)|(H1 & H2 & Hex & H3)].
      * left. split; [exact H1|]. split; [exact H2|].
        intros i Hi. destruct (Z.eq_dec i j) as [->|Hne].
        -- rewrite <- H2. exact E.
        -- apply H3. lia.
      * right. split; [lia|]. split; [exact H2|]. split; [exact Hex|].
        intros i Hi. destruct (Z.eq_dec i j) as [->|Hne].
        -- rewrite <- H2. exact E.
        -- apply H3. lia.
Qed.

(** X12.  [argmax] starts from position 0 and the maximum [0.0f]: when no
    element exceeds [0.0f] it returns 0, whatever the elements are;
    otherwise it returns a position of the buffer at or after the first
    element that exceeds [0.0f], and no later element exceeds the element at
    that position. *)
Theorem argmax_position (x : t F) :
  wf x ->
  exists r,
    argmax x = inr r /\
    ((forall i, 0 <= i < len x -> fltb fzero (get x i) = false) -> r = 0) /\
    ((exists i, 0 <= i < len x /\ fltb fzero (get x i) = true) ->
     0 <= r < len x /\
     (exists i, 0 <= i <= r /\ fltb fzero (get x i) = true) /\
     forall i, r < i < len x -> fltb (get x r) (get x i) = false).
Proof.
  intros Hx. destruct (argmax_loop x Hx) as (st & Hr & Hst).
  exists (fst st). unfold argmax. rewrite Hr. cbn [bind].
  split; [reflexivity|].
  destruct Hst as [(H1 & H2 & H3)|(H1 & H2 & (i0 & Hi0 & Hpos) & H3)].
  - split; [intros _; exact H1|].
    intros (i & Hi & Hp). rewrite H3 in Hp by exact Hi. discriminate.
  - split.
    + intros Hnone. rewrite Hnone in Hpos by lia. discriminate.
    + intros _. split; [exact H1|]. split; [|exact H3].
      exists i0. split; [exact Hi0|exact Hpos].
Qed.
End Argmax.

Section ArgmaxReal.
Import Tensor.

(** X13.  In real arithmetic: when no element is positive [argmax] returns
    0 (also when the largest element is elsewhere); when some element is
    positive it returns the first position of the largest element. *)
Theorem argmax_first_maximum (x : t R) :
  wf x ->
  exists r,
    argmax x = inr r /\
    ((forall i, 0 <= i < len x -> (get x i <= 0)%R) -> r = 0) /\
    (forall p, 0 <= p < len x -> (0 < get x p)%R ->
       0 <= r < len x /\
       (forall i, 0 <= i < len x -> (get x i <= get x r)%R) /\
       (forall i, 0 <= i < r -> (get x i < get x r)%R)).
Proof.
  intros Hx. pose proof Hx as (Hb & Hh & Hw & Hlx & _).
  destruct (for_lt_inv
              (fun j (st : Z * R) =>
                 (fst st = 0 /\ snd st = 0%R /\
                  forall i, 0 <= i < j -> (get x i <= 0)%R) \/
                 (0 <= fst st < j /\ snd st = get x (fst st) /\
                  (0 < snd st)%R /\
                  (forall i, 0 <= i < j -> (get x i <= snd st)%R) /\
                  (forall i, 0 <= i < fst st -> (get x i < snd st)%R)))
              0 (len x)
              (fun i (st : Z * R) =>
                 a <- rd (data x) i ;;
                 if fltb (snd st) a then ret (i, a) else ret st)
              (0, fzero)) as (st & Hr & Hst).
  - nia.
  - left. cbn. repeat split. intros i Hi. lia.
  - intros j st Hj Hst.
    rewrite (repr_rd _ _ _ _ (wf_repr x Hx)) by exact Hj. cbn [bind].
    cbn [fltb real_ops].
    destruct (Rlt_dec (snd st) (get x j)) as [Hlt|Hge].
    + eexists. split; [reflexivity|]. right. cbn [fst snd].
      split; [lia|]. split; [reflexivity|].
      destruct Hst as [(H1 & H2 & H3)|(H1 & H2 & Hpos & Hall & Hbefore)].
      * rewrite H2 in Hlt. split; [exact Hlt|]. split.
        -- intros i Hi. destruct (Z.eq_dec i j) as [->|Hne]; [lra|].
           specialize (H3 i ltac:(lia)). lra.
        -- intros i Hi. specialize (H3 i ltac:(lia)). lra.
      * split; [lra|]. split.
        -- intros i Hi. destruct (Z.eq_dec i j) as [->|Hne]; [lra|].
           specialize (Hall i ltac:(lia)). lra.
        -- intros i Hi. specialize (Hall i ltac:(lia)). lra.
    + exists st. split; [reflexivity|].
      destruct Hst as [(H1 & H2 & H3)|(H1 & H2 & Hpos & Hall & Hbefore)].
      * left. split; [exact H1|]. split; [exact H2|].
        intros i Hi. destruct (Z.eq_dec i j) as [->|Hne].
        -- rewrite H2 in Hge. lra.
        -- apply H3. lia.
      * right. split; [lia|]. split; [exact H2|]. split; [exact Hpos|].
        split; [|exact Hbefore].
        intros i Hi. destruct (Z.eq_dec i j) as [->|Hne]; [lra|].
        apply Hall. lia.
  - exists (fst st). unfold argmax. rewrite Hr. cbn [bind].
    split; [reflexivity|].
    destruct Hst as [(H1 & H2 & H3)|(H1 & H2 & Hpos & Hall & Hbefore)].
    + split; [intros _; exact H1|].
      intros p Hp Hpp. specialize (H3 p Hp). lra.
    + split.
      * intros Hnone. specialize (Hnone (fst st) H1). lra.
      * intros p Hp Hpp. rewrite <- H2. auto.
Qed.
End ArgmaxReal.

Lemma argmax_position_witness :
  Tensor.wf (t32 1 1 3 [1; 3; 2]) /\
  exists r, Tensor.argmax (t32 1 1 3 [1; 3; 2]) = inr r.
Proof.
  assert (Hx : Tensor.wf (t32 1 1 3 [1; 3; 2])).
  { unfold Tensor.wf; simpl; lia. }
  split; [exact Hx|].
  destruct (argmax_position (t32 1 1 3 [1; 3; 2]) Hx) as (r & Hr & _).
  exists r. exact Hr.
Defined.

(** The largest of three negative elements is at position 2; the result is
    0. *)
Example argmax_values :
  Tensor.argmax (t32 1 1 3 [1; 3; 2]) = inr 1 /\
  Tensor.argmax (t32 1 1 3 [-3; -2; -1]) = inr 0.
Proof. split; vm_compute; reflexivity. Qed.

Lemma argmax_first_maximum_witness :
  Tensor.wf (tR 1 1 3 [1%R; 3%R; 3%R]) /\
  exists r, Tensor.argmax (tR 1 1 3 [1%R; 3%R; 3%R]) = inr r.
Proof.
  assert (Hx : Tensor.wf (tR 1 1 3 [1%R; 3%R; 3%R])).
  { unfold Tensor.wf; simpl; lia. }
  split; [exact Hx|].
  destruct (argmax_first_maximum (tR 1 1 3 [1%R; 3%R; 3%R]) Hx)
    as (r & Hr & _).
  exists r. exact Hr.
Defined.
(** * Sequences of tensors in a file, and truncated files *)

Section Files.
Context {F : Type} `{Tensor.FloatRepr F}.
Import Tensor.

(** X14.  The file holds no shape and no separator: two tensors saved one
    after the other are read back, in the same order, by two tensors of the
    same lengths (whatever their shapes), the first [read] leaving the
    stream at the first byte of the second tensor. *)
Theorem save_read_sequence (x1 x2 y1 y2 : t F) (file : ofstream) :
  wf x1 -> wf x2 -> wf y1 -> wf y2 ->
  len y1 = len x1 -> len y2 = len x2 ->
  Forall faithful (data x1) -> Forall faithful (data x2) ->
  exists f1 s1,
    save x1 file = inr f1 /\
    save x2 f1 = inr (file ++ raw_bytes (data x1) ++ raw_bytes (data x2)) /\
    read y1
      (mk_ifstream (raw_bytes (data x1) ++ raw_bytes (data x2)) false) =
      inr (with_data y1 (data x1), s1) /\
    read y2 s1 = inr (with_data y2 (data x2), mk_ifstream [] false).
Proof.
  intros Hx1 Hx2 Hy1 Hy2 Hl1 Hl2 Hf1 Hf2.
  exists (file ++ raw_bytes (data x1)),
         (mk_ifstream (raw_bytes (data x2)) false).
  split; [apply save_spec; exact Hx1|].
  split; [rewrite (save_spec x2 _ Hx2), <- app_assoc; reflexivity|].
  split; [apply read_spec; assumption|].
  rewrite <- (app_nil_r (raw_bytes (data x2))) at 1.
  apply read_spec; assumption.
Qed.

Lemma ifstream_read_empty (old : F) :
  faithful old ->
  ifstream_read (mk_ifstream [] false) old = (mk_ifstream [] true, old).
Proof.
  intros [Hlen Hrt]. unfold ifstream_read. cbn [failbit pending length].
  replace (sizeof_float <=? 0)%nat with false by reflexivity.
  cbn [app length]. rewrite drop_0, Hrt. reflexivity.
Qed.

Lemma wr_same (v : list F) (k : Z) (a : F) :
  0 <= k -> v !! Z.to_nat k = Some a -> wr v k a = inr v.
Proof.
  intros Hk Hl. unfold wr.
  pose proof (lookup_lt_Some _ _ _ Hl) as Hlt.
  destruct (Z.leb_spec 0 k); [|lia].
  destruct (Z.ltb_spec k (Z.of_nat (length v))); [|lia].
  cbn [andb]. unfold ret. f_equal. apply list_insert_id. exact Hl.
Qed.

(** X15.  [read] from a file that holds fewer elements than the tensor
    reports no error: the elements present are stored, the remaining cells
    keep their values, and the stream is left empty with its failure flag
    set. *)
Theorem read_truncated (x y : t F) :
  wf x -> wf y -> len x < len y ->
  Forall faithful (data x) -> Forall faithful (data y) ->
  read y (mk_ifstream (raw_bytes (data x)) false) =
  inr (with_data y (data x ++ drop (Z.to_nat (len x)) (data y)),
       mk_ifstream [] true).
Proof.
  intros (Hbx & Hhx & Hwx & Hlx0 & Hlx) (Hb & Hh & Hw & Hl & Hly) Hlt Hfx Hfy.
  assert (HLx : 0 <= len x) by nia.
  unfold read.
  destruct (for_lt_inv
              (fun k (st : list F * ifstream) =>
                 fst st = take (Z.to_nat k) (data x) ++
                          drop (Z.to_nat (Z.min k (len x))) (data y) /\
                 snd st =
                   if k <=? len x
                   then mk_ifstream
                          (raw_bytes (drop (Z.to_nat k) (data x))) false
                   else mk_ifstream [] true)
              0 (len y)
              (fun i (st : list F * ifstream) =>
                 old <- rd (fst st) i ;;
                 let r := ifstream_read (snd st) old in
                 d <- wr (fst st) i (snd r) ;;
                 ret (d, fst r))
              (data y, mk_ifstream (raw_bytes (data x)) false))
    as (st & Hr & Hd & Hs).
  - lia.
  - cbn [fst snd]. replace (Z.min 0 (len x)) with 0 by lia.
    split; [reflexivity|]. destruct (Z.leb_spec 0 (len x)); [reflexivity|lia].
  - intros k [d s] Hk [Hd Hs]. cbn [fst snd] in *. subst d s.
    destruct (lookup_lt_is_Some_2 (data y) (Z.to_nat k)) as [b Hyk]; [lia|].
    assert (Hfb : faithful b) by exact (Forall_lookup_1 _ _ _ _ Hfy Hyk).
    destruct (Z.ltb_spec k (len x)) as [Hkx|Hkx].
    + (* a whole element is available *)
      destruct (lookup_lt_is_Some_2 (data x) (Z.to_nat k)) as [a Hxk]; [lia|].
      assert (Hfa : faithful a) by exact (Forall_lookup_1 _ _ _ _ Hfx Hxk).
      assert (Hlt' : length (take (Z.to_nat k) (data x)) = Z.to_nat k).
      { rewrite length_take. lia. }
      replace (Z.min k (len x)) with k by lia.
      replace (Z.min (k + 1) (len x)) with (k + 1) by lia.
      destruct (Z.leb_spec k (len x)); [|lia].
      destruct (Z.leb_spec (k + 1) (len x)); [|lia].
      assert (Hrd : rd (take (Z.to_nat k) (data x) ++
                        drop (Z.to_nat k) (data y)) k = inr b).
      { unfold rd. destruct (Z.ltb_spec k 0); [lia|].
        rewrite lookup_app_r by lia. rewrite Hlt', Nat.sub_diag.
        rewrite lookup_drop, Nat.add_0_r, Hyk. reflexivity. }
      assert (Hread :
        ifstream_read
          (mk_ifstream (raw_bytes (drop (Z.to_nat k) (data x))) false) b =
        (mk_ifstream
           (raw_bytes (drop (Datatypes.S (Z.to_nat k)) (data x))) false, a)).
      { rewrite (drop_S _ _ _ Hxk). unfold raw_bytes. cbn [map concat].
        apply ifstream_read_faithful. exact Hfa. }
      rewrite Hrd. cbn [bind]. cbv zeta. rewrite Hread. cbn [fst snd].
      unfold wr. rewrite length_app, Hlt', length_drop.
      destruct (Z.leb_spec 0 k); [|lia].
      destruct (Z.ltb_spec k
                  (Z.of_nat (Z.to_nat k + (length (data y) - Z.to_nat k))));
        [|lia].
      cbn [andb bind ret]. eexists. split; [reflexivity|]. cbn [fst snd].
      replace (Z.to_nat (k + 1)) with (Datatypes.S (Z.to_nat k)) by lia.
      split; [|reflexivity].
      rewrite (take_S_r _ _ _ Hxk).
      rewrite insert_app_r_alt by lia. rewrite Hlt', Nat.sub_diag.
      rewrite (drop_S _ _ _ Hyk). cbn [insert list_insert].
      rewrite <- app_assoc. reflexivity.
    + (* the stream is exhausted *)
      replace (Z.min k (len x)) with (len x) by lia.
      replace (Z.min (k + 1) (len x)) with (len x) by lia.
      rewrite !take_ge by lia.
      destruct (Z.leb_spec (k + 1) (len x)); [lia|].
      assert (Hcell : (data x ++ drop (Z.to_nat (len x)) (data y)) !!
                        Z.to_nat k = Some b).
      { rewrite lookup_app_r by lia. rewrite lookup_drop.
        replace (Z.to_nat (len x) + (Z.to_nat k - length (data x)))%nat
          with (Z.to_nat k) by lia.
        exact Hyk. }
      rewrite (rd_lookup _ k b) by first [lia|exact Hcell]. cbn [bind].
      cbv zeta.
      assert (Hread :
        ifstream_read
          (if k <=? len x
           then mk_ifstream (raw_bytes (drop (Z.to_nat k) (data x))) false
           else mk_ifstream [] true) b = (mk_ifstream [] true, b)).
      { destruct (Z.leb_spec k (len x)).
        - rewrite drop_ge by lia. apply ifstream_read_empty. exact Hfb.
        - reflexivity. }
      rewrite Hread. cbn [fst snd].
      rewrite (wr_same _ k b) by first [lia|exact Hcell]. cbn [bind].
      eexists. split; [reflexivity|]. split; reflexivity.
  - destruct st as [d s]. cbn [fst snd] in *. subst d s.
    replace (Z.min (len y) (len x)) with (len x) in Hr by lia.
    rewrite take_ge in Hr by lia.
    destruct (Z.leb_spec (len y) (len x)); [lia|].
    refine (eq_trans
              (f_equal
                 (fun l : res (list F * ifstream) =>
                    bind l (fun st => ret (with_data y (fst st), snd st)))
                 Hr) _).
    reflexivity.
Qed.
End Files.

Lemma save_read_sequence_witness :
  exists f1 s1,
    Tensor.save (Tensor.mk 1 1 1 3 1 [1065353216]) [] = inr f1 /\
    Tensor.save (Tensor.mk 1 1 2 3 2 [0; 3226013659]) f1 =
      inr ([] ++ Tensor.raw_bytes [1065353216] ++
           Tensor.raw_bytes [0; 3226013659]) /\
    Tensor.read (Tensor.mk 1 1 1 3 1 [7])
      (Tensor.mk_ifstream
         (Tensor.raw_bytes [1065353216] ++ Tensor.raw_bytes [0; 3226013659])
         false) = inr (Tensor.mk 1 1 1 3 1 [1065353216], s1) /\
    Tensor.read (Tensor.mk 1 2 1 3 2 [7; 7]) s1 =
      inr (Tensor.mk 1 2 1 3 2 [0; 3226013659], Tensor.mk_ifstream [] false).
Proof.
  assert (Hx1 : Tensor.wf (Tensor.mk 1 1 1 3 1 [1065353216])).
  { unfold Tensor.wf; simpl; lia. }
  assert (Hx2 : Tensor.wf (Tensor.mk 1 1 2 3 2 [0; 3226013659])).
  { unfold Tensor.wf; simpl; lia. }
  assert (Hy1 : Tensor.wf (Tensor.mk 1 1 1 3 1 [7])).
  { unfold Tensor.wf; simpl; lia. }
  assert (Hy2 : Tensor.wf (Tensor.mk 1 2 1 3 2 [7; 7])).
  { unfold Tensor.wf; simpl; lia. }
  assert (Hf1 : Forall Tensor.faithful [1065353216]).
  { repeat constructor. }
  assert (Hf2 : Forall Tensor.faithful [0; 3226013659]).
  { repeat constructor. }
  destruct (save_read_sequence (Tensor.mk 1 1 1 3 1 [1065353216])
              (Tensor.mk 1 1 2 3 2 [0; 3226013659])
              (Tensor.mk 1 1 1 3 1 [7]) (Tensor.mk 1 2 1 3 2 [7; 7]) []
              Hx1 Hx2 Hy1 Hy2 eq_refl eq_refl Hf1 Hf2)
    as (f1 & s1 & H1 & H2 & H3 & H4).
  exists f1, s1. split; [exact H1|]. split; [exact H2|].
  split; [exact H3|exact H4].
Defined.

Lemma read_truncated_witness :
  Tensor.read (Tensor.mk 1 1 2 3 2 [7; 8])
    (Tensor.mk_ifstream (Tensor.raw_bytes [1065353216]) false) =
  inr (Tensor.with_data (Tensor.mk 1 1 2 3 2 [7; 8])
         ([1065353216] ++ drop (Z.to_nat 1) [7; 8]),
       Tensor.mk_ifstream [] true).
Proof.
  assert (Hx : Tensor.wf (Tensor.mk 1 1 1 3 1 [1065353216])).
  { unfold Tensor.wf; simpl; lia. }
  assert (Hy : Tensor.wf (Tensor.mk 1 1 2 3 2 [7; 8])).
  { unfold Tensor.wf; simpl; lia. }
  assert (Hfx : Forall Tensor.faithful [1065353216]).
  { repeat constructor. }
  assert (Hfy : Forall Tensor.faithful [7; 8]).
  { repeat constructor. }
  apply (read_truncated (Tensor.mk 1 1 1 3 1 [1065353216])
           (Tensor.mk 1 1 2 3 2 [7; 8]) Hx Hy); [simpl; lia|exact Hfx|exact Hfy].
Defined.
(** * The scalar activations *)

Section Relu.
Context {F : Type} `{FloatOps F} `{LeOps F}.
Import ActivationLayer.

(** X16.  The derivative of the activation is evaluated on the output of
    the forward pass: for [relu] that is sound for every float, also for
    NaN and the infinities, as [reluPrime] of the output equals [reluPrime]
    of the input; and [relu] of an output is that output.  The hypothesis
    is [0.0f <= 0.0f]. *)
Theorem relu_on_output (x : F) :
  fleb fzero fzero = true ->
  relu (relu x) = relu x /\ reluPrime (relu x) = reluPrime x.
Proof.
  intros Hzero. unfold relu, reluPrime.
  destruct (fleb x fzero) eqn:E.
  - rewrite Hzero. split; reflexivity.
  - rewrite E. split; reflexivity.
Qed.
End Relu.

Section RealActivations.
Import ActivationLayer.
Open Scope R_scope.

Lemma sigmoid_real (x : R) : sigmoid x = 1 / (1 + exp (- x)).
Proof. reflexivity. Qed.

(** X17.  In real arithmetic [sigmoid] lies strictly between 0 and 1, and
    [sigmoidPrime] applied to the output [sigmoid x] is the derivative of
    [sigmoid] at [x]. *)
Theorem sigmoid_derivative_on_output (x : R) :
  0 < sigmoid x < 1 /\
  derivable_pt_lim sigmoid x (sigmoidPrime (sigmoid x)).
Proof.
  pose proof (exp_pos (- x)) as Hpos.
  assert (Hne : 1 + exp (- x) <> 0) by lra.
  split.
  - rewrite sigmoid_real. split.
    + apply Rdiv_lt_0_compat; lra.
    + apply (Rmult_lt_reg_r (1 + exp (- x))); [lra|]. field_simplify; lra.
  - assert (Hd : derivable_pt_lim (fun y => 1 + exp (- y)) x (- exp (- x))).
    { replace (- exp (- x)) with (0 + exp (- x) * -1) by ring.
      apply (derivable_pt_lim_plus (fct_cte 1) (comp exp (fun y => - y))).
      - apply derivable_pt_lim_const.
      - apply derivable_pt_lim_comp.
        + replace (-1) with (- 1) by ring.
          apply (derivable_pt_lim_opp id). apply derivable_pt_lim_id.
        + apply derivable_pt_lim_exp. }
    pose proof (derivable_pt_lim_div (fct_cte 1) (fun y => 1 + exp (- y)) x
                  0 (- exp (- x)) (derivable_pt_lim_const 1 x) Hd Hne) as Hq.
    eapply derivable_pt_lim_ext; [|].
    + intros z. symmetry. apply sigmoid_real.
    + unfold sigmoidPrime. cbn [fmul fsub fone real_ops].
      rewrite sigmoid_real.
      replace (1 / (1 + exp (- x)) * (1 - 1 / (1 + exp (- x))))
        with ((0 * (1 + exp (- x)) - - exp (- x) * fct_cte 1 x) /
              (1 + exp (- x))²).
      * exact Hq.
      * unfold fct_cte, Rsqr. field. exact Hne.
Qed.

Lemma cosh_pos (x : R) : 0 < cosh x.
Proof.
  unfold cosh. pose proof (exp_pos x). pose proof (exp_pos (- x)). lra.
Qed.

Lemma cosh_sinh_sqr (x : R) : cosh x * cosh x - sinh x * sinh x = 1.
Proof.
  unfold cosh, sinh.
  replace ((exp x + exp (- x)) / 2 * ((exp x + exp (- x)) / 2) -
           (exp x - exp (- x)) / 2 * ((exp x - exp (- x)) / 2))
    with (exp x * exp (- x)) by field.
  rewrite <- exp_plus. replace (x + - x) with 0 by ring. apply exp_0.
Qed.

(** X18.  In real arithmetic [tanhFloat] lies strictly between -1 and 1,
    and [tanhPrime] applied to the output [tanhFloat x] is the derivative of
    [tanhFloat] at [x]. *)
Theorem tanh_derivative_on_output (x : R) :
  -1 < tanhFloat x < 1 /\
  derivable_pt_lim tanhFloat x (tanhPrime (tanhFloat x)).
Proof.
  pose proof (cosh_pos x) as Hc. pose proof (cosh_sinh_sqr x) as Hcs.
  assert (Hne : cosh x <> 0) by lra.
  split.
  - unfold tanhFloat. cbn [ftanh real_tanh]. unfold tanh.
    pose proof (exp_pos x). pose proof (exp_pos (- x)).
    assert (Hs : - cosh x < sinh x < cosh x) by (unfold cosh, sinh; lra).
    split.
    + apply (Rmult_lt_reg_r (cosh x)); [exact Hc|]. field_simplify; lra.
    + apply (Rmult_lt_reg_r (cosh x)); [exact Hc|]. field_simplify; lra.
  - pose proof (derivable_pt_lim_div sinh cosh x (cosh x) (sinh x)
                  (derivable_pt_lim_sinh x) (derivable_pt_lim_cosh x) Hne)
      as Hq.
    eapply derivable_pt_lim_ext; [intros z; reflexivity|].
    unfold tanhPrime, tanhFloat. cbn [fmul fsub fone real_ops ftanh real_tanh].
    unfold tanh.
    replace (1 - sinh x / cosh x * (sinh x / cosh x))
      with ((cosh x * cosh x - sinh x * sinh x) / (cosh x)²).
    + exact Hq.
    + unfold Rsqr. field. exact Hne.
Qed.
End RealActivations.

Lemma relu_on_output_witness :
  ActivationLayer.relu (ActivationLayer.relu (f32 (-2))) =
    ActivationLayer.relu (f32 (-2)) /\
  ActivationLayer.reluPrime (ActivationLayer.relu (f32 (-2))) =
    ActivationLayer.reluPrime (f32 (-2)).
Proof. exact (relu_on_output (f32 (-2)) eq_refl). Defined.

Example relu_values :
  ActivationLayer.relu (f32 (-2)) = f32 0 /\
  ActivationLayer.relu (f32 3) = f32 3 /\
  ActivationLayer.relu S754_nan = S754_nan /\
  ActivationLayer.reluPrime S754_nan = f32 1.
Proof. repeat (split; [vm_compute; reflexivity|]). vm_compute. reflexivity. Qed.
(** * [softmaxPrime] without an upstream gradient *)

Section SoftmaxPrimePlain.
Context {F : Type} `{FloatOps F}.
Import ActivationLayer.

Lemma softmaxPrime_plain_spec (default_dim : TensorDim.t)
    (x output derivative : NTensor.t F) :
  NTensor.wf x -> NTensor.wf output ->
  TensorDim.eqb (NTensor.dim derivative) default_dim = true ->
  NTensor.uninitialized output = true \/ NTensor.dim output = NTensor.dim x ->
  softmaxPrime default_dim x output derivative =
  inr (NTensor.mk (NTensor.dim x)
         (tab (fun idx =>
                 accum fadd fzero
                   (jacobian_entry (NTensor.data x)
                      (idx / NTensor.width x * NTensor.width x)
                      (idx mod NTensor.width x))
                   (NTensor.width x)) (NTensor.length x))).
Proof.
  intros Hx Ho Hdef Hout.
  pose proof Hx as (Hb & Hc & Hh & Hw & Hlen).
  unfold softmaxPrime. rewrite Hdef. cbn [negb]. cbv zeta.
  set (L := NTensor.length x).
  assert (HLdef : L = NTensor.batch x * NTensor.channel x * NTensor.height x *
                      NTensor.width x) by reflexivity.
  assert (HL : 0 <= L) by nia.
  set (out := if NTensor.uninitialized output
              then NTensor.Tensor_ (NTensor.dim x) else output).
  assert (Hodim : NTensor.dim out = NTensor.dim x).
  { unfold out. destruct (NTensor.uninitialized output); [reflexivity|].
    destruct Hout as [?|?]; [discriminate|assumption]. }
  assert (Hout0 : exists g, repr (NTensor.data out) L g).
  { unfold out. destruct (NTensor.uninitialized output) eqn:Hu.
    - exists (fun _ => fzero). apply repr_replicate. exact HL.
    - destruct Hout as [?|Hod]; [discriminate|].
      exists (at_ fzero (NTensor.data output)).
      replace L with (NTensor.length output)
        by (unfold L, NTensor.length; rewrite Hod; reflexivity).
      apply NTensor_wf_repr. exact Ho. }
  destruct Hout0 as [g Hg]. rewrite Hodim.
  set (f := fun idx =>
              accum fadd fzero
                (jacobian_entry (NTensor.data x)
                   (idx / NTensor.width x * NTensor.width x)
                   (idx mod NTensor.width x))
                (NTensor.width x)).
  set (b := NTensor.batch x) in *. set (c := NTensor.channel x) in *.
  set (h := NTensor.height x) in *. set (w := NTensor.width x) in *.
  assert (Hxr := NTensor_wf_repr x Hx). fold L in Hxr.
  lazymatch goal with
  | |- context [for_lt 0 b ?body ?init] =>
      destruct (fill_blocks (fun d => d) (fun _ => True) body f g L 0 b
                  (c * h * w) init) as (d1 & Hr1 & _ & Hd1)
  end.
  - exact Hb.
  - exact I.
  - apply repr_upto_0; [lia|exact Hg].
  - intros k d2 Hk _ Hd2. cbv beta.
    lazymatch goal with
    | |- context [for_lt 0 c ?body ?init] =>
        destruct (fill_blocks (fun d => d) (fun _ => True) body f g L
                    (0 + k * (c * h * w)) c (h * w) init)
          as (d3 & Hr3 & _ & Hd3)
    end.
    + exact Hc.
    + exact I.
    + exact Hd2.
    + intros cc d4 Hcc _ Hd4. cbv beta.
      lazymatch goal with
      | |- context [for_lt 0 h ?body ?init] =>
          destruct (fill_blocks (fun d => d) (fun _ => True) body f g L
                      (0 + k * (c * h * w) + cc * (h * w)) h w init)
            as (d5 & Hr5 & _ & Hd5)
      end.
      * exact Hh.
      * exact I.
      * exact Hd4.
      * intros i d6 Hi _ Hd6. cbv beta.
        lazymatch goal with
        | |- context [for_lt 0 w ?body ?init] =>
            destruct (fill_blocks (fun d => d) (fun _ => True) body f g L
                        (0 + k * (c * h * w) + cc * (h * w) + i * w) w 1 init)
              as (d7 & Hr7 & _ & Hd7)
        end.
        -- exact Hw.
        -- exact I.
        -- exact Hd6.
        -- intros j d8 Hj _ Hd8. cbv beta.
           set (I0 := k * c * h * w + cc * h * w + i * w).
           assert (HI0 : 0 <= I0 /\ I0 + w <= L).
           { pose proof (idx2_bound _ _ _ _ Hk Hcc) as H1.
             pose proof (idx2_bound _ _ _ _ H1 Hi) as H2.
             assert (H3 : I0 = ((k * c + cc) * h + i) * w) by (unfold I0; lia).
             rewrite H3, HLdef. nia. }
           rewrite (accum_loop fadd
                      (jacobian_entry (NTensor.data x) I0 j) w).
           ++ cbn [bind].
              destruct (repr_upto_wr d8 L f g (I0 + j)
                          (accum fadd fzero
                             (jacobian_entry (NTensor.data x) I0 j) w))
                as (d9 & Hw9 & Hd9).
              ** eapply repr_upto_eq; [exact Hd8|unfold I0; lia].
              ** lia.
              ** unfold f. fold w.
                 assert (H3 : I0 = ((k * c + cc) * h + i) * w)
                   by (unfold I0; lia).
                 rewrite H3.
                 destruct (decode2 w ((k * c + cc) * h + i) j Hj) as [-> ->].
                 reflexivity.
              ** exists d9. split; [exact Hw9|]. split; [exact I|].
                 eapply repr_upto_eq; [exact Hd9|unfold I0; lia].
           ++ intros l acc Hl.
              rewrite (repr_rd _ _ _ _ Hxr) by lia. cbn [bind].
              rewrite (repr_rd _ _ _ _ Hxr) by lia. cbn [bind ret].
              unfold jacobian_entry. reflexivity.
        -- exists d7. split; [exact Hr7|]. split; [exact I|].
           eapply repr_upto_eq; [exact Hd7|lia].
      * exists d5. split; [exact Hr5|]. split; [exact I|].
        eapply repr_upto_eq; [exact Hd5|lia].
    + exists d3. split; [exact Hr3|]. split; [exact I|].
      eapply repr_upto_eq; [exact Hd3|lia].
  - rewrite Hr1. cbn [bind]. unfold ret. do 2 f_equal. apply repr_eq.
    eapply repr_upto_all; [|exact Hd1]. lia.
Qed.
End SoftmaxPrimePlain.

Section JacobianRows.
Import ActivationLayer.

(** The sum of row [j] of the Jacobian of a row [x] is
    [x j * (1 - sum x)]. *)
Lemma jacobian_row_sum (p : list R) (I j w : Z) :
  0 <= j < w ->
  accum Rplus 0%R (jacobian_entry p I j) w =
  Rmult (at_ 0%R p (I + j))
    (Rminus 1 (accum Rplus 0%R (fun l => at_ 0%R p (I + l)) w)).
Proof.
  intros Hj.
  assert (Hgen : forall n, 0 <= n ->
            accum Rplus 0%R (jacobian_entry p I j) n =
            Rminus (if j <? n then at_ 0%R p (I + j) else 0%R)
              (Rmult (at_ 0%R p (I + j))
                 (accum Rplus 0%R (fun l => at_ 0%R p (I + l)) n))).
  { apply (accum_ind Rplus 0%R (jacobian_entry p I j)
             (fun n s =>
                s = Rminus (if j <? n then at_ 0%R p (I + j) else 0%R)
                      (Rmult (at_ 0%R p (I + j))
                         (accum Rplus 0%R (fun l => at_ 0%R p (I + l)) n)))).
    - rewrite accum_0 by lia. destruct (Z.ltb_spec j 0); [lia|]. lra.
    - intros n s Hn ->. rewrite accum_succ by lia.
      unfold jacobian_entry. cbn [fmul fsub fone fopp fzero real_ops].
      destruct (Z.eqb_spec j n) as [->|Hne].
      + destruct (Z.ltb_spec n n); [lia|].
        destruct (Z.ltb_spec n (n + 1)); [|lia]. lra.
      + destruct (Z.ltb_spec j n); destruct (Z.ltb_spec j (n + 1));
          try lia; lra. }
  rewrite Hgen by lia. destruct (Z.ltb_spec j w); [|lia]. lra.
Qed.

(** X19.  When the dimension of [derivative] is the default dimension,
    [softmaxPrime] does not read it: in real arithmetic the cell at index
    [j] of a row is [x j * (1 - s)] with [s] the sum of the row of [x], so
    on the output of a softmax, whose rows sum to 1, every cell is 0. *)
Theorem softmaxPrime_without_gradient (default_dim : TensorDim.t)
    (x output derivative : NTensor.t R) :
  NTensor.wf x -> NTensor.wf output ->
  TensorDim.eqb (NTensor.dim derivative) default_dim = true ->
  NTensor.uninitialized output = true \/ NTensor.dim output = NTensor.dim x ->
  exists r,
    softmaxPrime default_dim x output derivative = inr r /\
    NTensor.dim r = NTensor.dim x /\
    forall k c i j,
      0 <= k < NTensor.batch x -> 0 <= c < NTensor.channel x ->
      0 <= i < NTensor.height x -> 0 <= j < NTensor.width x ->
      let I := k * NTensor.channel x * NTensor.height x * NTensor.width x +
               c * NTensor.height x * NTensor.width x + i * NTensor.width x in
      rd (NTensor.data r) (I + j) =
      inr (Rmult (at_ 0%R (NTensor.data x) (I + j))
             (Rminus 1
                (accum Rplus 0%R (fun l => at_ 0%R (NTensor.data x) (I + l))
                   (NTensor.width x)))) /\
      (accum Rplus 0%R (fun l => at_ 0%R (NTensor.data x) (I + l))
         (NTensor.width x) = 1%R ->
       rd (NTensor.data r) (I + j) = inr 0%R).
Proof.
  intros Hx Ho Hdef Hout.
  eexists. split; [apply softmaxPrime_plain_spec; assumption|].
  split; [reflexivity|].
  intros k c i j Hk Hc Hi Hj I0. cbn [NTensor.data].
  pose proof Hx as (Hb & Hc0 & Hh & Hw & Hlen).
  assert (H3 : I0 = ((k * NTensor.channel x + c) * NTensor.height x + i) *
                    NTensor.width x) by (unfold I0; lia).
  pose proof (idx2_bound _ _ _ _ Hk Hc) as H1.
  pose proof (idx2_bound _ _ _ _ H1 Hi) as H2.
  pose proof (idx2_bound _ _ _ _ H2 Hj) as H4.
  assert (HL : 0 <= NTensor.length x).
  { unfold NTensor.length, TensorDim.getDataLen.
    unfold NTensor.batch, NTensor.channel, NTensor.height,
      NTensor.width in *. nia. }
  assert (Hcell :
            rd (tab (fun idx =>
                       accum fadd fzero
                         (jacobian_entry (NTensor.data x)
                            (idx / NTensor.width x * NTensor.width x)
                            (idx mod NTensor.width x))
                         (NTensor.width x)) (NTensor.length x)) (I0 + j) =
            inr (Rmult (at_ 0%R (NTensor.data x) (I0 + j))
                   (Rminus 1
                      (accum Rplus 0%R
                         (fun l => at_ 0%R (NTensor.data x) (I0 + l))
                         (NTensor.width x))))).
  { rewrite (repr_rd _ _ _ _ (repr_tab _ (NTensor.length x) HL)).
    - rewrite H3.
      destruct (decode2 (NTensor.width x)
                  ((k * NTensor.channel x + c) * NTensor.height x + i) j Hj)
        as [-> ->].
      rewrite jacobian_row_sum by exact Hj. reflexivity.
    - rewrite H3. unfold NTensor.length, TensorDim.getDataLen.
      unfold NTensor.batch, NTensor.channel, NTensor.height,
        NTensor.width in *.
      nia. }
  split; [exact Hcell|].
  intros Hone. rewrite Hcell, Hone. f_equal. lra.
Qed.
End JacobianRows.

Lemma softmaxPrime_without_gradient_witness :
  exists r,
    ActivationLayer.softmaxPrime (TensorDim.mk 1 1 1 1)
      (NTensor.mk (TensorDim.mk 1 1 1 2) [(1 / 2)%R; (1 / 2)%R])
      (NTensor.mk (TensorDim.mk 0 0 0 0) [])
      (NTensor.mk (TensorDim.mk 1 1 1 1) [2%R]) = inr r /\
    NTensor.dim r = TensorDim.mk 1 1 1 2.
Proof.
  assert (Hx : NTensor.wf
                 (NTensor.mk (TensorDim.mk 1 1 1 2) [(1 / 2)%R; (1 / 2)%R])).
  { unfold NTensor.wf, NTensor.batch, NTensor.channel, NTensor.height,
      NTensor.width, NTensor.length, TensorDim.getDataLen; simpl; lia. }
  assert (Ho : NTensor.wf (NTensor.mk (TensorDim.mk 0 0 0 0) (@nil R))).
  { unfold NTensor.wf, NTensor.batch, NTensor.channel, NTensor.height,
      NTensor.width, NTensor.length, TensorDim.getDataLen; simpl; lia. }
  destruct (softmaxPrime_without_gradient (TensorDim.mk 1 1 1 1)
              (NTensor.mk (TensorDim.mk 1 1 1 2) [(1 / 2)%R; (1 / 2)%R])
              (NTensor.mk (TensorDim.mk 0 0 0 0) [])
              (NTensor.mk (TensorDim.mk 1 1 1 1) [2%R])
              Hx Ho eq_refl (or_introl eq_refl)) as (r & Hr & Hd & _).
  exists r. split; [exact Hr|exact Hd].
Defined.
(** * Operands whose batch sizes differ *)

Section BatchMismatch.
Context {F : Type} `{FloatOps F}.
Import Tensor.

Lemma cellwise_result op (x m : t F) (d : list F) :
  batch m <> 1 ->
  repr d (len x) (fun idx => op (get x idx) (get m idx)) ->
  with_data (Tensor3 (batch x) (height x) (width x)) d = elementwise op x m.
Proof.
  intros Hb1 Hd. unfold elementwise. f_equal. apply repr_eq.
  eapply repr_ext; [exact Hd|]. intros i Hi. cbv beta.
  rewrite right_index_same by exact Hb1. reflexivity.
Qed.

Lemma longer_right_operand (bk : backend) (x m : t F) :
  wf x -> wf m -> height x = height m -> width x = width m ->
  batch m <> 1 -> batch x < batch m ->
  add bk x m = inr (elementwise (add_op bk) x m) /\
  subtract Fallback x m = inr (elementwise fsub x m) /\
  subtract Blas x m = inl DimensionMismatch /\
  multiply x m = inr (elementwise fmul x m) /\
  forall idx, right_index x m idx = idx.
Proof.
  intros Hx Hm Hh Hw Hb1 Hlt.
  pose proof Hx as (Hbx & Hhx & Hwx & Hlx & _).
  pose proof Hm as (Hbm & Hhm & Hwm & Hlm & _).
  assert (Hle : len x <= len m) by nia.
  assert (H0 : repr (data (Tensor3 (batch x) (height x) (width x))) (len x)
                 (fun _ => fzero)).
  { rewrite Hlx. apply Tensor3_repr. nia. }
  split; [|split; [|split; [|split]]].
  - unfold add. rewrite (dims_assert_ok x m Hh Hw). cbn [bind].
    destruct (Z.eqb_spec (batch m) 1) as [?|_]; [contradiction|].
    destruct bk.
    + destruct (blas_same_spec fone x m Hx Hm Hle) as (d & d' & Hc & Hl & Hd').
      rewrite Hc. cbn [bind]. rewrite Hl. cbn [bind]. unfold ret. f_equal.
      apply (cellwise_result (add_op Blas)); assumption.
    + destruct (same_loop_spec fadd x m _ (fun _ => fzero) Hx Hm Hle H0)
        as (d & Hl & Hd).
      rewrite Hl. cbn [bind]. unfold ret. f_equal.
      apply (cellwise_result (add_op Fallback)); assumption.
  - unfold subtract. rewrite (dims_assert_ok x m Hh Hw). cbn [bind].
    destruct (Z.eqb_spec (batch m) 1) as [?|_]; [contradiction|].
    destruct (same_loop_spec fsub x m _ (fun _ => fzero) Hx Hm Hle H0)
      as (d & Hl & Hd).
    rewrite Hl. cbn [bind]. unfold ret. f_equal.
    apply (cellwise_result fsub); assumption.
  - unfold subtract. rewrite (dims_assert_ok x m Hh Hw). cbn [bind].
    destruct (Z.eqb_spec (batch m) 1) as [?|_]; [contradiction|].
    destruct (blas_same_spec (fopp fone) x m Hx Hm Hle)
      as (d & d' & Hc & Hl & Hd').
    rewrite Hc. cbn [bind].
    destruct (Z.eqb_spec (batch x) (batch m)) as [?|_]; [lia|]. reflexivity.
  - unfold multiply. rewrite (dims_assert_ok x m Hh Hw). cbn [bind].
    destruct (Z.eqb_spec (batch m) 1) as [?|_]; [contradiction|].
    destruct (unrolled_fill fmul x m
                (data (Tensor3 (batch x) (height x) (width x))) (len x)
                (fun idx => fmul (get x idx) (get m idx))
                (fun _ => fzero) 0 (len x)
                (fun j d => elem fmul x m j j d))
      as (r & d' & Hr1 & Hr2 & Hd');
      [exact Hx | exact Hm | apply repr_upto_0; [lia|exact H0]
      | nia | lia | lia | lia | lia | | reflexivity | ].
    + intros j Hj. reflexivity.
    + rewrite Hr1. cbn [bind]. rewrite Hr2. cbn [bind]. unfold ret. f_equal.
      apply (cellwise_result fmul); [assumption|].
      eapply repr_upto_all; [|exact Hd']. lia.
  - intros idx. apply right_index_same. exact Hb1.
Qed.

(** A right operand with fewer batches (and not one): the loops run over
    the cells of the left operand and leave the buffer of the right one. *)
Lemma shorter_right_operand (bk : backend) (x m : t F) :
  wf x -> wf m -> height x = height m -> width x = width m ->
  batch m <> 1 -> batch m < batch x -> 1 <= height x * width x ->
  add bk x m = inl OutOfRange /\
  subtract Fallback x m = inl OutOfRange /\
  subtract Blas x m = inl DimensionMismatch.
Proof.
  intros Hx Hm Hh Hw Hb1 Hlt Hs.
  pose proof Hx as (Hbx & Hhx & Hwx & Hlx & _).
  pose proof Hm as (Hbm & Hhm & Hwm & Hlm & Hlenm).
  assert (Hlen : 0 <= len m < len x) by nia.
  assert (Hloop : forall op,
            for_lt 0 (len x)
              (fun k d =>
                 a <- rd (data x) k ;;
                 b <- rd (data m) k ;;
                 wr d k (op a b))
              (data (Tensor3 (batch x) (height x) (width x))) =
            inl OutOfRange).
  { intros op.
    destruct (for_lt_fails_at (fun _ : list F => True) 0 (len x)
                (fun k d =>
                   a <- rd (data x) k ;;
                   b <- rd (data m) k ;;
                   wr d k (op a b))
                (data (Tensor3 (batch x) (height x) (width x))) (len m))
      as [e He].
    - exact I.
    - intros; exact I.
    - lia.
    - intros d _. exists OutOfRange.
      rewrite (repr_rd _ _ _ _ (wf_repr x Hx)) by lia. cbn [bind].
      rewrite rd_oob by lia. reflexivity.
    - rewrite He. f_equal.
      assert (Hoor : only_oor
                       (for_lt 0 (len x)
                          (fun k d =>
                             a <- rd (data x) k ;;
                             b <- rd (data m) k ;;
                             wr d k (op a b))
                          (data (Tensor3 (batch x) (height x) (width x))))).
      { apply only_oor_for_lt. intros k d.
        apply only_oor_bind; [apply only_oor_rd|]. intros a.
        apply only_oor_bind; [apply only_oor_rd|]. intros b.
        apply only_oor_wr. }
      apply Hoor. exact He. }
  assert (Hcopy : exists d,
            cblas_scopy (len x) (data x) 0
              (data (Tensor3 (batch x) (height x) (width x))) 0 = inr d /\
            Z.of_nat (length d) = len x).
  { destruct (scopy_spec (len x) (data x)
                (data (Tensor3 (batch x) (height x) (width x)))
                (get x) (fun _ => fzero)) as (d & Hc & Hd).
    - lia.
    - apply wf_repr. exact Hx.
    - rewrite Hlx. apply Tensor3_repr. nia.
    - exists d. split; [exact Hc|]. destruct Hd as [Hd _]. exact Hd. }
  destruct Hcopy as (d & Hc & Hdl).
  split; [|split].
  - unfold add. rewrite (dims_assert_ok x m Hh Hw). cbn [bind].
    destruct (Z.eqb_spec (batch m) 1) as [?|_]; [contradiction|].
    destruct bk; [|rewrite Hloop; reflexivity].
    rewrite Hc. cbn [bind].
    assert (Hsax : cblas_saxpy (len x) fone (data m) 0 d 0 = inl OutOfRange).
    { unfold cblas_saxpy.
      destruct (for_lt_fails_at (fun _ : list F => True) 0 (len x)
                  (fun i y =>
                     a <- rd (data m) (0 + i) ;;
                     b <- rd y (0 + i) ;;
                     wr y (0 + i) (fadd b (fmul fone a))) d (len m))
        as [e He].
      - exact I.
      - intros; exact I.
      - lia.
      - intros y _. exists OutOfRange. rewrite rd_oob by lia. reflexivity.
      - rewrite He. f_equal.
        assert (Hoor : only_oor
                         (for_lt 0 (len x)
                            (fun i y =>
                               a <- rd (data m) (0 + i) ;;
                               b <- rd y (0 + i) ;;
                               wr y (0 + i) (fadd b (fmul fone a))) d)).
        { apply only_oor_for_lt. intros k y.
          apply only_oor_bind; [apply only_oor_rd|]. intros a.
          apply only_oor_bind; [apply only_oor_rd|]. intros b.
          apply only_oor_wr. }
        apply Hoor. exact He. }
    rewrite Hsax. reflexivity.
  - unfold subtract. rewrite (dims_assert_ok x m Hh Hw). cbn [bind].
    destruct (Z.eqb_spec (batch m) 1) as [?|_]; [contradiction|].
    rewrite Hloop. reflexivity.
  - unfold subtract. rewrite (dims_assert_ok x m Hh Hw). cbn [bind].
    destruct (Z.eqb_spec (batch m) 1) as [?|_]; [contradiction|].
    rewrite Hc. cbn [bind].
    destruct (Z.eqb_spec (batch x) (batch m)) as [?|_]; [lia|]. reflexivity.
Qed.
End BatchMismatch.

Section BatchTheorem.
Context {F : Type} `{FloatOps F}.
Import Tensor.

(** X20.  Operands of equal height and width whose batch sizes differ, the
    right one not being 1: only [subtract] on the accelerated path rejects
    them (its assertion on the batch sizes).  When the right operand has
    more batches, [add], [subtract] on the fallback path and [multiply]
    return normally, every cell of the left operand combined with the cell
    of the same index of the right one; when it has fewer, [add] and
    [subtract] on the fallback path read past its buffer. *)
Theorem mismatched_batches (bk : backend) (x m : t F) :
  wf x -> wf m -> height x = height m -> width x = width m ->
  batch m <> 1 -> batch m <> batch x ->
  subtract Blas x m = inl DimensionMismatch /\
  (batch x < batch m ->
   add bk x m = inr (elementwise (add_op bk) x m) /\
   subtract Fallback x m = inr (elementwise fsub x m) /\
   multiply x m = inr (elementwise fmul x m) /\
   forall idx, right_index x m idx = idx) /\
  (batch m < batch x -> 1 <= height x * width x ->
   add bk x m = inl OutOfRange /\
   subtract Fallback x m = inl OutOfRange).
Proof.
  intros Hx Hm Hh Hw Hb1 Hne. split; [|split].
  - destruct (Z.lt_ge_cases (batch x) (batch m)) as [Hlt|Hge].
    + apply (longer_right_operand Blas x m); assumption.
    + assert (Hlt : batch m < batch x) by lia.
      unfold subtract. rewrite (dims_assert_ok x m Hh Hw). cbn [bind].
      destruct (Z.eqb_spec (batch m) 1) as [?|_]; [contradiction|].
      pose proof Hx as (Hbx & Hhx & Hwx & Hlx & _).
      destruct (scopy_spec (len x) (data x)
                  (data (Tensor3 (batch x) (height x) (width x)))
                  (get x) (fun _ => fzero)) as (d & Hc & Hd).
      * nia.
      * apply wf_repr. exact Hx.
      * rewrite Hlx. apply Tensor3_repr. nia.
      * rewrite Hc. cbn [bind].
        destruct (Z.eqb_spec (batch x) (batch m)) as [?|_]; [lia|].
        reflexivity.
  - intros Hlt.
    destruct (longer_right_operand bk x m Hx Hm Hh Hw Hb1 Hlt)
      as (Ha & Hs & _ & Hmul & Hidx).
    auto.
  - intros Hlt Hs.
    destruct (shorter_right_operand bk x m Hx Hm Hh Hw Hb1 Hlt Hs)
      as (Ha & Hsf & _).
    auto.
Qed.
End BatchTheorem.

Lemma mismatched_batches_witness :
  Tensor.wf (t32 1 1 2 [1; 2]) /\ Tensor.wf (t32 2 1 2 [10; 20; 30; 40]) /\
  Tensor.subtract Blas (t32 1 1 2 [1; 2]) (t32 2 1 2 [10; 20; 30; 40]) =
  inl DimensionMismatch.
Proof.
  assert (Hx : Tensor.wf (t32 1 1 2 [1; 2])).
  { unfold Tensor.wf; simpl; lia. }
  assert (Hm : Tensor.wf (t32 2 1 2 [10; 20; 30; 40])).
  { unfold Tensor.wf; simpl; lia. }
  split; [exact Hx|]. split; [exact Hm|].
  destruct (mismatched_batches Fallback (t32 1 1 2 [1; 2])
              (t32 2 1 2 [10; 20; 30; 40]) Hx Hm eq_refl eq_refl)
    as (Hs & _); [simpl; lia|simpl; lia|exact Hs].
Defined.

Example mismatched_batches_values :
  Tensor.add Fallback (t32 1 1 2 [1; 2]) (t32 2 1 2 [10; 20; 30; 40]) =
    inr (t32 1 1 2 [11; 22]) /\
  Tensor.add Fallback (t32 3 1 1 [1; 2; 3]) (t32 2 1 1 [10; 20]) =
    inl OutOfRange.
Proof. split; vm_compute; reflexivity. Qed.
(** * The two softmax implementations *)

Section EmptySamples.
Context {F : Type} `{FloatOps F} `{ExpOps F}.
Import ActivationLayer.

(** X21.  [ActivationLayer::softmax] dereferences what [std::max_element]
    returns without testing the range: on a tensor with at least one sample
    and no element per sample the range is empty, the position returned is
    its end, and the read is out of range. *)
Theorem softmax_empty_samples (x output : NTensor.t F) :
  NTensor.wf x -> 1 <= NTensor.batch x ->
  TensorDim.getFeatureLen (NTensor.dim x) = 0 ->
  softmax x output = inl OutOfRange.
Proof.
  intros Hx Hb Hfl. pose proof Hx as (_ & _ & _ & _ & Hlen).
  assert (Hl0 : NTensor.length x = 0).
  { unfold NTensor.length, TensorDim.getDataLen.
    unfold TensorDim.getFeatureLen in Hfl.
    unfold NTensor.batch in Hb. nia. }
  unfold softmax. cbv zeta. rewrite Hfl.
  rewrite (for_lt_first_fails 0 (NTensor.batch x) _ _ OutOfRange);
    [reflexivity|lia|].
  unfold max_element. replace (0 * 0 =? 0 * 0 + 0) with true by reflexivity.
  cbn [bind ret]. rewrite rd_oob; [reflexivity|].
  right. unfold NTensor.clone. cbn [NTensor.data]. lia.
Qed.
End EmptySamples.

Lemma softmax_empty_samples_witness :
  ActivationLayer.softmax
    (NTensor.mk (TensorDim.mk 2 1 1 0) (@nil R))
    (NTensor.mk (TensorDim.mk 0 0 0 0) []) = inl OutOfRange.
Proof.
  apply softmax_empty_samples.
  - unfold NTensor.wf, NTensor.batch, NTensor.channel, NTensor.height,
      NTensor.width, NTensor.length, TensorDim.getDataLen; simpl; lia.
  - unfold NTensor.batch; simpl; lia.
  - reflexivity.
Defined.

Section SoftmaxOverflow.
Variable libm_exp : spec_float -> spec_float.

(** X22.  [Tensor::softmax] subtracts no maximum, and its divisor is a
    [float]: once the sum of the exponentials of a row of [width] elements
    has become [+infinity], after [n0] of them, it stays so, and every
    output of the row is a zero, provided the exponentials of the row are
    finite [double]s.  Such a row of finite inputs sums to 0, not to 1. *)
Theorem softmax_overflow (t : Tensor.t spec_float) (row n0 : Z) :
  Tensor.wf t ->
  0 <= row < Tensor.batch t * Tensor.height t ->
  0 <= n0 <= Tensor.width t ->
  (forall j, 0 <= j < Tensor.width t ->
     finite_double
       (libm_exp (to_binary64 (Tensor.get t (row * Tensor.width t + j)))) =
     true) ->
  @Tensor.softmax_partial _ _ (binary64_ops libm_exp) t
    (row * Tensor.width t) n0 = S754_infinity false ->
  exists r,
    @Tensor.softmax _ _ (binary64_ops libm_exp) t = inr r /\
    forall j, 0 <= j < Tensor.width t ->
      exists s,
        rd (Tensor.data r) (row * Tensor.width t + j) = inr (S754_zero s).
Proof.
  intros Ht Hrow Hn0 Hfin Hinf.
  pose proof Ht as (Hb & Hh & Hw & Hlt & _).
  assert (HL0 : 0 <= Tensor.len t) by nia.
  eexists. split; [apply tensor_softmax_spec; exact Ht|].
  cbn [Tensor.with_data Tensor.data].
  pose proof (repr_tab
                (@Tensor.softmax_value _ _ (binary64_ops libm_exp) t)
                (Tensor.len t) HL0) as Hr.
  intros j Hj. rewrite (repr_rd _ _ _ _ Hr) by nia.
  unfold Tensor.softmax_value, Tensor.softmax_divisor.
  destruct (decode2 (Tensor.width t) row j Hj) as [-> _].
  rewrite (softmax_partial_infinity libm_exp t (row * Tensor.width t) n0
             (Tensor.width t) Hn0);
    [ | intros i Hi; apply Hfin; lia | exact Hinf ].
  cbn [widen narrow ddiv dexp binary64_ops].
  destruct (quotient_by_infinity libm_exp
              (Tensor.get t (row * Tensor.width t + j)) (Hfin j Hj))
    as [s Hs].
  exists s. f_equal. exact Hs.
Qed.
End SoftmaxOverflow.

Lemma softmax_overflow_witness :
  exists r,
    @Tensor.softmax _ _ (binary64_ops exp_examples) (t32 1 1 2 [100; 100]) =
    inr r /\
    exists s, rd (Tensor.data r) 1 = inr (S754_zero s).
Proof.
  assert (Ht : Tensor.wf (t32 1 1 2 [100; 100])).
  { unfold Tensor.wf; simpl; lia. }
  destruct (softmax_overflow exp_examples (t32 1 1 2 [100; 100]) 0 1 Ht)
    as (r & Hr & Hz).
  - simpl; lia.
  - simpl; lia.
  - intros j Hj. assert (Hj' : j = 0 \/ j = 1) by (simpl in Hj; lia).
    destruct Hj' as [-> | ->]; vm_compute; reflexivity.
  - vm_compute. reflexivity.
  - exists r. split; [exact Hr|]. apply (Hz 1). simpl; lia.
Defined.
(** * The class invariant *)

Section Lengths.
Context {F : Type}.

Lemma keeps_ret n (d : list F) : length d = n -> keeps n (ret d).
Proof. intros Hd d' Hr. injection Hr as <-. exact Hd. Qed.

Lemma keeps_wr n (d : list F) i a : length d = n -> keeps n (wr d i a).
Proof. intros Hd d' Hr. rewrite (wr_length _ _ _ _ Hr). exact Hd. Qed.

Lemma keeps_bind {A} n (m : res A) (k : A -> res (list F)) :
  (forall a, m = inr a -> keeps n (k a)) -> keeps n (bind m k).
Proof.
  intros Hk d Hr. destruct m as [e|a]; [discriminate|].
  exact (Hk a eq_refl d Hr).
Qed.

Lemma keeps_bind_buf n (m : res (list F)) (k : list F -> res (list F)) :
  keeps n m -> (forall d, length d = n -> keeps n (k d)) -> keeps n (bind m k).
Proof.
  intros Hm Hk d Hr. destruct m as [e|a]; [discriminate|].
  exact (Hk a (Hm a eq_refl) d Hr).
Qed.

Lemma keeps_for_lt n lo hi (body : Z -> list F -> res (list F)) d :
  length d = n ->
  (forall i d, length d = n -> keeps n (body i d)) ->
  keeps n (for_lt lo hi body d).
Proof.
  intros Hd Hbody d' Hr.
  apply (for_lt_preserves (fun d => length d = n) lo hi body d d');
    [|exact Hd|exact Hr].
  intros i s s' Hs Hb. exact (Hbody i s Hs s' Hb).
Qed.

Lemma for_by4_length n e (body : Z -> list F -> res (list F)) d r :
  length d = n ->
  (forall i d, length d = n -> keeps n (body i d)) ->
  for_by4 e body d = inr r -> length (snd r) = n.
Proof.
  intros Hd Hbody Hr. unfold for_by4 in Hr.
  apply (loop_preserves (fun d => length d = n) _ _ _ _ _ _
           (fun i s s' Hs Hb => Hbody i s Hs s' Hb) Hd Hr).
Qed.
End Lengths.

Section Invariant.
Context {F : Type} `{FloatOps F}.
Import Tensor.

Ltac keeps_step :=
  first
    [ apply keeps_wr; assumption
    | apply keeps_ret; assumption
    | apply keeps_for_lt; [assumption|intros ? ? ?]
    | apply keeps_bind_buf; [|intros ? ?]
    | apply keeps_bind; intros ? ? ].

Lemma keeps_elem n op (x m : t F) ix im d :
  length d = n -> keeps n (elem op x m ix im d).
Proof. intros Hd. unfold elem. repeat keeps_step. Qed.

Lemma keeps_elem4 n op (x m : t F) b i d :
  length d = n -> keeps n (elem4 op x m b i d).
Proof.
  intros Hd. unfold elem4.
  apply keeps_bind. intros d1 H1. apply (keeps_elem n) in H1; [|exact Hd].
  apply keeps_bind. intros d2 H2. apply (keeps_elem n) in H2; [|exact H1].
  apply keeps_bind. intros d3 H3. apply (keeps_elem n) in H3; [|exact H2].
  apply keeps_elem. exact H3.
Qed.

Lemma keeps_scopy n cnt (x : list F) xo y yo :
  length y = n -> keeps n (cblas_scopy cnt x xo y yo).
Proof. intros Hy. unfold cblas_scopy. repeat keeps_step. Qed.

Lemma keeps_saxpy n cnt alpha (x : list F) xo y yo :
  length y = n -> keeps n (cblas_saxpy cnt alpha x xo y yo).
Proof. intros Hy. unfold cblas_saxpy. repeat keeps_step. Qed.

Lemma keeps_sgemm n M N K alpha (A : list F) ao B bo beta C co :
  length C = n -> keeps n (cblas_sgemm M N K alpha A ao B bo beta C co).
Proof. intros HC. unfold cblas_sgemm. repeat keeps_step. Qed.

Lemma keeps_memset0 n (v : list F) cnt :
  length v = n -> keeps n (memset0 v cnt).
Proof. intros Hv. unfold memset0. repeat keeps_step. Qed.

Lemma keeps_unrolled n op (x m : t F) b e lo hi d
    (tail : Z -> list F -> res (list F)) :
  length d = n ->
  (forall j d, tail j d = elem op x m (b + j) j d) ->
  keeps n (r <- for_by4 e (elem4 op x m b) d ;;
           for_lt (lo (fst r)) hi tail (snd r)).
Proof.
  intros Hd Htail. apply keeps_bind. intros r Hr.
  apply (for_by4_length n) in Hr;
    [|exact Hd|intros; apply keeps_elem4; assumption].
  apply keeps_for_lt; [exact Hr|]. intros j d' Hd'. rewrite Htail.
  apply keeps_elem. exact Hd'.
Qed.

Lemma Tensor3_length b h w :
  length (data (Tensor3 b h w)) = Z.to_nat (h * w * b).
Proof. apply length_replicate. Qed.

Lemma wf_result (b h w : Z) (d : list F) :
  0 <= b -> 0 <= h -> 0 <= w -> length d = Z.to_nat (h * w * b) ->
  wf (with_data (Tensor3 b h w) d).
Proof.
  intros Hb Hh Hw Hd. unfold wf, with_data. cbn.
  repeat split; try assumption. rewrite Hd. nia.
Qed.

Lemma binary_keeps (x m r : t F) (c : res (list F)) b h w :
  0 <= b -> 0 <= h -> 0 <= w ->
  keeps (Z.to_nat (h * w * b)) c ->
  (d <- c ;; ret (with_data (Tensor3 b h w) d)) = inr r ->
  wf r /\ batch r = b /\ height r = h /\ width r = w.
Proof.
  intros Hb Hh Hw Hk Hr. destruct c as [e|d]; [discriminate|].
  cbn [bind ret] in Hr. injection Hr as <-.
  split; [apply wf_result; try assumption; apply Hk; reflexivity|].
  repeat split.
Qed.

Lemma add_keeps bk (x m r : t F) :
  wf x -> add bk x m = inr r ->
  wf r /\ batch r = batch x /\ height r = height x /\ width r = width x.
Proof.
  intros (Hb & Hh & Hw & _) Hr. unfold add in Hr.
  destruct (dims_assert x m); [discriminate|]. cbn [bind] in Hr.
  pose proof (Tensor3_length (batch x) (height x) (width x)) as H0.
  destruct bk.
  - destruct (cblas_scopy _ _ _ _ _) as [e|d] eqn:Hc; [discriminate|].
    cbn [bind] in Hr.
    apply (keeps_scopy _ _ _ _ _ _ H0) in Hc.
    destruct (batch m =? 1);
      apply (binary_keeps x m r _ _ _ _ Hb Hh Hw) in Hr; try exact Hr;
      repeat keeps_step.
  - destruct (batch m =? 1);
      apply (binary_keeps x m r _ _ _ _ Hb Hh Hw) in Hr; try exact Hr;
      repeat keeps_step.
Qed.

Lemma subtract_keeps bk (x m r : t F) :
  wf x -> subtract bk x m = inr r ->
  wf r /\ batch r = batch x /\ height r = height x /\ width r = width x.
Proof.
  intros (Hb & Hh & Hw & _) Hr. unfold subtract in Hr.
  destruct (dims_assert x m); [discriminate|]. cbn [bind] in Hr.
  pose proof (Tensor3_length (batch x) (height x) (width x)) as H0.
  destruct bk.
  - destruct (cblas_scopy _ _ _ _ _) as [e|d] eqn:Hc; [discriminate|].
    cbn [bind] in Hr.
    apply (keeps_scopy _ _ _ _ _ _ H0) in Hc.
    destruct (batch m =? 1).
    + apply (binary_keeps x m r _ _ _ _ Hb Hh Hw) in Hr; try exact Hr.
      repeat keeps_step.
    + destruct (assert_ (batch x =? batch m)); [discriminate|].
      cbn [bind] in Hr.
      apply (binary_keeps x m r _ _ _ _ Hb Hh Hw) in Hr; try exact Hr.
      apply keeps_saxpy; assumption.
  - destruct (batch m =? 1);
      apply (binary_keeps x m r _ _ _ _ Hb Hh Hw) in Hr; try exact Hr;
      repeat keeps_step.
Qed.

Lemma unrolled_keeps op (start : Z -> Z) (x m r : t F) :
  wf x ->
  ((if batch m =? 1 then
      d <- for_lt 0 (batch x)
             (fun k d =>
                r <- for_by4 (Z.quot (width x * height x) 4 * 4)
                       (elem4 op x m (k * width x * height x)) d ;;
                for_lt (start (fst r)) (width x * height x)
                  (fun j d => elem op x m (k * width x * height x + j) j d)
                  (snd r))
             (data (Tensor3 (batch x) (height x) (width x))) ;;
      ret (with_data (Tensor3 (batch x) (height x) (width x)) d)
    else
      r <- for_by4 (Z.quot (len x) 4 * 4) (elem4 op x m 0)
             (data (Tensor3 (batch x) (height x) (width x))) ;;
      d <- for_lt (start (fst r)) (len x) (fun j d => elem op x m j j d)
             (snd r) ;;
      ret (with_data (Tensor3 (batch x) (height x) (width x)) d)) = inr r) ->
  wf r /\ batch r = batch x /\ height r = height x /\ width r = width x.
Proof.
  intros (Hb & Hh & Hw & _) Hr.
  pose proof (Tensor3_length (batch x) (height x) (width x)) as H0.
  destruct (batch m =? 1).
  - apply (binary_keeps x m r _ _ _ _ Hb Hh Hw) in Hr; try exact Hr.
    apply keeps_for_lt; [exact H0|]. intros k d Hd.
    apply (keeps_unrolled _ op x m (k * width x * height x) _ start);
      [exact Hd|reflexivity].
  - destruct (for_by4 _ _ _) as [e|r4] eqn:H4; [discriminate|].
    cbn [bind] in Hr.
    apply (for_by4_length _ _ _ _ _ H0) in H4;
      [|intros; apply keeps_elem4; assumption].
    apply (binary_keeps x m r _ _ _ _ Hb Hh Hw) in Hr; try exact Hr.
    apply keeps_for_lt; [exact H4|]. intros j d Hd.
    apply keeps_elem. exact Hd.
Qed.

Lemma multiply_keeps (x m r : t F) :
  wf x -> multiply x m = inr r ->
  wf r /\ batch r = batch x /\ height r = height x /\ width r = width x.
Proof.
  intros Hx Hr. unfold multiply in Hr.
  destruct (dims_assert x m); [discriminate|]. cbn [bind] in Hr.
  apply (unrolled_keeps fmul (fun i => i) x m r Hx). exact Hr.
Qed.

Lemma divide_keeps (x m r : t F) :
  wf x -> divide x m = inr r ->
  wf r /\ batch r = batch x /\ height r = height x /\ width r = width x.
Proof.
  intros Hx Hr. unfold divide in Hr.
  destruct (dims_assert x m); [discriminate|]. cbn [bind] in Hr.
  apply (unrolled_keeps fdiv (fun i => i - 1) x m r Hx). exact Hr.
Qed.

Lemma scalar_keeps bk (x r : t F) (value : F) :
  wf x ->
  multiply_f bk x value = inr r \/ divide_f bk x value = inr r \/
  add_f bk x value = inr r ->
  wf r /\ batch r = batch x /\ height r = height x /\ width r = width x.
Proof.
  intros (Hb & Hh & Hw & _) Hr.
  pose proof (Tensor3_length (batch x) (height x) (width x)) as H0.
  destruct Hr as [Hr|[Hr|Hr]];
    [unfold multiply_f in Hr|unfold divide_f in Hr|unfold add_f in Hr];
    cbv zeta in Hr; destruct bk.
  - destruct (memset0 _ _) as [e|d] eqn:Hm; [discriminate|]. cbn [bind] in Hr.
    apply (keeps_memset0 _ _ _ H0) in Hm.
    apply (binary_keeps x x r _ _ _ _ Hb Hh Hw) in Hr; try exact Hr.
    apply keeps_saxpy. exact Hm.
  - apply (binary_keeps x x r _ _ _ _ Hb Hh Hw) in Hr; try exact Hr.
    repeat keeps_step.
  - destruct (memset0 _ _) as [e|d] eqn:Hm; [discriminate|]. cbn [bind] in Hr.
    apply (keeps_memset0 _ _ _ H0) in Hm.
    apply (binary_keeps x x r _ _ _ _ Hb Hh Hw) in Hr; try exact Hr.
    apply keeps_saxpy. exact Hm.
  - apply (binary_keeps x x r _ _ _ _ Hb Hh Hw) in Hr; try exact Hr.
    repeat keeps_step.
  - destruct (cblas_scopy _ _ _ _ _) as [e|d] eqn:Hc; [discriminate|].
    cbn [bind] in Hr.
    apply (keeps_scopy _ _ _ _ _ _ H0) in Hc.
    destruct (for_lt _ _ _ _) as [e|td] eqn:Ht; [discriminate|].
    cbn [bind] in Hr.
    apply (binary_keeps x x r _ _ _ _ Hb Hh Hw) in Hr; try exact Hr.
    apply keeps_saxpy. exact Hc.
  - apply (binary_keeps x x r _ _ _ _ Hb Hh Hw) in Hr; try exact Hr.
    repeat keeps_step.
Qed.

Lemma applyFunction_keeps f (x r : t F) :
  wf x -> applyFunction f x = inr r ->
  wf r /\ batch r = batch x /\ height r = height x /\ width r = width x.
Proof.
  intros (Hb & Hh & Hw & _) Hr. unfold applyFunction in Hr. cbv zeta in Hr.
  pose proof (Tensor3_length (batch x) (height x) (width x)) as H0.
  apply (binary_keeps x x r _ _ _ _ Hb Hh Hw) in Hr; try exact Hr.
  repeat keeps_step.
Qed.

Lemma transpose_keeps (x r : t F) :
  wf x -> transpose x = inr r ->
  wf r /\ batch r = batch x /\ height r = width x /\ width r = height x.
Proof.
  intros (Hb & Hh & Hw & _) Hr. unfold transpose in Hr. cbv zeta in Hr.
  pose proof (Tensor3_length (batch x) (width x) (height x)) as H0.
  apply (binary_keeps x x r _ _ _ _ Hb Hw Hh) in Hr; try exact Hr.
  repeat keeps_step.
Qed.

Lemma sum_keeps bk (x r : t F) :
  wf x -> sum bk x = inr r ->
  wf r /\ batch r = batch x /\ height r = 1 /\ width r = 1.
Proof.
  intros (Hb & Hh & Hw & _) Hr. unfold sum in Hr. cbv zeta in Hr.
  pose proof (Tensor3_length (batch x) 1 1) as H0.
  assert (H1 : 0 <= 1) by lia.
  destruct bk;
    apply (binary_keeps x x r _ (batch x) 1 1 Hb H1 H1) in Hr;
    try exact Hr; repeat keeps_step.
Qed.

Lemma average_keeps (x r : t F) :
  wf x -> average x = inr r ->
  wf r /\ height r = height x /\ width r = width x.
Proof.
  intros Hx Hr. pose proof Hx as (Hb & Hh & Hw & _). unfold average in Hr.
  destruct (batch x =? 1).
  - injection Hr as <-. auto.
  - cbv zeta in Hr.
    pose proof (Tensor3_length 1 (height x) (width x)) as H0.
    assert (H1 : 0 <= 1) by lia.
    apply (binary_keeps x x r _ 1 (height x) (width x) H1 Hh Hw) in Hr.
    + destruct Hr as (Hr & _ & Hrh & Hrw). auto.
    + repeat keeps_step.
Qed.

Lemma dot_keeps bk (x m r : t F) :
  wf x -> wf m -> dot bk x m = inr r ->
  wf r /\ batch r = batch x /\ height r = height x /\ width r = width m.
Proof.
  intros (Hb & Hh & Hw & _) (_ & _ & Hwm & _) Hr. unfold dot in Hr.
  destruct (assert_ (width x =? height m)); [discriminate|].
  cbn [bind] in Hr. cbv zeta in Hr.
  pose proof (Tensor3_length (batch x) (height x) (width m)) as H0.
  assert (Hloops : forall moff st,
            dot_loops x m (width m) moff
              (data (Tensor3 (batch x) (height x) (width m))) = inr st ->
            length (snd st) = Z.to_nat (height x * width m * batch x)).
  { intros moff st Hst. unfold dot_loops in Hst.
    apply (for_lt_preserves
             (fun st : F * list F =>
                length (snd st) = Z.to_nat (height x * width m * batch x))
             _ _ _ _ _) in Hst; [exact Hst| |exact H0].
    intros k s s' Hs Hk.
    apply (for_lt_preserves
             (fun st : F * list F =>
                length (snd st) = Z.to_nat (height x * width m * batch x))
             _ _ _ _ _) in Hk; [exact Hk| |exact Hs].
    intros i s1 s1' Hs1 Hi.
    apply (for_lt_preserves
             (fun st : F * list F =>
                length (snd st) = Z.to_nat (height x * width m * batch x))
             _ _ _ _ _) in Hi; [exact Hi| |exact Hs1].
    intros j s2 s2' Hs2 Hj. cbv beta in Hj.
    destruct (for_lt 0 (width x) _ s2) as [e|s3] eqn:Hin; [discriminate|].
    cbn [bind] in Hj.
    apply (for_lt_preserves
             (fun st : F * list F =>
                length (snd st) = Z.to_nat (height x * width m * batch x))
             _ _ _ _ _) in Hin; [| |exact Hs2].
    - destruct (wr (snd s3) _ _) as [e|d] eqn:Hwr; [discriminate|].
      cbn [bind ret] in Hj. injection Hj as <-. cbn [snd].
      rewrite (wr_length _ _ _ _ Hwr). exact Hin.
    - intros h s4 s4' Hs4 Hh4. cbv beta in Hh4.
      destruct (rd (data x) _) as [e|a]; [discriminate|]. cbn [bind] in Hh4.
      destruct (rd (data m) _) as [e|b]; [discriminate|].
      cbn [bind ret] in Hh4. injection Hh4 as <-. exact Hs4. }
  destruct bk.
  - destruct (batch m =? 1);
      apply (binary_keeps x m r _ _ _ _ Hb Hh Hwm) in Hr; try exact Hr;
      apply keeps_for_lt; try exact H0; intros k d Hd;
      apply keeps_sgemm; exact Hd.
  - destruct (batch m =? 1);
      (destruct (dot_loops _ _ _ _ _) as [e|st] eqn:Hst; [discriminate|];
       cbn [bind ret] in Hr; injection Hr as <-;
       (split; [apply wf_result; try assumption; eapply Hloops; exact Hst|]);
       repeat split).
Qed.

(** X23.  Whenever an operation of the class returns a tensor, that
    tensor satisfies the class invariant ([len] is the product of the sizes
    and the size of the buffer) and has the shape the operation announces:
    that of the left operand for the elementwise and scalar operations and
    [applyFunction], (batch, height, width of the right operand) for [dot],
    (batch, 1, 1) for [sum], (batch, width, height) for [transpose]; also
    for operands the operation does not check, such as batch sizes that
    differ. *)
Theorem results_satisfy_invariant (bk : backend) (x m r : t F) (value : F)
    (f : F -> F) :
  wf x -> wf m ->
  (add bk x m = inr r \/ subtract bk x m = inr r \/ multiply x m = inr r \/
   divide x m = inr r \/ multiply_f bk x value = inr r \/
   divide_f bk x value = inr r \/ add_f bk x value = inr r \/
   applyFunction f x = inr r ->
   wf r /\ batch r = batch x /\ height r = height x /\ width r = width x) /\
  (dot bk x m = inr r ->
   wf r /\ batch r = batch x /\ height r = height x /\ width r = width m) /\
  (sum bk x = inr r ->
   wf r /\ batch r = batch x /\ height r = 1 /\ width r = 1) /\
  (transpose x = inr r ->
   wf r /\ batch r = batch x /\ height r = width x /\ width r = height x) /\
  (average x = inr r ->
   wf r /\ height r = height x /\ width r = width x).
Proof.
  intros Hx Hm. split; [|split; [|split; [|split]]].
  - intros [Hr|[Hr|[Hr|[Hr|[Hr|[Hr|[Hr|Hr]]]]]]].
    + exact (add_keeps bk x m r Hx Hr).
    + exact (subtract_keeps bk x m r Hx Hr).
    + exact (multiply_keeps x m r Hx Hr).
    + exact (divide_keeps x m r Hx Hr).
    + apply (scalar_keeps bk x r value Hx). auto.
    + apply (scalar_keeps bk x r value Hx). auto.
    + apply (scalar_keeps bk x r value Hx). auto.
    + exact (applyFunction_keeps f x r Hx Hr).
  - exact (dot_keeps bk x m r Hx Hm).
  - exact (sum_keeps bk x r Hx).
  - exact (transpose_keeps x r Hx).
  - exact (average_keeps x r Hx).
Qed.
End Invariant.

Lemma results_satisfy_invariant_witness :
  Tensor.wf (t32 1 1 2 [11; 22]) /\ Tensor.width (t32 1 1 2 [11; 22]) = 2.
Proof.
  assert (Hx : Tensor.wf (t32 1 1 2 [1; 2])).
  { unfold Tensor.wf; simpl; lia. }
  assert (Hm : Tensor.wf (t32 2 1 2 [10; 20; 30; 40])).
  { unfold Tensor.wf; simpl; lia. }
  destruct (results_satisfy_invariant Fallback (t32 1 1 2 [1; 2])
              (t32 2 1 2 [10; 20; 30; 40]) (t32 1 1 2 [11; 22]) (f32 0)
              (fun a => a) Hx Hm) as (Hops & _).
  destruct Hops as (Hr & _ & _ & Hw).
  - left. vm_compute. reflexivity.
  - split; [exact Hr|exact Hw].
Defined.
(** * [dot] and [transpose] *)

Section DotTranspose.
Context {F : Type} `{FloatOps F}.
Import Tensor.

Lemma wf_dot_result bk (x m : t F) :
  wf x -> wf m -> wf (dot_result bk x m).
Proof.
  intros (Hb & Hh & Hw & _) (_ & _ & Hwm & _).
  unfold dot_result, wf, with_data. cbn.
  rewrite length_tab. repeat split; try assumption. nia.
Qed.

Lemma get_transposed (x : t F) k i j :
  wf x -> 0 <= k < batch x -> 0 <= i < width x -> 0 <= j < height x ->
  get (with_data (Tensor3 (batch x) (width x) (height x))
         (tab (fun idx => get x (transpose_source x idx)) (len x)))
    (k * width x * height x + i * height x + j) =
  get x (k * width x * height x + j * width x + i).
Proof.
  intros Hx Hk Hi Hj. pose proof Hx as (Hb & Hh & Hw & Hlx & _).
  pose proof (idx2_bound _ _ _ _ Hi Hj) as Hij.
  unfold get at 1. cbn [with_data data].
  rewrite (repr_at fzero _ _ _ _ (repr_tab _ (len x) ltac:(nia))) by nia.
  rewrite transpose_source_at by assumption. reflexivity.
Qed.

(** X24.  For operands of equal batch size, on both paths and in every
    arithmetic whose multiplication is commutative: the transpose of
    [x.dot(m)] is [m.transpose().dot(x.transpose())], cell for cell and with
    the same order of accumulation. *)
Theorem dot_transpose (bk : backend) (x m : t F) :
  wf x -> wf m -> height m = width x -> batch m = batch x ->
  (forall a b : F, fmul a b = fmul b a) ->
  exists p xt mt pt,
    dot bk x m = inr p /\ transpose x = inr xt /\ transpose m = inr mt /\
    transpose p = inr pt /\ dot bk mt xt = inr pt.
Proof.
  intros Hx Hm Hhm Hbm Hcomm. symmetry in Hhm.
  pose proof Hx as (Hbx & Hhx & Hwx & Hlx & _).
  pose proof Hm as (Hbm0 & Hhm0 & Hwm & Hlm & _).
  set (p := dot_result bk x m).
  set (xt := with_data (Tensor3 (batch x) (width x) (height x))
               (tab (fun idx => get x (transpose_source x idx)) (len x))).
  set (mt := with_data (Tensor3 (batch m) (width m) (height m))
               (tab (fun idx => get m (transpose_source m idx)) (len m))).
  assert (Hp : wf p) by (apply wf_dot_result; assumption).
  assert (Hxt : wf xt).
  { apply wf_transposed; [exact Hx|rewrite length_tab; nia]. }
  assert (Hmt : wf mt).
  { apply wf_transposed; [exact Hm|rewrite length_tab; nia]. }
  exists p, xt, mt. eexists.
  split; [apply dot_both_spec; auto|].
  split; [apply transpose_spec; exact Hx|].
  split; [apply transpose_spec; exact Hm|].
  split; [apply transpose_spec; exact Hp|].
  rewrite (dot_both_spec bk mt xt Hmt Hxt);
    [|unfold mt, xt; cbn; lia|right; unfold mt, xt; cbn; lia].
  f_equal. unfold dot_result. unfold mt at 1 2, xt at 1. unfold p at 1 2 3.
  cbn [with_data Tensor3 batch height width dot_result].
  rewrite Hbm. f_equal.
  replace (height mt * width xt * batch mt)
    with (height x * width m * batch x) by (unfold mt, xt; cbn; nia).
  replace (len p) with (height x * width m * batch x) by reflexivity.
  apply tab_ext. intros idx Hidx.
  assert (Hs : 0 < width m * height x) by nia.
  assert (Hh1 : 1 <= height x) by nia.
  destruct (encode2 (width m * height x) idx ltac:(lia)) as [Hidx1 Hrem].
  set (k := idx / (width m * height x)) in *.
  set (rem := idx mod (width m * height x)) in *.
  destruct (encode2 (height x) rem Hh1) as [Hrem1 Hi].
  set (j := rem / height x) in *. set (i := rem mod height x) in *.
  assert (Hj : 0 <= j < width m).
  { split; [apply Z.div_pos; lia|]. apply Z.div_lt_upper_bound; lia. }
  assert (Hk : 0 <= k < batch x).
  { split; [apply Z.div_pos; lia|]. apply Z.div_lt_upper_bound; nia. }
  (* the cell of the product that the transposition moves to [idx] *)
  replace idx with (k * width p * height p + j * height p + i) at 2
    by (unfold p; cbn; lia).
  rewrite (transpose_source_at p k j i) by (unfold p; cbn; lia).
  unfold get at 1. unfold p at 1. unfold dot_result. cbn [with_data data].
  pose proof (idx2_bound _ _ _ _ Hi Hj) as Hij.
  rewrite (repr_at fzero _ _ _ _
             (repr_tab (dot_value bk x m) (height x * width m * batch x)
                ltac:(nia))) by (unfold p; cbn; nia).
  replace (k * width p * height p + i * width p + j)
    with (k * (height x * width m) + i * width m + j) by (unfold p; cbn; lia).
  rewrite dot_value_at by assumption.
  (* the cell of the product of the transposed operands *)
  replace idx with (k * (height mt * width xt) + j * width xt + i)
    by (unfold mt, xt; cbn; lia).
  rewrite dot_value_at by (unfold mt, xt; cbn; lia).
  f_equal. unfold dot_cell.
  replace (width mt) with (width x) by (unfold mt; cbn; lia).
  apply accum_ext. intros h Hh. rewrite Hcomm. f_equal.
  - replace (batch xt) with (batch m) by (unfold xt; cbn; lia).
    replace (width xt) with (height x) by reflexivity.
    replace ((if batch m =? 1 then 0 else k * width x * height x) +
             h * height x + i)
      with (k * width x * height x + h * height x + i).
    + unfold xt. rewrite get_transposed by first [assumption|lia].
      f_equal. lia.
    + destruct (Z.eqb_spec (batch m) 1); [|lia].
      assert (k = 0) by lia. subst k. lia.
  - replace (k * height mt * width x + j * width x + h)
      with (k * width m * height m + j * height m + h)
      by (unfold mt; cbn; lia).
    unfold mt. rewrite get_transposed by first [assumption|lia].
    f_equal. destruct (Z.eqb_spec (batch m) 1); [|lia].
    assert (k = 0) by lia. subst k. lia.
Qed.
End DotTranspose.

Lemma dot_transpose_witness :
  exists p xt mt pt,
    Tensor.dot Fallback (tR 1 1 2 [1%R; 2%R]) (tR 1 2 1 [3%R; 4%R]) = inr p /\
    Tensor.transpose (tR 1 1 2 [1%R; 2%R]) = inr xt /\
    Tensor.transpose (tR 1 2 1 [3%R; 4%R]) = inr mt /\
    Tensor.transpose p = inr pt /\ Tensor.dot Fallback mt xt = inr pt.
Proof.
  assert (Hx : Tensor.wf (tR 1 1 2 [1%R; 2%R])).
  { unfold Tensor.wf; simpl; lia. }
  assert (Hm : Tensor.wf (tR 1 2 1 [3%R; 4%R])).
  { unfold Tensor.wf; simpl; lia. }
  exact (dot_transpose Fallback (tR 1 1 2 [1%R; 2%R]) (tR 1 2 1 [3%R; 4%R])
           Hx Hm eq_refl eq_refl Rmult_comm).
Defined.
(** * Reading a tensor as if it were padded *)

Section Padded.
Context {F : Type} `{FloatOps F}.

(** X25.  [getValuePaddedVirtual] never reads outside the buffer: for a
    batch and a channel in range and any row and column, as long as the
    32-bit sums [2 * ph + h], [2 * pw + w], [ph + height] and [pw + width]
    do not wrap around, it returns the pad value in the border and the
    cell at row [h - ph], column [w - pw] inside it; the range check of the
    [DEBUG] build never fires there, so both builds return the same. *)
Theorem padded_access (debug : bool) (x : NTensor.t F)
    (b c h w ph pw : Z) (pad_value : F) :
  NTensor.wf x ->
  0 <= b < NTensor.batch x -> 0 <= c < NTensor.channel x ->
  0 <= h -> 0 <= w -> 0 <= ph -> 0 <= pw ->
  2 * ph + h < 2 ^ 32 -> 2 * pw + w < 2 ^ 32 ->
  ph + NTensor.height x < 2 ^ 32 -> pw + NTensor.width x < 2 ^ 32 ->
  NTensor.getValuePaddedVirtual debug x b c h w ph pw pad_value =
  inr (if (ph <=? h) && (h <? ph + NTensor.height x) &&
          (pw <=? w) && (w <? pw + NTensor.width x)
       then at_ fzero (NTensor.data x)
              (NTensor.getIndex x b c (h - ph) (w - pw))
       else pad_value).
Proof.
  intros Hx Hb Hc Hh Hw Hph Hpw Hoh How Hhh Hww.
  pose proof Hx as (Hbx & Hcx & Hhx & Hwx & Hlen).
  unfold NTensor.getValuePaddedVirtual, NTensor.uint. cbv zeta.
  rewrite (Z.mod_small (2 * ph + h)) by lia.
  rewrite (Z.mod_small (2 * pw + w)) by lia.
  rewrite (Z.mod_small (ph + NTensor.height x)) by lia.
  rewrite (Z.mod_small (pw + NTensor.width x)) by lia.
  replace (2 * ph + h <? h) with false by (symmetry; apply Z.ltb_ge; lia).
  rewrite andb_false_r. cbn [andb].
  destruct (Z.leb_spec ph h) as [H1|H1]; [|reflexivity].
  destruct (Z.ltb_spec h (ph + NTensor.height x)) as [H2|H2]; [|reflexivity].
  destruct (Z.leb_spec pw w) as [H3|H3]; [|reflexivity].
  destruct (Z.ltb_spec w (pw + NTensor.width x)) as [H4|H4]; [|reflexivity].
  cbn [andb].
  rewrite (Z.mod_small (h - ph)) by lia.
  rewrite (Z.mod_small (w - pw)) by lia.
  unfold NTensor.getValue.
  rewrite (repr_rd _ _ _ _ (NTensor_wf_repr x Hx)); [reflexivity|].
  unfold NTensor.getIndex, NTensor.length, TensorDim.getDataLen.
  unfold NTensor.batch, NTensor.channel, NTensor.height, NTensor.width in *.
  assert (Hhp : 0 <= h - ph < TensorDim.height (NTensor.dim x)) by lia.
  assert (Hwp : 0 <= w - pw < TensorDim.width (NTensor.dim x)) by lia.
  pose proof (idx2_bound _ _ _ _ Hb Hc) as H5.
  pose proof (idx2_bound _ _ _ _ H5 Hhp) as H6.
  pose proof (idx2_bound _ _ _ _ H6 Hwp) as H7.
  nia.
Qed.
End Padded.

(** The example of the header: the 3 x 3 tensor 1 .. 9 padded by one row
    and one column on every side, read at row 2, column 2. *)
Example padded_access_values :
  NTensor.getValuePaddedVirtual false
    (NTensor.mk (TensorDim.mk 1 1 3 3)
       [f32 1; f32 2; f32 3; f32 4; f32 5; f32 6; f32 7; f32 8; f32 9])
    0 0 2 2 1 1 (f32 0) = inr (f32 5) /\
  NTensor.getValuePaddedVirtual false
    (NTensor.mk (TensorDim.mk 1 1 3 3)
       [f32 1; f32 2; f32 3; f32 4; f32 5; f32 6; f32 7; f32 8; f32 9])
    0 0 0 2 1 1 (f32 0) = inr (f32 0).
Proof. split; vm_compute; reflexivity. Qed.

Lemma padded_access_witness :
  NTensor.getValuePaddedVirtual true
    (NTensor.mk (TensorDim.mk 1 1 1 2) [f32 1; f32 2]) 0 0 1 2 1 1 (f32 0) =
  inr (if (1 <=? 1) && (1 <? 1 + 1) && (1 <=? 2) && (2 <? 1 + 2)
       then at_ fzero [f32 1; f32 2]
              (NTensor.getIndex
                 (NTensor.mk (TensorDim.mk 1 1 1 2) [f32 1; f32 2])
                 0 0 (1 - 1) (2 - 1))
       else f32 0).
Proof.
  assert (Hx : NTensor.wf (NTensor.mk (TensorDim.mk 1 1 1 2) [f32 1; f32 2])).
  { unfold NTensor.wf, NTensor.batch, NTensor.channel, NTensor.height,
      NTensor.width, NTensor.length, TensorDim.getDataLen; simpl; lia. }
  apply (padded_access true
           (NTensor.mk (TensorDim.mk 1 1 1 2) [f32 1; f32 2]) 0 0 1 2 1 1
           (f32 0) Hx);
    unfold NTensor.batch, NTensor.channel, NTensor.height, NTensor.width;
    simpl; lia.
Defined.
(** * [setZero] *)

Section SetZero.
Context {F : Type} `{FloatOps F}.
Import Tensor.

(** X26.  [setZero] overwrites every element with [0.0f] and nothing else:
    the shape and the class invariant are kept, clearing twice is clearing
    once, and a cleared tensor of three dimensions is the tensor its
    constructor returns. *)
Theorem setZero_clears (x : t F) :
  wf x ->
  exists r,
    setZero x = inr r /\ wf r /\
    batch r = batch x /\ height r = height x /\ width r = width x /\
    data r = replicate (length (data x)) fzero /\
    setZero r = inr r /\
    (dim x = 3 -> r = Tensor3 (batch x) (height x) (width x)).
Proof.
  intros Hx. pose proof Hx as (Hb & Hh & Hw & Hlx & Hlen).
  assert (HL : 0 <= len x) by nia.
  assert (Hzero : forall v : list F,
            Z.of_nat (length v) = len x ->
            memset0 v (len x) = inr (replicate (length (data x)) fzero)).
  { intros v Hv.
    destruct (memset0_spec v (len x) (at_ fzero v) HL) as (d & Hd & Hrd).
    - rewrite <- Hv. apply repr_self.
    - rewrite Hd. f_equal. rewrite (repr_eq _ _ _ Hrd).
      replace (length (data x)) with (Z.to_nat (len x)) by lia.
      symmetry. apply repr_eq. apply repr_replicate. exact HL. }
  exists (with_data x (replicate (length (data x)) fzero)).
  split; [unfold setZero; rewrite (Hzero _ Hlen); reflexivity|].
  split.
  { unfold wf, with_data. cbn. rewrite length_replicate.
    repeat split; assumption. }
  split; [reflexivity|]. split; [reflexivity|]. split; [reflexivity|].
  split; [reflexivity|]. split.
  - unfold setZero. cbn [with_data len data].
    rewrite Hzero by (rewrite length_replicate; exact Hlen). reflexivity.
  - intros Hd. unfold with_data, Tensor3. rewrite Hd, Hlx. do 2 f_equal. lia.
Qed.
End SetZero.

Lemma setZero_clears_witness :
  Tensor.wf (t32 1 1 2 [1; 2]) /\
  exists r,
    Tensor.setZero (t32 1 1 2 [1; 2]) = inr r /\
    r = Tensor.Tensor3 1 1 2.
Proof.
  assert (Hx : Tensor.wf (t32 1 1 2 [1; 2])).
  { unfold Tensor.wf; simpl; lia. }
  split; [exact Hx|].
  destruct (setZero_clears (t32 1 1 2 [1; 2]) Hx)
    as (r & Hr & _ & _ & _ & _ & _ & _ & Hc).
  exists r. split; [exact Hr|]. apply Hc. reflexivity.
Defined.
(** * Softmax outputs as probabilities *)

Lemma Rsum_term_le (g : Z -> R) (n i : Z) :
  (forall j, 0 <= j < n -> (0 <= g j)%R) -> 0 <= i < n ->
  (g i <= accum Rplus 0%R g n)%R.
Proof.
  intros Hg Hi.
  assert (Hgen : forall m, 0 <= m -> m <= n ->
            (0 <= accum Rplus 0%R g m)%R /\
            (i < m -> (g i <= accum Rplus 0%R g m)%R)).
  { intros m Hm. rewrite <- (Z2Nat.id m) by exact Hm.
    induction (Z.to_nat m) as [|p IH]; intros Hle.
    - rewrite accum_0 by lia. split; [lra|lia].
    - replace (Z.of_nat (Datatypes.S p)) with (Z.of_nat p + 1) in * by lia.
      rewrite accum_succ by lia.
      destruct (IH ltac:(lia)) as [H0 H1].
      pose proof (Hg (Z.of_nat p) ltac:(lia)) as Hp.
      split; [lra|]. intros Hip.
      destruct (Z.eq_dec i (Z.of_nat p)) as [->|Hne]; [lra|].
      specialize (H1 ltac:(lia)). lra. }
  apply Hgen; lia.
Qed.

Lemma exp_le_compat (a b : R) : (a <= b)%R -> (exp a <= exp b)%R.
Proof.
  intros [Hlt | ->]; [left; apply exp_increasing; exact Hlt|right; reflexivity].
Qed.

Section Probabilities.
Open Scope R_scope.

(** A quotient [exp a / s] where [s] is a sum of exponentials among which
    [exp a] is. *)
Lemma quotient_bounds (g : Z -> R) (n i : Z) :
  (0 <= i < n)%Z ->
  0 < exp (g i) / accum Rplus 0 (fun j => exp (g j)) n <= 1.
Proof.
  intros Hi.
  assert (Hs : 0 < accum Rplus 0 (fun j => exp (g j)) n).
  { apply Rsum_pos; [|lia]. intros j Hj. apply exp_pos. }
  pose proof (Rsum_term_le (fun j => exp (g j)) n i
                (fun j _ => Rlt_le _ _ (exp_pos (g j))) Hi) as Hle.
  cbv beta in Hle. pose proof (exp_pos (g i)) as Hp.
  split.
  - apply Rdiv_lt_0_compat; assumption.
  - apply (Rmult_le_reg_r (accum Rplus 0 (fun j => exp (g j)) n)); [exact Hs|].
    unfold Rdiv. rewrite Rmult_assoc, Rinv_l by lra. lra.
Qed.

Lemma quotient_monotone (g : Z -> R) (n i j : Z) :
  (1 <= n)%Z -> g i <= g j ->
  exp (g i) / accum Rplus 0 (fun l => exp (g l)) n <=
  exp (g j) / accum Rplus 0 (fun l => exp (g l)) n.
Proof.
  intros Hn Hij.
  assert (Hs : 0 < accum Rplus 0 (fun l => exp (g l)) n).
  { apply Rsum_pos; [|lia]. intros l Hl. apply exp_pos. }
  unfold Rdiv. apply Rmult_le_compat_r.
  - left. apply Rinv_0_lt_compat. exact Hs.
  - apply exp_le_compat. exact Hij.
Qed.

(** X27.  In real arithmetic every value [ActivationLayer::softmax] returns
    lies in (0, 1], and within a sample the outputs are ordered as the
    inputs are: a larger input never gets a smaller output, so the position
    of a maximum is kept. *)
Theorem softmax_outputs_are_probabilities (x output : NTensor.t R) :
  NTensor.wf x -> NTensor.wf output ->
  (1 <= TensorDim.getFeatureLen (NTensor.dim x))%Z ->
  NTensor.uninitialized output = true \/ NTensor.dim output = NTensor.dim x ->
  exists r,
    ActivationLayer.softmax x output = inr r /\
    forall k i,
      (0 <= k < NTensor.batch x)%Z ->
      (0 <= i < TensorDim.getFeatureLen (NTensor.dim x))%Z ->
      0 < at_ 0 (NTensor.data r)
            (k * TensorDim.getFeatureLen (NTensor.dim x) + i) <= 1 /\
      forall j,
        (0 <= j < TensorDim.getFeatureLen (NTensor.dim x))%Z ->
        at_ 0 (NTensor.data x)
          (k * TensorDim.getFeatureLen (NTensor.dim x) + i) <=
        at_ 0 (NTensor.data x)
          (k * TensorDim.getFeatureLen (NTensor.dim x) + j) ->
        at_ 0 (NTensor.data r)
          (k * TensorDim.getFeatureLen (NTensor.dim x) + i) <=
        at_ 0 (NTensor.data r)
          (k * TensorDim.getFeatureLen (NTensor.dim x) + j).
Proof.
  intros Hx Ho Hfl Hout.
  pose proof Hx as (Hb & Hc & Hh & Hw & Hlen).
  set (fl := TensorDim.getFeatureLen (NTensor.dim x)) in *.
  assert (HL : NTensor.length x = (NTensor.batch x * fl)%Z).
  { unfold NTensor.length, TensorDim.getDataLen, fl, NTensor.batch,
      TensorDim.getFeatureLen. lia. }
  assert (HL0 : (0 <= NTensor.length x)%Z) by nia.
  eexists. split; [apply layer_softmax_spec; assumption|].
  cbn [NTensor.data].
  pose proof (repr_tab (ActivationLayer.softmax_value x) (NTensor.length x)
                HL0) as Hr.
  assert (Hcell : forall k i,
            (0 <= k < NTensor.batch x)%Z -> (0 <= i < fl)%Z ->
            at_ 0 (tab (ActivationLayer.softmax_value x) (NTensor.length x))
              (k * fl + i) =
            exp (at_ 0 (NTensor.data x) (k * fl + i) -
                 ActivationLayer.block_max (NTensor.data x) (k * fl) fl) /
            accum Rplus 0
              (fun j =>
                 exp (at_ 0 (NTensor.data x) (k * fl + j) -
                      ActivationLayer.block_max (NTensor.data x) (k * fl)
                        fl)) fl).
  { intros k i Hk Hi. rewrite (repr_at 0 _ _ _ _ Hr) by nia.
    apply layer_softmax_cell_real. exact Hi. }
  intros k i Hk Hi. rewrite (Hcell k i Hk Hi). split.
  - apply (quotient_bounds
             (fun j => at_ 0 (NTensor.data x) (k * fl + j) -
                       ActivationLayer.block_max (NTensor.data x) (k * fl)
                         fl) fl i Hi).
  - intros j Hj Hij. rewrite (Hcell k j Hk Hj).
    apply (quotient_monotone
             (fun j => at_ 0 (NTensor.data x) (k * fl + j) -
                       ActivationLayer.block_max (NTensor.data x) (k * fl)
                         fl) fl i j Hfl).
    lra.
Qed.
End Probabilities.

Lemma softmax_outputs_are_probabilities_witness :
  exists r,
    ActivationLayer.softmax
      (NTensor.mk (TensorDim.mk 1 1 1 2) [0%R; 1%R])
      (NTensor.mk (TensorDim.mk 0 0 0 0) []) = inr r /\
    (0 < at_ 0 (NTensor.data r) 0 <= 1)%R /\
    (at_ 0 (NTensor.data r) 0 <= at_ 0 (NTensor.data r) 1)%R.
Proof.
  assert (Hx : NTensor.wf (NTensor.mk (TensorDim.mk 1 1 1 2) [0%R; 1%R])).
  { unfold NTensor.wf, NTensor.batch, NTensor.channel, NTensor.height,
      NTensor.width, NTensor.length, TensorDim.getDataLen; simpl; lia. }
  assert (Ho : NTensor.wf (NTensor.mk (TensorDim.mk 0 0 0 0) (@nil R))).
  { unfold NTensor.wf, NTensor.batch, NTensor.channel, NTensor.height,
      NTensor.width, NTensor.length, TensorDim.getDataLen; simpl; lia. }
  destruct (softmax_outputs_are_probabilities
              (NTensor.mk (TensorDim.mk 1 1 1 2) [0%R; 1%R])
              (NTensor.mk (TensorDim.mk 0 0 0 0) []) Hx Ho)
    as (r & Hr & Hp);
    [unfold TensorDim.getFeatureLen; simpl; lia | left; reflexivity | ].
  exists r. split; [exact Hr|].
  destruct (Hp 0 0) as [Hb Hm];
    [unfold NTensor.batch; simpl; lia
    | unfold TensorDim.getFeatureLen; simpl; lia | ].
  split; [exact Hb|].
  apply (Hm 1); [unfold TensorDim.getFeatureLen; simpl; lia|].
  unfold at_; simpl. lra.
Defined.
(** * Rows of unequal sizes *)

Lemma loop_ext {S : Type} (step : Z) (n : nat) (i : Z)
    (body body' : Z -> S -> res S) (s : S) :
  (forall t s, (t < n)%nat ->
     body (i + step * Z.of_nat t) s = body' (i + step * Z.of_nat t) s) ->
  loop step n i body s = loop step n i body' s.
Proof.
  revert i s. induction n as [|n IH]; intros i s Hb; [reflexivity|].
  simpl. pose proof (Hb O s ltac:(lia)) as H0.
  replace (i + step * Z.of_nat 0) with i in H0 by lia. rewrite H0.
  destruct (body' i s) as [e|s']; [reflexivity|]. cbn [bind].
  apply IH. intros t s1 Ht.
  replace (i + step + step * Z.of_nat t)
    with (i + step * Z.of_nat (Datatypes.S t)) by lia.
  apply Hb. lia.
Qed.

Lemma for_lt_ext {S : Type} (lo hi : Z) (body body' : Z -> S -> res S)
    (s : S) :
  (forall j s, lo <= j < hi -> body j s = body' j s) ->
  for_lt lo hi body s = for_lt lo hi body' s.
Proof.
  intros Hb. unfold for_lt. f_equal.
  apply loop_ext. intros t s1 Ht. apply Hb. lia.
Qed.

Section RaggedRows.
Context {F : Type} `{FloatOps F}.
Import Tensor.

Lemma rd_take (row : list F) (n : nat) (k : Z) :
  k < Z.of_nat n -> rd (take n row) k = rd row k.
Proof.
  intros Hk. unfold rd. destruct (Z.ltb_spec k 0); [reflexivity|].
  rewrite lookup_take_lt by lia. reflexivity.
Qed.

Lemma rd_map_take (d : list (list F)) (n : nat) (j : Z) :
  rd (map (take n) d) j =
  match rd d j with inl e => inl e | inr row => inr (take n row) end.
Proof.
  unfold rd. destruct (Z.ltb_spec j 0); [reflexivity|].
  rewrite list_lookup_fmap. destruct (d !! Z.to_nat j); reflexivity.
Qed.

(** The constructor reads only the first [d[0].size()] elements of a row. *)
Lemma of_vector2_reads (d : list (list F)) (d0 : list F) :
  d !! O = Some d0 ->
  of_vector2 d = of_vector2 (map (take (length d0)) d).
Proof.
  intros Hd0. destruct d as [|d0' d']; [discriminate|].
  injection Hd0 as ->.
  unfold of_vector2. rewrite length_map.
  replace (length (d0 :: d') =? 0)%nat with false by reflexivity.
  cbn [negb assert_ bind ret].
  replace (rd (d0 :: d') 0) with (@inr error _ d0) by reflexivity.
  replace (rd (map (take (length d0)) (d0 :: d')) 0)
    with (@inr error _ (take (length d0) d0)) by reflexivity.
  cbn [bind]. rewrite length_take, Nat.min_id.
  f_equal. apply for_lt_ext. intros j r Hj.
  apply for_lt_ext. intros k r1 Hk.
  rewrite rd_map_take. destruct (rd (d0 :: d') j) as [e|row]; [reflexivity|].
  cbn [bind]. rewrite rd_take by lia. reflexivity.
Qed.

(** X28.  The constructor from a vector of rows takes the width from the
    first row and does not look at the sizes of the others: when no row is
    shorter than the first, the elements past that width are dropped
    silently ([Mat2Vec] returns the rows cut to the first row's size); when
    some row is shorter, that row is read past its end. *)
Theorem from_rows_ragged (d : list (list F)) (d0 : list F) :
  d !! O = Some d0 ->
  (Forall (fun row => (length d0 <= length row)%nat) d ->
   exists r,
     of_vector2 d = inr r /\ wf r /\
     height r = Z.of_nat (length d) /\ width r = Z.of_nat (length d0) /\
     Mat2Vec r = inr (concat (map (take (length d0)) d))) /\
  (Exists (fun row => (length row < length d0)%nat) d ->
   of_vector2 d = inl OutOfRange).
Proof.
  intros Hd0. split.
  - intros Hlong. rewrite (of_vector2_reads d d0 Hd0).
    assert (Hne : map (take (length d0)) d <> []).
    { destruct d; [discriminate|]. discriminate. }
    assert (Hrows : Forall (fun row => length row = length d0)
                      (map (take (length d0)) d)).
    { apply Forall_fmap. eapply Forall_impl; [exact Hlong|].
      intros row Hrow. unfold compose. cbv beta in *.
      rewrite length_take. lia. }
    assert (Hlen : length (concat (map (take (length d0)) d)) =
                   (length (map (take (length d0)) d) * length d0)%nat)
      by (apply length_concat_uniform; exact Hrows).
    rewrite (of_vector2_spec _ (length d0) Hne Hrows).
    rewrite length_map in *.
    assert (Hwf : wf (mk 1 (Z.of_nat (length d)) (Z.of_nat (length d0)) 2
                        (Z.of_nat (length d) * Z.of_nat (length d0) * 1)
                        (concat (map (take (length d0)) d)))).
    { unfold wf. cbn. rewrite Hlen. repeat split; lia. }
    eexists. split; [reflexivity|]. split; [exact Hwf|].
    split; [reflexivity|]. split; [reflexivity|].
    apply (Mat2Vec_spec _ Hwf).
  - intros Hshort. apply Exists_exists in Hshort as (row & Hin & Hrow).
    apply list_elem_of_lookup in Hin as (j & Hj).
    pose proof (lookup_lt_Some _ _ _ Hj) as Hjlt.
    destruct d as [|d0' d'] eqn:Ed; [discriminate|]. rewrite <- Ed in *.
    assert (Hd0' : d0' = d0) by (rewrite Ed in Hd0; injection Hd0; auto).
    subst d0'.
    assert (Hfail : exists e, of_vector2 d = inl e).
    { unfold of_vector2.
      replace (length d =? 0)%nat with false by (rewrite Ed; reflexivity).
      cbn [negb assert_ bind ret].
      replace (rd d 0) with (@inr error _ d0) by (rewrite Ed; reflexivity).
      cbn [bind].
      destruct (for_lt_fails_at (fun _ : t F => True) 0 (Z.of_nat (length d))
                  (fun j r =>
                     for_lt 0 (Z.of_nat (length d0))
                       (fun k r =>
                          dj <- rd d j ;;
                          x <- rd dj k ;;
                          setValue r 0 j k x) r)
                  (mk 1 (Z.of_nat (length d)) (Z.of_nat (length d0)) 2
                     (Z.of_nat (length d) * Z.of_nat (length d0) * 1)
                     (replicate
                        (Z.to_nat
                           (Z.of_nat (length d) * Z.of_nat (length d0) * 1))
                        fzero))
                  (Z.of_nat j)) as [e He].
      - exact I.
      - intros; exact I.
      - lia.
      - intros s _.
        apply (for_lt_fails_at (fun _ : t F => True) 0
                 (Z.of_nat (length d0)) _ s (Z.of_nat (length row)));
          [exact I | intros; exact I | lia | ].
        intros s1 _. exists OutOfRange.
        rewrite (rd_lookup d (Z.of_nat j) row)
          by first [lia | rewrite Nat2Z.id; exact Hj].
        cbn [bind]. unfold rd.
        destruct (Z.ltb_spec (Z.of_nat (length row)) 0); [reflexivity|].
        rewrite Nat2Z.id, lookup_ge_None_2 by lia. reflexivity.
      - exists e. rewrite He. reflexivity. }
    destruct Hfail as [e He]. rewrite He. f_equal.
    assert (Hoor : only_oor (of_vector2 d)).
    { unfold of_vector2.
      replace (length d =? 0)%nat with false by (rewrite Ed; reflexivity).
      cbn [negb assert_]. apply only_oor_bind; [apply only_oor_ret|].
      intros _. apply only_oor_bind; [apply only_oor_rd|]. intros a.
      apply only_oor_bind; [|intros; apply only_oor_ret].
      apply only_oor_for_lt. intros i s. apply only_oor_for_lt. intros k s1.
      apply only_oor_bind; [apply only_oor_rd|]. intros dj.
      apply only_oor_bind; [apply only_oor_rd|]. intros x.
      unfold setValue. apply only_oor_bind; [apply only_oor_wr|].
      intros; apply only_oor_ret. }
    apply Hoor. exact He.
Qed.
End RaggedRows.

Lemma from_rows_ragged_witness :
  (exists r,
     Tensor.of_vector2 [[1%R]; [2%R; 3%R]] = inr r /\
     Tensor.Mat2Vec r = inr [1%R; 2%R]) /\
  Tensor.of_vector2 [[1%R; 2%R]; [3%R]] = inl OutOfRange.
Proof.
  split.
  - destruct (proj1 (from_rows_ragged [[1%R]; [2%R; 3%R]] [1%R] eq_refl))
      as (r & Hr & _ & _ & _ & Hv).
    + repeat constructor; simpl; lia.
    + exists r. split; [exact Hr|exact Hv].
  - apply (proj2 (from_rows_ragged [[1%R; 2%R]; [3%R]] [1%R; 2%R] eq_refl)).
    apply Exists_cons_tl, Exists_cons_hd. simpl. lia.
Defined.
(** * Sizes [softmaxPrime] does not check *)

Section SoftmaxPrimeSizes.
Context {F : Type} `{FloatOps F}.
Import ActivationLayer.

Lemma softmaxPrime_only_oor (default_dim : TensorDim.t)
    (x output derivative : NTensor.t F) :
  only_oor (softmaxPrime default_dim x output derivative).
Proof.
  unfold softmaxPrime. apply only_oor_bind; [|intros; apply only_oor_ret].
  do 4 (apply only_oor_for_lt; intros ? ?).
  apply only_oor_bind; [|intros; apply only_oor_wr].
  apply only_oor_for_lt. intros l acc.
  apply only_oor_bind; [apply only_oor_rd|]. intros xl.
  apply only_oor_bind; [apply only_oor_rd|]. intros xj.
  apply only_oor_bind; [|intros; apply only_oor_ret].
  destruct (negb (TensorDim.eqb (NTensor.dim derivative) default_dim));
    [|apply only_oor_ret].
  apply only_oor_bind; [apply only_oor_rd|]. intros; apply only_oor_ret.
Qed.

(** X29.  [softmaxPrime] checks neither the size of an [output] that is
    already initialised nor the size of [derivative]: for a non-empty [x],
    an initialised [output] with fewer cells than [x] is written past its
    end, and a [derivative] that is not of the default shape and has fewer
    cells than [x] is read past its end. *)
Theorem softmaxPrime_unchecked_sizes (default_dim : TensorDim.t)
    (x output derivative : NTensor.t F) :
  NTensor.wf x -> NTensor.wf output -> NTensor.wf derivative ->
  1 <= NTensor.length x ->
  (NTensor.uninitialized output = false /\
   NTensor.length output < NTensor.length x) \/
  (TensorDim.eqb (NTensor.dim derivative) default_dim = false /\
   NTensor.length derivative < NTensor.length x) ->
  softmaxPrime default_dim x output derivative = inl OutOfRange.
Proof.
  intros Hx Ho Hd Hlen Hcase.
  pose proof Hx as (Hb & Hc & Hh & Hw & Hlx).
  destruct Ho as (_ & _ & _ & _ & Hlo). destruct Hd as (_ & _ & _ & _ & Hld).
  assert (HL : NTensor.length x =
               NTensor.batch x * NTensor.channel x * NTensor.height x *
               NTensor.width x) by reflexivity.
  assert (Hb1 : 1 <= NTensor.batch x) by nia.
  assert (Hc1 : 1 <= NTensor.channel x) by nia.
  assert (Hh1 : 1 <= NTensor.height x) by nia.
  assert (Hw1 : 1 <= NTensor.width x) by nia.
  cut (exists e, softmaxPrime default_dim x output derivative = inl e).
  { intros [e He]. rewrite He. f_equal.
    exact (softmaxPrime_only_oor default_dim x output derivative e He). }
  unfold softmaxPrime.
  set (out := if NTensor.uninitialized output
              then NTensor.Tensor_ (NTensor.dim x) else output).
  set (isd := negb (TensorDim.eqb (NTensor.dim derivative) default_dim)).
  set (P := fun pp : list F => length pp = length (NTensor.data out)).
  set (sumloop := fun (I j : Z) =>
         for_lt 0 (NTensor.width x)
           (fun l sum =>
              xl <- rd (NTensor.data x) (I + l) ;;
              xj <- rd (NTensor.data x) (I + j) ;;
              val <- (if isd
                      then dl <- rd (NTensor.data derivative) (I + l) ;;
                           ret (fmul
                                  (if j =? l then fmul xl (fsub fone xj)
                                   else fmul (fopp xl) xj) dl)
                      else ret (if j =? l then fmul xl (fsub fone xj)
                                else fmul (fopp xl) xj)) ;;
              ret (fadd sum val)) fzero).
  assert (Hpj : forall I j (s s' : list F),
            P s -> (sum <- sumloop I j ;; wr s (I + j) sum) = inr s' -> P s').
  { intros I j s s' HP Hr. destruct (sumloop I j) as [e|sum]; [discriminate|].
    cbn [bind] in Hr. unfold P in *. rewrite (wr_length _ _ _ _ Hr). exact HP. }
  assert (Hcell : forall pp, P pp ->
            exists e,
              (sum <- sumloop
                        ((NTensor.batch x - 1) * NTensor.channel x *
                           NTensor.height x * NTensor.width x +
                         (NTensor.channel x - 1) * NTensor.height x *
                           NTensor.width x +
                         (NTensor.height x - 1) * NTensor.width x)
                        (NTensor.width x - 1) ;;
               wr pp ((NTensor.batch x - 1) * NTensor.channel x *
                        NTensor.height x * NTensor.width x +
                      (NTensor.channel x - 1) * NTensor.height x *
                        NTensor.width x +
                      (NTensor.height x - 1) * NTensor.width x +
                      (NTensor.width x - 1)) sum) = inl e).
  { intros pp HP.
    set (Ir := (NTensor.batch x - 1) * NTensor.channel x *
                NTensor.height x * NTensor.width x +
              (NTensor.channel x - 1) * NTensor.height x * NTensor.width x +
              (NTensor.height x - 1) * NTensor.width x).
    assert (HI : Ir + (NTensor.width x - 1) = NTensor.length x - 1)
      by (unfold Ir; rewrite HL; lia).
    destruct Hcase as [[Hun Hshort]|[Hdef Hshort]].
    - destruct (sumloop Ir (NTensor.width x - 1)) as [e|sum];
        [exists e; reflexivity|].
      cbn [bind]. exists OutOfRange. apply wr_oob. right.
      unfold P in HP. rewrite HP. unfold out. rewrite Hun. lia.
    - destruct (for_lt_fails_at (fun _ : F => True) 0 (NTensor.width x)
                  (fun l sum =>
                     xl <- rd (NTensor.data x) (Ir + l) ;;
                     xj <- rd (NTensor.data x) (Ir + (NTensor.width x - 1)) ;;
                     val <- (if isd
                             then dl <- rd (NTensor.data derivative) (Ir + l) ;;
                                  ret (fmul
                                         (if NTensor.width x - 1 =? l
                                          then fmul xl (fsub fone xj)
                                          else fmul (fopp xl) xj) dl)
                             else ret (if NTensor.width x - 1 =? l
                                       then fmul xl (fsub fone xj)
                                       else fmul (fopp xl) xj)) ;;
                     ret (fadd sum val)) fzero (NTensor.width x - 1))
        as [e He]; [exact I | intros; exact I | lia | | ].
      + intros s _.
        destruct (rd (NTensor.data x) (Ir + (NTensor.width x - 1))) as [e|xl];
          [exists e; reflexivity|].
        cbn [bind]. exists OutOfRange. unfold isd. rewrite Hdef.
        cbn [negb]. rewrite (rd_oob (NTensor.data derivative)) by lia.
        reflexivity.
      + exists e. unfold sumloop. rewrite He. reflexivity. }
  assert (Hall : exists e,
            for_lt 0 (NTensor.batch x)
              (fun k pp =>
                 for_lt 0 (NTensor.channel x)
                   (fun c pp =>
                      for_lt 0 (NTensor.height x)
                        (fun i pp =>
                           for_lt 0 (NTensor.width x)
                             (fun j pp =>
                                sum <- sumloop
                                         (k * NTensor.channel x *
                                            NTensor.height x *
                                            NTensor.width x +
                                          c * NTensor.height x *
                                            NTensor.width x +
                                          i * NTensor.width x) j ;;
                                wr pp
                                  (k * NTensor.channel x * NTensor.height x *
                                     NTensor.width x +
                                   c * NTensor.height x * NTensor.width x +
                                   i * NTensor.width x + j) sum) pp) pp) pp)
              (NTensor.data out) = inl e).
  { apply (for_lt_fails_at P 0 (NTensor.batch x) _ _ (NTensor.batch x - 1));
      [reflexivity | | lia | ].
    { intros k s s' HP. apply for_lt_preserves; [|exact HP].
      intros c s1 s1' HP1. apply for_lt_preserves; [|exact HP1].
      intros i s2 s2' HP2. apply for_lt_preserves; [|exact HP2].
      intros j s3 s3' HP3. apply Hpj. exact HP3. }
    intros s HP.
    apply (for_lt_fails_at P 0 (NTensor.channel x) _ _
             (NTensor.channel x - 1)); [exact HP | | lia | ].
    { intros c s1 s1' HP1. apply for_lt_preserves; [|exact HP1].
      intros i s2 s2' HP2. apply for_lt_preserves; [|exact HP2].
      intros j s3 s3' HP3. apply Hpj. exact HP3. }
    intros s1 HP1.
    apply (for_lt_fails_at P 0 (NTensor.height x) _ _
             (NTensor.height x - 1)); [exact HP1 | | lia | ].
    { intros i s2 s2' HP2. apply for_lt_preserves; [|exact HP2].
      intros j s3 s3' HP3. apply Hpj. exact HP3. }
    intros s2 HP2.
    apply (for_lt_fails_at P 0 (NTensor.width x) _ _
             (NTensor.width x - 1)); [exact HP2 | | lia | ].
    { intros j s3 s3' HP3. apply Hpj. exact HP3. }
    intros s3 HP3. apply Hcell. exact HP3. }
  destruct Hall as [e He]. exists e.
  unfold sumloop in He. fold isd. rewrite He. reflexivity.
Qed.
End SoftmaxPrimeSizes.

Lemma softmaxPrime_unchecked_sizes_witness :
  ActivationLayer.softmaxPrime (TensorDim.mk 1 1 1 1)
    (NTensor.mk (TensorDim.mk 1 1 1 2) [(1 / 2)%R; (1 / 2)%R])
    (NTensor.mk (TensorDim.mk 1 1 1 1) [0%R])
    (NTensor.mk (TensorDim.mk 1 1 1 1) [2%R]) = inl OutOfRange /\
  ActivationLayer.softmaxPrime (TensorDim.mk 1 1 1 1)
    (NTensor.mk (TensorDim.mk 1 1 1 2) [(1 / 2)%R; (1 / 2)%R])
    (NTensor.mk (TensorDim.mk 0 0 0 0) [])
    (NTensor.mk (TensorDim.mk 0 0 0 0) []) = inl OutOfRange.
Proof.
  assert (Hx : NTensor.wf
                 (NTensor.mk (TensorDim.mk 1 1 1 2) [(1 / 2)%R; (1 / 2)%R])).
  { unfold NTensor.wf, NTensor.batch, NTensor.channel, NTensor.height,
      NTensor.width, NTensor.length, TensorDim.getDataLen; simpl; lia. }
  assert (H1 : NTensor.wf (NTensor.mk (TensorDim.mk 1 1 1 1) [0%R])).
  { unfold NTensor.wf, NTensor.batch, NTensor.channel, NTensor.height,
      NTensor.width, NTensor.length, TensorDim.getDataLen; simpl; lia. }
  assert (H2 : NTensor.wf (NTensor.mk (TensorDim.mk 1 1 1 1) [2%R])).
  { unfold NTensor.wf, NTensor.batch, NTensor.channel, NTensor.height,
      NTensor.width, NTensor.length, TensorDim.getDataLen; simpl; lia. }
  assert (H0 : NTensor.wf (NTensor.mk (TensorDim.mk 0 0 0 0) (@nil R))).
  { unfold NTensor.wf, NTensor.batch, NTensor.channel, NTensor.height,
      NTensor.width, NTensor.length, TensorDim.getDataLen; simpl; lia. }
  split.
  - apply (softmaxPrime_unchecked_sizes (TensorDim.mk 1 1 1 1) _ _ _ Hx H1 H2).
    + unfold NTensor.length, TensorDim.getDataLen; simpl; lia.
    + left. split; [reflexivity|].
      unfold NTensor.length, TensorDim.getDataLen; simpl; lia.
  - apply (softmaxPrime_unchecked_sizes (TensorDim.mk 1 1 1 1) _ _ _ Hx H0 H0).
    + unfold NTensor.length, TensorDim.getDataLen; simpl; lia.
    + right. split; [reflexivity|].
      unfold NTensor.length, TensorDim.getDataLen; simpl; lia.
Defined.
